(* ===== verification/_CoqProject ===== *)
-Q . S2P
Prelude.v
Protos.v
Codecs.v
BlockCutter.v
Support.v
Blocks.v
BlockWriter.v
BlockWriterProps.v
BlockWriterDemo.v
ChainSupport.v
AppMsg.v
AppMsgFacts.v
AppMsgProps.v
AppMsgSpec.v
AppMsgDemo.v
HcsChain.v
HcsMessages.v
HcsConsenter.v
HcsAgreement.v
HcsInvariant.v
HcsRuns.v
HcsRecovery.v
TimeToCut.v
HcsDemo.v
GoLib.v
ConfigProtos.v
Cauthdsl.v
PolicyManager.v
PolicyProps.v
PolicyConvert.v
PolicyDemo.v
ConfigTx.v
ConfigTree.v
ConfigTxProps.v
ConfigTxAuth.v
ConfigTxDemo.v
Capabilities.v
ChannelConfig.v
ChannelConfigProps.v
MsgProcessor.v
MsgProcessorProps.v
Maintenance.v
ChannelCreation.v
ChannelDemo.v
SystemDemo.v
Configtxlator.v
ConfigtxlatorProps.v
Broadcast.v
ClientDemo.v
Varint.v
BlockSerialization.v
Disk.v
LevelDB.v
BlockIndex.v
BlockStream.v
BlockfileMgr.v
BlockLayout.v
BlockStore.v
BlockStoreFacts.v
BlockStoreReads.v
BlockStoreOpen.v
BlockStoreAdd.v
BlockStoreProps.v
BlockStoreKeys.v
BlockStoreQueries.v
BlockStoreTxIDs.v
BlockItr.v
BlockRollback.v
BlockRollbackProps.v
BlockStoreDemo.v
StateDB.v
RangeQuery.v
RangeQueryProps.v
Validation.v
ValidationProps.v
StateLevelDB.v
Simulator.v
SimulatorProps.v
Serializable.v
ValidationDemo.v
