(* ===== verification/Prelude.v ===== *)
(** * Pluggable HCS: a verification of the ordering service and of the ledger

    The program is a fork of Hyperledger Fabric whose orderers agree on the
    order of transactions through a topic of the Hedera Consensus Service
    (HCS). This library models the path of a transaction through it, from the
    chaincode that is simulated to the state it leaves, as executable
    functions, and proves what each part promises to the next.

    ** The parts and the files that model them

    Paths are below [src/]. A file named [XProps], [XFacts] or [XSpec] holds
    lemmas and theorems on [X]; a file named [XDemo] holds concrete instances
    with which the hypotheses of the theorems are met.

    - Vocabulary: this file, [Protos] and [ConfigProtos] (the protobuf
      messages), [Codecs] (a concrete codec), [GoLib] (package [strings], loops
      over maps, fallible calls), [Support] (the interfaces between the parts
      of the orderer).
    - A client's message: [Broadcast] models
      [orderer/common/broadcast/broadcast.go] and the look-up of channels in
      [multichannel/registrar.go]; [MsgProcessor], [Maintenance] and
      [ChannelCreation] model [orderer/common/msgprocessor], the filters and
      the processors of standard and system channels.
    - Consensus over HCS, [orderer/consensus/hcs]: [AppMsg] is
      [app_msg_processor.go] (signing, splitting and reassembling messages,
      with the shared chunk holders in a heap); [HcsChain] and [HcsMessages]
      are the sending and receiving sides of [chain.go], in a state monad over
      a [node]; [TimeToCut] is its timer goroutine; [HcsConsenter] is
      [consenter.go].
    - Blocks: [BlockCutter] is [orderer/common/blockcutter]; [Blocks] is
      [protoutil/blockutils.go]; [BlockWriter] is
      [multichannel/blockwriter.go], whose goroutine is a step relation;
      [ChainSupport] puts cutter, writer and configuration together as the
      interface that the consensus plug-in uses.
    - Configuration: [Cauthdsl] is [common/cauthdsl] (signature policies),
      [PolicyManager] and [PolicyConvert] are [common/policies], [ConfigTx] is
      [common/configtx], [Capabilities] is [common/capabilities],
      [ChannelConfig] is [common/channelconfig], [Configtxlator] is
      [internal/configtxlator/update].
    - The block store, [common/ledger/blkstorage]: [Varint] and
      [BlockSerialization] (encodings), [Disk] and [LevelDB] (files and
      databases that fail), [BlockIndex], [BlockStream], [BlockfileMgr]
      (index, readers, manager), [BlockItr] (iterators), [BlockRollback]
      (rollback and reset). [BlockLayout] and [BlockStore] say which chain a
      disk holds.
    - The state, [core/ledger/kvledger/txmgmt]: [StateDB] (versions and update
      batches), [StateLevelDB] (the database and the commit of a block),
      [RangeQuery] and [Validation] (the multi-version check of the
      transactions of a block), [Simulator] (the simulation that produces
      read-write sets).

    State is passed explicitly. A call that may fail or panic has type
    [outcome (res A)]. Integers are [Z] with their width written out by [u32],
    [u64], [i32] and [i64]. A byte slice whose nil-ness is observed is an
    [nbytes]. Maps are [gmap]s; a loop over a Go map visits the keys in the
    order of [map_to_list], one of the orders Go may choose ([range] of
    [GoLib]).

    ** What the theorems show

    - Consensus. Orderers that consume the same topic write the same blocks
      ([orderers_agree]); the blocks hold exactly the accepted messages in the
      order of the topic ([run_outputs], [run_invariant], [OrderedAll_greedy],
      [batch_bounds]); a restarted orderer agrees with one that kept running
      ([restart_agrees]), with the exception of [overflow_restart_panics];
      large messages survive splitting and interleaving
      ([split_reassemble_interleaved], [Reassemble_refines]); pending messages
      are timed and asked for ([pending_timed]); success is reported only for submitted
      messages ([broadcast_success_submitted]); the concurrent block writer is
      equivalent to a sequential one ([commit_interleavings]); block hashes
      commit to the headers and, up to the boundaries between transactions,
      to the data of the chain ([hash_chain_commits]).
    - Configuration. Only authorised changes are accepted
      ([update_authorized], [channel_creation_authorized],
      [signature_policy_sound], [implicit_meta_exact], [migration_safe],
      [msp_ids_unambiguous]); what is accepted can be committed
      ([accepted_config_commits]); computed updates do what they are computed
      for ([computed_update_exact], [config_roundtrip],
      [recurseConfigMap_terminates]).
    - Storage. No acknowledged block is lost over any history of openings,
      additions, errors and power failures in which the last file was
      truncated before blocks were added ([acknowledged_kept],
      [add_durable], [store_reopens]); queries and iterators answer from the
      chain ([query_by_txID], [iterator_exact]); rollback and reset remove
      what they should, and a reset can be repeated after faults
      ([rollback_safe], [reset_safe]); handles of one
      database do not interfere ([handle_private]).
    - State. Validating a block is running its transactions one after the
      other ([block_serial]); range queries are validated exactly
      ([range_query_exact]); the database implements a map from keys to
      versioned values ([leveldb_map]); a ledger of validated blocks holds the
      result of executing its valid chaincodes serially ([serializable],
      [ledger_well_formed]); a transaction simulated on the current state is
      valid ([fresh_valid]); the writes of a valid transaction make the
      validation panic exactly if they set only the metadata of a key that the
      block deleted ([metadata_after_delete]).

    ** Fuel

    Loops that are not structural take fuel: the expiry loop of [AppMsg] the
    number of holders, [recurseConfigMap] the size of the map, the block
    stream the number of files, the scans of a file its length, the combined
    iterator and the comparison of results the number of entries of the
    database and of the batch, the Merkle tree the number of its levels.
    Running out is an error or a panic, and the theorems on these functions
    give their results; where it is not, in the expiry loop and in the Merkle
    tree, the lemmas [expireByTimestamp_complete] and [updateLoop_grow] show
    that the loop ended by its own condition.

    ** What is assumed

    - Code outside [src/] and cryptography are arguments: SHA-256, signing,
      the identities of a membership service, the protobuf codec (with its
      round trip), [time.ParseDuration], the Hedera network. The theorems
      that need more than totality of a hash name the collision they exclude.
    - Disk: writes reach it in order; a write followed by a sync has reached
      it; a failed write to a database has no effect; directory entries are
      durable; reads do not fail; removing or truncating a file is atomic.
      An opening goes on if truncating the last file fails; [acknowledged_kept]
      leaves out adding blocks after that. Callers of [addBlock] stop on an error, as the committer does by
      panicking. Reading through an iterator and adding a block alternate.
    - State: the database takes all keys and values, as the LevelDB one does.
      A commit is modelled as its two writes, and a crash between the two
      leaves a state that can be used; [serializable] speaks of histories of
      completed commits. Chaincodes are simulated between commits, which the
      commit lock ensures. Namespaces are without zero bytes and without the
      separator of private data, as the names of chaincodes are. Chaincodes do
      not write empty keys, which their library rejects, nor empty values,
      which reach the simulator as deletions.

    ** What is not modelled

    - Metrics, logging, the gRPC services and their streams, and reading
      local configuration: input and output only.
    - The other consensus plug-ins (etcdraft, kafka, solo, inactive), the
      follower chain, the cluster communication, onboarding and channel
      participation of the orderer: they are not on the path through HCS.
    - Cryptography: [msp], [bccsp] and [idemix] are called through the
      interface of identities.
    - Of the peer: private data in clear, its store and its reconciliation,
      CouchDB, the history database, snapshots, the lifecycle of chaincodes,
      the launching of containers, gossip, discovery, endorsement. Of the
      state: pagination, rich queries, and simulation on private data.
    - Command-line tools other than the computation of updates, and
      generated protobuf code, for which the codec stands.

    ** This file

    Bytes, machine integers, Go errors and panics, time, hexadecimal text and
    protobuf codecs, with the lemmas and tactics every component uses. *)

From stdpp Require Import gmap strings list pretty sorting.
From Stdlib Require Import Strings.Byte Ascii String ZArith Lia.
From stdpp Require Import list.

#[global] Open Scope Z_scope.

(** ** Bytes *)

Abbreviation bytes := (list byte).

#[export] Instance byte_eq_dec : EqDecision byte := Byte.byte_eq_dec.

#[export] Program Instance byte_countable : Countable byte := {|
  encode b := encode (Byte.to_N b);
  decode p := n ← decode (A:=N) p; Byte.of_N n
|}.
Next Obligation.
  intros b. cbv beta. rewrite decode_encode. simpl. apply Byte.of_to_N.
Qed.

(** Length of a byte string as Go's [len], an [int]. *)
Definition blen (b : bytes) : Z := Z.of_nat (length b).

(** A Go slice that may be [nil]: [None] is [nil]. [len nil] is 0. *)
Abbreviation nbytes := (option bytes).

Definition nb (b : nbytes) : bytes := default [] b.

Definition nlen (b : nbytes) : Z := blen (nb b).

(** The byte of a number modulo 256, and the number of a byte. *)
Definition byte_of_Z (z : Z) : byte := default Byte.x00 (Byte.of_N (Z.to_N (z mod 256))).

Definition Z_of_byte (b : byte) : Z := Z.of_N (Byte.to_N b).

Lemma Z_of_byte_of_Z z : Z_of_byte (byte_of_Z z) = z mod 256.
Proof.
  unfold Z_of_byte, byte_of_Z. pose proof (Z.mod_pos_bound z 256 ltac:(lia)) as H.
  destruct (Byte.of_N (Z.to_N (z mod 256))) as [b|] eqn:E; simpl.
  - apply Byte.to_of_N in E. rewrite E. lia.
  - apply Byte.of_N_None_iff in E. lia.
Qed.

#[global] Arguments byte_of_Z _ : simpl never.
#[global] Arguments Z_of_byte _ : simpl never.

(** ** Machine integers *)

(** [uintN(x)] and the wrap-around of unsigned [+], [-], [++]. *)
Definition u32 (x : Z) : Z := x mod 2 ^ 32.
Definition u64 (x : Z) : Z := x mod 2 ^ 64.

(** [int32(x)] and [int(x)]: two's complement truncation. *)
Definition i32 (x : Z) : Z := (x + 2 ^ 31) mod 2 ^ 32 - 2 ^ 31.
Definition i64 (x : Z) : Z := (x + 2 ^ 63) mod 2 ^ 64 - 2 ^ 63.

#[global] Arguments u32 _ : simpl never.
#[global] Arguments u64 _ : simpl never.
#[global] Arguments i32 _ : simpl never.

Definition is_u32 (x : Z) : Prop := 0 <= x < 2 ^ 32.
Definition is_u64 (x : Z) : Prop := 0 <= x < 2 ^ 64.

Lemma u32_small x : is_u32 x → u32 x = x.
Proof. apply Z.mod_small. Qed.

Lemma u64_small x : is_u64 x → u64 x = x.
Proof. apply Z.mod_small. Qed.

Lemma u32_range x : is_u32 (u32 x).
Proof. apply Z.mod_pos_bound. lia. Qed.

Lemma u64_range x : is_u64 (u64 x).
Proof. apply Z.mod_pos_bound. lia. Qed.

Lemma i32_small x : - 2 ^ 31 <= x < 2 ^ 31 → i32 x = x.
Proof. intros. unfold i32. rewrite Z.mod_small; lia. Qed.

Lemma i32_range x : - 2 ^ 31 <= i32 x < 2 ^ 31.
Proof. unfold i32. pose proof (Z.mod_pos_bound (x + 2 ^ 31) (2 ^ 32)). lia. Qed.

(** Unsigned addition never gains value; it loses exactly [2^32] on overflow. *)
Lemma u32_add_le x y : is_u32 x → is_u32 y → u32 (x + y) <= x + y.
Proof. intros [] []. apply Z.mod_le; lia. Qed.

(** ** Errors and panics *)

(** A Go [error] value. [Sentinel] is a package-level error variable compared
    by identity; [Errorf] any other leaf error; [Wrap] is [errors.Wrap],
    [errors.WithMessage] and friends, which keep the cause. *)
Inductive error :=
  | Sentinel (name : string)
  | Errorf (msg : string)
  | Wrap (cause : error) (msg : string).

#[export] Instance error_eq_dec : EqDecision error.
Proof. solve_decision. Defined.

(** [errors.Cause] *)
Fixpoint Cause (e : error) : error :=
  match e with Wrap c _ => Cause c | _ => e end.

(** The pair (value, error) of a fallible Go function. *)
Inductive res (A : Type) :=
  | Ok (a : A)
  | Err (e : error).
Arguments Ok {A} a.
Arguments Err {A} e.

#[export] Instance res_ret : MRet res := λ A a, Ok a.
#[export] Instance res_bind : MBind res := λ A B f m,
  match m with Ok a => f a | Err e => Err e end.

Definition is_ok {A} (r : res A) : bool := match r with Ok _ => true | Err _ => false end.

(** What a call does: it returns, or the goroutine panics. *)
Inductive outcome (A : Type) :=
  | Done (a : A)
  | Panic (why : string).
Arguments Done {A} a.
Arguments Panic {A} why.

#[export] Instance outcome_ret : MRet outcome := λ A a, Done a.
#[export] Instance outcome_bind : MBind outcome := λ A B f m,
  match m with Done a => f a | Panic w => Panic w end.

Definition is_done {A} (o : outcome A) : bool := match o with Done _ => true | Panic _ => false end.

(** A computation that must succeed or the process panics ([MarshalOrPanic] and
    the many [if err != nil { logger.Panicf }]). *)
Definition or_panic {A} (why : string) (o : option A) : outcome A :=
  match o with Some a => Done a | None => Panic why end.

Definition or_err {A} (msg : string) (o : option A) : res A :=
  match o with Some a => Ok a | None => Err (Errorf msg) end.

Lemma bind_Done {A B} (m : outcome A) (f : A → outcome B) b :
  m ≫= f = Done b ↔ ∃ a, m = Done a ∧ f a = Done b.
Proof.
  split.
  - destruct m as [a|w]; [|done]. intros H. by exists a.
  - intros (a & -> & H). done.
Qed.

Lemma bind_Ok {A B} (m : res A) (f : A → res B) b :
  m ≫= f = Ok b ↔ ∃ a, m = Ok a ∧ f a = Ok b.
Proof.
  split.
  - destruct m as [a|e]; [|done]. intros H. by exists a.
  - intros (a & -> & H). done.
Qed.

Lemma or_panic_Done {A} w (o : option A) a : or_panic w o = Done a ↔ o = Some a.
Proof. destruct o; simpl; split; congruence. Qed.

Lemma or_err_Ok {A} w (o : option A) a : or_err w o = Ok a ↔ o = Some a.
Proof. destruct o; simpl; split; congruence. Qed.

(** Decompose hypotheses of the form "this computation returned". *)
Ltac run_inv1 :=
  match goal with
  | H : Done _ = Done _ |- _ => injection H as H
  | H : Ok _ = Ok _ |- _ => injection H as H
  | H : mret _ = Done _ |- _ => injection H as H
  | H : Panic _ = Done _ |- _ => discriminate H
  | H : Done _ = Panic _ |- _ => discriminate H
  | H : Err _ = Ok _ |- _ => discriminate H
  | H : Ok _ = Err _ |- _ => discriminate H
  | H : _ ≫= _ = Done _ |- _ => apply bind_Done in H as (? & ? & H)
  | H : _ ≫= _ = Ok _ |- _ => apply bind_Ok in H as (? & ? & H)
  | H : match ?x with pair _ _ => _ end = Done _ |- _ => is_var x; destruct x
  | H : match ?x with pair _ _ => _ end = Ok _ |- _ => is_var x; destruct x
  | H : or_panic _ _ = Done _ |- _ => apply or_panic_Done in H
  | H : or_err _ _ = Ok _ |- _ => apply or_err_Ok in H
  | H : Some _ = Some _ |- _ => injection H as H
  | H : (_, _) = (_, _) |- _ => injection H as H
  | H : None = Some _ |- _ => discriminate H
  | H : Some _ = None |- _ => discriminate H
  end.
Ltac run_inv := repeat run_inv1; subst.

(** Case analysis on every test a hypothesis or the goal is blocked on. *)
Ltac split_if :=
  match goal with
  | H : context [ if ?b then _ else _ ] |- _ => destruct b eqn:?
  | |- context [ if ?b then _ else _ ] => destruct b eqn:?
  end.
Ltac split_match :=
  match goal with
  | H : context [ match ?x with _ => _ end ] |- _ => destruct x eqn:?
  | |- context [ match ?x with _ => _ end ] => destruct x eqn:?
  end.

(** Boolean comparisons of the source as arithmetic facts. *)
Ltac zbool :=
  repeat match goal with
  | H : (_ <? _) = true |- _ => apply Z.ltb_lt in H
  | H : (_ <? _) = false |- _ => apply Z.ltb_ge in H
  | H : (_ <=? _) = true |- _ => apply Z.leb_le in H
  | H : (_ <=? _) = false |- _ => apply Z.leb_gt in H
  | H : (_ =? _) = true |- _ => apply Z.eqb_eq in H
  | H : (_ =? _) = false |- _ => apply Z.eqb_neq in H
  | H : (_ >? _) = true |- _ => rewrite Z.gtb_ltb in H; apply Z.ltb_lt in H
  | H : (_ >? _) = false |- _ => rewrite Z.gtb_ltb in H; apply Z.ltb_ge in H
  | H : (_ >=? _) = true |- _ => rewrite Z.geb_leb in H; apply Z.leb_le in H
  | H : (_ >=? _) = false |- _ => rewrite Z.geb_leb in H; apply Z.leb_gt in H
  | H : (_ && _) = true |- _ => apply andb_true_iff in H as [? ?]
  | H : (_ || _) = false |- _ => apply orb_false_iff in H as [? ?]
  | H : negb _ = true |- _ => apply negb_true_iff in H
  | H : negb _ = false |- _ => apply negb_false_iff in H
  | H : bool_decide _ = true |- _ => apply bool_decide_eq_true in H
  | H : bool_decide _ = false |- _ => apply bool_decide_eq_false in H
  end.

(** The hint database of the development: facts the invariants are built from. *)
Create HintDb hcs discriminated.
Create Rewrite HintDb hcs_simpl.

#[export] Hint Resolve u32_range u64_range i32_range : hcs.
#[export] Hint Rewrite @bind_Done @bind_Ok @or_panic_Done @or_err_Ok : hcs_simpl.

(** ** Time *)

(** [time.Time] as nanoseconds since the Unix epoch; [time.Duration] in
    nanoseconds at 64 bits. [Time.Sub] saturates at the ends of [Duration]. *)
Abbreviation time := Z.
Abbreviation duration := Z.

Definition unixEpoch : time := 0.
Definition zeroTime : time := -62135596800 * 10 ^ 9.
Definition maxDuration : duration := 2 ^ 63 - 1.
Definition minDuration : duration := - 2 ^ 63.

Definition time_sub (a b : time) : duration := Z.max minDuration (Z.min maxDuration (a - b)).

Lemma time_sub_mono a a' b : a <= a' → time_sub a b <= time_sub a' b.
Proof. unfold time_sub. lia. Qed.

Lemma time_sub_anti a b b' : b <= b' → time_sub a b' <= time_sub a b.
Proof. unfold time_sub. lia. Qed.

(** [google.protobuf.Timestamp]: [ptypes.TimestampProto] and [ptypes.Timestamp],
    which accept years 1 to 9999. *)
Record Timestamp := mkTimestamp { ts_seconds : Z; ts_nanos : Z }.

#[export] Instance Timestamp_eq_dec : EqDecision Timestamp.
Proof. solve_decision. Defined.

Definition minValidSeconds : Z := -62135596800.
Definition maxValidSeconds : Z := 253402300800.

Definition validateTimestamp (t : Timestamp) : bool :=
  (minValidSeconds <=? ts_seconds t) && (ts_seconds t <? maxValidSeconds)
  && (0 <=? ts_nanos t) && (ts_nanos t <? 10 ^ 9).

Definition TimestampProto (t : time) : option Timestamp :=
  let ts := mkTimestamp (t / 10 ^ 9) (t mod 10 ^ 9) in
  if validateTimestamp ts then Some ts else None.

(** [ptypes.Timestamp]: a nil or invalid timestamp is an error. *)
Definition TimestampOf (ts : option Timestamp) : option time :=
  ts ← ts; if validateTimestamp ts then Some (ts_seconds ts * 10 ^ 9 + ts_nanos ts) else None.

Lemma TimestampProto_roundtrip t ts :
  TimestampProto t = Some ts → TimestampOf (Some ts) = Some t.
Proof.
  unfold TimestampProto, TimestampOf. intros H.
  destruct (validateTimestamp _) eqn:E; [|done]. injection H as <-. simpl.
  rewrite E. f_equal. simpl. pose proof (Z.div_mod t (10 ^ 9)). lia.
Qed.

Lemma TimestampProto_range t :
  minValidSeconds * 10 ^ 9 <= t < maxValidSeconds * 10 ^ 9 → is_Some (TimestampProto t).
Proof.
  intros H. unfold TimestampProto, validateTimestamp. simpl ts_seconds. simpl ts_nanos.
  pose proof (Z.div_mod t (10 ^ 9)). pose proof (Z.mod_pos_bound t (10 ^ 9)).
  rewrite 2!(proj2 (Z.leb_le _ _)), 2!(proj2 (Z.ltb_lt _ _)) by lia. simpl. by eexists.
Qed.

(** ** Hexadecimal text: [hex.EncodeToString] *)

Definition hexDigit (n : N) : ascii :=
  match String.get (N.to_nat n) "0123456789abcdef" with Some c => c | None => "0"%char end.

Fixpoint EncodeToString (b : bytes) : string :=
  match b with
  | [] => EmptyString
  | x :: b' =>
    String (hexDigit (Byte.to_N x / 16)) (String (hexDigit (Byte.to_N x mod 16)) (EncodeToString b'))
  end.

(** The value of a hexadecimal digit, to invert [hexDigit]. *)
Definition hexValue (c : ascii) : N :=
  let n := N_of_ascii c in if (n <? 58)%N then (n - 48)%N else (n - 87)%N.

Lemma hexDigit_value x :
  (hexValue (hexDigit (Byte.to_N x / 16)) * 16 + hexValue (hexDigit (Byte.to_N x mod 16)))%N
  = Byte.to_N x.
Proof. destruct x; reflexivity. Qed.

Lemma hexDigit_byte_inj x y :
  hexDigit (Byte.to_N x / 16) = hexDigit (Byte.to_N y / 16) →
  hexDigit (Byte.to_N x mod 16) = hexDigit (Byte.to_N y mod 16) → x = y.
Proof.
  intros H1 H2. assert (Byte.to_N x = Byte.to_N y) as E.
  { by rewrite <- (hexDigit_value x), <- (hexDigit_value y), H1, H2. }
  apply (f_equal Byte.of_N) in E. rewrite !Byte.of_to_N in E. by injection E.
Qed.

#[export] Instance EncodeToString_inj : Inj (=) (=) EncodeToString.
Proof.
  intros a. induction a as [|x a IH]; intros [|y b]; simpl; try done.
  intros H. injection H as H1 H2 H3. f_equal; [by apply hexDigit_byte_inj|auto].
Qed.

(** ** Fields of a text separated by a character *)

Fixpoint lacks (c : ascii) (s : string) : Prop :=
  match s with EmptyString => True | String x s => x ≠ c ∧ lacks c s end.

Lemma sep_inj c s1 s2 t1 t2 :
  lacks c s1 → lacks c s2 → s1 +:+ String c t1 = s2 +:+ String c t2 → s1 = s2 ∧ t1 = t2.
Proof.
  revert s2. induction s1 as [|x s1 IH]; intros [|y s2]; simpl.
  - intros _ _ H. by injection H.
  - intros _ [Hy _] H. injection H. congruence.
  - intros [Hx _] _ H. injection H. congruence.
  - intros [_ H1] [_ H2] H. injection H as -> H. destruct (IH s2) as [-> ->]; done.
Qed.

Lemma lacks_hex c b :
  (∀ n, hexDigit n ≠ c) → lacks c (EncodeToString b).
Proof. intros H. induction b as [|x b IH]; simpl; auto. Qed.

Lemma lacks_pretty_N c n s :
  (∀ d, pretty_N_char d ≠ c) → lacks c s → lacks c (pretty_N_go n s).
Proof.
  intros Hc. revert s. induction (N.lt_wf_0 n) as [n _ IH]; intros s Hs.
  destruct (decide (n = 0)%N) as [->|Hn]; [by rewrite pretty_N_go_0|].
  rewrite pretty_N_go_step by lia. apply IH; [apply N.div_lt; lia|]. by split.
Qed.

Lemma lacks_pretty_Z c (z : Z) :
  (∀ d, pretty_N_char d ≠ c) → "-"%char ≠ c → lacks c (pretty z).
Proof.
  intros Hc Hd. assert (H0 := Hc 0%N).
  assert (Hp : ∀ p : positive, lacks c (pretty p)).
  { intros p. unfold pretty, pretty_positive, pretty, pretty_N. rewrite decide_False by done.
    by apply lacks_pretty_N. }
  destruct z; simpl; [done|apply Hp|]. split; [done|apply Hp].
Qed.

(** ** Protobuf codecs *)

(** [proto.Marshal] and [proto.Unmarshal] at a message type, third-party code.
    What the callers rely on is that a message in canonical form (see the
    [canonical] predicates of the message types) survives the round trip. *)
Class Codec (A : Type) := {
  marshal : A → bytes;
  unmarshal : bytes → option A
}.

Class CodecOk (A : Type) `{Codec A} (canonical : A → Prop) :=
  unmarshal_marshal a : canonical a → unmarshal (marshal a) = Some a.

(** ** Lists *)

Lemma elem_of_concat {A} (x : A) ls : x ∈ concat ls ↔ ∃ l, x ∈ l ∧ l ∈ ls.
Proof.
  rewrite list_elem_of_In, in_concat. split; intros (l & H1 & H2); exists l; rewrite !list_elem_of_In in *; done.
Qed.

Section lists.
Context {A : Type}.
Implicit Types (l k : list A).

Lemma take_drop_next l (n m : nat) :
  (n <= m)%nat → take n l ++ take (m - n) (drop n l) = take m l.
Proof.
  intros H. rewrite take_take_drop. f_equal. lia.
Qed.

Lemma last_snoc_eq l x y : last (l ++ [x]) = Some y → x = y.
Proof. rewrite last_snoc. congruence. Qed.

Lemma StronglySorted_filter (R : relation A) (P : A → Prop) `{∀ x, Decision (P x)} l :
  StronglySorted R l → StronglySorted R (filter P l).
Proof.
  induction 1 as [|x l Hl IH Hx]; [constructor|]. rewrite filter_cons. case_decide; [|done].
  constructor; [done|]. rewrite Forall_forall in *. intros y [_ Hy]%list_elem_of_filter. auto.
Qed.

Lemma StronglySorted_snoc (R : relation A) l x :
  StronglySorted R l → (∀ y, y ∈ l → R y x) → StronglySorted R (l ++ [x]).
Proof.
  intros Hl Hx. apply StronglySorted_app_2; [|done|repeat constructor].
  intros y z Hy ->%list_elem_of_singleton. auto.
Qed.

Lemma StronglySorted_weaken (R R' : relation A) l :
  (∀ x y, x ∈ l → y ∈ l → R x y → R' x y) → StronglySorted R l → StronglySorted R' l.
Proof.
  intros H Hs. revert H. induction Hs as [|x l Hl IH Hx]; intros H; constructor.
  - apply IH. intros; apply H; set_solver.
  - rewrite Forall_forall in *. intros y Hy. apply H; set_solver.
Qed.

Lemma concat_snoc (ls : list (list A)) l : concat (ls ++ [l]) = concat ls ++ l.
Proof. rewrite concat_app. simpl. by rewrite app_nil_r. Qed.
End lists.
