(* ===== verification/Protos.v ===== *)
(** * Protocol messages

    The protobuf messages the orderer exchanges: the HCS messages of
    [orderer/consensus/hcs/protodef] and the Fabric envelopes and blocks. A
    [bytes] field whose nil-ness the code observes is an [nbytes]; a message
    pointer that may be nil is an [option]; a [oneof] is an inductive type with
    a constructor for the unset case; an open enum is a [Z]. *)

From stdpp Require Import gmap strings list.
From S2P Require Import Prelude.

(** ** HCS application messages

    The metadata fields 6 to 8 of [ApplicationMessage] and 5 of
    [ApplicationMessageChunk] are neither set nor read by any code. *)

Record AccountID := mkAccountID {
  ShardNum : Z;
  RealmNum : Z;
  AccountNum : Z
}.

(** [google.protobuf.Any], of which only [Value] is used. *)
Record Any := mkAny { any_Value : nbytes }.

Record ApplicationMessageID := mkApplicationMessageID {
  id_ValidStart : option Timestamp;
  id_AccountID : option AccountID;
  id_Metadata : option Any
}.

Record ApplicationMessage := mkApplicationMessage {
  am_ApplicationMessageId : option ApplicationMessageID;
  am_BusinessProcessMessage : nbytes;
  am_UnencryptedBusinessProcessMessageHash : nbytes;
  am_BusinessProcessSignatureOnHash : nbytes;
  am_EncryptionRandom : nbytes
}.

Record ApplicationMessageChunk := mkApplicationMessageChunk {
  ck_ApplicationMessageId : option ApplicationMessageID;
  ck_ChunksCount : Z;
  ck_ChunkIndex : Z;
  ck_MessageChunk : nbytes
}.

Record ApplicationSignature := mkApplicationSignature {
  as_PublicKey : nbytes;
  as_Signature : nbytes
}.

(** ** HCS consensus messages *)

(** The open enum [HcsMessageRegular_Class]. *)
Definition HcsMessageRegular_NORMAL : Z := 0.
Definition HcsMessageRegular_CONFIG : Z := 1.

Record HcsMessageRegular := mkHcsMessageRegular {
  reg_Payload : bytes;
  reg_ConfigSeq : Z;
  reg_Class : Z;
  reg_OriginalSeq : Z
}.

Inductive HcsMessageTimeToCut :=
  | HcsMessageTimeToCut_BlockNumber (n : Z)
  | HcsMessageTimeToCut_MessageHash (h : bytes)
  | HcsMessageTimeToCut_unset.

Record HcsMessageOrdererStarted := mkHcsMessageOrdererStarted { OrdererIdentity : bytes }.

Inductive HcsMessage :=
  | HcsMessage_Regular (m : HcsMessageRegular)
  | HcsMessage_TimeToCut (m : HcsMessageTimeToCut)
  | HcsMessage_OrdererStarted (m : HcsMessageOrdererStarted)
  | HcsMessage_unset.

(** Orderer metadata persisted in every block. *)
Record HcsMetadata := mkHcsMetadata {
  md_LastConsensusTimestampPersisted : option Timestamp;
  md_LastOriginalSequenceProcessed : Z;
  md_LastResubmittedConfigSequence : Z;
  md_LastChunkFreeConsensusTimestampPersisted : option Timestamp;
  md_LastChunkFreeSequenceProcessed : Z
}.

Record HcsConfigPublicKey := mkHcsConfigPublicKey { pk_Type : string; pk_Key : string }.

Record HcsConfigMetadata := mkHcsConfigMetadata {
  cm_TopicId : string;
  cm_PublicKeys : list HcsConfigPublicKey;
  cm_ReassembleTimeout : string
}.

(** ** Fabric envelopes and blocks *)

Record Envelope := mkEnvelope { env_Payload : bytes; env_Signature : bytes }.

Record BlockHeader := mkBlockHeader {
  hdr_Number : Z;
  hdr_PreviousHash : bytes;
  hdr_DataHash : bytes
}.

(** A block: its data is the list of marshalled envelopes, its metadata the
    list indexed by [BlockMetadataIndex]. The code tests [Data] and [Metadata]
    for nil, and dereferences [Header], which every block it handles has. *)
Record Block := mkBlock {
  blk_Header : BlockHeader;
  blk_Data : option (list bytes);
  blk_Metadata : option (list bytes)
}.

Record MetadataSignature := mkMetadataSignature {
  ms_SignatureHeader : bytes;
  ms_Signature : bytes
}.

(** [cb.Metadata]. *)
Record Metadata := mkMetadata {
  mdt_Value : nbytes;
  mdt_Signatures : list MetadataSignature
}.

Record LastConfig := mkLastConfig { lc_Index : Z }.

Record OrdererBlockMetadata := mkOrdererBlockMetadata {
  obm_LastConfig : option LastConfig;
  obm_ConsenterMetadata : bytes
}.

Record SignatureHeader := mkSignatureHeader { sh_Creator : bytes; sh_Nonce : bytes }.

(** [cb.ChannelHeader], without the timestamp, version, epoch and the fields of
    endorser transactions. *)
Record ChannelHeader := mkChannelHeader {
  ch_Type : Z;
  ch_ChannelId : string;
  ch_TxId : string
}.

Record Header := mkHeader { h_ChannelHeader : nbytes; h_SignatureHeader : bytes }.

Record Payload := mkPayload { pl_Header : option Header; pl_Data : bytes }.

(** [cb.HeaderType] *)
Definition HeaderType_MESSAGE : Z := 0.
Definition HeaderType_CONFIG : Z := 1.
Definition HeaderType_CONFIG_UPDATE : Z := 2.
Definition HeaderType_ENDORSER_TRANSACTION : Z := 3.
Definition HeaderType_ORDERER_TRANSACTION : Z := 4.
Definition HeaderType_DELIVER_SEEK_INFO : Z := 5.

(** [cb.BlockMetadataIndex]. *)
Definition BlockMetadataIndex_SIGNATURES : nat := 0.
Definition BlockMetadataIndex_LAST_CONFIG : nat := 1.
Definition BlockMetadataIndex_TRANSACTIONS_FILTER : nat := 2.
Definition BlockMetadataIndex_ORDERER : nat := 3.
Definition BlockMetadataIndex_COMMIT_HASH : nat := 4.

(** ** Canonical messages

    Proto3 does not encode an empty [bytes] field, so a non-nil empty slice
    comes back as nil: the round trip holds for messages without one. *)
Definition nb_canonical (b : nbytes) : Prop := b ≠ Some [].

Definition am_canonical (m : ApplicationMessage) : Prop :=
  nb_canonical (am_BusinessProcessMessage m) ∧
  nb_canonical (am_UnencryptedBusinessProcessMessageHash m) ∧
  nb_canonical (am_BusinessProcessSignatureOnHash m) ∧
  nb_canonical (am_EncryptionRandom m) ∧
  (∀ i a, am_ApplicationMessageId m = Some i → id_Metadata i = Some a → nb_canonical (any_Value a)).

Definition as_canonical (s : ApplicationSignature) : Prop :=
  nb_canonical (as_PublicKey s) ∧ nb_canonical (as_Signature s).

(** ** Decidable equality *)

#[export] Instance Any_eq_dec : EqDecision Any.
Proof. solve_decision. Defined.
#[export] Instance AccountID_eq_dec : EqDecision AccountID.
Proof. solve_decision. Defined.
#[export] Instance ApplicationMessageID_eq_dec : EqDecision ApplicationMessageID.
Proof. solve_decision. Defined.
#[export] Instance ApplicationMessage_eq_dec : EqDecision ApplicationMessage.
Proof. solve_decision. Defined.
#[export] Instance ApplicationMessageChunk_eq_dec : EqDecision ApplicationMessageChunk.
Proof. solve_decision. Defined.
#[export] Instance ApplicationSignature_eq_dec : EqDecision ApplicationSignature.
Proof. solve_decision. Defined.
#[export] Instance HcsMessageRegular_eq_dec : EqDecision HcsMessageRegular.
Proof. solve_decision. Defined.
#[export] Instance HcsMessageTimeToCut_eq_dec : EqDecision HcsMessageTimeToCut.
Proof. solve_decision. Defined.
#[export] Instance HcsMessageOrdererStarted_eq_dec : EqDecision HcsMessageOrdererStarted.
Proof. solve_decision. Defined.
#[export] Instance HcsMessage_eq_dec : EqDecision HcsMessage.
Proof. solve_decision. Defined.
#[export] Instance HcsMetadata_eq_dec : EqDecision HcsMetadata.
Proof. solve_decision. Defined.
#[export] Instance HcsConfigPublicKey_eq_dec : EqDecision HcsConfigPublicKey.
Proof. solve_decision. Defined.
#[export] Instance HcsConfigMetadata_eq_dec : EqDecision HcsConfigMetadata.
Proof. solve_decision. Defined.
#[export] Instance Envelope_eq_dec : EqDecision Envelope.
Proof. solve_decision. Defined.
#[export] Instance MetadataSignature_eq_dec : EqDecision MetadataSignature.
Proof. solve_decision. Defined.
#[export] Instance Metadata_eq_dec : EqDecision Metadata.
Proof. solve_decision. Defined.
#[export] Instance LastConfig_eq_dec : EqDecision LastConfig.
Proof. solve_decision. Defined.
#[export] Instance OrdererBlockMetadata_eq_dec : EqDecision OrdererBlockMetadata.
Proof. solve_decision. Defined.
#[export] Instance SignatureHeader_eq_dec : EqDecision SignatureHeader.
Proof. solve_decision. Defined.
#[export] Instance ChannelHeader_eq_dec : EqDecision ChannelHeader.
Proof. solve_decision. Defined.
#[export] Instance Header_eq_dec : EqDecision Header.
Proof. solve_decision. Defined.
#[export] Instance Payload_eq_dec : EqDecision Payload.
Proof. solve_decision. Defined.
#[export] Instance BlockHeader_eq_dec : EqDecision BlockHeader.
Proof. solve_decision. Defined.
#[export] Instance Block_eq_dec : EqDecision Block.
Proof. solve_decision. Defined.
