(* ===== verification/Codecs.v ===== *)
(** * A concrete encoding of messages

    The protobuf codec is a parameter of the model. This file builds an instance
    of it, a self-delimiting encoding of the message types with its round trip,
    with which the hypotheses on codecs are shown to hold and concrete channels
    and orderers are run. *)

From stdpp Require Import gmap strings list.
From Stdlib Require Import Strings.Byte Ascii.
From S2P Require Import Prelude Protos.

(** ** Self-delimiting encodings *)

Class Ser (A : Type) := {
  ser : A → bytes;
  des : bytes → option (A * bytes);
  des_ser a r : des (ser a ++ r) = Some (a, r)
}.

Definition ser_codec (A : Type) `{!Ser A} : Codec A := {|
  marshal a := "001"%byte :: ser a;
  unmarshal b :=
    match b with
    | "001"%byte :: b => match des b with Some (a, []) => Some a | _ => None end
    | _ => None
    end
|}.

Lemma ser_codec_ok (A : Type) `{!Ser A} (P : A → Prop) : @CodecOk A (ser_codec A) P.
Proof. intros a _. simpl. by rewrite <- (app_nil_r (ser a)), des_ser. Qed.

(** ** Base types *)

(** Bytes, with an escape for the terminator. *)
Fixpoint serBytes (b : bytes) : bytes :=
  match b with
  | [] => ["000"; "000"]%byte
  | x :: b => if Byte.eqb x "000"%byte then ["000"; "001"]%byte ++ serBytes b else x :: serBytes b
  end.

Fixpoint desBytes (b : bytes) : option (bytes * bytes) :=
  match b with
  | "000"%byte :: "000"%byte :: r => Some ([], r)
  | "000"%byte :: "001"%byte :: r => '(b, r) ← desBytes r; Some ("000"%byte :: b, r)
  | "000"%byte :: _ => None
  | x :: r => '(b, r) ← desBytes r; Some (x :: b, r)
  | [] => None
  end.

#[export] Instance bytes_ser : Ser bytes.
Proof.
  refine {| ser := serBytes; des := desBytes |}.
  intros b r. induction b as [|x b IH]; [done|]. simpl. destruct (Byte.eqb x "000"%byte) eqn:E.
  - apply Byte.byte_dec_bl in E as ->. simpl. by rewrite IH.
  - simpl. rewrite IH. destruct x; try done.
Defined.

(** Positive numbers, by their bits. *)
Fixpoint serPos (p : positive) : bytes :=
  match p with
  | xH => ["001"%byte]
  | xO p => "002"%byte :: serPos p
  | xI p => "003"%byte :: serPos p
  end.

Fixpoint desPos (b : bytes) : option (positive * bytes) :=
  match b with
  | "001"%byte :: r => Some (xH, r)
  | "002"%byte :: r => '(p, r) ← desPos r; Some (xO p, r)
  | "003"%byte :: r => '(p, r) ← desPos r; Some (xI p, r)
  | _ => None
  end.

#[export] Instance Z_ser : Ser Z.
Proof.
  refine {|  ser z := match z with Z0 => ["001"%byte] | Zpos p => "002"%byte :: serPos p | Zneg p => "003"%byte :: serPos p end;
  des b :=
    match b with
    | "001"%byte :: r => Some (Z0, r)
    | "002"%byte :: r => '(p, r) ← desPos r; Some (Zpos p, r)
    | "003"%byte :: r => '(p, r) ← desPos r; Some (Zneg p, r)
    | _ => None
    end |}.
  assert (∀ p r, desPos (serPos p ++ r) = Some (p, r)) as Hp.
  { intros p r. induction p as [p IH|p IH|]; simpl; [by rewrite IH..|done]. }
  intros [|p|p] r; simpl; [done|by rewrite Hp..].
Defined.

#[export] Instance option_ser {A} `{!Ser A} : Ser (option A).
Proof.
  refine {|  ser o := match o with None => ["001"%byte] | Some a => "002"%byte :: ser a end;
  des b :=
    match b with
    | "001"%byte :: r => Some (None, r)
    | "002"%byte :: r => '(a, r) ← des r; Some (Some a, r)
    | _ => None
    end |}. intros [a|] r; simpl; [by rewrite des_ser|done]. Defined.

#[export] Instance sum_ser {A B} `{!Ser A, !Ser B} : Ser (A + B).
Proof.
  refine {|  ser o := match o with inl a => "001"%byte :: ser a | inr b => "002"%byte :: ser b end;
  des b :=
    match b with
    | "001"%byte :: r => '(a, r) ← des r; Some (inl a, r)
    | "002"%byte :: r => '(b, r) ← des r; Some (inr b, r)
    | _ => None
    end |}. intros [a|b] r; simpl; by rewrite des_ser. Defined.

#[export] Instance prod_ser {A B} `{!Ser A, !Ser B} : Ser (A * B).
Proof.
  refine {|  ser o := ser o.1 ++ ser o.2;
  des b := '(x, r) ← des b; '(y, r) ← des r; Some ((x, y), r) |}. intros [a b] r; simpl. rewrite <- app_assoc, des_ser. simpl. by rewrite des_ser. Defined.

(** Lists. The number of elements is bounded by the number of bytes. *)
Fixpoint serList {A} `{!Ser A} (l : list A) : bytes :=
  match l with [] => ["001"%byte] | a :: l => "002"%byte :: ser a ++ serList l end.

Fixpoint desList {A} `{!Ser A} (fuel : nat) (b : bytes) : option (list A * bytes) :=
  match fuel, b with
  | S fuel, "002"%byte :: r => '(a, r) ← des r; '(l, r) ← desList fuel r; Some (a :: l, r)
  | S _, "001"%byte :: r => Some ([], r)
  | _, _ => None
  end.

Lemma desList_serList {A} `{!Ser A} (l : list A) fuel r :
  (length l < fuel)%nat → desList fuel (serList l ++ r) = Some (l, r).
Proof.
  revert fuel. induction l as [|a l IH]; intros [|fuel] Hf; simpl in *; try lia; [done|].
  rewrite <- app_assoc, des_ser. simpl. by rewrite IH by lia.
Qed.

Lemma length_serList {A} `{!Ser A} (l : list A) : (length l < length (serList l))%nat.
Proof. induction l as [|a l IH]; simpl; [lia|]. rewrite length_app. lia. Qed.

#[export] Instance list_ser {A} `{!Ser A} : Ser (list A).
Proof.
  refine {|  ser := serList;
  des b := desList (length b) b |}.
  intros l r. apply desList_serList. rewrite length_app. pose proof (length_serList l). lia.
Defined.

(** A type that embeds into another. *)
Definition iso_ser {A B} `{!Ser B} (f : A → B) (g : B → A) (H : ∀ a, g (f a) = a) : Ser A.
Proof.
  refine {| ser a := ser (f a); des b := '(x, r) ← des b; Some (g x, r) |}.
  intros a r. rewrite des_ser. simpl. by rewrite H.
Defined.

Lemma string_bytes_roundtrip s : String.string_of_list_byte (String.list_byte_of_string s) = s.
Proof. apply String.string_of_list_byte_of_string. Qed.

#[export] Instance string_ser : Ser string :=
  iso_ser String.list_byte_of_string String.string_of_list_byte string_bytes_roundtrip.

(** ** Messages *)

Ltac by_tuple := intros []; reflexivity.

#[export] Instance Timestamp_ser : Ser Timestamp.
Proof.
  apply (iso_ser (λ x, (ts_seconds x, ts_nanos x)) (λ '(a, b), mkTimestamp a b)).
  by_tuple.
Defined.
#[export] Instance AccountID_ser : Ser AccountID.
Proof.
  apply (iso_ser (λ x, (ShardNum x, RealmNum x, AccountNum x))
           (λ '(a, b, c), mkAccountID a b c)). by_tuple.
Defined.
#[export] Instance Any_ser : Ser Any.
Proof. apply (iso_ser any_Value mkAny). by_tuple. Defined.
#[export] Instance ApplicationMessageID_ser : Ser ApplicationMessageID.
Proof.
  apply (iso_ser (λ x, (id_ValidStart x, id_AccountID x, id_Metadata x))
           (λ '(a, b, c), mkApplicationMessageID a b c)). by_tuple.
Defined.
#[export] Instance ApplicationMessage_ser : Ser ApplicationMessage.
Proof.
  apply (iso_ser
    (λ x, (am_ApplicationMessageId x, am_BusinessProcessMessage x,
           am_UnencryptedBusinessProcessMessageHash x,
           am_BusinessProcessSignatureOnHash x, am_EncryptionRandom x))
    (λ '(a, b, c, d, e), mkApplicationMessage a b c d e)). by_tuple.
Defined.
#[export] Instance ApplicationMessageChunk_ser : Ser ApplicationMessageChunk.
Proof.
  apply (iso_ser
    (λ x, (ck_ApplicationMessageId x, ck_ChunksCount x, ck_ChunkIndex x, ck_MessageChunk x))
    (λ '(a, b, c, d), mkApplicationMessageChunk a b c d)). by_tuple.
Defined.
#[export] Instance ApplicationSignature_ser : Ser ApplicationSignature.
Proof.
  apply (iso_ser (λ x, (as_PublicKey x, as_Signature x))
           (λ '(a, b), mkApplicationSignature a b)). by_tuple.
Defined.
#[export] Instance HcsMessageRegular_ser : Ser HcsMessageRegular.
Proof.
  apply (iso_ser (λ x, (reg_Payload x, reg_ConfigSeq x, reg_Class x, reg_OriginalSeq x))
           (λ '(a, b, c, d), mkHcsMessageRegular a b c d)). by_tuple.
Defined.
#[export] Instance HcsMessageTimeToCut_ser : Ser HcsMessageTimeToCut.
Proof.
  apply (iso_ser
    (λ x, match x with
          | HcsMessageTimeToCut_BlockNumber n => Some (inl n)
          | HcsMessageTimeToCut_MessageHash h => Some (inr h)
          | HcsMessageTimeToCut_unset => None end)
    (λ y, match y with
          | Some (inl n) => HcsMessageTimeToCut_BlockNumber n
          | Some (inr h) => HcsMessageTimeToCut_MessageHash h
          | None => HcsMessageTimeToCut_unset end)). by_tuple.
Defined.
#[export] Instance HcsMessageOrdererStarted_ser : Ser HcsMessageOrdererStarted.
Proof. apply (iso_ser OrdererIdentity mkHcsMessageOrdererStarted). by_tuple. Defined.
#[export] Instance HcsMessage_ser : Ser HcsMessage.
Proof.
  apply (iso_ser
    (λ x, match x with
          | HcsMessage_Regular m => Some (inl m)
          | HcsMessage_TimeToCut m => Some (inr (inl m))
          | HcsMessage_OrdererStarted m => Some (inr (inr m))
          | HcsMessage_unset => None end)
    (λ y, match y with
          | Some (inl m) => HcsMessage_Regular m
          | Some (inr (inl m)) => HcsMessage_TimeToCut m
          | Some (inr (inr m)) => HcsMessage_OrdererStarted m
          | None => HcsMessage_unset end)). by_tuple.
Defined.
#[export] Instance HcsMetadata_ser : Ser HcsMetadata.
Proof.
  apply (iso_ser
    (λ x, (md_LastConsensusTimestampPersisted x, md_LastOriginalSequenceProcessed x,
           md_LastResubmittedConfigSequence x, md_LastChunkFreeConsensusTimestampPersisted x,
           md_LastChunkFreeSequenceProcessed x))
    (λ '(a, b, c, d, e), mkHcsMetadata a b c d e)). by_tuple.
Defined.
#[export] Instance HcsConfigPublicKey_ser : Ser HcsConfigPublicKey.
Proof.
  apply (iso_ser (λ x, (pk_Type x, pk_Key x)) (λ '(a, b), mkHcsConfigPublicKey a b)).
  by_tuple.
Defined.
#[export] Instance HcsConfigMetadata_ser : Ser HcsConfigMetadata.
Proof.
  apply (iso_ser (λ x, (cm_TopicId x, cm_PublicKeys x, cm_ReassembleTimeout x))
           (λ '(a, b, c), mkHcsConfigMetadata a b c)). by_tuple.
Defined.
#[export] Instance Envelope_ser : Ser Envelope.
Proof.
  apply (iso_ser (λ x, (env_Payload x, env_Signature x)) (λ '(a, b), mkEnvelope a b)).
  by_tuple.
Defined.
#[export] Instance MetadataSignature_ser : Ser MetadataSignature.
Proof.
  apply (iso_ser (λ x, (ms_SignatureHeader x, ms_Signature x))
           (λ '(a, b), mkMetadataSignature a b)). by_tuple.
Defined.
#[export] Instance Metadata_ser : Ser Metadata.
Proof.
  apply (iso_ser (λ x, (mdt_Value x, mdt_Signatures x)) (λ '(a, b), mkMetadata a b)).
  by_tuple.
Defined.
#[export] Instance LastConfig_ser : Ser LastConfig.
Proof. apply (iso_ser lc_Index mkLastConfig). by_tuple. Defined.
#[export] Instance OrdererBlockMetadata_ser : Ser OrdererBlockMetadata.
Proof.
  apply (iso_ser (λ x, (obm_LastConfig x, obm_ConsenterMetadata x))
           (λ '(a, b), mkOrdererBlockMetadata a b)). by_tuple.
Defined.
#[export] Instance SignatureHeader_ser : Ser SignatureHeader.
Proof.
  apply (iso_ser (λ x, (sh_Creator x, sh_Nonce x)) (λ '(a, b), mkSignatureHeader a b)).
  by_tuple.
Defined.
#[export] Instance ChannelHeader_ser : Ser ChannelHeader.
Proof.
  apply (iso_ser (λ x, (ch_Type x, ch_ChannelId x, ch_TxId x))
           (λ '(a, b, c), mkChannelHeader a b c)). by_tuple.
Defined.
#[export] Instance Header_ser : Ser Header.
Proof.
  apply (iso_ser (λ x, (h_ChannelHeader x, h_SignatureHeader x))
           (λ '(a, b), mkHeader a b)). by_tuple.
Defined.
#[export] Instance Payload_ser : Ser Payload.
Proof.
  apply (iso_ser (λ x, (pl_Header x, pl_Data x)) (λ '(a, b), mkPayload a b)). by_tuple.
Defined.
