(* ===== verification/BlockCutter.v ===== *)
(** * Block cutter

    [orderer/common/blockcutter/blockcutter.go]: the [receiver] that groups
    ordered envelopes into batches, each of which becomes a block. The metrics
    observations are left out; the clock readings that feed them are arguments. *)

From stdpp Require Import strings list.
From Stdlib Require Import Strings.Byte.
From S2P Require Import Prelude Protos.

(** [ab.BatchSize], all [uint32]. *)
Record BatchSize := mkBatchSize {
  MaxMessageCount : Z;
  AbsoluteMaxBytes : Z;
  PreferredMaxBytes : Z
}.

(** The mutable part of [receiver]. [pendingBatch] is nil exactly when empty:
    it is only ever reset to nil and appended to. *)
Record receiver := mkReceiver {
  pendingBatch : list Envelope;
  pendingBatchSizeBytes : Z;
  PendingBatchStartTime : time
}.

Definition NewReceiverImpl : receiver := mkReceiver [] 0 zeroTime.

Definition messageSizeBytes (message : Envelope) : Z :=
  u32 (blen (env_Payload message) + blen (env_Signature message)).

#[global] Arguments messageSizeBytes _ : simpl never.

(** [Cut] returns the current batch and starts a new one. *)
Definition Cut (r : receiver) : list Envelope * receiver :=
  (pendingBatch r, mkReceiver [] 0 zeroTime).

(** [Ordered]: [cfg] is what [sharedConfigFetcher.OrdererConfig] returns, [now]
    and [now'] the two clock readings. The result is the batches cut and
    whether messages are pending. *)
Definition Ordered (cfg : option BatchSize) (now now' : time) (msg : Envelope) (r : receiver)
    : outcome (list (list Envelope) * bool * receiver) :=
  let r := if bool_decide (length (pendingBatch r) = 0%nat)
           then {| r with PendingBatchStartTime := now |} else r in
  batchSize ← or_panic "Could not retrieve orderer config to query batch parameters" cfg;
  let size := messageSizeBytes msg in
  if size >? PreferredMaxBytes batchSize then
    (* the message is isolated in its own batch *)
    let '(messageBatches, r) :=
      if bool_decide (0 < length (pendingBatch r))%nat
      then let '(messageBatch, r) := Cut r in ([messageBatch], r)
      else ([], r) in
    Done (messageBatches ++ [[msg]], false, r)
  else
    let messageWillOverflowBatchSizeBytes :=
      u32 (pendingBatchSizeBytes r + size) >? PreferredMaxBytes batchSize in
    let '(messageBatches, r) :=
      if messageWillOverflowBatchSizeBytes
      then let '(messageBatch, r) := Cut r in
           ([messageBatch], {| r with PendingBatchStartTime := now' |})
      else ([], r) in
    let r := {| r with pendingBatch := pendingBatch r ++ [msg];
                       pendingBatchSizeBytes := u32 (pendingBatchSizeBytes r + size) |} in
    if u32 (Z.of_nat (length (pendingBatch r))) >=? MaxMessageCount batchSize
    then let '(messageBatch, r) := Cut r in Done (messageBatches ++ [messageBatch], false, r)
    else Done (messageBatches, true, r).

(** A sequence of calls to [Ordered] under one configuration. *)
Fixpoint OrderedAll (cfg : option BatchSize) (now : time) (msgs : list Envelope) (r : receiver)
    : outcome (list (list Envelope) * receiver) :=
  match msgs with
  | [] => Done ([], r)
  | m :: msgs =>
    '(bs, _, r) ← Ordered cfg now now m r;
    '(bs', r) ← OrderedAll cfg now msgs r;
    Done (bs ++ bs', r)
  end.

(** ** Specification

    The batching rule over unbounded integers and without the byte counter. *)

Fixpoint batchBytes (b : list Envelope) : Z :=
  match b with [] => 0 | m :: b => messageSizeBytes m + batchBytes b end.

(** The pending batch as a block to cut, if it has any messages. *)
Definition nonempty (b : list Envelope) : list (list Envelope) :=
  match b with [] => [] | _ => [b] end.

Inductive cut_step (cfg : BatchSize) (p : list Envelope) (m : Envelope)
    : list (list Envelope) → list Envelope → Prop :=
  | cut_isolated :
      messageSizeBytes m > PreferredMaxBytes cfg →
      cut_step cfg p m (nonempty p ++ [[m]]) []
  | cut_append :
      messageSizeBytes m <= PreferredMaxBytes cfg →
      batchBytes p + messageSizeBytes m <= PreferredMaxBytes cfg →
      Z.of_nat (length p) + 1 < MaxMessageCount cfg →
      cut_step cfg p m [] (p ++ [m])
  | cut_fill :
      messageSizeBytes m <= PreferredMaxBytes cfg →
      batchBytes p + messageSizeBytes m <= PreferredMaxBytes cfg →
      Z.of_nat (length p) + 1 >= MaxMessageCount cfg →
      cut_step cfg p m [p ++ [m]] []
  | cut_overflow :
      messageSizeBytes m <= PreferredMaxBytes cfg →
      batchBytes p + messageSizeBytes m > PreferredMaxBytes cfg →
      1 < MaxMessageCount cfg →
      cut_step cfg p m [p] [m]
  | cut_overflow_fill :
      messageSizeBytes m <= PreferredMaxBytes cfg →
      batchBytes p + messageSizeBytes m > PreferredMaxBytes cfg →
      1 >= MaxMessageCount cfg →
      cut_step cfg p m [p; [m]] [].

(** Configurations under which the 32-bit byte counter cannot wrap. *)
Definition cfg_ok (cfg : BatchSize) : Prop :=
  0 <= PreferredMaxBytes cfg < 2 ^ 31 ∧ is_u32 (MaxMessageCount cfg).

(** The receiver's invariant: the counter is the size of the pending batch,
    which stays far enough from the ends of [uint32]. *)
Definition cutter_wf (r : receiver) : Prop :=
  pendingBatchSizeBytes r = batchBytes (pendingBatch r) ∧
  batchBytes (pendingBatch r) < 2 ^ 31 ∧
  Z.of_nat (length (pendingBatch r)) + 1 < 2 ^ 32.

Lemma messageSizeBytes_range m : is_u32 (messageSizeBytes m).
Proof. apply u32_range. Qed.

Lemma batchBytes_app b c : batchBytes (b ++ c) = batchBytes b + batchBytes c.
Proof. induction b as [|x b IH]; simpl; lia. Qed.

Lemma batchBytes_snoc b m : batchBytes (b ++ [m]) = batchBytes b + messageSizeBytes m.
Proof. rewrite batchBytes_app. simpl. lia. Qed.

Lemma batchBytes_nonneg b : 0 <= batchBytes b.
Proof.
  induction b as [|x b IH]; simpl; [lia|].
  pose proof (messageSizeBytes_range x) as []. lia.
Qed.

Lemma cutter_wf_new : cutter_wf NewReceiverImpl.
Proof. done. Qed.

Lemma cutter_wf_Cut r : cutter_wf (Cut r).2.
Proof. done. Qed.

#[export] Hint Resolve messageSizeBytes_range batchBytes_nonneg cutter_wf_new cutter_wf_Cut : hcs.

(** The part of [Ordered] after the oversize test, as one equation per case. *)
Lemma Ordered_run cfg now now' msg r :
  cfg_ok cfg → cutter_wf r →
  ∃ bs r', Ordered (Some cfg) now now' msg r = Done (bs, bool_decide (pendingBatch r' ≠ []), r') ∧
    cut_step cfg (pendingBatch r) msg bs (pendingBatch r') ∧ cutter_wf r'.
Proof.
  intros [Hp Hm] (Hs & Hb & Hl).
  pose proof (messageSizeBytes_range msg) as [Hm0 _].
  pose proof (batchBytes_nonneg (pendingBatch r)) as Hb0.
  unfold is_u32 in Hm. unfold Ordered. cbn [or_panic mbind outcome_bind].
  set (r1 := if bool_decide _ then _ else r).
  assert (pendingBatch r1 = pendingBatch r ∧ pendingBatchSizeBytes r1 = pendingBatchSizeBytes r)
    as [E1 E2] by (unfold r1; by case_bool_decide).
  rewrite !E1, !E2, Hs. clearbody r1.
  destruct (_ >? _) eqn:C1; zbool.
  { destruct (pendingBatch r) as [|x b] eqn:Eb.
    - rewrite bool_decide_false by (simpl; lia). exists [[msg]], r1. rewrite E1.
      split; [done|]. split; [by apply cut_isolated; lia|]. by split_and!; rewrite ?E1, ?E2.
    - rewrite bool_decide_true by (simpl; lia). exists [x :: b; [msg]], NewReceiverImpl.
      unfold Cut. rewrite E1. split; [done|]. split; [by apply (cut_isolated cfg (x :: b)); lia|done]. }
  rewrite (u32_small (batchBytes (pendingBatch r) + messageSizeBytes msg)) by (unfold is_u32; lia).
  destruct (_ >? _) eqn:C2; zbool; simpl.
  - rewrite ?Z.add_0_l, (u32_small (messageSizeBytes msg)) by (unfold is_u32; lia).
    change (u32 (Z.of_nat 1)) with 1.
    rewrite E1. destruct (_ >=? _) eqn:C3; zbool.
    + exists [pendingBatch r; [msg]], NewReceiverImpl. split; [done|]. split; [apply cut_overflow_fill; lia|done].
    + exists [pendingBatch r], (mkReceiver [msg] (messageSizeBytes msg) now').
      split; [done|]. split; [apply cut_overflow; lia|]. split_and!; simpl; lia.
  - rewrite E1, E2, Hs, length_app. simpl. rewrite !u32_small by (unfold is_u32; lia).
    destruct (_ >=? _) eqn:C3; zbool.
    + exists [pendingBatch r ++ [msg]], NewReceiverImpl. split; [done|]. split; [apply cut_fill; lia|done].
    + eexists [], (mkReceiver (pendingBatch r ++ [msg]) _ _).
      split; [by rewrite bool_decide_true by (simpl; by destruct (pendingBatch r))|].
      split; [apply cut_append; lia|]. split_and!; simpl; rewrite ?batchBytes_snoc, ?length_app; simpl; lia.
Qed.

(** ** What batches look like *)

(** A batch respects the limits: it holds at most [MaxMessageCount] messages,
    and at most [PreferredMaxBytes] bytes unless it is one oversized message. *)
Definition batch_ok (cfg : BatchSize) (b : list Envelope) : Prop :=
  b ≠ [] ∧ Z.of_nat (length b) <= Z.max 1 (MaxMessageCount cfg) ∧
  (batchBytes b <= PreferredMaxBytes cfg ∨
   ∃ m, b = [m] ∧ messageSizeBytes m > PreferredMaxBytes cfg).

(** The messages left pending could still take another message by count. *)
Definition pending_ok (cfg : BatchSize) (p : list Envelope) : Prop :=
  p = [] ∨ (batchBytes p <= PreferredMaxBytes cfg ∧ Z.of_nat (length p) < MaxMessageCount cfg).

(** Batch [b] had to be closed before message [m]. *)
Definition closed_before (cfg : BatchSize) (b : list Envelope) (m : Envelope) : Prop :=
  messageSizeBytes m > PreferredMaxBytes cfg ∨
  batchBytes b + messageSizeBytes m > PreferredMaxBytes cfg ∨
  Z.of_nat (length b) >= MaxMessageCount cfg.

(** No batch was cut earlier than the limits require. *)
Fixpoint greedy (cfg : BatchSize) (bs : list (list Envelope)) : Prop :=
  match bs with
  | b :: bs' =>
    (∀ m, head (concat bs') = Some m → closed_before cfg b m) ∧ greedy cfg bs'
  | [] => True
  end.

Lemma concat_nonempty p : concat (nonempty p) = p.
Proof. destruct p; simpl; [done|]. by rewrite app_nil_r. Qed.

Lemma cut_step_concat cfg p m bs p' : cut_step cfg p m bs p' → concat bs ++ p' = p ++ [m].
Proof.
  destruct 1; rewrite ?concat_app, ?concat_nonempty; simpl; rewrite ?app_nil_r; done.
Qed.

Lemma cut_step_ok cfg p m bs p' :
  cut_step cfg p m bs p' → pending_ok cfg p → Forall (batch_ok cfg) bs ∧ pending_ok cfg p'.
Proof.
  intros Hc Hp.
  assert (Hpb : p ≠ [] → batch_ok cfg p).
  { intros Hne. destruct Hp as [|[]]; [done|]. split_and!; [done|lia|by left]. }
  assert (messageSizeBytes m <= PreferredMaxBytes cfg →
          batchBytes p + messageSizeBytes m > PreferredMaxBytes cfg → p ≠ []).
  { intros ?? ->. simpl in *. lia. }
  destruct Hc; unfold pending_ok; rewrite ?Forall_app, ?Forall_cons, ?Forall_nil.
  - split_and!; try done; [destruct p; simpl; auto|..|by left].
    split_and!; [done|simpl; lia|eauto].
  - split; [done|]. right. rewrite batchBytes_snoc, length_app. simpl. lia.
  - split_and!; [|done|by left]. split_and!; [by destruct p| |].
    + rewrite length_app. simpl. destruct Hp as [->|[]]; simpl; lia.
    + left. rewrite batchBytes_snoc. lia.
  - split_and!; auto. right. simpl. lia.
  - split_and!; auto. split_and!; [done|simpl; lia|left; simpl; lia].
Qed.

Lemma cut_step_greedy cfg p m bs p' L :
  cut_step cfg p m bs p' → greedy cfg L →
  (∀ x, head p' = Some x → head (concat L) = Some x) → greedy cfg (bs ++ L).
Proof.
  intros Hc HL Hh. pose proof messageSizeBytes_range as R. unfold is_u32 in R.
  destruct Hc; simpl; auto.
  - assert (greedy cfg ([m] :: L)).
    { split; [|done]. intros x _. unfold closed_before. simpl. specialize (R x). lia. }
    destruct p as [|y p]; simpl; [done|]. split; [|done]. intros x [= <-]. by left.
  - split; [|done]. intros x _. unfold closed_before. rewrite length_app. simpl. lia.
  - split; [|done]. rewrite (Hh m) by done. intros x [= <-]. unfold closed_before. lia.
  - split_and!; [|intros x _; unfold closed_before; simpl; lia|done].
    intros x [= <-]. unfold closed_before. lia.
Qed.

Lemma OrderedAll_run cfg now msgs r :
  cfg_ok cfg → cutter_wf r → pending_ok cfg (pendingBatch r) →
  ∃ bs r', OrderedAll (Some cfg) now msgs r = Done (bs, r') ∧ cutter_wf r' ∧
    concat bs ++ pendingBatch r' = pendingBatch r ++ msgs ∧
    Forall (batch_ok cfg) bs ∧ pending_ok cfg (pendingBatch r') ∧
    greedy cfg (bs ++ nonempty (pendingBatch r')).
Proof.
  intros Hcfg. revert r. induction msgs as [|m msgs IH]; intros r Hwf Hp.
  { exists [], r. rewrite app_nil_r. split_and!; try done. simpl.
    by destruct (pendingBatch r). }
  destruct (Ordered_run cfg now now m r Hcfg Hwf) as (bs1 & r1 & E1 & Hc & Hwf1).
  destruct (cut_step_ok _ _ _ _ _ Hc Hp) as [Hbs1 Hp1].
  destruct (IH r1 Hwf1 Hp1) as (bs2 & r2 & E2 & Hwf2 & Hcat & Hbs2 & Hp2 & Hg).
  exists (bs1 ++ bs2), r2. split_and!; try done.
  - simpl. rewrite E1. simpl. by rewrite E2.
  - rewrite concat_app, <- app_assoc, Hcat, app_assoc, (cut_step_concat _ _ _ _ _ Hc), <- app_assoc.
    done.
  - by apply Forall_app.
  - rewrite <- app_assoc. eapply cut_step_greedy; [done..|].
    intros x Hx. rewrite concat_app, concat_nonempty, Hcat.
    destruct (pendingBatch r1); simpl in *; congruence.
Qed.

(** The shape of the results of [Ordered], under any configuration. *)
Lemma Ordered_shape cfg now now' msg r :
  ∃ bs r', Ordered (Some cfg) now now' msg r = Done (bs, bool_decide (pendingBatch r' ≠ []), r') ∧
    concat bs ++ pendingBatch r' = pendingBatch r ++ [msg] ∧ (length bs <= 2)%nat ∧
    (pendingBatch r' ≠ [] → last (pendingBatch r') = Some msg ∧ length bs ≠ 2%nat).
Proof.
  unfold Ordered. cbn [or_panic mbind outcome_bind].
  set (r1 := if bool_decide _ then _ else r).
  assert (pendingBatch r1 = pendingBatch r) as E1 by (unfold r1; by case_bool_decide).
  rewrite <- E1. clearbody r1. clear E1 r.
  destruct (_ >? _).
  { destruct (pendingBatch r1) as [|x b] eqn:Eb.
    - rewrite bool_decide_false by (simpl; lia). exists [[msg]], r1. rewrite Eb. simpl. split_and!; done || lia.
    - rewrite bool_decide_true by (simpl; lia). exists [x :: b; [msg]], NewReceiverImpl.
      unfold Cut. rewrite Eb. simpl. by rewrite app_nil_r. }
  destruct (_ >? _); simpl.
  - destruct (_ >=? _).
    + exists [pendingBatch r1; [msg]], NewReceiverImpl. split; [done|]. simpl. by rewrite ?app_nil_r.
    + eexists [pendingBatch r1], (mkReceiver [msg] _ _). split; [done|]. simpl.
      rewrite ?app_nil_r. split_and!; done || lia.
  - destruct (_ >=? _).
    + exists [pendingBatch r1 ++ [msg]], NewReceiverImpl. split; [done|]. simpl.
      rewrite !app_nil_r. split_and!; done || lia.
    + eexists [], (mkReceiver (pendingBatch r1 ++ [msg]) _ _). simpl.
      split; [by rewrite bool_decide_true by (by destruct (pendingBatch r1))|].
      rewrite last_snoc. split_and!; done || lia.
Qed.

(** The result does not depend on the clock. *)
Lemma Ordered_view cfg n1 n1' n2 n2' msg r1 r2 bs1 p1 r1' bs2 p2 r2' :
  pendingBatch r1 = pendingBatch r2 → pendingBatchSizeBytes r1 = pendingBatchSizeBytes r2 →
  Ordered cfg n1 n1' msg r1 = Done (bs1, p1, r1') → Ordered cfg n2 n2' msg r2 = Done (bs2, p2, r2') →
  bs1 = bs2 ∧ p1 = p2 ∧ pendingBatch r1' = pendingBatch r2' ∧
  pendingBatchSizeBytes r1' = pendingBatchSizeBytes r2'.
Proof.
  destruct r1 as [b z t1], r2 as [b2 z2 t2]. simpl. intros <- <-. destruct cfg as [cfg|]; [|done].
  unfold Ordered, Cut. cbn [or_panic mbind outcome_bind pendingBatch].
  destruct (bool_decide (length b = 0%nat)); cbn [pendingBatch pendingBatchSizeBytes PendingBatchStartTime];
    destruct (_ >? _); [destruct (bool_decide _)| |destruct (bool_decide _)|];
    cbn [pendingBatch pendingBatchSizeBytes PendingBatchStartTime];
    intros H1 H2; try by run_inv.
  all: destruct (_ >? _); cbn [pendingBatch pendingBatchSizeBytes PendingBatchStartTime] in *;
    destruct (_ >=? _); by run_inv.
Qed.

(** ** Properties *)

(** No message is lost, duplicated or reordered by one call of
    [Ordered], whatever the configuration and the state of the receiver: the
    batches cut, followed by the new pending batch, are the old pending batch
    followed by the message; and the flag returned tells whether messages are
    left pending. *)
Theorem Ordered_conserves cfg now now' msg r :
  ∃ bs r', Ordered (Some cfg) now now' msg r = Done (bs, bool_decide (pendingBatch r' ≠ []), r') ∧
    concat bs ++ pendingBatch r' = pendingBatch r ++ [msg].
Proof. destruct (Ordered_shape cfg now now' msg r) as (bs & r' & ? & ? & _). eauto. Qed.

(** C18. A run of [Ordered] from a new receiver implements the batching rule
    of the configuration: every batch respects [MaxMessageCount] and
    [PreferredMaxBytes] (unless it is a single oversized message), no batch is
    empty, batches are cut only when a limit requires it, the messages come out
    in order, and what is left pending could not have been cut yet. *)
Theorem OrderedAll_greedy cfg now msgs :
  cfg_ok cfg →
  ∃ bs r', OrderedAll (Some cfg) now msgs NewReceiverImpl = Done (bs, r') ∧
    concat bs ++ pendingBatch r' = msgs ∧
    Forall (batch_ok cfg) bs ∧ pending_ok cfg (pendingBatch r') ∧
    greedy cfg (bs ++ nonempty (pendingBatch r')).
Proof.
  intros Hcfg.
  destruct (OrderedAll_run cfg now msgs NewReceiverImpl) as (bs & r' & ? & _ & ? & ? & ? & ?);
    [done|auto with hcs|by left|]. eauto 10.
Qed.

Definition demo_env (n : nat) : Envelope := mkEnvelope (replicate n Byte.x00) [].

Lemma OrderedAll_greedy_witness :
  ∃ bs r', OrderedAll (Some (mkBatchSize 3 100 10)) 5 (demo_env <$> [4; 4; 4; 20; 1; 1; 1; 2])%nat
             NewReceiverImpl = Done (bs, r') ∧
    concat bs ++ pendingBatch r' = (demo_env <$> [4; 4; 4; 20; 1; 1; 1; 2])%nat ∧
    Forall (batch_ok (mkBatchSize 3 100 10)) bs ∧
    pending_ok (mkBatchSize 3 100 10) (pendingBatch r') ∧
    greedy (mkBatchSize 3 100 10) (bs ++ nonempty (pendingBatch r')).
Proof. apply OrderedAll_greedy. vm_compute. intuition congruence. Defined.

Example OrderedAll_demo :
  match OrderedAll (Some (mkBatchSize 3 100 10)) 5 (demo_env <$> [4; 4; 4; 20; 1; 1; 1; 2])%nat
          NewReceiverImpl with
  | Done (bs, r') => (length <$> bs, length (pendingBatch r')) = ([2; 1; 1; 3], 1)%nat
  | Panic _ => False
  end.
Proof. vm_compute. reflexivity. Qed.

(** The table of results documented on [Ordered] is complete under a
    configuration whose [MaxMessageCount] exceeds one: no batch leaves messages
    pending, one batch may or may not, two batches never do, and more than two
    never happen. Two batches are cut only for an oversized message. *)
Theorem Ordered_result_table cfg now now' msg r bs pend r' :
  cfg_ok cfg → cutter_wf r → 1 < MaxMessageCount cfg →
  Ordered (Some cfg) now now' msg r = Done (bs, pend, r') →
  (length bs = 0%nat ∧ pend = true) ∨ length bs = 1%nat ∨
  (length bs = 2%nat ∧ pend = false ∧ messageSizeBytes msg > PreferredMaxBytes cfg ∧
   pendingBatch r ≠ []).
Proof.
  intros Hcfg Hwf Hm H.
  destruct (Ordered_run cfg now now' msg r Hcfg Hwf) as (bs' & r'' & E & Hc & _).
  rewrite E in H. run_inv. inversion Hc; subst; simpl in *; try lia; auto.
  - destruct (pendingBatch r) eqn:Ep; simpl; [auto|]. right. right. auto.
  - left. rewrite bool_decide_true; [done|]. by destruct (pendingBatch r).
Qed.

Lemma Ordered_result_table_witness :
  let bs := [[demo_env 3]; [demo_env 20]] in
  (length bs = 0%nat ∧ false = true) ∨ length bs = 1%nat ∨
  (length bs = 2%nat ∧ false = false ∧ messageSizeBytes (demo_env 20) > 10 ∧ [demo_env 3] ≠ []).
Proof.
  apply (Ordered_result_table (mkBatchSize 3 100 10) 0 0 (demo_env 20)
           (mkReceiver [demo_env 3] 3 0) [[demo_env 3]; [demo_env 20]] false NewReceiverImpl).
  - vm_compute. intuition congruence.
  - vm_compute. intuition congruence.
  - reflexivity.
  - vm_compute. reflexivity.
Defined.
