(* ===== verification/Support.v ===== *)
(** * Interfaces between the orderer's components

    [channelconfig.Orderer] and [channelconfig.Resources]: what a configuration
    bundle offers; [consensus.ConsenterSupport]: what a channel offers to a
    consensus plug-in. The consensus theorems are proved against the laws of
    [ConsenterSupportOk]; the channel of [ChainSupport] discharges them. *)

From stdpp Require Import gmap strings list.
From S2P Require Import Prelude Protos BlockCutter.

(** ** Channel configuration *)

(** [channelconfig.Orderer] *)
Record OrdererConfig := mkOrdererConfig {
  ConsensusType : string;
  ConsensusMetadata : bytes;
  oc_BatchSize : BatchSize;
  BatchTimeout : duration
}.

(** [channelconfig.Resources], as far as the orderer uses it. *)
Class Resources (Bundle ConfigEnvelope : Type) := {
  bundle_Sequence : Bundle → Z;
  bundle_OrdererConfig : Bundle → option OrdererConfig;
  bundle_Validate : ConfigEnvelope → Bundle → res unit;
  CreateBundle : string → ConfigEnvelope → res Bundle;
  ordererCapabilitiesSupported : Bundle → bool;
  channelCapabilitiesSupported : Bundle → bool
}.

(** [ValidatorImpl.Validate] only accepts a configuration with the next
    sequence number, which becomes the sequence of its bundle. *)
Class ResourcesOk (Bundle ConfigEnvelope : Type) `{!Resources Bundle ConfigEnvelope} := {
  validate_next b b' chan ce :
    bundle_Validate ce b = Ok tt → CreateBundle chan ce = Ok b' →
    bundle_Sequence b' = u64 (bundle_Sequence b + 1)
}.

(** ** Consenter support

    [Ordered] and [Cut] are those of [BlockCutter()]; the two times are the
    clock readings of [Ordered]. *)
Class ConsenterSupport (S : Type) := {
  cs_Height : S → Z;
  cs_Sequence : S → Z;
  cs_SharedConfig : S → outcome OrdererConfig;
  cs_Ordered : time → time → Envelope → S → outcome (list (list Envelope) * bool * S);
  cs_Cut : S → list Envelope * S;
  cs_CreateNextBlock : list Envelope → S → Block;
  cs_WriteBlock : Block → nbytes → S → outcome S;
  cs_WriteConfigBlock : Block → nbytes → S → outcome S;
  cs_ProcessNormalMsg : Envelope → S → res Z;
  cs_ProcessConfigMsg : Envelope → S → res (Envelope * Z)
}.

(** The laws, for a notion [same_view] of channels that agree on everything
    consensus decides: the pending messages, the last header and the
    configuration, but not the block metadata or what is local to an orderer. *)
Class ConsenterSupportOk (S : Type) `{!ConsenterSupport S} := {
  same_view : relation S;
  cs_pending : S → list Envelope;
  cs_lastNumber : S → Z;
  cs_batchOf : Block → list Envelope;
  sv_equivalence :: Equivalence same_view;
  sv_pending s1 s2 : same_view s1 s2 → cs_pending s1 = cs_pending s2;
  sv_lastNumber s1 s2 : same_view s1 s2 → cs_lastNumber s1 = cs_lastNumber s2;
  sv_Sequence s1 s2 : same_view s1 s2 → cs_Sequence s1 = cs_Sequence s2;
  sv_SharedConfig s1 s2 : same_view s1 s2 → cs_SharedConfig s1 = cs_SharedConfig s2;
  sv_Create s1 s2 msgs :
    same_view s1 s2 → cs_CreateNextBlock msgs s1 = cs_CreateNextBlock msgs s2;
  sv_Cut s1 s2 :
    same_view s1 s2 → (cs_Cut s1).1 = (cs_Cut s2).1 ∧ same_view (cs_Cut s1).2 (cs_Cut s2).2;
  sv_Ordered s1 s2 n1 n1' n2 n2' m bs1 p1 s1' bs2 p2 s2' :
    same_view s1 s2 →
    cs_Ordered n1 n1' m s1 = Done (bs1, p1, s1') → cs_Ordered n2 n2' m s2 = Done (bs2, p2, s2') →
    bs1 = bs2 ∧ p1 = p2 ∧ same_view s1' s2';
  sv_Write s1 s2 b md1 md2 s1' s2' :
    same_view s1 s2 →
    cs_WriteBlock b md1 s1 = Done s1' → cs_WriteBlock b md2 s2 = Done s2' → same_view s1' s2';
  sv_WriteConfig s1 s2 b md1 md2 s1' s2' :
    same_view s1 s2 →
    cs_WriteConfigBlock b md1 s1 = Done s1' → cs_WriteConfigBlock b md2 s2 = Done s2' →
    same_view s1' s2';
  (* the block cutter *)
  cut_all s : cs_Cut s = (cs_pending s, (cs_Cut s).2) ∧ cs_pending (cs_Cut s).2 = [] ∧
    cs_lastNumber (cs_Cut s).2 = cs_lastNumber s ∧ cs_Sequence (cs_Cut s).2 = cs_Sequence s ∧
    cs_SharedConfig (cs_Cut s).2 = cs_SharedConfig s;
  ordered_spec s n n' m bs p s' :
    cs_Ordered n n' m s = Done (bs, p, s') →
    (length bs <= 2)%nat ∧ concat bs ++ cs_pending s' = cs_pending s ++ [m] ∧
    p = bool_decide (cs_pending s' ≠ []) ∧ (p = true → last (cs_pending s') = Some m) ∧
    (length bs = 2%nat → p = false) ∧
    cs_lastNumber s' = cs_lastNumber s ∧ cs_Sequence s' = cs_Sequence s ∧
    cs_SharedConfig s' = cs_SharedConfig s;
  (* the block writer *)
  create_number msgs s :
    hdr_Number (blk_Header (cs_CreateNextBlock msgs s)) = u64 (cs_lastNumber s + 1);
  create_batch msgs s : cs_batchOf (cs_CreateNextBlock msgs s) = msgs;
  write_frame b md s s' :
    cs_WriteBlock b md s = Done s' →
    cs_pending s' = cs_pending s ∧ cs_lastNumber s' = hdr_Number (blk_Header b) ∧
    cs_Sequence s' = cs_Sequence s ∧ cs_SharedConfig s' = cs_SharedConfig s;
  write_config_frame b md s s' :
    cs_WriteConfigBlock b md s = Done s' →
    cs_pending s' = cs_pending s ∧ cs_lastNumber s' = hdr_Number (blk_Header b)
}.
