(* ===== verification/Blocks.v ===== *)
(** * Blocks

    [protoutil/blockutils.go] and the parts of [protoutil/commonutils.go] and
    [protoutil/unmarshalers.go] that work on blocks: building a block, the DER
    encoding and the hash of its header, the hash of its data and access to
    its metadata. SHA-256 and the protobuf codecs are parameters. *)

From stdpp Require Import gmap strings list.
From Stdlib Require Import Strings.Byte.
From S2P Require Import Prelude Protos.

(** ** [encoding/asn1]

    What [asn1.Marshal] writes for a sequence of an integer and two octet
    strings. *)

(** [big.Int.Bytes] and the digits of a long-form length: big endian, without
    leading zeros. Numbers and lengths have at most 64 bits: 8 steps. *)
Fixpoint be_digits (fuel : nat) (n : Z) (acc : bytes) : bytes :=
  match fuel with
  | O => acc
  | S fuel => if n =? 0 then acc else be_digits fuel (n / 256) (byte_of_Z n :: acc)
  end.

Definition be_bytes (n : Z) : bytes := be_digits 8 n [].

(** [makeBigInt] for a non-negative number: zero is one zero byte, and a number
    whose first bit is set gets a leading zero byte. *)
Definition asn1_integer (n : Z) : bytes :=
  match be_bytes n with
  | [] => [x00]
  | b :: l => if Z_of_byte b >=? 128 then x00 :: b :: l else b :: l
  end.

(** [appendTagAndLength] for the low tags. *)
Definition asn1_length (n : Z) : bytes :=
  if n <? 128 then [byte_of_Z n]
  else byte_of_Z (128 + blen (be_bytes n)) :: be_bytes n.

Definition asn1_tlv (tag : byte) (content : bytes) : bytes :=
  tag :: asn1_length (blen content) ++ content.

Section blocks.
Context `{!Codec Metadata, !Codec OrdererBlockMetadata, !Codec LastConfig}.
Context `{!Codec Envelope, !Codec Payload, !Codec ChannelHeader}.
Context (sha256 : bytes → bytes).

(** ** Blocks and their hashes *)

(** [len(cb.BlockMetadataIndex_name)] is 5. *)
Definition NewBlock (seqNum : Z) (previousHash : bytes) : Block :=
  mkBlock (mkBlockHeader seqNum previousHash []) (Some []) (Some (replicate 5 [])).

Definition BlockHeaderBytes (b : BlockHeader) : bytes :=
  asn1_tlv x30 (asn1_tlv x02 (asn1_integer (hdr_Number b))
                ++ asn1_tlv x04 (hdr_PreviousHash b) ++ asn1_tlv x04 (hdr_DataHash b)).

Definition BlockHeaderHash (b : BlockHeader) : bytes := sha256 (BlockHeaderBytes b).

(** [bytes.Join(data, nil)] is the concatenation. *)
Definition BlockDataHash (data : list bytes) : bytes := sha256 (concat data).

(** ** Metadata *)

Definition GetMetadataFromBlock (block : Block) (index : nat) : res Metadata :=
  match blk_Metadata block with
  | None => Err (Errorf "no metadata in block")
  | Some mds =>
    match mds !! index with
    | None => Err (Errorf "no metadata at index")
    | Some raw => or_err "error unmarshaling metadata at index" (unmarshal raw)
    end
  end.

(** [errors.Wrap] and [errors.WithMessage] on the error of a call. *)
Definition wrap {A} (msg : string) (r : res A) : res A :=
  match r with Ok a => Ok a | Err e => Err (Wrap e msg) end.

Definition GetConsenterMetadataFromBlock (block : Block) : res Metadata :=
  m ← wrap "failed to retrieve metadata" (GetMetadataFromBlock block BlockMetadataIndex_SIGNATURES);
  if nlen (mdt_Value m) =? 0 then GetMetadataFromBlock block BlockMetadataIndex_ORDERER else
  obm ← or_err "failed to unmarshal orderer block metadata"
          (unmarshal (A:=OrdererBlockMetadata) (nb (mdt_Value m)));
  or_err "failed to unmarshal consenter metadata" (unmarshal (obm_ConsenterMetadata obm)).

(** A metadata value without [LastConfig] is a nil pointer dereference. *)
Definition GetLastConfigIndexFromBlock (block : Block) : outcome (res Z) :=
  match wrap "failed to retrieve metadata"
          (GetMetadataFromBlock block BlockMetadataIndex_SIGNATURES) with
  | Err e => Done (Err e)
  | Ok m =>
    if nlen (mdt_Value m) =? 0 then
      Done (m ← wrap "failed to retrieve metadata"
                  (GetMetadataFromBlock block BlockMetadataIndex_LAST_CONFIG);
            lc ← or_err "error unmarshaling LastConfig" (unmarshal (nb (mdt_Value m)));
            Ok (lc_Index lc))
    else
      match unmarshal (A:=OrdererBlockMetadata) (nb (mdt_Value m)) with
      | None => Done (Err (Errorf "failed to unmarshal orderer block metadata"))
      | Some obm =>
        lc ← or_panic "nil pointer dereference: LastConfig" (obm_LastConfig obm);
        Done (Ok (lc_Index lc))
      end
  end.

Definition GetLastConfigIndexFromBlockOrPanic (block : Block) : outcome Z :=
  r ← GetLastConfigIndexFromBlock block;
  match r with Ok i => Done i | Err _ => Panic "GetLastConfigIndexFromBlockOrPanic" end.

(** Pads the metadata with empty entries up to the five positions. *)
Definition InitBlockMetadata (block : Block) : Block :=
  match blk_Metadata block with
  | None => {| block with blk_Metadata := Some (replicate 5 []) |}
  | Some mds => {| block with blk_Metadata := Some (mds ++ replicate (5 - length mds) []) |}
  end.

Definition CopyBlockMetadata (src dst : Block) : Block :=
  InitBlockMetadata {| dst with blk_Metadata := blk_Metadata src |}.

(** ** Envelopes *)

Definition UnmarshalPayload (encoded : bytes) : res Payload :=
  or_err "error unmarshaling Payload" (unmarshal encoded).

Definition UnmarshalEnvelope (encoded : bytes) : res Envelope :=
  or_err "error unmarshaling Envelope" (unmarshal encoded).

Definition UnmarshalChannelHeader (encoded : bytes) : res ChannelHeader :=
  or_err "error unmarshaling ChannelHeader" (unmarshal encoded).

Definition GetEnvelopeFromBlock (data : bytes) : res Envelope :=
  or_err "error unmarshaling Envelope" (unmarshal data).

Definition ExtractEnvelope (block : Block) (index : Z) : res Envelope :=
  match blk_Data block with
  | None => Err (Errorf "block data is nil")
  | Some data =>
    if (index <? 0) || (index >=? Z.of_nat (length data))
    then Err (Errorf "envelope index out of bounds")
    else
      raw ← or_err "index out of range" (data !! Z.to_nat index);
      wrap "block data does not carry an envelope at index" (GetEnvelopeFromBlock raw)
  end.

(** [UnmarshalEnvelopeOfType], for a message type with its codec. *)
Definition UnmarshalEnvelopeOfType {A} `{!Codec A} (envelope : Envelope) (headerType : Z)
    : res (ChannelHeader * A) :=
  payload ← UnmarshalPayload (env_Payload envelope);
  hdr ← or_err "envelope must have a Header" (pl_Header payload);
  chdr ← UnmarshalChannelHeader (nb (h_ChannelHeader hdr));
  if bool_decide (ch_Type chdr ≠ headerType) then Err (Errorf "invalid type") else
  message ← or_err "error unmarshaling message for type" (unmarshal (pl_Data payload));
  Ok (chdr, message).

Definition IsConfigBlock (block : Block) : bool :=
  match (envelope ← ExtractEnvelope block 0;
         payload ← UnmarshalPayload (env_Payload envelope);
         hdr ← or_err "no header" (pl_Header payload);
         UnmarshalChannelHeader (nb (h_ChannelHeader hdr))) with
  | Err _ => false
  | Ok hdr => bool_decide (ch_Type hdr = HeaderType_CONFIG) ||
              bool_decide (ch_Type hdr = HeaderType_ORDERER_TRANSACTION)
  end.

(** [protoutil.ChannelHeader] and [protoutil.ChannelID]. *)
Definition ChannelHeaderOf (env : Envelope) : res ChannelHeader :=
  envPayload ← UnmarshalPayload (env_Payload env);
  hdr ← or_err "header not set" (pl_Header envPayload);
  raw ← or_err "channel header not set" (h_ChannelHeader hdr);
  wrap "error unmarshaling channel header" (UnmarshalChannelHeader raw).

Definition ChannelIDOf (env : Envelope) : res string :=
  chdr ← wrap "error retrieving channel header" (ChannelHeaderOf env);
  Ok (ch_ChannelId chdr).

Definition GetChannelIDFromBlock (block : option Block) : res string :=
  match block with
  | None => Err (Errorf "failed to retrieve channel id - block is empty")
  | Some block =>
    match blk_Data block with
    | None | Some [] => Err (Errorf "failed to retrieve channel id - block is empty")
    | Some (raw :: _) =>
      envelope ← GetEnvelopeFromBlock raw;
      payload ← UnmarshalPayload (env_Payload envelope);
      hdr ← or_err "failed to retrieve channel id - payload header is empty" (pl_Header payload);
      chdr ← UnmarshalChannelHeader (nb (h_ChannelHeader hdr));
      Ok (ch_ChannelId chdr)
    end
  end.
End blocks.

(** ** The header encoding is injective *)

Definition be_value (b : bytes) : Z := foldl (λ a x, a * 256 + Z_of_byte x) 0 b.

Lemma be_value_from a b :
  foldl (λ a x, a * 256 + Z_of_byte x) a b = a * 256 ^ blen b + be_value b.
Proof.
  unfold be_value, blen. revert a. induction b as [|x b IH]; intros a; simpl foldl.
  - simpl. lia.
  - rewrite IH, (IH (0 * 256 + _)). rewrite length_cons, Nat2Z.inj_succ, Z.pow_succ_r by lia. lia.
Qed.

Lemma be_digits_value fuel n acc :
  0 <= n < 256 ^ Z.of_nat fuel →
  be_value (be_digits fuel n acc) = n * 256 ^ blen acc + be_value acc ∧
  (length (be_digits fuel n acc) <= fuel + length acc)%nat.
Proof.
  revert n acc. induction fuel as [|fuel IH]; intros n acc Hn.
  - simpl in *. split; [|lia]. assert (n = 0) by lia. lia.
  - rewrite Nat2Z.inj_succ, Z.pow_succ_r in Hn by lia. simpl be_digits.
    destruct (n =? 0) eqn:E; zbool; [subst; split; lia|].
    destruct (IH (n / 256) (byte_of_Z n :: acc)) as [-> Hl].
    { split; [apply Z.div_pos; lia|apply Z.div_lt_upper_bound; lia]. }
    split; [|simpl in *; lia].
    unfold be_value at 1. simpl foldl. rewrite be_value_from, Z_of_byte_of_Z.
    unfold blen. rewrite length_cons, Nat2Z.inj_succ, Z.pow_succ_r by lia.
    pose proof (Z.div_mod n 256). nia.
Qed.

Lemma be_bytes_value n : is_u64 n → be_value (be_bytes n) = n ∧ (length (be_bytes n) <= 8)%nat.
Proof.
  intros Hn. destruct (be_digits_value 8 n []) as [E L].
  { unfold is_u64 in Hn. change (256 ^ Z.of_nat 8) with (2 ^ 64). lia. }
  unfold be_bytes. rewrite E. simpl in *. unfold be_value, blen. simpl. split; lia.
Qed.

Lemma asn1_integer_value n : is_u64 n → be_value (asn1_integer n) = n.
Proof.
  intros Hn. destruct (be_bytes_value n Hn) as [E _]. unfold asn1_integer.
  destruct (be_bytes n) as [|b l]; [by rewrite <- E|].
  destruct (_ >=? _); [|done]. rewrite <- E. done.
Qed.

Lemma asn1_length_prefix n n' r r' :
  is_u64 n → is_u64 n' → asn1_length n ++ r = asn1_length n' ++ r' → n = n' ∧ r = r'.
Proof.
  intros Hn Hn'. destruct (be_bytes_value n Hn) as [E L], (be_bytes_value n' Hn') as [E' L'].
  unfold asn1_length, blen, is_u64 in *.
  destruct (n <? 128) eqn:C, (n' <? 128) eqn:C'; zbool; simpl; intros H; injection H as Hb H;
    apply (f_equal Z_of_byte) in Hb; rewrite !Z_of_byte_of_Z, !Z.mod_small in Hb by lia;
    try lia; [done|].
  apply app_inj_1 in H as [H ->]; [|lia]. split; [congruence|done].
Qed.

Lemma asn1_tlv_prefix t c c' r r' :
  blen c < 2 ^ 64 → blen c' < 2 ^ 64 →
  asn1_tlv t c ++ r = asn1_tlv t c' ++ r' → c = c' ∧ r = r'.
Proof.
  unfold asn1_tlv. intros Hc Hc' H. injection H as H. rewrite <- !app_assoc in H.
  apply asn1_length_prefix in H as [Hl H]; [|unfold is_u64, blen in *; lia..].
  unfold blen in Hl. by apply app_inj_1 in H; [|lia].
Qed.

(** The headers the encoder is used on: a [uint64] number and hashes whose
    lengths leave room in the 64-bit length of the sequence. *)
Definition header_ok (h : BlockHeader) : Prop :=
  is_u64 (hdr_Number h) ∧ blen (hdr_PreviousHash h) < 2 ^ 32 ∧ blen (hdr_DataHash h) < 2 ^ 32.

Lemma asn1_integer_length n : is_u64 n → blen (asn1_integer n) < 2 ^ 5.
Proof.
  intros Hn. destruct (be_bytes_value n Hn) as [_ L]. unfold asn1_integer, blen.
  destruct (be_bytes n) as [|b l]; [simpl; lia|]. simpl in L. destruct (_ >=? _); simpl; lia.
Qed.

Lemma asn1_tlv_length t c : blen c < 2 ^ 64 → blen (asn1_tlv t c) <= blen c + 10.
Proof.
  intros Hc. destruct (be_bytes_value (blen c)) as [_ L].
  { split; [unfold blen; lia|done]. }
  unfold asn1_tlv, asn1_length, blen in *.
  destruct (_ <? _); simpl; rewrite ?length_app; simpl; lia.
Qed.

Lemma BlockHeaderBytes_injective h h' :
  header_ok h → header_ok h' → BlockHeaderBytes h = BlockHeaderBytes h' → h = h'.
Proof.
  intros (Hn & Hp & Hd) (Hn' & Hp' & Hd') H.
  assert (Hlen : ∀ h, header_ok h → blen (asn1_tlv x02 (asn1_integer (hdr_Number h)) ++
      asn1_tlv x04 (hdr_PreviousHash h) ++ asn1_tlv x04 (hdr_DataHash h)) < 2 ^ 64).
  { intros k (Kn & Kp & Kd). pose proof (asn1_integer_length _ Kn).
    pose proof (asn1_tlv_length x02 (asn1_integer (hdr_Number k)) ltac:(lia)).
    pose proof (asn1_tlv_length x04 (hdr_PreviousHash k) ltac:(lia)).
    pose proof (asn1_tlv_length x04 (hdr_DataHash k) ltac:(lia)).
    unfold blen in *. rewrite !length_app. lia. }
  unfold BlockHeaderBytes in H. rewrite <- (app_nil_r (asn1_tlv x30 _)) in H.
  rewrite <- (app_nil_r (asn1_tlv x30 (_ ++ asn1_tlv _ (hdr_PreviousHash h') ++ _))) in H.
  apply asn1_tlv_prefix in H as [H _]; [|by apply Hlen..].
  pose proof (asn1_integer_length _ Hn) as L. pose proof (asn1_integer_length _ Hn') as L'.
  apply asn1_tlv_prefix in H as [H1 H]; [|lia..].
  apply asn1_tlv_prefix in H as [H2 H]; [|lia..].
  rewrite <- (app_nil_r (asn1_tlv _ _)) in H.
  rewrite <- (app_nil_r (asn1_tlv x04 (hdr_DataHash h'))) in H.
  apply asn1_tlv_prefix in H as [H3 _]; [|lia..].
  apply (f_equal be_value) in H1. rewrite !asn1_integer_value in H1 by done.
  destruct h, h'. simpl in *. congruence.
Qed.

(** ** The hash chain *)

Section chain.
Context (sha256 : bytes → bytes).

(** The link between a block and its successor. *)
Definition follows (b b' : Block) : Prop :=
  hdr_Number (blk_Header b') = u64 (hdr_Number (blk_Header b) + 1) ∧
  hdr_PreviousHash (blk_Header b') = BlockHeaderHash sha256 (blk_Header b).

(** A block whose header commits to its data. *)
Definition block_ok (b : Block) : Prop :=
  header_ok (blk_Header b) ∧
  hdr_DataHash (blk_Header b) = BlockDataHash sha256 (default [] (blk_Data b)).

(** A chain of blocks, the newest first. *)
Inductive hash_chain : list Block → Prop :=
  | hash_chain_one b : block_ok b → hash_chain [b]
  | hash_chain_next b b' l :
      hash_chain (b :: l) → follows b b' → block_ok b' → hash_chain (b' :: b :: l).

Definition collision : Prop := ∃ x y, x ≠ y ∧ sha256 x = sha256 y.

(** Equal hashes come from equal inputs, or show a collision. *)
Lemma sha256_eq x y : sha256 x = sha256 y → x = y ∨ collision.
Proof. intros H. destruct (decide (x = y)) as [|N]; [by left|]. right. by exists x, y. Qed.

Lemma header_hash_eq h h' :
  header_ok h → header_ok h' →
  BlockHeaderHash sha256 h = BlockHeaderHash sha256 h' → h = h' ∨ collision.
Proof.
  intros Hh Hh' H. apply sha256_eq in H as [H|H]; [|by right]. left.
  by apply BlockHeaderBytes_injective.
Qed.

(** What a header hash determines of a block: its header, and its transactions strung
    together. *)
Definition same_block (b b' : Block) : Prop :=
  blk_Header b = blk_Header b' ∧
  concat (default [] (blk_Data b)) = concat (default [] (blk_Data b')).

Lemma same_block_hash b b' :
  block_ok b → block_ok b' →
  BlockHeaderHash sha256 (blk_Header b) = BlockHeaderHash sha256 (blk_Header b') →
  same_block b b' ∨ collision.
Proof.
  intros [Hb Db] [Hb' Db'] H. apply header_hash_eq in H as [H|H]; [|by right|done..].
  rewrite H, Db' in Db. apply sha256_eq in Db as [D|D]; [left; split; congruence|by right].
Qed.

Lemma hash_chain_block_ok b l : hash_chain (b :: l) → block_ok b.
Proof. by inversion 1. Qed.

(** A chain whose oldest block has no predecessor: a genesis block is made with a
    [nil] previous hash. *)
Definition from_genesis (l : list Block) : Prop :=
  hash_chain l ∧ ∃ g, last l = Some g ∧ hdr_PreviousHash (blk_Header g) = [].

(** A block with a predecessor is not a genesis block, as a hash is not empty. *)
Lemma not_genesis b b' c l :
  (∀ x, sha256 x ≠ []) → from_genesis [b] → hash_chain (b' :: c :: l) → blk_Header b ≠ blk_Header b'.
Proof.
  intros Hne [_ (g & [= <-] & Hg)] Hc E. inversion Hc as [|? ? ? _ [_ P] _]; subst. rewrite E, P in Hg. by apply Hne in Hg.
Qed.

Lemma from_genesis_tail b c l : from_genesis (b :: c :: l) → from_genesis (c :: l).
Proof. intros [Hc Hg]. inversion Hc; subst. by split. Qed.

(** C22. The hash of the newest header commits to the whole chain. Take two chains from
    their genesis blocks, of any lengths, linked by numbers and previous hashes and with
    data hashes that match. If their newest headers have the same hash, the chains have the
    same length, the same headers, and in every block the same data up to where one
    transaction ends and the next begins (the data hash is taken of the transactions strung
    together), unless there are two inputs with the same SHA-256. *)
Theorem hash_chain_commits b b' l l' :
  (∀ x, sha256 x ≠ []) → from_genesis (b :: l) → from_genesis (b' :: l') →
  BlockHeaderHash sha256 (blk_Header b) = BlockHeaderHash sha256 (blk_Header b') →
  Forall2 same_block (b :: l) (b' :: l') ∨ collision.
Proof.
  intros Hne. revert b b' l'. induction l as [|c l IH]; intros b b' l' H H' E;
    (destruct (same_block_hash b b') as [S|]; [by eapply hash_chain_block_ok, H|by eapply hash_chain_block_ok, H'|done| |by right]);
    destruct l' as [|c' l']; pose proof (proj1 S) as Eh.
  - left. constructor; [done|constructor].
  - by destruct (not_genesis b b' c' l' Hne H (proj1 H')).
  - by destruct (not_genesis b' b c l Hne H' (proj1 H)).
  - destruct (IH c c' l') as [F|]; [by eapply from_genesis_tail|by eapply from_genesis_tail| |left; by constructor|by right].
    destruct H as [H _], H' as [H' _]. inversion H as [|? ? ? _ [_ P]]; inversion H' as [|? ? ? _ [_ P']]; subst. by rewrite <- P, <- P', Eh.
Qed.
End chain.

(** A hash without collisions, to evaluate chains. *)
Definition demo_hash (b : bytes) : bytes := x00 :: b.

Lemma demo_hash_injective : ¬ collision demo_hash.
Proof. intros (x & y & Hne & [= E]). by apply Hne. Qed.

Definition demo_genesis : Block :=
  mkBlock (mkBlockHeader 0 [] (demo_hash [x01])) (Some [[x01]]) (Some []).

Definition demo_next (data : list bytes) : Block :=
  mkBlock (mkBlockHeader 1 (BlockHeaderHash demo_hash (blk_Header demo_genesis)) (demo_hash (concat data)))
    (Some data) (Some []).

(** The second blocks differ in where their transactions end. *)
Lemma hash_chain_commits_witness :
  Forall2 same_block [demo_next [[x05; x06]]; demo_genesis] [demo_next [[x05]; [x06]]; demo_genesis].
Proof.
  destruct (hash_chain_commits demo_hash (demo_next [[x05; x06]]) (demo_next [[x05]; [x06]]) [demo_genesis] [demo_genesis]) as [H|H];
    [done| | |done|exact H|by destruct demo_hash_injective].
  all: split; [apply hash_chain_next; [apply hash_chain_one|..]; vm_compute; repeat split; congruence|by exists demo_genesis].
Defined.
