(* ===== verification/BlockWriter.v ===== *)
(** * Block writer

    [orderer/common/multichannel/blockwriter.go]: blocks are created on the
    consensus thread and annotated, signed and appended to the ledger by a
    goroutine of their own, one at a time under [committingBlock]. The ledger
    is the append-only block store of [common/ledger/blkstorage]. *)

From stdpp Require Import gmap strings list.
From Stdlib Require Import Strings.Byte.
From S2P Require Import Prelude Protos BlockCutter Support Blocks.

(** [identity.SignerSerializer]: the serialized identity and the signature. *)
Record SignerSerializer := mkSignerSerializer {
  Serialize : option bytes;
  SignBytes : bytes → option bytes
}.

(** ** State *)

(** [committing] is the metadata of the block being committed by the goroutine
    that holds [committingBlock]; [None] when the lock is free. *)
Record BlockWriter := mkBlockWriter {
  lastConfigBlockNum : Z;
  lastConfigSeq : Z;
  lastBlock : Block;
  committing : option nbytes
}.

(** The channel a block writer works on: the current bundle, the ledger and the
    channels the registrar was asked to create. *)
Record channel (Bundle : Type) := mkChannel {
  bundle : Bundle;
  ledger : list Block;
  newChains : list Envelope;
  bw : BlockWriter
}.
Arguments mkChannel {Bundle} _ _ _ _.
Arguments bundle {Bundle} _.
Arguments ledger {Bundle} _.
Arguments newChains {Bundle} _.
Arguments bw {Bundle} _.

Section writer.
Context {Bundle ConfigEnvelope : Type} `{!Resources Bundle ConfigEnvelope}.
Context `{!Codec Metadata, !Codec OrdererBlockMetadata, !Codec LastConfig}.
Context `{!Codec Envelope, !Codec Payload, !Codec ChannelHeader}.
Context `{!Codec SignatureHeader, !Codec ConfigEnvelope}.
(** SHA-256, the orderer's signer and the random nonce of the [n]th commit. *)
Context (sha256 : bytes → bytes) (sgn : SignerSerializer) (nonce : nat → bytes).

Abbreviation channel := (channel Bundle).

(** ** The block store *)

(** [blockfileMgr.addBlock]: the number is the height, the previous hash the
    hash of the last header, nil for an empty store. *)
Definition CurrentBlockHash (l : list Block) : bytes :=
  match last l with Some b => BlockHeaderHash sha256 (blk_Header b) | None => [] end.

Definition Append (block : Block) (l : list Block) : res (list Block) :=
  if bool_decide (hdr_Number (blk_Header block) ≠ Z.of_nat (length l))
  then Err (Errorf "block number should have been the height") else
  if bool_decide (hdr_PreviousHash (blk_Header block) ≠ CurrentBlockHash l)
  then Err (Errorf "unexpected Previous block hash")
  else Ok (l ++ [block]).

(** ** Construction *)

Definition newBlockWriter (lastBlock : Block) (sequence : Z) : outcome BlockWriter :=
  if bool_decide (hdr_Number (blk_Header lastBlock) ≠ 0) then
    r ← GetLastConfigIndexFromBlock lastBlock;
    match r with
    | Ok i => Done (mkBlockWriter i sequence lastBlock None)
    | Err _ => Panic "Error extracting last config block from block metadata"
    end
  else Done (mkBlockWriter 0 sequence lastBlock None).

Definition CreateNextBlock (messages : list Envelope) (w : BlockWriter) : Block :=
  let previousBlockHash := BlockHeaderHash sha256 (blk_Header (lastBlock w)) in
  let data := marshal <$> messages in
  let block := NewBlock (u64 (hdr_Number (blk_Header (lastBlock w)) + 1)) previousBlockHash in
  {| block with blk_Header := {| (blk_Header block) with hdr_DataHash := BlockDataHash sha256 data |};
                blk_Data := Some data |}.

(** ** Commit *)

(** [block.Metadata.Metadata[i] = v] *)
Definition setMetadata (i : nat) (v : bytes) (block : Block) : outcome Block :=
  mds ← or_panic "nil pointer dereference: Metadata" (blk_Metadata block);
  if bool_decide (i < length mds)%nat
  then Done {| block with blk_Metadata := Some (<[i := v]> mds) |}
  else Panic "index out of range".

Definition addLastConfig (configSeq : Z) (block : Block) (w : BlockWriter)
    : outcome (Block * BlockWriter) :=
  let w := if configSeq >? lastConfigSeq w
           then {| w with lastConfigBlockNum := hdr_Number (blk_Header block);
                          lastConfigSeq := configSeq |} else w in
  let lastConfigValue := marshal (mkLastConfig (lastConfigBlockNum w)) in
  block ← setMetadata BlockMetadataIndex_LAST_CONFIG
            (marshal (mkMetadata (Some lastConfigValue) [])) block;
  Done (block, w).

Definition addBlockSignature (n : nat) (consenterMetadata : nbytes) (block : Block)
    (w : BlockWriter) : outcome Block :=
  creator ← or_panic "NewSignatureHeaderOrPanic" (Serialize sgn);
  let header := marshal (mkSignatureHeader creator (nonce n)) in
  let value := marshal (mkOrdererBlockMetadata (Some (mkLastConfig (lastConfigBlockNum w)))
                          (marshal (mkMetadata consenterMetadata []))) in
  signature ← or_panic "SignOrPanic"
    (SignBytes sgn (value ++ header ++ BlockHeaderBytes (blk_Header block)));
  setMetadata BlockMetadataIndex_SIGNATURES
    (marshal (mkMetadata (Some value) [mkMetadataSignature header signature])) block.

(** The block is shared: the annotations are visible through [lastBlock]. *)
Definition commitBlock (encodedMetadataValue : nbytes) (c : channel) : outcome channel :=
  '(block, w) ← addLastConfig (bundle_Sequence (bundle c)) (lastBlock (bw c)) (bw c);
  block ← addBlockSignature (length (ledger c)) encodedMetadataValue block w;
  match Append block (ledger c) with
  | Ok l => Done {| c with ledger := l; bw := {| w with lastBlock := block |} |}
  | Err _ => Panic "Could not append block"
  end.

(** What the goroutine does: commit, then release the lock. *)
Definition finishCommit (c : channel) : outcome channel :=
  match committing (bw c) with
  | None => Done c
  | Some md => c ← commitBlock md c; Done {| c with bw := {| (bw c) with committing := None |} |}
  end.

(** [committingBlock.Lock] on the consensus thread: wait for the goroutine. *)
Definition acquire (c : channel) : outcome channel := finishCommit c.

(** ** Writing *)

Definition startCommit (block : Block) (md : nbytes) (c : channel) : channel :=
  {| c with bw := {| (bw c) with lastBlock := block; committing := Some md |} |}.

Definition WriteBlock (block : Block) (encodedMetadataValue : nbytes) (c : channel)
    : outcome channel :=
  c ← acquire c; Done (startCommit block encodedMetadataValue c).

(** The effect of a config block besides being written. *)
Inductive configAction :=
  | NewChain (config : Envelope)
  | SetBundle (b : Bundle).

(** [WriteConfigBlock] up to the update of the channel: the validations, and the
    metadata to write, which a change of consensus type discards. *)
Definition prepareConfig (block : Block) (encodedMetadataValue : nbytes) (b : Bundle)
    : outcome (configAction * nbytes) :=
  match (ctx ← ExtractEnvelope block 0;
         payload ← UnmarshalPayload (env_Payload ctx);
         hdr ← or_err "configtx payload header is missing" (pl_Header payload);
         chdr ← UnmarshalChannelHeader (nb (h_ChannelHeader hdr));
         Ok (payload, chdr)) with
  | Err _ => Panic "Told to write a config block"
  | Ok (payload, chdr) =>
    if bool_decide (ch_Type chdr = HeaderType_ORDERER_TRANSACTION) then
      newChannelConfig ← or_panic "did not have config update embedded"
                           (unmarshal (pl_Data payload));
      Done (NewChain newChannelConfig, encodedMetadataValue)
    else if bool_decide (ch_Type chdr = HeaderType_CONFIG) then
      configEnvelope ← or_panic "did not have config envelope encoded"
                         (unmarshal (A:=ConfigEnvelope) (pl_Data payload));
      match bundle_Validate configEnvelope b with
      | Err _ => Panic "could not apply it"
      | Ok _ =>
        match CreateBundle (ch_ChannelId chdr) configEnvelope with
        | Err _ => Panic "could not convert it to a bundle"
        | Ok bundle' =>
          oc ← or_panic "OrdererConfig missing from bundle" (bundle_OrdererConfig bundle');
          current ← or_panic "has no orderer configuration" (bundle_OrdererConfig b);
          Done (SetBundle bundle',
                if bool_decide (ConsensusType current ≠ ConsensusType oc)
                then None else encodedMetadataValue)
        end
      end
    else Panic "Told to write a config block with unknown header type"
  end.

(** [checkResources]: the configuration is compatible with this binary. *)
Definition checkResources (b : Bundle) : res unit :=
  match bundle_OrdererConfig b with
  | None => Err (Errorf "config does not contain orderer config")
  | Some _ =>
    if negb (ordererCapabilitiesSupported b)
    then Err (Errorf "config requires unsupported orderer capabilities")
    else if negb (channelCapabilitiesSupported b)
    then Err (Errorf "config requires unsupported channel capabilities")
    else Ok tt
  end.

(** [configResources.Update], which checks the new bundle. *)
Definition Update (b : Bundle) (c : channel) : outcome channel :=
  if is_ok (checkResources b) then Done {| c with bundle := b |}
  else Panic "checkResourcesOrPanic".

Definition WriteConfigBlock (block : Block) (encodedMetadataValue : nbytes) (c : channel)
    : outcome channel :=
  '(act, md) ← prepareConfig block encodedMetadataValue (bundle c);
  c ← match act with
      | NewChain config => Done {| c with newChains := newChains c ++ [config] |}
      | SetBundle b => c ← acquire c; Update b c
      end;
  WriteBlock block md c.

End writer.

#[global] Arguments setMetadata _ _ _ : simpl never.

