(* ===== verification/BlockWriterProps.v ===== *)
(** * Correctness of the block writer

    The concurrent writer is equivalent to a synchronous one, and keeps the
    ledger a hash chain whose metadata names the last config block, from which
    a restarted orderer recovers the writer's state. *)

From stdpp Require Import gmap strings list relations.
From Stdlib Require Import Strings.Byte.
From S2P Require Import Prelude Protos BlockCutter Support Blocks BlockWriter.

Section writer_props.
Context {Bundle ConfigEnvelope : Type} `{!Resources Bundle ConfigEnvelope}.
Context `{!Codec Metadata, !Codec OrdererBlockMetadata, !Codec LastConfig}.
Context `{!Codec Envelope, !Codec Payload, !Codec ChannelHeader}.
Context `{!Codec SignatureHeader, !Codec ConfigEnvelope}.
Context (sha256 : bytes → bytes) (sgn : SignerSerializer) (nonce : nat → bytes).

Abbreviation channel := (channel Bundle).
Abbreviation configAction := (@configAction Bundle).
Abbreviation commitBlock := (commitBlock sha256 sgn nonce).
Abbreviation finishCommit := (finishCommit sha256 sgn nonce).
Abbreviation WriteBlock := (WriteBlock sha256 sgn nonce).
Abbreviation WriteConfigBlock := (WriteConfigBlock sha256 sgn nonce).
Abbreviation CreateNextBlock := (CreateNextBlock sha256).

(** ** The writer as a concurrent program

    What is left to do on the consensus thread: it creates blocks and writes
    them with [WriteBlock] or [WriteConfigBlock]; inside the latter it updates
    the bundle once it could lock and unlock [committingBlock]. *)
Inductive task :=
  | TCreate (isConfig : bool) (messages : list Envelope) (md : nbytes)
  | TConfig (block : Block) (md : nbytes)
  | TUpdate (b : Bundle)
  | TWrite (block : Block) (md : nbytes).

(** The steps of the consensus thread, which needs the lock for [TUpdate] and
    [TWrite], and the step of the committing goroutine. *)
Inductive step : channel * list task → channel * list task → Prop :=
  | step_create c (isConfig : bool) msgs md k :
      step (c, TCreate isConfig msgs md :: k)
           (c, (if isConfig then TConfig else TWrite) (CreateNextBlock msgs (bw c)) md :: k)
  | step_new_chain c block md config md' k :
      prepareConfig block md (bundle c) = Done (NewChain config, md') →
      step (c, TConfig block md :: k)
           ({| c with newChains := newChains c ++ [config] |}, TWrite block md' :: k)
  | step_new_bundle c block md b md' k :
      prepareConfig block md (bundle c) = Done (SetBundle b, md') →
      step (c, TConfig block md :: k) (c, TUpdate b :: TWrite block md' :: k)
  | step_update c c' b k :
      committing (bw c) = None → Update b c = Done c' → step (c, TUpdate b :: k) (c', k)
  | step_write c block md k :
      committing (bw c) = None → step (c, TWrite block md :: k) (startCommit block md c, k)
  | step_commit c c' md k :
      committing (bw c) = Some md → finishCommit c = Done c' → step (c, k) (c', k).

(** One request to the writer: the messages of a block, its kind and metadata. *)
Record request := mkRequest {
  rq_isConfig : bool;
  rq_messages : list Envelope;
  rq_metadata : nbytes
}.

Definition tasks (rs : list request) : list task :=
  (λ r, TCreate (rq_isConfig r) (rq_messages r) (rq_metadata r)) <$> rs.

(** The synchronous writer: every block is committed before the next call. *)
Definition writeSync (r : request) (c : channel) : outcome channel :=
  let block := CreateNextBlock (rq_messages r) (bw c) in
  c ← (if rq_isConfig r then WriteConfigBlock block (rq_metadata r) c
       else WriteBlock block (rq_metadata r) c);
  finishCommit c.

Fixpoint writeAllSync (rs : list request) (c : channel) : outcome channel :=
  match rs with [] => Done c | r :: rs => c ← writeSync r c; writeAllSync rs c end.

(** ** The steps simulate the synchronous writer *)

Definition execWrite (block : Block) (md : nbytes) (c : channel) : outcome channel :=
  finishCommit (startCommit block md c).

Definition execConfig (block : Block) (md : nbytes) (c : channel) : outcome channel :=
  '(act, md) ← prepareConfig block md (bundle c);
  c ← match act with
      | NewChain config => Done {| c with newChains := newChains c ++ [config] |}
      | SetBundle b => Update b c
      end;
  execWrite block md c.

Definition execTask (t : task) (c : channel) : outcome channel :=
  match t with
  | TCreate true msgs md => execConfig (CreateNextBlock msgs (bw c)) md c
  | TCreate false msgs md => execWrite (CreateNextBlock msgs (bw c)) md c
  | TConfig block md => execConfig block md c
  | TUpdate b => Update b c
  | TWrite block md => execWrite block md c
  end.

Fixpoint exec (k : list task) (c : channel) : outcome channel :=
  match k with [] => Done c | t :: k => c ← execTask t c; exec k c end.

(** The meaning of a configuration: finish the commit under way, then run the
    remaining tasks synchronously. *)
Definition meaning (s : channel * list task) : outcome channel :=
  finishCommit s.1 ≫= exec s.2.

Lemma finishCommit_free c : committing (bw c) = None → finishCommit c = Done c.
Proof. unfold finishCommit. by intros ->. Qed.

(** What a commit changes: the writer's bookkeeping and the metadata of the last
    block, never its header, the bundle or the channels to create. *)
Lemma setMetadata_header i v b b' : setMetadata i v b = Done b' → blk_Header b' = blk_Header b ∧ blk_Data b' = blk_Data b.
Proof. unfold setMetadata. intros. run_inv. split_if; run_inv. done. Qed.

Lemma commitBlock_frame md c c' :
  commitBlock md c = Done c' →
  bundle c' = bundle c ∧ newChains c' = newChains c ∧
  blk_Header (lastBlock (bw c')) = blk_Header (lastBlock (bw c)) ∧
  committing (bw c') = committing (bw c) ∧
  Append sha256 (lastBlock (bw c')) (ledger c) = Ok (ledger c').
Proof.
  unfold commitBlock. intros H. run_inv. split_match; run_inv; simpl.
  match goal with H : addLastConfig _ _ _ = _ |- _ => unfold addLastConfig in H end.
  match goal with H : addBlockSignature _ _ _ _ _ _ = _ |- _ => unfold addBlockSignature in H end.
  run_inv. repeat match goal with H : setMetadata _ _ _ = Done _ |- _ =>
    apply setMetadata_header in H as [? ?] end.
  split_and!; try congruence. by destruct (_ >? _).
Qed.

Lemma finishCommit_frame c c' :
  finishCommit c = Done c' →
  bundle c' = bundle c ∧ newChains c' = newChains c ∧
  blk_Header (lastBlock (bw c')) = blk_Header (lastBlock (bw c)) ∧
  committing (bw c') = None.
Proof.
  unfold finishCommit. destruct (committing (bw c)) as [md|] eqn:E; intros H; run_inv; [|done].
  match goal with H : BlockWriter.commitBlock _ _ _ _ _ = _ |- _ =>
    apply commitBlock_frame in H as (? & ? & ? & ? & ?) end. done.
Qed.

(** A commit does not depend on the channels to create. *)
Lemma finishCommit_newChains c l :
  finishCommit {| c with newChains := l |} =
  (c ← finishCommit c; Done {| c with newChains := l |}).
Proof.
  unfold finishCommit, commitBlock. simpl. destruct (committing (bw c)); [|done].
  destruct (addLastConfig _ _ _) as [[b w]|]; simpl; [|done].
  destruct (addBlockSignature _ _ _ _ _ _); simpl; [|done].
  by destruct (Append _ _ _).
Qed.

Lemma CreateNextBlock_header msgs w w' :
  blk_Header (lastBlock w) = blk_Header (lastBlock w') →
  CreateNextBlock msgs w = CreateNextBlock msgs w'.
Proof. unfold CreateNextBlock. by intros ->. Qed.

Lemma step_meaning s s' : step s s' → meaning s = meaning s'.
Proof.
  unfold meaning. destruct 1 as
    [c ic msgs md k|c block md config md' k H|c block md b md' k H|c c' b k E H|c block md k E|c c' md k E H];
    simpl.
  - destruct (finishCommit c) as [d|] eqn:F; simpl; [|done].
    destruct (finishCommit_frame _ _ F) as (_ & _ & Hh & _).
    rewrite (CreateNextBlock_header msgs (bw c) (bw d)) by done. by destruct ic.
  - rewrite finishCommit_newChains.
    destruct (finishCommit c) as [d|] eqn:F; simpl; [|done].
    destruct (finishCommit_frame _ _ F) as (Hb & Hn & _).
    unfold execConfig. rewrite Hb, H. simpl. by rewrite Hn.
  - destruct (finishCommit c) as [d|] eqn:F; simpl; [|done].
    destruct (finishCommit_frame _ _ F) as (Hb & _). unfold execConfig. rewrite Hb, H. simpl.
    by destruct (Update b d).
  - rewrite !finishCommit_free; simpl; [by rewrite H| |done].
    unfold Update in H. by destruct (is_ok _); run_inv.
  - rewrite (finishCommit_free c E). done.
  - rewrite H. simpl. rewrite finishCommit_free; [done|]. by apply finishCommit_frame in H as (_ & _ & _ & ?).
Qed.

Lemma steps_meaning s s' : rtc step s s' → meaning s = meaning s'.
Proof. induction 1 as [|s1 s2 s3 H _ IH]; [done|]. rewrite <- IH. by apply step_meaning. Qed.

Lemma execWrite_sync b md c :
  committing (bw c) = None → (WriteBlock b md c ≫= finishCommit) = execWrite b md c.
Proof. intros Hc. unfold WriteBlock, acquire. by rewrite (finishCommit_free c Hc). Qed.

Lemma writeSync_task r c :
  committing (bw c) = None →
  writeSync r c = execTask (TCreate (rq_isConfig r) (rq_messages r) (rq_metadata r)) c.
Proof.
  intros Hc. unfold writeSync, execTask. destruct (rq_isConfig r); [|by apply execWrite_sync].
  unfold execConfig, WriteConfigBlock.
  destruct (prepareConfig _ _ _) as [[[config|b] md']|]; simpl; [by rewrite execWrite_sync| |done].
  unfold acquire. rewrite finishCommit_free by done. simpl. unfold Update.
  destruct (is_ok _); simpl; [by rewrite execWrite_sync|done].
Qed.

Lemma execWrite_free b md c c' : execWrite b md c = Done c' → committing (bw c') = None.
Proof. intros H. by apply finishCommit_frame in H as (_ & _ & _ & ?). Qed.

Lemma writeSync_exec rs c : committing (bw c) = None → exec (tasks rs) c = writeAllSync rs c.
Proof.
  revert c. induction rs as [|r rs IH]; intros c Hc; [done|]. simpl.
  rewrite writeSync_task by done. simpl.
  match goal with |- ?o ≫= _ = _ => destruct o as [c'|] eqn:E end; [|done]. simpl. apply IH.
  destruct (rq_isConfig r); [|by eapply execWrite_free].
  unfold execConfig in E. run_inv. by eapply execWrite_free.
Qed.

(** ** Progress and termination of the interleavings *)

Definition weight (t : task) : nat :=
  match t with TCreate _ _ _ => 5 | TConfig _ _ => 4 | TUpdate _ => 1 | TWrite _ _ => 2 end.

Definition work (s : channel * list task) : nat :=
  sum_list_with weight s.2 + match committing (bw s.1) with Some _ => 1 | None => 0 end.

Lemma step_work s s' : step s s' → (work s' < work s)%nat.
Proof.
  unfold work. destruct 1 as
    [c ic msgs md k|c block md config md' k H|c block md b md' k H|c c' b k E H|c block md k E|c c' md k E H];
    simpl; try (destruct ic; simpl); try lia.
  - unfold Update in H. destruct (is_ok _); run_inv. simpl. rewrite E. lia.
  - apply finishCommit_frame in H as (_ & _ & _ & ->). rewrite E. lia.
Qed.

Lemma step_sn s : sn step s.
Proof.
  assert (∀ n s, (work s < n)%nat → sn step s) as H; [|by eapply (H (S (work s))); lia].
  intros n. induction n as [|n IH]; intros t Ht; [lia|].
  constructor. intros t' Hs. apply IH. apply step_work in Hs. lia.
Qed.

(** As long as the synchronous writer does not panic, some step is possible. *)
Lemma step_progress c k r :
  meaning (c, k) = Done r → (c, k) = (r, []) ∨ ∃ s', step (c, k) s'.
Proof.
  unfold meaning. simpl. destruct (finishCommit c) as [d|] eqn:F; simpl; [|done].
  destruct (committing (bw c)) as [md|] eqn:E.
  { intros _. right. eexists. by eapply step_commit. }
  rewrite (finishCommit_free c E) in F. injection F as <-.
  destruct k as [|[ic msgs md|block md|b|block md] k]; simpl; intros H.
  - left. congruence.
  - right. eexists. apply step_create.
  - right. unfold execConfig in H. run_inv. match goal with a : configAction |- _ => destruct a end.
    + eexists. by eapply step_new_chain.
    + eexists. by eapply step_new_bundle.
  - right. run_inv. eexists. by eapply step_update.
  - right. eexists. by apply step_write.
Qed.

Lemma steps_complete s r : meaning s = Done r → rtc step s (r, []).
Proof.
  induction (step_sn s) as [[c k] _ IH]. intros H.
  destruct (step_progress c k r H) as [->|[s' Hs]]; [done|].
  eapply rtc_l; [done|]. apply IH; [done|]. by rewrite <- (step_meaning _ _ Hs).
Qed.

Lemma nf_final c k r : meaning (c, k) = Done r → nf step (c, k) → (c, k) = (r, []).
Proof. intros H Hnf. destruct (step_progress c k r H) as [|[s' Hs]]; [done|]. destruct Hnf. by exists s'. Qed.

(** C12. Committing blocks on a goroutine is equivalent to committing them
    synchronously. Take any sequence of requests that the synchronous writer,
    which commits each block before it returns, handles without a panic. Then
    every interleaving of the consensus thread with the committing goroutine
    terminates, can be completed from every reachable state (no deadlock on
    [committingBlock]), and ends with the synchronous writer's channel: the
    same bundle, ledger, new channels and writer state. In particular no block
    is annotated with a configuration sequence of a later block. *)
Theorem commit_interleavings rs c r :
  committing (bw c) = None → writeAllSync rs c = Done r →
  sn step (c, tasks rs) ∧
  ∀ c1 k1, rtc step (c, tasks rs) (c1, k1) →
    rtc step (c1, k1) (r, []) ∧ (nf step (c1, k1) → (c1, k1) = (r, [])).
Proof.
  intros Hc Hr. split; [apply step_sn|]. intros c1 k1 Hs.
  assert (meaning (c1, k1) = Done r) as Hm.
  { rewrite <- (steps_meaning _ _ Hs). unfold meaning. simpl.
    rewrite finishCommit_free by done. simpl. by rewrite writeSync_exec. }
  split; [by apply steps_complete|by apply nf_final].
Qed.

(** ** The ledger and recovery *)

(** What the recovery code relies on of the block metadata codecs. A message
    with a set sub-message has a non-empty encoding. *)
Class BlockCodecs := {
  metadata_codec :: CodecOk Metadata (λ m, nb_canonical (mdt_Value m));
  obm_codec :: CodecOk OrdererBlockMetadata
    (λ o, ∀ lc, obm_LastConfig o = Some lc → is_u64 (lc_Index lc));
  obm_nonempty o : obm_LastConfig o ≠ None → marshal o ≠ []
}.

(** SHA-256 sums have 32 bytes, and the signer works. *)
Record env_ok := {
  sha256_length x : length (sha256 x) = 32%nat;
  signer_id : is_Some (Serialize sgn);
  signer_sign m : is_Some (SignBytes sgn m)
}.

(** The last config block a block writer restarted from [b] would assume. *)
Definition recordsLastConfig (b : Block) (n : Z) : Prop :=
  if bool_decide (hdr_Number (blk_Header b) ≠ 0)
  then GetLastConfigIndexFromBlock b = Done (Ok n) else n = 0.

(** The ledger and the writer agree. *)
Record ledger_ok (c : channel) : Prop := {
  co_free : committing (bw c) = None;
  co_last : last (ledger c) = Some (lastBlock (bw c));
  co_number : ∀ i b, ledger c !! i = Some b → hdr_Number (blk_Header b) = Z.of_nat i;
  co_chain : hash_chain sha256 (reverse (ledger c));
  co_index : 0 <= lastConfigBlockNum (bw c) < Z.of_nat (length (ledger c));
  co_recorded : recordsLastConfig (lastBlock (bw c)) (lastConfigBlockNum (bw c))
}.

(** A channel between two requests. *)
Definition channel_ok (c : channel) : Prop :=
  ledger_ok c ∧ lastConfigSeq (bw c) = bundle_Sequence (bundle c).

(** Room for one more block and one more configuration. *)
Definition channel_small (c : channel) : Prop :=
  Z.of_nat (length (ledger c)) < 2 ^ 64 - 1 ∧ 0 <= bundle_Sequence (bundle c) < 2 ^ 64 - 1.

(** The metadata of a written block. *)
Definition sigValue (n : Z) (md : nbytes) : bytes :=
  marshal (mkOrdererBlockMetadata (Some (mkLastConfig n)) (marshal (mkMetadata md []))).

Lemma setMetadata_spec i v b mds :
  blk_Metadata b = Some mds → (i < length mds)%nat →
  setMetadata i v b = Done {| b with blk_Metadata := Some (<[i := v]> mds) |}.
Proof. unfold setMetadata. intros -> H. simpl. by rewrite bool_decide_true. Qed.

Definition nextConfigBlock (seq : Z) (b : Block) (w : BlockWriter) : Z :=
  if seq >? lastConfigSeq w then hdr_Number (blk_Header b) else lastConfigBlockNum w.

Lemma addLastConfig_spec seq b w mds :
  blk_Metadata b = Some mds → (1 < length mds)%nat →
  let n := nextConfigBlock seq b w in
  addLastConfig seq b w =
    Done ({| b with blk_Metadata :=
               Some (<[1%nat := marshal (mkMetadata (Some (marshal (mkLastConfig n))) [])]> mds) |},
          {| w with lastConfigBlockNum := n; lastConfigSeq := Z.max (lastConfigSeq w) seq |}).
Proof.
  intros Hm Hl n. unfold addLastConfig. rewrite (setMetadata_spec _ _ b mds) by done.
  simpl. unfold n, nextConfigBlock. destruct (_ >? _) eqn:C; zbool; destruct w; simpl in *;
    do 3 f_equal; lia.
Qed.

Lemma addBlockSignature_spec k md b w mds :
  env_ok → blk_Metadata b = Some mds → (0 < length mds)%nat →
  ∃ sigs, addBlockSignature sgn nonce k md b w =
    Done {| b with blk_Metadata :=
      Some (<[0%nat := marshal (mkMetadata (Some (sigValue (lastConfigBlockNum w) md)) sigs)]> mds) |}.
Proof.
  intros Henv Hm Hl. destruct (signer_id Henv) as [cr Hcr].
  unfold addBlockSignature. rewrite Hcr. simpl.
  match goal with |- context [SignBytes sgn ?m] => destruct (signer_sign Henv m) as [sg ->] end.
  simpl. rewrite (setMetadata_spec _ _ b mds) by done. by eexists.
Qed.

(** The commit of a fresh block succeeds and appends the annotated block. *)
Lemma commit_fresh msgs md c :
  env_ok → last (ledger c) = Some (lastBlock (bw c)) →
  hdr_Number (blk_Header (lastBlock (bw c))) + 1 = Z.of_nat (length (ledger c)) →
  Z.of_nat (length (ledger c)) < 2 ^ 64 →
  lastConfigSeq (bw c) <= bundle_Sequence (bundle c) →
  let b := CreateNextBlock msgs (bw c) in
  let n := nextConfigBlock (bundle_Sequence (bundle c)) b (bw c) in
  ∃ sigs lastcfg,
    let b' := {| b with blk_Metadata := Some [marshal (mkMetadata (Some (sigValue n md)) sigs);
                                               lastcfg; []; []; []] |} in
    execWrite b md c =
      Done {| c with ledger := ledger c ++ [b'];
                     bw := mkBlockWriter n (bundle_Sequence (bundle c)) b' None |}.
Proof.
  intros Henv Hlast Hnum Hsmall Hseq b n.
  unfold execWrite, finishCommit, commitBlock. cbn [bw startCommit committing ledger lastBlock bundle].
  rewrite (addLastConfig_spec _ _ _ (replicate 5 [])) by (done || (simpl; lia)).
  cbn [mbind outcome_bind].
  edestruct (addBlockSignature_spec (length (ledger c)) md) as [sigs ->]; [done|done|simpl; lia|].
  cbn [mbind outcome_bind].
  unfold Append, CurrentBlockHash. cbn [blk_Header]. rewrite Hlast.
  rewrite bool_decide_false.
  2: { intros N; apply N. simpl. rewrite u64_small by (unfold is_u64; lia). lia. }
  rewrite bool_decide_false by (intros N; by apply N).
  eexists sigs, _. cbn [mbind outcome_bind bw committing]. simpl.
  rewrite Z.max_r by done. done.
Qed.

(** Reading back the metadata of a written block. *)
Lemma written_metadata `{!BlockCodecs} n md sigs rest b :
  is_u64 n → blk_Metadata b = Some (marshal (mkMetadata (Some (sigValue n md)) sigs) :: rest) →
  GetLastConfigIndexFromBlock b = Done (Ok n) ∧
  (nb_canonical md → GetConsenterMetadataFromBlock b = Ok (mkMetadata md [])).
Proof.
  intros Hn Hm.
  assert (sigValue n md ≠ []) as Hne by by apply obm_nonempty.
  assert (GetMetadataFromBlock b BlockMetadataIndex_SIGNATURES =
    Ok (mkMetadata (Some (sigValue n md)) sigs)) as Hg.
  { unfold GetMetadataFromBlock. rewrite Hm. simpl. rewrite unmarshal_marshal; [done|].
    intros [=]. done. }
  assert ((nlen (Some (sigValue n md)) =? 0) = false) as Hl.
  { apply Z.eqb_neq. unfold nlen, blen. simpl. by destruct (sigValue n md). }
  unfold GetLastConfigIndexFromBlock, GetConsenterMetadataFromBlock. rewrite Hg. simpl. rewrite Hl.
  unfold sigValue. rewrite unmarshal_marshal by (intros lc [= <-]; done).
  split; [done|]. intros Hmd. simpl. by rewrite unmarshal_marshal.
Qed.

(** What the channel looks like after a block was written. *)
Record written (msgs : list Envelope) (md : nbytes) (c c' : channel) (b : Block) : Prop := {
  wr_ledger : ledger c' = ledger c ++ [b];
  wr_header : blk_Header b = blk_Header (CreateNextBlock msgs (bw c));
  wr_data : blk_Data b = Some (marshal <$> msgs);
  wr_consenter : GetConsenterMetadataFromBlock b = Ok (mkMetadata md []);
  wr_config : GetLastConfigIndexFromBlock b = Done (Ok (lastConfigBlockNum (bw c')));
  wr_restart : newBlockWriter b (bundle_Sequence (bundle c')) = Done (bw c')
}.

Lemma ledger_last_number c :
  ledger_ok c →
  hdr_Number (blk_Header (lastBlock (bw c))) + 1 = Z.of_nat (length (ledger c)).
Proof.
  intros Hc. pose proof (co_last _ Hc) as Hl. rewrite last_lookup in Hl.
  rewrite (co_number _ Hc _ _ Hl). destruct (ledger c); [done|]. simpl. lia.
Qed.

Lemma CreateNextBlock_ok msgs c :
  env_ok → ledger_ok c → Z.of_nat (length (ledger c)) < 2 ^ 64 →
  hdr_Number (blk_Header (CreateNextBlock msgs (bw c))) = Z.of_nat (length (ledger c)) ∧
  block_ok sha256 (CreateNextBlock msgs (bw c)) ∧
  follows sha256 (lastBlock (bw c)) (CreateNextBlock msgs (bw c)).
Proof.
  intros Henv Hc Hs. pose proof (ledger_last_number _ Hc) as Hn.
  unfold CreateNextBlock, block_ok, follows, header_ok, BlockHeaderHash, BlockDataHash, blen. simpl.
  rewrite Hn, !(sha256_length Henv), u64_small by (unfold is_u64; lia).
  unfold is_u64. repeat split; lia || done.
Qed.

Lemma execWrite_ok `{!BlockCodecs} msgs md c :
  env_ok → nb_canonical md → ledger_ok c → Z.of_nat (length (ledger c)) < 2 ^ 64 →
  lastConfigSeq (bw c) <= bundle_Sequence (bundle c) →
  ∃ c' b, execWrite (CreateNextBlock msgs (bw c)) md c = Done c' ∧ channel_ok c' ∧
    written msgs md c c' b ∧ bundle c' = bundle c ∧ newChains c' = newChains c ∧
    lastConfigBlockNum (bw c') =
      nextConfigBlock (bundle_Sequence (bundle c)) (CreateNextBlock msgs (bw c)) (bw c).
Proof.
  intros Henv Hmd Hc Hs Hseq. pose proof (ledger_last_number _ Hc) as Hn.
  destruct (CreateNextBlock_ok msgs c) as (Hnum & Hok & Hf); [done..|].
  destruct (commit_fresh msgs md c) as (sigs & lastcfg & E); [done|apply Hc|done|done|done|].
  set (n := nextConfigBlock _ _ _) in *. set (b := CreateNextBlock msgs (bw c)) in *.
  set (b' := {| b with blk_Metadata := _ |}) in *.
  assert (0 <= n < Z.of_nat (length (ledger c) + 1)) as Hn'.
  { unfold n, nextConfigBlock. pose proof (co_index _ Hc). destruct (_ >? _); lia. }
  destruct (written_metadata n md sigs _ b' ltac:(unfold is_u64; lia) eq_refl) as [Hg Hm].
  eexists _, b'. split; [exact E|]. split_and!; try done.
  - split; [|done]. split; simpl; [done|by rewrite last_snoc|..].
    + intros i x [Hi|[Hi [Hz <-]%list_lookup_singleton_Some]]%lookup_app_Some;
        [by apply Hc|]. change (blk_Header b') with (blk_Header b). lia.
    + rewrite reverse_app. simpl. pose proof (co_chain _ Hc) as Hch.
      destruct (reverse (ledger c)) as [|x l] eqn:R.
      * by apply hash_chain_one.
      * apply hash_chain_next; [done| |done]. replace x with (lastBlock (bw c)); [done|].
        pose proof (co_last _ Hc) as Hl. rewrite <- (reverse_involutive (ledger c)), R, reverse_cons, last_snoc in Hl.
        congruence.
    + rewrite length_app. simpl. lia.
    + unfold recordsLastConfig. destruct (bool_decide _) eqn:B; [done|]. zbool. apply dec_stable in B.
      change (blk_Header b') with (blk_Header b) in B. pose proof (co_index _ Hc). lia.
  - split; try done; [by apply Hm|]. unfold newBlockWriter.
    change (blk_Header b') with (blk_Header b). pose proof (co_index _ Hc).
    rewrite bool_decide_true by lia. by rewrite Hg.
Qed.

Lemma nextConfigBlock_same seq b w : lastConfigSeq w = seq → nextConfigBlock seq b w = lastConfigBlockNum w.
Proof. intros <-. unfold nextConfigBlock. rewrite Z.gtb_ltb, Z.ltb_irrefl. done. Qed.

(** Writing a block of normal transactions always succeeds with a working
    signer. It appends exactly one block, with the next number, linked to its
    predecessor and holding the messages in order; the metadata given to the
    writer can be read back from it; the last config block is unchanged; and a
    block writer restarted from the ledger is in the state of the running one. *)
Theorem write_normal_block `{!BlockCodecs} msgs md c :
  env_ok → nb_canonical md → channel_ok c → channel_small c →
  ∃ c' b, writeSync (mkRequest false msgs md) c = Done c' ∧ channel_ok c' ∧
    written msgs md c c' b ∧ bundle c' = bundle c ∧ newChains c' = newChains c ∧
    lastConfigBlockNum (bw c') = lastConfigBlockNum (bw c).
Proof.
  intros Henv Hmd [Hc Hq] [Hs _]. rewrite writeSync_task by apply Hc.
  destruct (execWrite_ok msgs md c) as (c' & b & Hw); [done|done|done|lia|lia|].
  exists c', b. simpl. by rewrite (nextConfigBlock_same _ _ _ Hq) in Hw.
Qed.

(** What [prepareConfig] allows. *)
Lemma prepareConfig_inv block md b act md' :
  prepareConfig block md b = Done (act, md') →
  match act with
  | NewChain _ => md' = md
  | SetBundle b' => ∃ chan ce oc oc',
      bundle_Validate ce b = Ok tt ∧ CreateBundle chan ce = Ok b' ∧
      bundle_OrdererConfig b = Some oc ∧ bundle_OrdererConfig b' = Some oc' ∧
      md' = if bool_decide (ConsensusType oc ≠ ConsensusType oc') then None else md
  end.
Proof.
  unfold prepareConfig. destruct (ExtractEnvelope block 0 ≫= _) as [[payload chdr]|]; [|done].
  case_bool_decide; [intros; by run_inv|]. case_bool_decide; [|done]. intros E. run_inv.
  destruct (bundle_Validate _ _) as [[]|] eqn:V; [|done].
  destruct (CreateBundle _ _) eqn:B; [|done]. run_inv. eauto 10.
Qed.

(** A config block that can be written appends exactly one block like a
    normal one. Either it creates a channel, and nothing else changes, or it
    installs the configuration with the next sequence number: then the block is
    recorded as the last config block, and the consenter metadata survives
    exactly if the consensus type is unchanged. In both cases a block writer
    restarted from the ledger is in the state of the running one. *)
Theorem write_config_block `{!ResourcesOk Bundle ConfigEnvelope} `{!BlockCodecs} msgs md c c' :
  env_ok → nb_canonical md → channel_ok c → channel_small c →
  writeSync (mkRequest true msgs md) c = Done c' →
  channel_ok c' ∧ ∃ b md', written msgs md' c c' b ∧
    ((∃ config, newChains c' = newChains c ++ [config] ∧ bundle c' = bundle c ∧ md' = md ∧
        lastConfigBlockNum (bw c') = lastConfigBlockNum (bw c)) ∨
     (∃ oc oc', bundle_OrdererConfig (bundle c) = Some oc ∧
        bundle_OrdererConfig (bundle c') = Some oc' ∧
        bundle_Sequence (bundle c') = bundle_Sequence (bundle c) + 1 ∧
        newChains c' = newChains c ∧
        lastConfigBlockNum (bw c') = hdr_Number (blk_Header b) ∧
        md' = if bool_decide (ConsensusType oc ≠ ConsensusType oc') then None else md)).
Proof.
  intros Henv Hmd [Hc Hq] [Hs Hs']. rewrite writeSync_task by apply Hc. simpl. unfold execConfig.
  destruct (prepareConfig _ _ _) as [[act md']|] eqn:P; [|done]. cbn [mbind outcome_bind].
  apply prepareConfig_inv in P. destruct act as [config|b']; cbn [mbind outcome_bind].
  - subst md'. intros E.
    destruct (execWrite_ok msgs md {| c with newChains := newChains c ++ [config] |})
      as (c2 & b & E' & Hok & [] & Hb & Hn & Hl); [done|done|by destruct Hc|simpl; lia|simpl; lia|].
    cbn [bw] in E'. rewrite E in E'. injection E' as <-. split; [done|].
    exists b, md. split; [done|]. left. exists config. rewrite Hl. split_and!; try done.
    by rewrite nextConfigBlock_same.
  - destruct P as (chan & ce & oc & oc' & V & B & Ho & Ho' & ->). intros E.
    unfold Update in E. destruct (is_ok _); [|done]. cbn [mbind outcome_bind] in E.
    pose proof (validate_next _ _ _ _ V B) as Hnext. rewrite u64_small in Hnext by (unfold is_u64; lia).
    destruct (execWrite_ok msgs (if bool_decide (ConsensusType oc ≠ ConsensusType oc') then None else md)
        {| c with bundle := b' |})
      as (c2 & b & E' & Hok & Hw & Hb & Hn & Hl);
      [done|by case_bool_decide|by destruct Hc|simpl; lia|simpl; lia|].
    cbn [bw] in E'. rewrite E in E'. injection E' as <-. split; [done|]. destruct Hw.
    exists b, (if bool_decide (ConsensusType oc ≠ ConsensusType oc') then None else md).
    split; [done|]. right. exists oc, oc'. rewrite Hb, Hl. split_and!; try done.
    unfold nextConfigBlock. simpl bundle in *. rewrite Hnext, Z.gtb_ltb, (proj2 (Z.ltb_lt _ _)) by (simpl; lia).
    by rewrite wr_header0.
Qed.
End writer_props.
