(* ===== verification/BlockWriterDemo.v ===== *)
(** * A concrete channel

    Instances of the block writer's parameters: a configuration with a sequence
    number and an orderer section, a codec for every message and a 32-byte
    checksum in place of SHA-256. They show that the hypotheses of the theorems
    on the block writer can be met, on a channel with two blocks to write. *)

From stdpp Require Import gmap strings list relations.
From Stdlib Require Import Strings.Byte.
From S2P Require Import Prelude Protos Codecs BlockCutter Support Blocks BlockWriter BlockWriterProps.

#[export] Instance demo_Metadata : Codec Metadata := ser_codec Metadata.
#[export] Instance demo_OBM : Codec OrdererBlockMetadata := ser_codec OrdererBlockMetadata.
#[export] Instance demo_LastConfig : Codec LastConfig := ser_codec LastConfig.
#[export] Instance demo_Envelope : Codec Envelope := ser_codec Envelope.
#[export] Instance demo_Payload : Codec Payload := ser_codec Payload.
#[export] Instance demo_ChannelHeader : Codec ChannelHeader := ser_codec ChannelHeader.
#[export] Instance demo_SignatureHeader : Codec SignatureHeader := ser_codec SignatureHeader.

(** A configuration envelope: the sequence, the consensus type and metadata. *)
Record demo_config := mkDemoConfig {
  dc_sequence : Z;
  dc_type : string;
  dc_metadata : bytes;
  dc_maxMessages : Z
}.

#[export] Instance demo_config_eq_dec : EqDecision demo_config.
Proof. solve_decision. Defined.
#[export] Instance demo_config_ser : Ser demo_config.
Proof.
  apply (iso_ser (λ x, (dc_sequence x, dc_type x, dc_metadata x, dc_maxMessages x))
           (λ '(a, b, c, d), mkDemoConfig a b c d)). by_tuple.
Defined.
#[export] Instance demo_ConfigEnvelope : Codec demo_config := ser_codec demo_config.

(** The bundle of a configuration is the configuration itself. *)
#[export] Instance demo_resources : Resources demo_config demo_config := {|
  bundle_Sequence := dc_sequence;
  bundle_OrdererConfig b :=
    Some (mkOrdererConfig (dc_type b) (dc_metadata b) (mkBatchSize (dc_maxMessages b) 100 10) 1000);
  bundle_Validate ce b :=
    if bool_decide (dc_sequence ce = u64 (dc_sequence b + 1)) then Ok tt else Err (Errorf "sequence");
  CreateBundle _ ce := Ok ce;
  ordererCapabilitiesSupported _ := true;
  channelCapabilitiesSupported _ := true
|}.

#[export] Instance demo_resources_ok : ResourcesOk demo_config demo_config.
Proof. split. simpl. intros b b' _ ce H [= <-]. case_bool_decide; congruence. Qed.

Definition demo_sum (b : bytes) : bytes := take 32 (reverse b ++ replicate 32 x00).

Definition demo_identity : SignerSerializer :=
  mkSignerSerializer (Some [x0a]) (λ m, Some (take 4 m)).

Definition demo_nonce (n : nat) : bytes := [byte_of_Z (Z.of_nat n)].

#[export] Instance demo_block_codecs : BlockCodecs.
Proof.
  split; [apply ser_codec_ok..|]. done.
Qed.

Lemma demo_env_ok : env_ok demo_sum demo_identity.
Proof.
  split; [|by eexists..]. intros x. unfold demo_sum.
  rewrite length_take, length_app, length_replicate. lia.
Qed.

Definition demo_envelope (ty : Z) (data : bytes) : Envelope :=
  mkEnvelope
    (marshal (mkPayload (Some (mkHeader (Some (marshal (mkChannelHeader ty "ch" "tx"))) [])) data)) [].

Definition demo_tx (n : Z) : Envelope :=
  demo_envelope HeaderType_ENDORSER_TRANSACTION [byte_of_Z n].

Definition demo_first : Block :=
  mkBlock (mkBlockHeader 0 [] (BlockDataHash demo_sum [])) (Some []) (Some (replicate 5 [])).

Definition demo_base : demo_config := mkDemoConfig 0 "hcs" [] 2.

Definition demo_channel : channel demo_config :=
  mkChannel demo_base [demo_first] [] (mkBlockWriter 0 0 demo_first None).

Lemma demo_channel_ok : channel_ok demo_sum demo_channel ∧ channel_small demo_channel.
Proof.
  split; [split; [split|]|]; simpl; try done.
  - intros [|i] b; simpl; [by intros [= <-]|done].
  - apply hash_chain_one. repeat split; simpl; unfold blen; simpl; lia.
Qed.

(** A normal block, a config block, and a block under the new configuration. *)
Definition demo_requests : list request :=
  [mkRequest false [demo_tx 1; demo_tx 2] (Some [x11]);
   mkRequest true [demo_envelope HeaderType_CONFIG (marshal (mkDemoConfig 1 "hcs" [x01] 3))] (Some [x12]);
   mkRequest false [demo_tx 3] (Some [x13])].

Definition demo_final : channel demo_config :=
  match writeAllSync demo_sum demo_identity demo_nonce demo_requests demo_channel with
  | Done c => c | Panic _ => demo_channel end.

Lemma commit_interleavings_witness :
  sn (step demo_sum demo_identity demo_nonce) (demo_channel, tasks demo_requests) ∧
  ∀ c1 k1, rtc (step demo_sum demo_identity demo_nonce) (demo_channel, tasks demo_requests) (c1, k1) →
    rtc (step demo_sum demo_identity demo_nonce) (c1, k1) (demo_final, []) ∧
    (nf (step demo_sum demo_identity demo_nonce) (c1, k1) → (c1, k1) = (demo_final, [])).
Proof.
  apply (commit_interleavings demo_sum demo_identity demo_nonce demo_requests demo_channel demo_final);
    [reflexivity|vm_compute; reflexivity].
Defined.

Example demo_final_ledger :
  ((λ b, (hdr_Number (blk_Header b), GetLastConfigIndexFromBlock b)) <$> drop 1 (ledger demo_final)) =
    [(1, Done (Ok 0)); (2, Done (Ok 2)); (3, Done (Ok 2))].
Proof. vm_compute. reflexivity. Qed.

Lemma write_normal_block_witness :
  ∃ c' b, writeSync demo_sum demo_identity demo_nonce
      (mkRequest false [demo_tx 1] (Some [x11])) demo_channel = Done c' ∧
    channel_ok demo_sum c' ∧ written demo_sum [demo_tx 1] (Some [x11]) demo_channel c' b ∧
    bundle c' = bundle demo_channel ∧ newChains c' = newChains demo_channel ∧
    lastConfigBlockNum (bw c') = lastConfigBlockNum (bw demo_channel).
Proof.
  apply (write_normal_block demo_sum demo_identity demo_nonce [demo_tx 1] (Some [x11]) demo_channel);
    [apply demo_env_ok|discriminate|apply demo_channel_ok..].
Defined.

(** A migration to another consensus type, which discards the metadata. *)
Definition demo_migration : list Envelope :=
  [demo_envelope HeaderType_CONFIG (marshal (mkDemoConfig 1 "etcdraft" [x01] 3))].

Definition demo_migrated : channel demo_config :=
  match writeSync demo_sum demo_identity demo_nonce
          (mkRequest true demo_migration (Some [x12])) demo_channel with
  | Done c => c | Panic _ => demo_channel end.

Lemma write_config_block_witness :
  ∃ b md', written demo_sum demo_migration md' demo_channel demo_migrated b ∧ md' = None ∧
    lastConfigBlockNum (bw demo_migrated) = 1.
Proof.
  destruct (write_config_block demo_sum demo_identity demo_nonce demo_migration (Some [x12])
              demo_channel demo_migrated)
    as (_ & b & md' & Hw & [(cfg & Hn & _)|(oc & oc' & Ho & Ho' & _ & _ & _ & Hm)]);
    [apply demo_env_ok|discriminate|apply demo_channel_ok..|vm_compute; reflexivity| |].
  - exfalso. vm_compute in Hn. discriminate.
  - exists b, md'. split; [done|]. vm_compute in Ho, Ho'.
    injection Ho as <-. injection Ho' as <-. split; [by rewrite Hm|vm_compute; reflexivity].
Defined.
