(* ===== verification/ChainSupport.v ===== *)
(** * The support of a channel

    [orderer/common/multichannel/chainsupport.go]: the block cutter, the block
    writer and the configuration of a channel, as the [ConsenterSupport] a
    consensus plug-in works with. The message processor of the channel is a
    parameter. *)

From stdpp Require Import gmap strings list.
From S2P Require Import Prelude Protos BlockCutter Support Blocks BlockWriter BlockWriterProps.

Record ChainSupport (Bundle : Type) := mkChainSupport {
  cutter : receiver;
  chan : channel Bundle
}.
Arguments mkChainSupport {Bundle} _ _.
Arguments cutter {Bundle} _.
Arguments chan {Bundle} _.

Section chainsupport.
Context {Bundle ConfigEnvelope : Type} `{!Resources Bundle ConfigEnvelope}.
Context `{!Codec Metadata, !Codec OrdererBlockMetadata, !Codec LastConfig}.
Context `{!Codec Envelope, !Codec Payload, !Codec ChannelHeader}.
Context `{!Codec SignatureHeader, !Codec ConfigEnvelope}.
Context (sha256 : bytes → bytes) (sgn : SignerSerializer) (nonce : nat → bytes).
(** [msgprocessor.Processor] of the channel, under its current configuration. *)
Context (ProcessNormalMsg : Envelope → Bundle → res Z).
Context (ProcessConfigMsg : Envelope → Bundle → res (Envelope * Z)).

Abbreviation ChainSupport := (ChainSupport Bundle).

(** [configResources.SharedConfig] *)
Definition SharedConfig (b : Bundle) : outcome OrdererConfig :=
  or_panic "has no orderer configuration" (bundle_OrdererConfig b).

Definition support_Ordered (now now' : time) (m : Envelope) (s : ChainSupport)
    : outcome (list (list Envelope) * bool * ChainSupport) :=
  '(bs, pending, r) ← Ordered (oc_BatchSize <$> bundle_OrdererConfig (bundle (chan s))) now now' m (cutter s);
  Done (bs, pending, {| s with cutter := r |}).

Definition support_Cut (s : ChainSupport) : list Envelope * ChainSupport :=
  let '(batch, r) := Cut (cutter s) in (batch, {| s with cutter := r |}).

Definition support_WriteBlock (b : Block) (md : nbytes) (s : ChainSupport) : outcome ChainSupport :=
  c ← WriteBlock sha256 sgn nonce b md (chan s); Done {| s with chan := c |}.

Definition support_WriteConfigBlock (b : Block) (md : nbytes) (s : ChainSupport)
    : outcome ChainSupport :=
  c ← WriteConfigBlock sha256 sgn nonce b md (chan s); Done {| s with chan := c |}.

#[global] Instance chain_support : ConsenterSupport ChainSupport := {|
  cs_Height s := Z.of_nat (length (ledger (chan s)));
  cs_Sequence s := bundle_Sequence (bundle (chan s));
  cs_SharedConfig s := SharedConfig (bundle (chan s));
  cs_Ordered := support_Ordered;
  cs_Cut := support_Cut;
  cs_CreateNextBlock msgs s := CreateNextBlock sha256 msgs (bw (chan s));
  cs_WriteBlock := support_WriteBlock;
  cs_WriteConfigBlock := support_WriteConfigBlock;
  cs_ProcessNormalMsg e s := ProcessNormalMsg e (bundle (chan s));
  cs_ProcessConfigMsg e s := ProcessConfigMsg e (bundle (chan s))
|}.

(** [newChainSupport], without the consenter: a new block cutter, and a block
    writer from the last block of the ledger. The consenter metadata of that
    block goes to [HandleChain]. *)
Definition newChainSupport (b : Bundle) (l : list Block) : outcome (res (ChainSupport * Metadata)) :=
  lastBlock ← or_panic "ledger is empty" (last l);
  match GetConsenterMetadataFromBlock lastBlock with
  | Err e => Done (Err (Wrap e "error extracting orderer metadata for channel"))
  | Ok md =>
    w ← newBlockWriter lastBlock (bundle_Sequence b);
    Done (Ok (mkChainSupport NewReceiverImpl (mkChannel b l [] w), md))
  end.

(** ** The laws of the interface *)

Record view (s1 s2 : ChainSupport) : Prop := {
  vw_pending : pendingBatch (cutter s1) = pendingBatch (cutter s2);
  vw_size : pendingBatchSizeBytes (cutter s1) = pendingBatchSizeBytes (cutter s2);
  vw_bundle : bundle (chan s1) = bundle (chan s2);
  vw_header : blk_Header (lastBlock (bw (chan s1))) = blk_Header (lastBlock (bw (chan s2)))
}.

Lemma view_equivalence : Equivalence view.
Proof.
  split; [by split|by intros ? ? []|]. intros s1 s2 s3 [] []. split; congruence.
Qed.

Lemma support_WriteBlock_frame b md s s' :
  support_WriteBlock b md s = Done s' →
  cutter s' = cutter s ∧ bundle (chan s') = bundle (chan s) ∧ lastBlock (bw (chan s')) = b.
Proof.
  unfold support_WriteBlock, WriteBlock. intros H. run_inv.
  match goal with H : acquire _ _ _ _ = _ |- _ => apply finishCommit_frame in H as (? & _) end. done.
Qed.

Lemma support_WriteConfigBlock_frame b md s s' :
  support_WriteConfigBlock b md s = Done s' →
  cutter s' = cutter s ∧ lastBlock (bw (chan s')) = b ∧
  ∃ act md', prepareConfig b md (bundle (chan s)) = Done (act, md') ∧
    bundle (chan s') = match act with NewChain _ => bundle (chan s) | SetBundle b' => b' end.
Proof.
  unfold support_WriteConfigBlock, WriteConfigBlock, WriteBlock. intros H. run_inv.
  repeat match goal with H : acquire _ _ _ _ = _ |- _ => apply finishCommit_frame in H as (? & _) end.
  split_and!; [done..|]. simpl. eexists _, _. split; [done|].
  match goal with a : configAction |- _ => destruct a end; run_inv.
  - done.
  - match goal with H : Update _ _ = _ |- _ => unfold Update in H end. destruct (is_ok _); run_inv. done.
Qed.

(** The action of a config block does not depend on the consenter metadata. *)
Lemma prepareConfig_act b md1 md2 bd a1 a2 m1 m2 :
  prepareConfig b md1 bd = Done (a1, m1) → prepareConfig b md2 bd = Done (a2, m2) → a1 = a2.
Proof.
  unfold prepareConfig. destruct (ExtractEnvelope b 0 ≫= _) as [[payload chdr]|]; [|done].
  case_bool_decide; [intros; run_inv; congruence|]. case_bool_decide; [|done].
  destruct (unmarshal _); [|done]. cbn [or_panic mbind outcome_bind].
  destruct (bundle_Validate _ _); [|done]. destruct (CreateBundle _ _); [|done]. intros. run_inv. congruence.
Qed.

(** The envelopes of a block. *)
Definition batchOf (b : Block) : list Envelope := omap unmarshal (default [] (blk_Data b)).

Lemma batchOf_create `{!CodecOk Envelope (λ _, True)} msgs w : batchOf (CreateNextBlock sha256 msgs w) = msgs.
Proof.
  unfold batchOf, CreateNextBlock. csimpl. induction msgs as [|m msgs IH]; [done|].
  csimpl. by rewrite unmarshal_marshal, IH by done.
Qed.

#[global] Instance chain_support_ok `{!CodecOk Envelope (λ _, True)} : ConsenterSupportOk ChainSupport.
Proof.
  refine {| same_view := view; cs_pending s := pendingBatch (cutter s);
            cs_lastNumber s := hdr_Number (blk_Header (lastBlock (bw (chan s)))) |}.
  - apply view_equivalence.
  - by intros ? ? [].
  - intros ? ? []. congruence.
  - intros ? ? []. simpl. congruence.
  - intros ? ? []. simpl. congruence.
  - intros ? ? ? []. simpl. by apply CreateNextBlock_header.
  - intros s1 s2 []. simpl. unfold support_Cut, Cut. simpl. split; [done|]. by split.
  - intros s1 s2 n1 n1' n2 n2' m bs1 p1 s1' bs2 p2 s2' [Hp Hz Hb Hh] H1 H2. simpl in *.
    unfold support_Ordered in *. rewrite Hb in H1. run_inv.
    match goal with H1 : Ordered _ _ _ _ (cutter s1) = _, H2 : Ordered _ _ _ _ (cutter s2) = _ |- _ =>
      destruct (Ordered_view _ _ _ _ _ _ _ _ _ _ _ _ _ _ Hp Hz H1 H2) as (-> & -> & ? & ?) end.
    by split_and!.
  - intros s1 s2 b md1 md2 s1' s2' [Hp Hz Hb Hh] H1 H2. simpl in *.
    apply support_WriteBlock_frame in H1 as (E1 & E2 & E3), H2 as (F1 & F2 & F3). split; congruence.
  - intros s1 s2 b md1 md2 s1' s2' [Hp Hz Hb Hh] H1 H2. simpl in *.
    apply support_WriteConfigBlock_frame in H1 as (E1 & E2 & a1 & m1 & E3 & E4), H2 as (F1 & F2 & a2 & m2 & F3 & F4).
    rewrite Hb in E3. rewrite (prepareConfig_act _ _ _ _ _ _ _ _ E3 F3) in E4.
    split; try congruence. rewrite E4, F4. by rewrite Hb.
  - intros s. simpl. unfold support_Cut. done.
  - intros s n n' m bs p s' H. simpl in *. unfold support_Ordered in H. run_inv. simpl.
    destruct (bundle_OrdererConfig _) as [oc|]; [|done]. simpl in *.
    match goal with H : Ordered (Some ?c) ?n ?n' ?m ?r = _ |- _ =>
      destruct (Ordered_shape c n n' m r) as (bs' & r' & E & Hc & Hl & Hp); rewrite E in H; run_inv end.
    split_and!; try done; [by intros Hn%bool_decide_eq_true; apply Hp in Hn as [? _]|].
    intros E2. apply bool_decide_eq_false. intros Hn. by apply Hp in Hn as [_ ?].
  - done.
  - intros msgs s. apply batchOf_create.
  - intros b md s s' H. apply support_WriteBlock_frame in H as (-> & Hb & <-). simpl. by rewrite Hb.
  - intros b md s s' H. apply support_WriteConfigBlock_frame in H as (-> & <- & _). done.
Defined.
End chainsupport.
