(* ===== verification/AppMsg.v ===== *)
(** * Application message processor

    [orderer/consensus/hcs/app_msg_processor.go]: messages larger than one HCS
    message are signed, split into chunks, and reassembled on the receiving
    side from interleaved chunks of many senders.

    Chunk holders are shared between the [holders] map and the [holderListByAge]
    list, so they live in a heap and are referred to by number. The protobuf
    codecs, SHA-256 and the signer are parameters. *)

From stdpp Require Import gmap strings list pretty sorting.
From Stdlib Require Import Strings.Byte.
From S2P Require Import Prelude Protos.

(** The [signer] interface. [Verify]'s arguments may be nil slices. *)
Record signer := mkSigner {
  Sign : bytes → res (bytes * bytes);
  Verify : nbytes → nbytes → nbytes → bool
}.

(** [chunkHolder]. [h_el] tells whether [el] is non-nil: the holder has its
    (only) element in [holderListByAge]. *)
Record chunkHolder := mkChunkHolder {
  h_chunks : list (option ApplicationMessageChunk);
  h_appID : nbytes;
  h_key : string;
  h_received : Z;
  h_size : Z;
  h_timestamp : time;
  h_el : bool
}.

Definition newChunkHolder (total : Z) (key : string) (appID : nbytes) : chunkHolder :=
  mkChunkHolder (replicate (Z.to_nat total) None) appID key 0 0 zeroTime false.

(** [appMsgProcessorImpl], with the heap of chunk holders. *)
Record appMsgProcessorImpl := mkProcessor {
  accountID : AccountID;
  appID : nbytes;
  chunkSize : Z;
  reassembleTimeout : duration;
  heap : gmap nat chunkHolder;
  heapNext : nat;
  holders : gmap string nat;
  holdersByAppID : gmap string (gset string);
  holderListByAge : list nat
}.

Definition newAppMsgProcessor (accountID : AccountID) (appID : nbytes) (chunkSize : Z)
    (reassembleTimeout : duration) (signerIsNil : bool) : res appMsgProcessorImpl :=
  if chunkSize <=? 0 then Err (Errorf "invalid chunkSize") else
  match appID with
  | None => Err (Errorf "appID can't be nil")
  | Some a =>
    if bool_decide (length a = 0%nat) then Err (Errorf "appID can't be empty") else
    if signerIsNil then Err (Errorf "must provide signer") else
    Ok (mkProcessor accountID appID chunkSize reassembleTimeout ∅ 0 ∅ ∅ [])
  end.

(** ** Holder keys *)

(** [fmt.Sprintf("%s:%ds%d", hex(metadata), seconds, nanos)]; a nil [Metadata]
    or [ValidStart] is a nil pointer dereference. *)
Definition holderKey (app : nbytes) (ts : Timestamp) : string :=
  EncodeToString (nb app) +:+ ":" +:+ pretty (ts_seconds ts) +:+ "s" +:+ pretty (ts_nanos ts).

Definition makeHolderKey (id : ApplicationMessageID) : outcome string :=
  md ← or_panic "nil pointer dereference: Metadata" (id_Metadata id);
  vs ← or_panic "nil pointer dereference: ValidStart" (id_ValidStart id);
  Done (holderKey (any_Value md) vs).

(** ** The list of holders by age: [container/list] *)

Definition list_Remove (r : nat) (l : list nat) : list nat := filter (λ x, x ≠ r) l.

Definition list_MoveToBack (r : nat) (l : list nat) : list nat :=
  if bool_decide (r ∈ l) then list_Remove r l ++ [r] else l.

Definition list_PushBack (r : nat) (l : list nat) : list nat := l ++ [r].

(** ** Removal and expiry *)

Definition removeHolder (r : nat) (removeFromAppHolders : bool) (p : appMsgProcessorImpl)
    : appMsgProcessorImpl :=
  match heap p !! r with
  | None => p
  | Some holder =>
    let p := {| p with holders := delete (h_key holder) (holders p) |} in
    let p := if h_el holder
             then {| p with holderListByAge := list_Remove r (holderListByAge p) |} else p in
    if removeFromAppHolders then
      (* delete(appHolders, holder.key) when the application has holders *)
      {| p with holdersByAppID := alter (λ appHolders, appHolders ∖ {[h_key holder]})
                                    (EncodeToString (nb (h_appID holder))) (holdersByAppID p) |}
    else p
  end.

(** The loop of [expireByTimestamp]: drop the oldest holder while it is too
    old. The fuel is the length of the list. *)
Fixpoint expireLoop (fuel : nat) (now : time) (p : appMsgProcessorImpl) (msgs chunks : Z)
    : Z * Z * appMsgProcessorImpl :=
  match fuel with
  | O => (msgs, chunks, p)
  | S fuel =>
    match holderListByAge p with
    | [] => (msgs, chunks, p)
    | oldest :: _ =>
      match heap p !! oldest with
      | None => (msgs, chunks, p)
      | Some holder =>
        let diff := time_sub now (h_timestamp holder) in
        if diff >=? reassembleTimeout p
        then expireLoop fuel now (removeHolder oldest true p) (msgs + 1) (chunks + h_received holder)
        else (msgs, chunks, p)
      end
    end
  end.

Definition expireByTimestamp (now : time) (p : appMsgProcessorImpl) : Z * Z * appMsgProcessorImpl :=
  expireLoop (length (holderListByAge p)) now p 0 0.

(** The loop over one application's holder keys, in the order given. *)
Fixpoint expireKeys (keys : list string) (p : appMsgProcessorImpl) (msgs chunks : Z)
    : Z * Z * appMsgProcessorImpl :=
  match keys with
  | [] => (msgs, chunks, p)
  | k :: keys =>
    match holders p !! k with
    | Some r =>
      let received := match heap p !! r with Some h => h_received h | None => 0 end in
      expireKeys keys (removeHolder r false p) (msgs + 1) (chunks + received)
    | None => expireKeys keys p msgs chunks
    end
  end.

Definition ExpireByAppID (appID : nbytes) (p : appMsgProcessorImpl)
    : res (Z * Z) * appMsgProcessorImpl :=
  if nlen appID =? 0 then (Err (Errorf "invalid appID"), p) else
  let key := EncodeToString (nb appID) in
  match holdersByAppID p !! key with
  | Some appHolders =>
    let p := {| p with holdersByAppID := delete key (holdersByAppID p) |} in
    let '(m, c, p) := expireKeys (elements appHolders) p 0 0 in (Ok (m, c), p)
  | None => (Ok (0, 0), p)
  end.

Definition IsPending (p : appMsgProcessorImpl) : bool :=
  negb (bool_decide (size (holders p) = 0%nat)).

(** ** Splitting and reassembling *)

Section processor.
Context `{!Codec ApplicationMessage} `{!Codec ApplicationSignature}.
Context (sha256 : bytes → bytes) (sgn : signer).

(** [timestampProtoOrPanic] of [chain.go]. *)
Definition timestampProtoOrPanic (t : time) : outcome Timestamp :=
  or_panic "failed to convert time.Time to google.protobuf.Timestamp" (TimestampProto t).

(** The chunks of [data]: chunk [i] is [data[i*chunkSize : min((i+1)*chunkSize, len(data))]]. *)
Definition splitChunks (id : ApplicationMessageID) (chunkSize : Z) (data : bytes)
    : list ApplicationMessageChunk :=
  let n := (blen data + chunkSize - 1) / chunkSize in
  (λ i : nat,
     let first := Z.of_nat i * chunkSize in
     let last := Z.min ((Z.of_nat i + 1) * chunkSize) (blen data) in
     mkApplicationMessageChunk (Some id) (i32 n) (i32 (Z.of_nat i))
       (Some (take (Z.to_nat (last - first)) (drop (Z.to_nat first) data))))
  <$> seq 0 (Z.to_nat n).

Definition messageID (p : appMsgProcessorImpl) (ts : Timestamp) : ApplicationMessageID :=
  mkApplicationMessageID (Some ts) (Some (accountID p)) (Some (mkAny (appID p))).

Definition Split (message : nbytes) (validStart : time) (p : appMsgProcessorImpl)
    : outcome (res (list ApplicationMessageChunk * bytes)) :=
  match message with
  | None => Done (Err (Errorf "invalid parameter, message is nil"))
  | Some msg =>
    if bool_decide (length msg = 0%nat) then Done (Err (Errorf "invalid parameter, empty message"))
    else
      ts ← timestampProtoOrPanic validStart;
      let id := messageID p ts in
      let msgHash := sha256 msg in
      match Sign sgn msgHash with
      | Err e => Done (Err (Wrap e "failed to sign the unencrypted business process message hash"))
      | Ok (publicKey, signature) =>
        let appSig := mkApplicationSignature (Some publicKey) (Some signature) in
        let appMsg := mkApplicationMessage (Some id) (Some msg) (Some msgHash)
                        (Some (marshal appSig)) None in
        Done (Ok (splitChunks id (chunkSize p) (marshal appMsg), msgHash))
      end
  end.

(** The checks on a complete message: lines after the chunks are joined. *)
Definition openMessage (protoMsg : bytes) : res (nbytes * nbytes) :=
  appMsg ← or_err "proto: cannot unmarshal ApplicationMessage" (unmarshal protoMsg);
  let plaintext := am_BusinessProcessMessage appMsg in
  let hash := am_UnencryptedBusinessProcessMessageHash appMsg in
  if bool_decide (am_EncryptionRandom appMsg ≠ None)
  then Err (Errorf "encrypted payload support is deprecated") else
  if bool_decide (sha256 (nb plaintext) ≠ nb hash)
  then Err (Errorf "hash on unencrypted business process message does not match") else
  appSig ← or_err "failed to unmarshal BusinessProcessSignatureOnHash"
             (unmarshal (nb (am_BusinessProcessSignatureOnHash appMsg)));
  if Verify sgn hash (as_PublicKey appSig) (as_Signature appSig)
  then Ok (plaintext, hash)
  else Err (Errorf "failed to verify unencrypted business process message signature").

(** What [Reassemble] did with the chunk before any deferred work. *)
Inductive collected :=
  | Rejected (e : error)             (* [err] set, the chunk was not valid *)
  | NeedMore (r : nat)               (* the holder is still incomplete *)
  | Complete (protoMsg : bytes) (r : option nat).

(** Find or create the holder of a chunk of a multi-chunk message. *)
Definition findHolder (key : string) (chunk : ApplicationMessageChunk) (app : nbytes)
    (p : appMsgProcessorImpl) : nat * appMsgProcessorImpl :=
  match holders p !! key with
  | Some r => (r, p)
  | None =>
    let r := heapNext p in
    let holder := newChunkHolder (ck_ChunksCount chunk) key app in
    let appIDKey := EncodeToString (nb app) in
    let appHolders := default ∅ (holdersByAppID p !! appIDKey) in
    (r, {| p with heap := <[r := holder]> (heap p);
                  heapNext := S r;
                  holders := <[key := r]> (holders p);
                  holdersByAppID := <[appIDKey := {[key]} ∪ appHolders]> (holdersByAppID p) |})
  end.

Definition joinChunks (cs : list (option ApplicationMessageChunk)) : bytes :=
  concat ((λ c, match c with Some f => nb (ck_MessageChunk f) | None => [] end) <$> cs).

(** Store the chunk in its holder. *)
Definition addChunk (r : nat) (chunk : ApplicationMessageChunk) (p : appMsgProcessorImpl)
    : outcome (collected * appMsgProcessorImpl) :=
  holder ← or_panic "nil pointer dereference: holder" (heap p !! r);
  slot ← or_panic "index out of range" (h_chunks holder !! Z.to_nat (ck_ChunkIndex chunk));
  match slot with
  | Some _ => Done (Rejected (Errorf "received duplicate chunk"), p)
  | None =>
    let len := Z.of_nat (length (h_chunks holder)) in
    if bool_decide (ck_ChunksCount chunk ≠ i32 len)
    then Done (Rejected (Errorf "incorrect chunk ChunksCount, corrupted data"), p)
    else
      let holder :=
        {| holder with
           h_chunks := <[Z.to_nat (ck_ChunkIndex chunk) := Some chunk]> (h_chunks holder);
           h_received := i32 (h_received holder + 1);
           h_size := u32 (h_size holder + u32 (nlen (ck_MessageChunk chunk))) |} in
      if bool_decide (h_received holder ≠ i32 len) then
        (* the holder becomes the youngest *)
        let l := if h_el holder then list_MoveToBack r (holderListByAge p)
                 else list_PushBack r (holderListByAge p) in
        Done (NeedMore r,
              {| p with heap := <[r := {| holder with h_el := true |}]> (heap p);
                        holderListByAge := l |})
      else
        let p := {| p with heap := <[r := holder]> (heap p) |} in
        Done (Complete (joinChunks (h_chunks holder)) (Some r), removeHolder r true p)
  end.

Definition collectChunk (chunk : ApplicationMessageChunk) (p : appMsgProcessorImpl)
    : outcome (collected * appMsgProcessorImpl) :=
  if ck_ChunksCount chunk <? 1
  then Done (Rejected (Errorf "invalid ChunksCount, corrupted data"), p) else
  if (ck_ChunkIndex chunk <? 0) || (ck_ChunkIndex chunk >=? ck_ChunksCount chunk)
  then Done (Rejected (Errorf "invalid ChunkIndex, corrupted data"), p) else
  if ck_ChunksCount chunk =? 1 then
    (* single-chunk message *)
    Done (Complete (nb (ck_MessageChunk chunk)) None, p)
  else
    id ← or_panic "nil pointer dereference: ApplicationMessageId" (ck_ApplicationMessageId chunk);
    key ← makeHolderKey id;
    md ← or_panic "nil pointer dereference: Metadata" (id_Metadata id);
    let '(r, p) := findHolder key chunk (any_Value md) p in
    addChunk r chunk p.

(** The deferred function of a valid chunk: stamp the holder, expire old ones. *)
Definition stampAndExpire (holder : option nat) (timestamp : time) (p : appMsgProcessorImpl)
    : Z * Z * appMsgProcessorImpl :=
  let p := match holder with
           | Some r =>
             {| p with heap := alter (λ h, {| h with h_timestamp := timestamp |}) r (heap p) |}
           | None => p
           end in
  expireByTimestamp timestamp p.

(** The named results of [Reassemble]. *)
Record reassembled := mkReassembled {
  ra_message : nbytes;
  ra_hash : nbytes;
  ra_expiredMessages : Z;
  ra_expiredChunks : Z;
  ra_err : option error
}.

Definition Reassemble (chunk : ApplicationMessageChunk) (timestamp : time)
    (p : appMsgProcessorImpl) : outcome (reassembled * appMsgProcessorImpl) :=
  '(c, p) ← collectChunk chunk p;
  match c with
  | Rejected e => Done (mkReassembled None None 0 0 (Some e), p)
  | NeedMore r =>
    let '(m, n, p) := stampAndExpire (Some r) timestamp p in
    Done (mkReassembled None None m n None, p)
  | Complete protoMsg r =>
    let '(m, n, p) := stampAndExpire r timestamp p in
    match openMessage protoMsg with
    | Ok (message, hash) => Done (mkReassembled message hash m n None, p)
    | Err e => Done (mkReassembled None None m n (Some e), p)
    end
  end.
End processor.
