(* ===== verification/AppMsgFacts.v ===== *)
(** * Application message processor: invariants

    The invariant of the processor's tables, preserved by every operation, and
    the shape of the expiry loop. *)

From stdpp Require Import gmap strings list pretty sorting.
From Stdlib Require Import Strings.Byte.
From S2P Require Import Prelude Protos AppMsg.

(** ** Well-formed holders and tables *)

(** Slots of a holder already filled. *)
Fixpoint filled (cs : list (option ApplicationMessageChunk)) : nat :=
  match cs with
  | [] => 0
  | Some _ :: cs => S (filled cs)
  | None :: cs => filled cs
  end.

(** A pending holder: some but not all chunks arrived, each stored at its index. *)
Record holder_wf (h : chunkHolder) : Prop := {
  hw_len : 2 <= Z.of_nat (length (h_chunks h)) < 2 ^ 31;
  hw_received : h_received h = Z.of_nat (filled (h_chunks h));
  hw_some : (0 < filled (h_chunks h) < length (h_chunks h))%nat;
  hw_el : h_el h = true;
  hw_slot i c : h_chunks h !! i = Some (Some c) →
    ck_ChunkIndex c = Z.of_nat i ∧ ck_ChunksCount c = Z.of_nat (length (h_chunks h))
}.

(** The tables agree: the list by age holds exactly the pending holders. *)
Record proc_wf (p : appMsgProcessorImpl) : Prop := {
  pw_holder k r : holders p !! k = Some r →
    ∃ h, heap p !! r = Some h ∧ h_key h = k ∧ holder_wf h ∧ r ∈ holderListByAge p;
  pw_list r : r ∈ holderListByAge p →
    ∃ h, heap p !! r = Some h ∧ holders p !! h_key h = Some r;
  pw_nodup : NoDup (holderListByAge p);
  pw_fresh r : (heapNext p <= r)%nat → heap p !! r = None
}.

(** Holder [k] is pending for the application with hexadecimal id [a]. *)
Definition pending_for (p : appMsgProcessorImpl) (a k : string) : Prop :=
  ∃ r h, holders p !! k = Some r ∧ heap p !! r = Some h ∧ EncodeToString (nb (h_appID h)) = a.

(** The index by application is exact. *)
Definition index_ok (p : appMsgProcessorImpl) : Prop :=
  ∀ a k, (∃ s, holdersByAppID p !! a = Some s ∧ k ∈ s) ↔ pending_for p a k.

(** An empty processor is consistent. *)
Lemma proc_wf_empty acc app sz t : proc_wf (mkProcessor acc app sz t ∅ 0 ∅ ∅ []).
Proof. split; simpl; [set_solver..|by constructor|done]. Qed.

Lemma index_ok_empty acc app sz t : index_ok (mkProcessor acc app sz t ∅ 0 ∅ ∅ []).
Proof.
  intros a k. unfold pending_for. simpl. setoid_rewrite lookup_empty. split; naive_solver.
Qed.

Lemma list_Remove_elem r x l : x ∈ list_Remove r l ↔ x ∈ l ∧ x ≠ r.
Proof. unfold list_Remove. rewrite list_elem_of_filter. tauto. Qed.

Lemma list_Remove_NoDup r l : NoDup l → NoDup (list_Remove r l).
Proof. apply NoDup_filter. Qed.

Lemma list_Remove_notin r l : r ∉ l → list_Remove r l = l.
Proof.
  induction l as [|x l IH]; [done|]. intros [Hx Hl]%not_elem_of_cons. unfold list_Remove.
  rewrite filter_cons_True by done. f_equal. by apply IH.
Qed.

Lemma list_Remove_cons r l : NoDup (r :: l) → list_Remove r (r :: l) = l.
Proof.
  intros [H _]%NoDup_cons. unfold list_Remove. rewrite filter_cons_False by naive_solver.
  by apply list_Remove_notin.
Qed.

#[export] Hint Resolve list_Remove_NoDup : hcs.

(** ** Removal *)

(** [removeHolder] on a pending holder, as one record update. *)
Lemma removeHolder_eq b p k r h :
  proc_wf p → holders p !! k = Some r → heap p !! r = Some h →
  removeHolder r b p =
    {| p with holders := delete k (holders p);
              holderListByAge := list_Remove r (holderListByAge p);
              holdersByAppID :=
                if b then alter (λ s, s ∖ {[k]}) (EncodeToString (nb (h_appID h))) (holdersByAppID p)
                else holdersByAppID p |}.
Proof.
  intros Hwf Hk Hr. destruct (pw_holder _ Hwf _ _ Hk) as (h' & Hr' & <- & Hh & _).
  simplify_eq. unfold removeHolder. rewrite Hr, (hw_el _ Hh). by destruct b.
Qed.

Lemma proc_wf_remove b p k r :
  proc_wf p → holders p !! k = Some r → proc_wf (removeHolder r b p).
Proof.
  intros Hwf Hk. destruct (pw_holder _ Hwf _ _ Hk) as (h & Hr & Hkey & Hh & Hin).
  rewrite (removeHolder_eq b p k r h) by done. split; simpl.
  - intros k' r' [Hne Hk']%lookup_delete_Some.
    destruct (pw_holder _ Hwf _ _ Hk') as (h' & Hr' & Hkey' & Hh' & Hin').
    exists h'. split_and!; try done. apply list_Remove_elem. split; [done|]. intros ->. congruence.
  - intros r' [Hin' Hne]%list_Remove_elem. destruct (pw_list _ Hwf _ Hin') as (h' & Hr' & Hk').
    exists h'. split; [done|]. apply lookup_delete_Some. split; [|done]. intros ->. congruence.
  - apply list_Remove_NoDup, (pw_nodup _ Hwf).
  - apply (pw_fresh _ Hwf).
Qed.

(** Deleting a holder and its entry in the index keeps the index exact. *)
Lemma index_ok_delete p k r h l :
  index_ok p → holders p !! k = Some r → heap p !! r = Some h →
  index_ok {| p with holders := delete k (holders p);
                     holderListByAge := l;
                     holdersByAppID :=
                       alter (λ s, s ∖ {[k]}) (EncodeToString (nb (h_appID h))) (holdersByAppID p) |}.
Proof.
  intros Hix Hk Hr a k'. unfold pending_for. simpl.
  specialize (Hix a k'). unfold pending_for in Hix. split.
  - intros (s & Hs & Hks). apply lookup_alter_Some in Hs.
    assert (∃ s', holdersByAppID p !! a = Some s' ∧ k' ∈ s' ∧
              (a = EncodeToString (nb (h_appID h)) → k' ≠ k)) as (s' & ? & ? & Hne).
    { destruct Hs as [(? & s' & Hs' & ->)|[? Hs']]; [exists s'|exists s]; set_solver. }
    destruct (proj1 Hix) as (r' & h' & Hk' & Hr' & Ha); [eauto|].
    exists r', h'. split_and!; try done. apply lookup_delete_Some. split; [|done].
    intros ->. simplify_eq. by apply Hne.
  - intros (r' & h' & [Hne Hk']%lookup_delete_Some & Hr' & Ha).
    destruct (proj2 Hix) as (s & Hs & Hks); [eauto|].
    destruct (decide (a = EncodeToString (nb (h_appID h)))) as [->|Hna].
    + exists (s ∖ {[k]}). split; [|set_solver]. rewrite lookup_alter_Some. left. eauto.
    + exists s. split; [|done]. rewrite lookup_alter_Some. by right.
Qed.

Lemma index_ok_remove p k r :
  proc_wf p → index_ok p → holders p !! k = Some r → index_ok (removeHolder r true p).
Proof.
  intros Hwf Hix Hk. destruct (pw_holder _ Hwf _ _ Hk) as (h & Hr & _).
  rewrite (removeHolder_eq true p k r h) by done. by apply index_ok_delete with r.
Qed.

#[export] Hint Resolve proc_wf_remove index_ok_remove : hcs.

(** ** Expiry *)

Definition is_expired (p : appMsgProcessorImpl) (now : time) (r : nat) : Prop :=
  ∃ h, heap p !! r = Some h ∧ reassembleTimeout p <= time_sub now (h_timestamp h).

(** Chunks received by the holders [l]. *)
Fixpoint receivedBy (p : appMsgProcessorImpl) (l : list nat) : Z :=
  match l with
  | [] => 0
  | r :: l => match heap p !! r with Some h => h_received h | None => 0 end + receivedBy p l
  end.

Definition same_config (p p' : appMsgProcessorImpl) : Prop :=
  accountID p' = accountID p ∧ appID p' = appID p ∧ chunkSize p' = chunkSize p ∧
  reassembleTimeout p' = reassembleTimeout p.

#[export] Instance same_config_preorder : PreOrder same_config.
Proof. split; [done|]. unfold same_config. intros ???. naive_solver congruence. Qed.

(** [p'] is [p] without the holders [dead]. *)
Record without (p p' : appMsgProcessorImpl) (dead : list nat) : Prop := {
  wo_heap : heap p' = heap p;
  wo_next : heapNext p' = heapNext p;
  wo_config : same_config p p';
  wo_holders k r : holders p' !! k = Some r ↔ holders p !! k = Some r ∧ r ∉ dead;
  wo_wf : proc_wf p';
  wo_index : index_ok p → index_ok p'
}.

Lemma without_nil p : proc_wf p → without p p [].
Proof. intros. split; try done. set_solver. Qed.

Lemma without_remove p r h dead p' :
  proc_wf p → r ∈ holderListByAge p → heap p !! r = Some h →
  without (removeHolder r true p) p' dead → without p p' (r :: dead).
Proof.
  intros Hwf Hin Hr [H1 H2 H3 H4 H5 H6].
  destruct (pw_list _ Hwf _ Hin) as (h' & Hr' & Hk). simplify_eq.
  pose proof (λ Hix, index_ok_remove p (h_key h) r Hwf Hix Hk) as Hix.
  rewrite (removeHolder_eq true p (h_key h) r h) in * by done. simpl in *.
  split; try done; [|by eauto].
  intros k r'. rewrite H4, lookup_delete_Some, not_elem_of_cons. split.
  - intros [[Hne Hk'] Hd]. split_and!; try done. intros ->.
    destruct (pw_holder _ Hwf _ _ Hk') as (h' & ? & ? & _). simplify_eq.
  - intros (Hk' & Hne & Hd). split_and!; try done. intros <-. simplify_eq.
Qed.

Lemma expireLoop_spec n now p m c m' c' p' :
  proc_wf p → (length (holderListByAge p) <= n)%nat →
  expireLoop n now p m c = (m', c', p') →
  ∃ dead, holderListByAge p = dead ++ holderListByAge p' ∧ without p p' dead ∧
    Forall (is_expired p now) dead ∧
    (∀ r, head (holderListByAge p') = Some r → ¬ is_expired p now r) ∧
    m' = m + Z.of_nat (length dead) ∧ c' = c + receivedBy p dead.
Proof.
  revert p m c. induction n as [|n IH]; intros p m c Hwf Hn; simpl.
  { intros [= <- <- <-]. exists []. destruct (holderListByAge p) eqn:E; [|simpl in *; lia].
    split_and!; try done; [by apply without_nil|simpl; lia..]. }
  destruct (holderListByAge p) as [|r l] eqn:El.
  { intros [= <- <- <-]. exists []. rewrite El.
    split_and!; try done; [by apply without_nil|simpl; lia..]. }
  assert (Hin : r ∈ holderListByAge p) by (rewrite El; left).
  destruct (pw_list _ Hwf _ Hin) as (h & Hr & Hk). rewrite Hr.
  destruct (_ >=? _) eqn:C; zbool.
  - intros H. assert (Hl : holderListByAge (removeHolder r true p) = l).
    { rewrite (removeHolder_eq true p (h_key h) r h) by done. simpl. rewrite El.
      apply list_Remove_cons. rewrite <- El. apply (pw_nodup _ Hwf). }
    assert (heap (removeHolder r true p) = heap p ∧
                 reassembleTimeout (removeHolder r true p) = reassembleTimeout p) as [Hh Ht].
    { by rewrite (removeHolder_eq true p (h_key h) r h). }
    apply IH in H as (dead & H1 & H2 & H3 & H4 & H5 & H6);
      [|eauto with hcs|rewrite Hl; simpl in *; lia].
    exists (r :: dead). unfold is_expired in *. rewrite Hh, Ht in *. split_and!.
    + rewrite <- Hl, H1. done.
    + by eapply without_remove.
    + constructor; [eauto|done].
    + done.
    + simpl. lia.
    + simpl. rewrite Hr, H6. enough (receivedBy (removeHolder r true p) dead = receivedBy p dead) by lia.
      clear -Hh. induction dead; simpl; rewrite ?Hh; congruence.
  - intros [= <- <- <-]. exists []. rewrite El. split_and!; try done; [by apply without_nil| |simpl; lia..].
    intros r' [= <-] (h' & ? & ?). simplify_eq. lia.
Qed.

(** ** Order by age *)

Definition older (p : appMsgProcessorImpl) (r r' : nat) : Prop :=
  ∀ h h', heap p !! r = Some h → heap p !! r' = Some h' → h_timestamp h <= h_timestamp h'.

(** The list runs from the oldest to the youngest holder, none younger than [t]. *)
Definition aged (p : appMsgProcessorImpl) (t : time) : Prop :=
  StronglySorted (older p) (holderListByAge p) ∧
  ∀ r h, r ∈ holderListByAge p → heap p !! r = Some h → h_timestamp h <= t.

Lemma aged_weaken p t t' : aged p t → t <= t' → aged p t'.
Proof. intros [H1 H2] Ht. split; [done|]. intros r h Hr Hh. specialize (H2 r h Hr Hh). lia. Qed.

(** With the list in order, stopping at the first live holder expires them all. *)
Lemma expireByTimestamp_complete now p m c p' :
  proc_wf p → aged p now → expireByTimestamp now p = (m, c, p') →
  ∀ r, r ∈ holderListByAge p' → ¬ is_expired p' now r.
Proof.
  intros Hwf [Hs _] H. apply expireLoop_spec in H as (dead & Hl & Hwo & _ & Hhd & _); [|done..].
  intros r Hin. destruct (holderListByAge p') as [|r0 l'] eqn:E; [by apply not_elem_of_nil in Hin|].
  intros (h & Hr & Hex). rewrite (wo_heap _ _ _ Hwo) in Hr.
  apply (Hhd r0); [done|]. destruct (pw_list _ Hwf r0) as (h0 & Hr0 & _).
  { rewrite Hl. set_solver. }
  exists h0. split; [done|]. destruct (wo_config _ _ _ Hwo) as (_ & _ & _ & Et). rewrite Et in Hex.
  etransitivity; [exact Hex|]. apply time_sub_anti.
  rewrite Hl in Hs. apply StronglySorted_app_1_r, StronglySorted_cons in Hs as [Hs _].
  apply elem_of_cons in Hin as [->|Hin]; [simplify_eq; lia|].
  rewrite Forall_forall in Hs. by apply (Hs r Hin).
Qed.

Lemma aged_without p p' dead t :
  aged p t → without p p' dead → holderListByAge p = dead ++ holderListByAge p' → aged p' t.
Proof.
  intros [Hs Ht] Hwo Hl. rewrite Hl in *. unfold aged, older in *.
  rewrite (wo_heap _ _ _ Hwo). split; [by apply StronglySorted_app_1_r in Hs|].
  intros r h Hr. apply Ht. set_solver.
Qed.

(** ** Collecting a chunk *)

Lemma filled_insert cs i c :
  cs !! i = Some None → filled (<[i := Some c]> cs) = S (filled cs).
Proof.
  revert i. induction cs as [|x cs IH]; intros [|i] H; simpl in *; try done.
  - by simplify_eq.
  - destruct x; simpl; rewrite IH by done; done.
Qed.

Lemma filled_le cs : (filled cs <= length cs)%nat.
Proof. induction cs as [|[x|] cs IH]; simpl; lia. Qed.

Lemma filled_all cs : filled cs = length cs → Forall is_Some cs.
Proof.
  induction cs as [|[x|] cs IH]; simpl; intros H; [done| |].
  - constructor; [eauto|]. apply IH. lia.
  - pose proof (filled_le cs). lia.
Qed.

Lemma filled_lt_None cs i : cs !! i = Some None → (filled cs < length cs)%nat.
Proof.
  intros H. pose proof (filled_le cs). destruct (decide (filled cs = length cs)) as [E|]; [|lia].
  apply filled_all in E. rewrite Forall_lookup in E. destruct (E _ _ H). done.
Qed.

Lemma filled_replicate n : filled (replicate n None) = 0%nat.
Proof. induction n; simpl; auto. Qed.

(** A holder about to receive a chunk: pending, or just created. *)
Record holder_pre (h : chunkHolder) : Prop := {
  hp_len : 2 <= Z.of_nat (length (h_chunks h)) < 2 ^ 31;
  hp_received : h_received h = Z.of_nat (filled (h_chunks h));
  hp_slot i c : h_chunks h !! i = Some (Some c) →
    ck_ChunkIndex c = Z.of_nat i ∧ ck_ChunksCount c = Z.of_nat (length (h_chunks h))
}.

(** The tables with holder [h] of key [k] at [r] singled out. *)
Record proc_pre (p : appMsgProcessorImpl) (k : string) (r : nat) (h : chunkHolder) : Prop := {
  pp_key : holders p !! k = Some r;
  pp_heap : heap p !! r = Some h;
  pp_hkey : h_key h = k;
  pp_pre : holder_pre h;
  pp_el : h_el h = bool_decide (r ∈ holderListByAge p);
  pp_holder k' r' : k' ≠ k → holders p !! k' = Some r' →
    ∃ h', heap p !! r' = Some h' ∧ h_key h' = k' ∧ holder_wf h' ∧ r' ∈ holderListByAge p ∧ r' ≠ r;
  pp_list r' : r' ∈ holderListByAge p → r' ≠ r →
    ∃ h', heap p !! r' = Some h' ∧ holders p !! h_key h' = Some r' ∧ h_key h' ≠ k;
  pp_nodup : NoDup (holderListByAge p);
  pp_fresh r' : (heapNext p <= r')%nat → heap p !! r' = None;
  pp_index : index_ok p
}.

Lemma proc_pre_existing p k r h :
  proc_wf p → index_ok p → holders p !! k = Some r → heap p !! r = Some h → proc_pre p k r h.
Proof.
  intros Hwf Hix Hk Hr. destruct (pw_holder _ Hwf _ _ Hk) as (h' & ? & Hkey & Hh & Hin). simplify_eq.
  split; try done.
  - destruct Hh. by split.
  - rewrite (hw_el _ Hh). by rewrite bool_decide_true.
  - intros k' r' Hne Hk'. destruct (pw_holder _ Hwf _ _ Hk') as (h' & ? & ? & ? & ?).
    exists h'. split_and!; try done. intros ->. congruence.
  - intros r' Hin' Hne. destruct (pw_list _ Hwf _ Hin') as (h' & ? & ?).
    exists h'. split_and!; try done. intros E. rewrite E in *. congruence.
  - apply (pw_nodup _ Hwf).
  - apply (pw_fresh _ Hwf).
Qed.

Lemma proc_pre_new p k chunk app :
  proc_wf p → index_ok p → holders p !! k = None → 2 <= ck_ChunksCount chunk < 2 ^ 31 →
  let h := newChunkHolder (ck_ChunksCount chunk) k app in
  let q := (findHolder k chunk app p).2 in
  (findHolder k chunk app p).1 = heapNext p ∧ proc_pre q k (heapNext p) h ∧
  holderListByAge q = holderListByAge p ∧ heapNext p ∉ holderListByAge p.
Proof.
  intros Hwf Hix Hk Hn h q. unfold q, findHolder. rewrite Hk. simpl.
  assert (Hfr : heap p !! heapNext p = None) by by apply (pw_fresh _ Hwf).
  assert (Hni : heapNext p ∉ holderListByAge p).
  { intros Hin. destruct (pw_list _ Hwf _ Hin) as (? & ? & _). simplify_eq. }
  split_and!; try done. split; simpl; try done.
  - by rewrite lookup_insert_eq.
  - by rewrite lookup_insert_eq.
  - split; simpl; rewrite ?length_replicate, ?filled_replicate; [lia|done|].
    intros i c [[=] _]%lookup_replicate.
  - by rewrite bool_decide_false.
  - intros k' r' Hne Hk'. rewrite lookup_insert_ne in Hk' by done.
    destruct (pw_holder _ Hwf _ _ Hk') as (h' & Hr' & ? & ? & ?).
    assert (r' ≠ heapNext p) by congruence.
    exists h'. rewrite lookup_insert_ne by done. done.
  - intros r' Hin' Hne. destruct (pw_list _ Hwf _ Hin') as (h' & ? & ?).
    assert (h_key h' ≠ k) by congruence.
    exists h'. rewrite !lookup_insert_ne by done. done.
  - apply (pw_nodup _ Hwf).
  - intros r' Hr'. rewrite lookup_insert_ne by lia. apply (pw_fresh _ Hwf). lia.
  - intros a k'. specialize (Hix a k'). unfold pending_for in *. simpl.
    destruct (decide (k' = k)) as [->|Hne].
    + split.
      * intros (s & Hs & Hks). exists (heapNext p), h. rewrite !lookup_insert_eq.
        split_and!; try done. apply lookup_insert_Some in Hs as [[<- _]|[_ Hs]]; [done|].
        destruct (proj1 Hix) as (? & ? & ? & _); [eauto|congruence].
      * intros (r' & h' & Hr & Hh & Ha). rewrite lookup_insert_eq in Hr. simplify_eq.
        rewrite lookup_insert_eq in Hh. simplify_eq.
        exists ({[k]} ∪ default ∅ (holdersByAppID p !! EncodeToString (nb app))).
        split; [apply lookup_insert_eq|set_solver].
    + rewrite (lookup_insert_ne (holders p)) by done.
      transitivity (∃ s, holdersByAppID p !! a = Some s ∧ k' ∈ s).
      * split; intros (s & Hs & Hks).
        -- apply lookup_insert_Some in Hs as [[<- <-]|[_ Hs]]; [|eauto].
           destruct (holdersByAppID p !! _) eqn:E; simpl in *; [eauto|]; set_solver.
        -- destruct (decide (EncodeToString (nb app) = a)) as [<-|].
           ++ eexists. rewrite lookup_insert_eq. split; [done|]. rewrite Hs. simpl. set_solver.
           ++ exists s. by rewrite lookup_insert_ne.
      * rewrite Hix. split; intros (r' & h' & Hr & Hh & Ha); exists r', h'; split_and!; try done.
        -- rewrite lookup_insert_ne; congruence.
        -- destruct (pw_holder _ Hwf _ _ Hr) as (h'' & Hr'' & _).
           rewrite lookup_insert_ne in Hh; congruence.
Qed.

Lemma pending_for_heap p h0 h r :
  heap p !! r = Some h0 → h_appID h = h_appID h0 →
  ∀ a k, pending_for {| p with heap := <[r := h]> (heap p) |} a k ↔ pending_for p a k.
Proof.
  intros Hr Ha a k. unfold pending_for. simpl. split; intros (r' & h' & Hk & Hr' & E).
  - destruct (decide (r' = r)) as [->|Hne].
    + rewrite lookup_insert_eq in Hr'. simplify_eq. exists r, h0. rewrite <- Ha. done.
    + rewrite lookup_insert_ne in Hr' by done. eauto.
  - destruct (decide (r' = r)) as [->|Hne].
    + simplify_eq. exists r, h. rewrite lookup_insert_eq, Ha. done.
    + exists r', h'. rewrite lookup_insert_ne by done. done.
Qed.

(** Updating the singled-out holder in place. *)
Lemma proc_pre_set p k r h h' :
  proc_pre p k r h → holder_pre h' → h_key h' = h_key h → h_el h' = h_el h → h_appID h' = h_appID h →
  proc_pre {| p with heap := <[r := h']> (heap p) |} k r h'.
Proof.
  intros [] Hpre Hk He Ha. split; simpl; try congruence; try done.
  - by rewrite lookup_insert_eq.
  - intros k' r' Hne Hk'. destruct (pp_holder0 k' r') as (h1 & ? & ? & ? & ? & ?); [done..|].
    exists h1. by rewrite lookup_insert_ne.
  - intros r' Hin Hne. destruct (pp_list0 r') as (h1 & ? & ? & ?); [done..|].
    exists h1. by rewrite lookup_insert_ne.
  - intros r' Hr'. rewrite lookup_insert_ne; [auto|]. intros <-. rewrite pp_fresh0 in pp_heap0; done.
  - intros a k'. rewrite (pending_for_heap _ h) by done. apply pp_index0.
Qed.

(** The singled-out holder becomes the youngest pending one. *)
Lemma proc_pre_youngest p k r h :
  proc_pre p k r h → (0 < filled (h_chunks h) < length (h_chunks h))%nat →
  let p' := {| p with heap := <[r := {| h with h_el := true |}]> (heap p);
                      holderListByAge := list_Remove r (holderListByAge p) ++ [r] |} in
  proc_wf p' ∧ index_ok p'.
Proof.
  intros [] Hf p'. split.
  - split; simpl.
    + intros k' r' Hk'. destruct (decide (k' = k)) as [->|Hne].
      * simplify_eq. eexists. rewrite lookup_insert_eq. split_and!; [done..| |set_solver].
        destruct pp_pre0. by split.
      * destruct (pp_holder0 k' r') as (h1 & ? & ? & ? & ? & ?); [done..|].
        exists h1. rewrite lookup_insert_ne by done. split_and!; try done.
        apply elem_of_app. left. by apply list_Remove_elem.
    + intros r' [[Hin Hne]%list_Remove_elem| ->%list_elem_of_singleton]%elem_of_app.
      * destruct (pp_list0 r') as (h1 & ? & ? & ?); [done..|]. exists h1. by rewrite lookup_insert_ne.
      * eexists. rewrite lookup_insert_eq. split; [done|]. simpl. congruence.
    + apply NoDup_app. split_and!; [auto with hcs| |apply NoDup_singleton].
      intros x [_ Hx]%list_Remove_elem. by rewrite list_elem_of_singleton.
    + intros r' Hr'. rewrite lookup_insert_ne; [auto|].
      intros <-. rewrite pp_fresh0 in pp_heap0; done.
  - intros a k'. pose proof (pending_for_heap p h {| h with h_el := true |} r) as Hp.
    unfold pending_for in *. simpl in *. rewrite Hp by done. apply pp_index0.
Qed.

(** The singled-out holder is complete and leaves the tables. *)
Lemma proc_pre_remove p k r h :
  proc_pre p k r h →
  removeHolder r true p =
    {| p with holders := delete k (holders p);
              holderListByAge := list_Remove r (holderListByAge p);
              holdersByAppID :=
                alter (λ s, s ∖ {[k]}) (EncodeToString (nb (h_appID h))) (holdersByAppID p) |} ∧
  proc_wf (removeHolder r true p) ∧ index_ok (removeHolder r true p).
Proof.
  intros Hpp. assert (E : removeHolder r true p =
    {| p with holders := delete k (holders p);
              holderListByAge := list_Remove r (holderListByAge p);
              holdersByAppID :=
                alter (λ s, s ∖ {[k]}) (EncodeToString (nb (h_appID h))) (holdersByAppID p) |}).
  { destruct Hpp. unfold removeHolder. rewrite pp_heap0, pp_hkey0, pp_el0.
    case_bool_decide; simpl; [done|]. by rewrite list_Remove_notin. }
  split; [done|]. rewrite E. destruct Hpp. split.
  - split; simpl.
    + intros k' r' [Hne Hk']%lookup_delete_Some.
      destruct (pp_holder0 k' r') as (h1 & ? & ? & ? & ? & ?); [done..|].
      exists h1. split_and!; try done. by apply list_Remove_elem.
    + intros r' [Hin Hne]%list_Remove_elem.
      destruct (pp_list0 r') as (h1 & ? & ? & ?); [done..|]. exists h1. split; [done|].
      by apply lookup_delete_Some.
    + auto with hcs.
    + auto.
  - by apply index_ok_delete with r.
Qed.

(** ** [addChunk] *)

(** The holder with the chunk stored. *)
Definition withChunk (h : chunkHolder) (chunk : ApplicationMessageChunk) : chunkHolder :=
  {| h with h_chunks := <[Z.to_nat (ck_ChunkIndex chunk) := Some chunk]> (h_chunks h);
            h_received := i32 (h_received h + 1);
            h_size := u32 (h_size h + u32 (nlen (ck_MessageChunk chunk))) |}.

Lemma holder_pre_withChunk h chunk :
  holder_pre h → h_chunks h !! Z.to_nat (ck_ChunkIndex chunk) = Some None →
  0 <= ck_ChunkIndex chunk → ck_ChunksCount chunk = Z.of_nat (length (h_chunks h)) →
  holder_pre (withChunk h chunk) ∧ filled (h_chunks (withChunk h chunk)) = S (filled (h_chunks h)).
Proof.
  intros [] Hs Hi Hc. pose proof (filled_lt_None _ _ Hs).
  assert (Hf := filled_insert _ _ chunk Hs). split; [|done]. split; simpl.
  - by rewrite length_insert.
  - rewrite Hf, hp_received0, i32_small; lia.
  - intros i c Hi'. rewrite length_insert.
    apply list_lookup_insert_Some in Hi' as [(<- & [= <-] & _)|[_ Hi']]; [|auto].
    split; [lia|done].
Qed.

(** [addChunk] on a holder with a free slot for the chunk: it waits for more
    chunks as the youngest holder, or it is complete. *)
Lemma addChunk_free p k r h chunk :
  proc_pre p k r h → h_chunks h !! Z.to_nat (ck_ChunkIndex chunk) = Some None →
  0 <= ck_ChunkIndex chunk → ck_ChunksCount chunk = Z.of_nat (length (h_chunks h)) →
  addChunk r chunk p =
    if bool_decide (S (filled (h_chunks h)) = length (h_chunks h))
    then Done (Complete (joinChunks (h_chunks (withChunk h chunk))) (Some r),
               removeHolder r true {| p with heap := <[r := withChunk h chunk]> (heap p) |})
    else Done (NeedMore r,
           {| p with heap := <[r := {| (withChunk h chunk) with h_el := true |}]> (heap p);
                     holderListByAge := list_Remove r (holderListByAge p) ++ [r] |}).
Proof.
  intros Hpp Hs Hi Hc. pose proof (pp_pre _ _ _ _ Hpp) as Hpre.
  destruct (holder_pre_withChunk h chunk) as [Hpre' Hf]; [done..|].
  pose proof (hp_len _ Hpre) as Hl. pose proof (filled_lt_None _ _ Hs).
  unfold addChunk. rewrite (pp_heap _ _ _ _ Hpp). simpl. rewrite Hs. simpl.
  rewrite i32_small by lia. rewrite bool_decide_false by (by intros []).
  fold (withChunk h chunk).
  assert (Hr : i32 (h_received h + 1) = Z.of_nat (S (filled (h_chunks h)))).
  { rewrite (hp_received _ Hpre), i32_small; lia. }
  case_bool_decide as E1; case_bool_decide as E2; try (simpl in *; lia).
  - do 2 f_equal. unfold list_MoveToBack, list_PushBack.
    pose proof (pp_el _ _ _ _ Hpp) as He. simpl. rewrite He.
    case_bool_decide as E3; [done|]. by rewrite list_Remove_notin.
  - done.
Qed.

(** ** [collectChunk] *)

(** The holder key and application id of a chunk, when its pointers are set. *)
Definition chunkKey (c : ApplicationMessageChunk) : option (string * nbytes) :=
  id ← ck_ApplicationMessageId c;
  md ← id_Metadata id;
  vs ← id_ValidStart id;
  Some (holderKey (any_Value md) vs, any_Value md).

(** A chunk whose header passes the two range checks of [Reassemble] and which
    is part of a multi-chunk message. The fields are [int32]. *)
Definition multi_chunk (c : ApplicationMessageChunk) : Prop :=
  2 <= ck_ChunksCount c < 2 ^ 31 ∧ 0 <= ck_ChunkIndex c < ck_ChunksCount c.

Lemma collectChunk_multi c p :
  multi_chunk c →
  (chunkKey c = None ∧ is_done (collectChunk c p) = false) ∨
  ∃ k a, chunkKey c = Some (k, a) ∧
    collectChunk c p = let '(r, p) := findHolder k c a p in addChunk r c p.
Proof.
  intros [Hn Hi]. unfold collectChunk, chunkKey, makeHolderKey.
  rewrite (proj2 (Z.ltb_ge _ _)) by lia.
  rewrite (proj2 (Z.ltb_ge _ 0)), Z.geb_leb, (proj2 (Z.leb_gt _ _)) by lia. simpl.
  rewrite (proj2 (Z.eqb_neq _ _)) by lia.
  destruct (ck_ApplicationMessageId c) as [i|]; simpl; [|by left].
  destruct (id_Metadata i) as [md|]; simpl; [|by left].
  destruct (id_ValidStart i) as [vs|]; simpl; [|by left]. right. eauto.
Qed.

(** Results of collecting a chunk. [p0] is the processor once the holder exists. *)
Inductive collect_rel (p : appMsgProcessorImpl) (chunk : ApplicationMessageChunk)
    : collected → appMsgProcessorImpl → Prop :=
  | collect_rejected e : collect_rel p chunk (Rejected e) p
  | collect_single :
      ck_ChunksCount chunk = 1 →
      collect_rel p chunk (Complete (nb (ck_MessageChunk chunk)) None) p
  | collect_more k a p0 r h :
      chunkKey chunk = Some (k, a) → findHolder k chunk a p = (r, p0) → proc_pre p0 k r h →
      h_chunks h !! Z.to_nat (ck_ChunkIndex chunk) = Some None → multi_chunk chunk →
      ck_ChunksCount chunk = Z.of_nat (length (h_chunks h)) →
      (S (filled (h_chunks h)) < length (h_chunks h))%nat →
      collect_rel p chunk (NeedMore r)
        {| p0 with heap := <[r := {| (withChunk h chunk) with h_el := true |}]> (heap p0);
                   holderListByAge := list_Remove r (holderListByAge p0) ++ [r] |}
  | collect_complete k a r h :
      chunkKey chunk = Some (k, a) → holders p !! k = Some r → proc_pre p k r h →
      h_chunks h !! Z.to_nat (ck_ChunkIndex chunk) = Some None → multi_chunk chunk →
      ck_ChunksCount chunk = Z.of_nat (length (h_chunks h)) →
      (S (filled (h_chunks h)) = length (h_chunks h))%nat →
      collect_rel p chunk (Complete (joinChunks (h_chunks (withChunk h chunk))) (Some r))
        (removeHolder r true {| p with heap := <[r := withChunk h chunk]> (heap p) |}).

Lemma collectChunk_inv p chunk c p' :
  proc_wf p → index_ok p → ck_ChunksCount chunk < 2 ^ 31 →
  collectChunk chunk p = Done (c, p') → collect_rel p chunk c p'.
Proof.
  intros Hwf Hix Hty H. destruct (decide (multi_chunk chunk)) as [Hm|Hm].
  2: { unfold collectChunk in H. repeat split_if; zbool; run_inv; try by constructor.
       exfalso. apply Hm. unfold multi_chunk. zbool. lia. }
  destruct (collectChunk_multi chunk p Hm) as [[_ E]|(k & a & Hk & E)].
  { rewrite H in E. done. }
  rewrite E in H. clear E. destruct (holders p !! k) as [r|] eqn:Ekr.
  - unfold findHolder in H. rewrite Ekr in H.
    destruct (pw_holder _ Hwf _ _ Ekr) as (h & Hr & _).
    pose proof (proc_pre_existing _ _ _ _ Hwf Hix Ekr Hr) as Hpp.
    pose proof (hp_len _ (pp_pre _ _ _ _ Hpp)).
    destruct (h_chunks h !! Z.to_nat (ck_ChunkIndex chunk)) as [[c0|]|] eqn:Es.
    + unfold addChunk in H. rewrite Hr in H. simpl in H. rewrite Es in H. simpl in H.
      run_inv. constructor.
    + destruct (decide (ck_ChunksCount chunk = Z.of_nat (length (h_chunks h)))) as [Ec|Ec].
      * rewrite (addChunk_free _ _ _ _ _ Hpp Es) in H by (done || apply Hm).
        pose proof (filled_lt_None _ _ Es). case_bool_decide; run_inv.
        -- by eapply collect_complete.
        -- eapply collect_more; try done; [|lia]. unfold findHolder. by rewrite Ekr.
      * unfold addChunk in H. rewrite Hr in H. simpl in H. rewrite Es in H. simpl in H.
        rewrite i32_small, bool_decide_true in H by (done || lia). run_inv. constructor.
    + unfold addChunk in H. rewrite Hr in H. simpl in H. rewrite Es in H. simpl in H. done.
  - destruct (proc_pre_new p k chunk a) as (E1 & Hpp & El & Hni); [done..|apply Hm|].
    destruct (findHolder k chunk a p) as [r p0] eqn:Ef. simpl in *. subst r.
    destruct Hm as [Hn Hi].
    assert (Es : h_chunks (newChunkHolder (ck_ChunksCount chunk) k a)
                   !! Z.to_nat (ck_ChunkIndex chunk) = Some None).
    { simpl. apply lookup_replicate. split; [done|lia]. }
    rewrite (addChunk_free _ _ _ _ _ Hpp Es) in H; [|lia|simpl; rewrite length_replicate; lia].
    rewrite bool_decide_false in H by (simpl; rewrite filled_replicate, length_replicate; lia). run_inv.
    apply (collect_more p chunk k a p0 (heapNext p) (newChunkHolder (ck_ChunksCount chunk) k a));
      try done; simpl; rewrite ?length_replicate, ?filled_replicate; lia.
Qed.

Lemma findHolder_frame k chunk a p r p0 :
  proc_wf p → findHolder k chunk a p = (r, p0) →
  holderListByAge p0 = holderListByAge p ∧ same_config p p0 ∧
  (∀ r' h', heap p !! r' = Some h' → heap p0 !! r' = Some h') ∧
  holders p0 = <[k := r]> (holders p).
Proof.
  intros Hwf. unfold findHolder. destruct (holders p !! k) as [r1|] eqn:E; intros [= <- <-].
  - split_and!; try done. by rewrite insert_id.
  - split_and!; try done. simpl. intros r' h' Hr'. rewrite lookup_insert_ne; [done|].
    intros <-. rewrite (pw_fresh _ Hwf) in Hr' by lia. done.
Qed.

(** Collecting a chunk keeps the tables well formed. *)
Lemma collect_rel_wf p chunk c p' :
  proc_wf p → index_ok p → collect_rel p chunk c p' → proc_wf p' ∧ index_ok p' ∧ same_config p p'.
Proof.
  intros Hwf Hix [ | |k a p0 r h Hk Hf Hpp Hs Hm Hc Hlt|k a r h Hk Hr Hpp Hs Hm Hc Heq];
    [by split_and!..| |].
  - destruct (findHolder_frame _ _ _ _ _ _ Hwf Hf) as (_ & Hsc & _).
    destruct (holder_pre_withChunk h chunk) as [Hpre Hfl];
      [apply (pp_pre _ _ _ _ Hpp)|done|apply Hm|done|].
    destruct (proc_pre_youngest _ _ _ _ (proc_pre_set _ _ _ _ (withChunk h chunk) Hpp Hpre eq_refl eq_refl eq_refl))
      as [Hwf' Hix']; [simpl in *; rewrite length_insert; lia|].
    simpl in *. rewrite insert_insert_eq in *. split_and!; try done.
  - destruct (holder_pre_withChunk h chunk) as [Hpre Hfl];
      [apply (pp_pre _ _ _ _ Hpp)|done|apply Hm|done|].
    destruct (proc_pre_remove _ _ _ _ (proc_pre_set _ _ _ _ (withChunk h chunk) Hpp Hpre eq_refl eq_refl eq_refl))
      as (E & Hwf' & Hix'). split_and!; try done. rewrite E. done.
Qed.

(** ** Stamping and expiring *)

Definition stamp (t : time) (r : nat) (p : appMsgProcessorImpl) : appMsgProcessorImpl :=
  {| p with heap := alter (λ h, {| h with h_timestamp := t |}) r (heap p) |}.

Lemma stamp_lookup t r p r' h' :
  heap (stamp t r p) !! r' = Some h' →
  ∃ h, heap p !! r' = Some h ∧ h' = if decide (r' = r) then {| h with h_timestamp := t |} else h.
Proof.
  simpl. rewrite lookup_alter_Some. intros [(-> & h & Hh & ->)|[Hne Hh]].
  - exists h. by rewrite decide_True.
  - exists h'. by rewrite decide_False.
Qed.

Lemma stamp_lookup_2 t r p r' h :
  heap p !! r' = Some h →
  heap (stamp t r p) !! r' = Some (if decide (r' = r) then {| h with h_timestamp := t |} else h).
Proof.
  intros Hh. simpl. rewrite lookup_alter. case_decide as E; subst.
  - rewrite Hh, decide_True by done. done.
  - rewrite decide_False by done. done.
Qed.

Lemma stamp_wf t r p : proc_wf p → index_ok p → proc_wf (stamp t r p) ∧ index_ok (stamp t r p).
Proof.
  intros Hwf Hix. split; [split|].
  - intros k r' Hk. destruct (pw_holder _ Hwf _ _ Hk) as (h & Hr & ? & Hh & ?).
    eexists. split; [by apply stamp_lookup_2|]. case_decide; [|done]. split_and!; try done.
    by destruct Hh.
  - intros r' Hin. destruct (pw_list _ Hwf _ Hin) as (h & Hr & Hk).
    eexists. split; [by apply stamp_lookup_2|]. by case_decide.
  - apply (pw_nodup _ Hwf).
  - intros r' Hr'. simpl. rewrite lookup_alter_None. by apply (pw_fresh _ Hwf).
  - intros a k. rewrite (Hix a k). unfold pending_for. split; intros (r' & h & Hk & Hr & Ha).
    + eexists r', _. split_and!; [done|by apply stamp_lookup_2|]. by case_decide.
    + apply stamp_lookup in Hr as (h0 & Hr & ->). exists r', h0. split_and!; try done.
      by case_decide.
Qed.
