(* ===== verification/AppMsgProps.v ===== *)
(** * Application message processor: properties

    Splitting and reassembling are inverse whatever the order of the chunks and
    whatever other messages they are interleaved with; expiry is exact; the
    tables stay consistent; and the inputs that make [Reassemble] panic. *)

From stdpp Require Import gmap strings list pretty sorting.
From Stdlib Require Import Strings.Byte Ascii.
From S2P Require Import Prelude Protos AppMsg AppMsgFacts.

(** ** Chunks of a message *)

Section split_facts.
Context (id : ApplicationMessageID) (sz : Z) (data : bytes).
Hypothesis Hsz : 0 < sz.

Definition chunkTotal : Z := (blen data + sz - 1) / sz.

Lemma chunkTotal_bounds : sz * (chunkTotal - 1) < blen data <= sz * chunkTotal.
Proof.
  unfold chunkTotal, blen. pose proof (Z.div_mod (Z.of_nat (length data) + sz - 1) sz).
  pose proof (Z.mod_pos_bound (Z.of_nat (length data) + sz - 1) sz). lia.
Qed.

Lemma chunkTotal_nonneg : 0 <= chunkTotal.
Proof. unfold chunkTotal, blen. apply Z.div_pos; lia. Qed.

Lemma length_splitChunks : Z.of_nat (length (splitChunks id sz data)) = chunkTotal.
Proof.
  unfold splitChunks. rewrite length_fmap, length_seq, Z2Nat.id; [done|apply chunkTotal_nonneg].
Qed.

(** Chunk [i] holds bytes [i*sz .. min((i+1)*sz, len)]. *)
Definition piece (i : nat) : bytes := take (Z.to_nat sz) (drop (i * Z.to_nat sz) data).

Lemma splitChunks_lookup i c :
  chunkTotal < 2 ^ 31 → splitChunks id sz data !! i = Some c →
  c = mkApplicationMessageChunk (Some id) chunkTotal (Z.of_nat i) (Some (piece i)).
Proof.
  intros Hn Hi. unfold splitChunks in Hi.
  apply list_lookup_fmap_Some in Hi as (j & -> & Hj). apply lookup_seq in Hj as [-> Hj].
  simpl. fold chunkTotal. pose proof chunkTotal_nonneg.
  assert (Z.of_nat i < chunkTotal) by (unfold chunkTotal; lia).
  rewrite (i32_small chunkTotal), (i32_small (Z.of_nat i)) by lia.
  do 2 f_equal. unfold piece, blen in *.
  replace (Z.to_nat (Z.of_nat i * sz)) with (i * Z.to_nat sz)%nat by nia.
  destruct (decide ((Z.of_nat i + 1) * sz <= Z.of_nat (length data))).
  - rewrite Z.min_l by done. f_equal. lia.
  - rewrite Z.min_r by lia. rewrite !take_ge; [done|rewrite length_drop; nia..].
Qed.

Lemma concat_pieces n : concat (piece <$> seq 0 n) = take (n * Z.to_nat sz) data.
Proof.
  induction n as [|n IH]; [done|].
  rewrite seq_S, fmap_app, concat_app, IH. simpl. rewrite app_nil_r. unfold piece.
  rewrite take_take_drop. f_equal. lia.
Qed.

(** The pieces joined in index order are the message. *)
Lemma joinChunks_split cs :
  chunkTotal < 2 ^ 31 →
  Z.of_nat (length cs) = chunkTotal →
  (∀ i c, splitChunks id sz data !! i = Some c → cs !! i = Some (Some c)) →
  joinChunks cs = data.
Proof.
  intros Hn Hl Hcs. unfold joinChunks.
  replace (_ <$> cs) with (piece <$> seq 0 (length cs)).
  - rewrite concat_pieces. apply take_ge. pose proof chunkTotal_bounds. unfold blen in *. nia.
  - apply list_eq. intros i. rewrite !list_lookup_fmap.
    destruct (decide (i < length cs)%nat) as [Hi|Hi].
    + rewrite lookup_seq_lt by done. simpl.
      destruct (lookup_lt_is_Some_2 (splitChunks id sz data) i) as [c Hc].
      { pose proof length_splitChunks. lia. }
      rewrite (Hcs _ _ Hc). simpl. apply splitChunks_lookup in Hc; [|done]. by subst c.
    + rewrite !(proj2 (lookup_ge_None _ _)); [done|lia|rewrite length_seq; lia].
Qed.

Lemma splitChunks_multi i c :
  chunkTotal < 2 ^ 31 → 2 <= chunkTotal → splitChunks id sz data !! i = Some c → multi_chunk c.
Proof.
  intros Hn H2 Hc. assert (Hi := lookup_lt_Some _ _ _ Hc). pose proof length_splitChunks.
  apply splitChunks_lookup in Hc as ->; [|done]. unfold multi_chunk. simpl. lia.
Qed.

Lemma splitChunks_NoDup : chunkTotal < 2 ^ 31 → NoDup (splitChunks id sz data).
Proof.
  intros Hn. apply NoDup_alt. intros i j c Hi Hj.
  apply splitChunks_lookup in Hi as ->; [|done]. apply splitChunks_lookup in Hj; [|done].
  simplify_eq. lia.
Qed.
End split_facts.

(** ** One call of [Reassemble] *)

(** The holder a collected chunk went to. *)
Definition touched (c : collected) : option nat :=
  match c with NeedMore r => Some r | Complete _ r => r | Rejected _ => None end.

Definition stamped (r : option nat) (t : time) (p : appMsgProcessorImpl) : appMsgProcessorImpl :=
  match r with Some r => stamp t r p | None => p end.

Section reassemble.
Context `{!Codec ApplicationMessage} `{!Codec ApplicationSignature}.
Context (sha256 : bytes → bytes) (sgn : signer).

Abbreviation Reassemble := (Reassemble sha256 sgn).
Abbreviation openMessage := (openMessage sha256 sgn).

(** The results of a chunk that was collected. *)
Definition collectedResult (c : collected) (m n : Z) : reassembled :=
  match c with
  | Rejected e => mkReassembled None None 0 0 (Some e)
  | NeedMore _ => mkReassembled None None m n None
  | Complete protoMsg _ =>
    match openMessage protoMsg with
    | Ok (message, hash) => mkReassembled message hash m n None
    | Err e => mkReassembled None None m n (Some e)
    end
  end.

Lemma Reassemble_inv chunk ts p ra p' :
  proc_wf p → index_ok p → ck_ChunksCount chunk < 2 ^ 31 →
  Reassemble chunk ts p = Done (ra, p') →
  ∃ c p1, collect_rel p chunk c p1 ∧
    ((∃ e, c = Rejected e ∧ ra = collectedResult c 0 0 ∧ p' = p ∧ p1 = p) ∨
     ((∀ e, c ≠ Rejected e) ∧ ∃ m n dead,
       ra = collectedResult c m n ∧
       let q := stamped (touched c) ts p1 in
       holderListByAge q = dead ++ holderListByAge p' ∧ without q p' dead ∧
       Forall (is_expired q ts) dead ∧
       expireByTimestamp ts q = (m, n, p'))).
Proof.
  intros Hwf Hix Hty H. unfold AppMsg.Reassemble in H. run_inv.
  match goal with H : collectChunk _ _ = Done (?c', ?q) |- _ => rename c' into c; rename q into p1 end.
  match goal with H : collectChunk _ _ = _ |- _ => apply collectChunk_inv in H as Hc; [|done..] end.
  destruct (collect_rel_wf _ _ _ _ Hwf Hix Hc) as (Hwf1 & Hix1 & _).
  exists c, p1. split; [done|]. destruct c as [e|r|msg r].
  - left. run_inv. inversion Hc; subst. eauto.
  - right. split; [done|]. destruct (stampAndExpire _ _ _) as [[m n] p2] eqn:E. run_inv.
    change (expireByTimestamp ts (stamp ts r p1) = (m, n, p')) in E.
    destruct (stamp_wf ts r p1 Hwf1 Hix1) as [Hwf2 Hix2].
    pose proof E as E'. apply expireLoop_spec in E as (dead & ? & ? & ? & _); [|done..].
    exists m, n, dead. done.
  - right. split; [done|]. destruct (stampAndExpire _ _ _) as [[m n] p2] eqn:E.
    change (expireByTimestamp ts (stamped r ts p1) = (m, n, p2)) in E.
    assert (proc_wf (stamped r ts p1)) as Hwf2 by (destruct r; [by apply stamp_wf|done]).
    pose proof E as E'. apply expireLoop_spec in E as (dead & ? & ? & ? & _); [|done..].
    exists m, n, dead. simpl. destruct (openMessage msg) as [[message hash]|e]; run_inv; done.
Qed.

(** A chunk of another message leaves holder [r] of key [k] alone. *)
Lemma collect_other p chunk c p1 k r h :
  proc_wf p → collect_rel p chunk c p1 → (∀ a, chunkKey chunk ≠ Some (k, a)) →
  holders p !! k = Some r → heap p !! r = Some h →
  holders p1 !! k = Some r ∧ heap p1 !! r = Some h ∧ touched c ≠ Some r.
Proof.
  intros Hwf Hc Hne Hk Hr.
  destruct Hc as [ | |k' a p0 r' h' Hk' Hf Hpp Hs Hm Hcnt Hlt|k' a r' h' Hk' Hr' Hpp Hs Hm Hcnt Heq];
    [done..| |].
  - assert (k' ≠ k) by (intros ->; by eapply Hne).
    destruct (findHolder_frame _ _ _ _ _ _ Hwf Hf) as (_ & _ & Hh & Hhs).
    assert (holders p0 !! k = Some r) by (by rewrite Hhs, lookup_insert_ne).
    destruct (pp_holder _ _ _ _ Hpp k r) as (h1 & Hr1 & _ & _ & _ & Hne'); [done..|].
    simpl. rewrite lookup_insert_ne by done. split_and!; [done|by apply Hh|congruence].
  - assert (k' ≠ k) by (intros ->; by eapply Hne).
    destruct (holder_pre_withChunk h' chunk) as [Hpre _]; [apply (pp_pre _ _ _ _ Hpp)|done|apply Hm|done|].
    destruct (proc_pre_remove _ _ _ _
      (proc_pre_set _ _ _ _ (withChunk h' chunk) Hpp Hpre eq_refl eq_refl eq_refl)) as (E & _).
    rewrite E. simpl. destruct (pp_holder _ _ _ _ Hpp k r) as (h1 & Hr1 & _ & _ & _ & Hne'); [done..|].
    rewrite lookup_delete_ne, lookup_insert_ne by done. split_and!; [done..|congruence].
Qed.

Lemma collect_other_absent p chunk c p1 k :
  proc_wf p → collect_rel p chunk c p1 → (∀ a, chunkKey chunk ≠ Some (k, a)) →
  holders p !! k = None → holders p1 !! k = None.
Proof.
  intros Hwf Hc Hne Hk.
  destruct Hc as [ | |k' a p0 r' h' Hk' Hf Hpp Hs Hm Hcnt Hlt|k' a r' h' Hk' Hr' Hpp Hs Hm Hcnt Heq];
    [done..| |].
  - assert (k' ≠ k) by (intros ->; by eapply Hne).
    destruct (findHolder_frame _ _ _ _ _ _ Hwf Hf) as (_ & _ & _ & Hhs).
    simpl. by rewrite Hhs, lookup_insert_ne.
  - destruct (holder_pre_withChunk h' chunk) as [Hpre _]; [apply (pp_pre _ _ _ _ Hpp)|done|apply Hm|done|].
    destruct (proc_pre_remove _ _ _ _
      (proc_pre_set _ _ _ _ (withChunk h' chunk) Hpp Hpre eq_refl eq_refl eq_refl)) as (E & _).
    rewrite E. simpl. apply lookup_delete_None. by right.
Qed.

(** Stamping and expiring keep a holder that is young enough. *)
Lemma expire_keeps q p' dead ts k r h :
  without q p' dead → Forall (is_expired q ts) dead →
  holders q !! k = Some r → heap q !! r = Some h →
  time_sub ts (h_timestamp h) < reassembleTimeout q →
  holders p' !! k = Some r ∧ heap p' !! r = Some h.
Proof.
  intros Hwo Hd Hk Hr Hlt. rewrite (wo_heap _ _ _ Hwo). split; [|done].
  apply (wo_holders _ _ _ Hwo). split; [done|]. intros Hin.
  rewrite Forall_forall in Hd. destruct (Hd r Hin) as (h' & ? & ?). simplify_eq. lia.
Qed.

Lemma stamped_other o t p r h :
  o ≠ Some r → heap p !! r = Some h → heap (stamped o t p) !! r = Some h.
Proof.
  intros Hne Hr. destruct o as [r'|]; [|done].
  unfold stamped. rewrite (stamp_lookup_2 _ _ _ _ h) by done. by rewrite decide_False by congruence.
Qed.

Lemma stamped_holders o t p : holders (stamped o t p) = holders p.
Proof. by destruct o. Qed.

Lemma stamped_config o t p : same_config p (stamped o t p).
Proof. by destruct o. Qed.

(** Frame: a call with another message's chunk keeps a young holder. *)
Lemma Reassemble_frame chunk ts p ra p' k r h :
  proc_wf p → index_ok p → ck_ChunksCount chunk < 2 ^ 31 →
  Reassemble chunk ts p = Done (ra, p') → (∀ a, chunkKey chunk ≠ Some (k, a)) →
  holders p !! k = Some r → heap p !! r = Some h →
  time_sub ts (h_timestamp h) < reassembleTimeout p →
  holders p' !! k = Some r ∧ heap p' !! r = Some h.
Proof.
  intros Hwf Hix Hty H Hne Hk Hr Hlt.
  apply Reassemble_inv in H as (c & p1 & Hc & [(e & _ & _ & -> & _)|(_ & m & n & dead & _ & Hl & Hwo & Hd & _)]);
    [done| |done..].
  destruct (collect_other _ _ _ _ _ _ _ Hwf Hc Hne Hk Hr) as (Hk1 & Hr1 & Ht).
  eapply expire_keeps; [done..|by rewrite stamped_holders|by apply stamped_other|].
  destruct (collect_rel_wf _ _ _ _ Hwf Hix Hc) as (_ & _ & Hsc).
  assert (same_config p (stamped (touched c) ts p1)) as (_ & _ & _ & ->)
    by (etransitivity; [done|apply stamped_config]). done.
Qed.

Lemma Reassemble_frame_absent chunk ts p ra p' k :
  proc_wf p → index_ok p → ck_ChunksCount chunk < 2 ^ 31 →
  Reassemble chunk ts p = Done (ra, p') → (∀ a, chunkKey chunk ≠ Some (k, a)) →
  holders p !! k = None → holders p' !! k = None.
Proof.
  intros Hwf Hix Hty H Hne Hk.
  apply Reassemble_inv in H as (c & p1 & Hc & [(e & _ & _ & -> & _)|(_ & m & n & dead & _ & Hl & Hwo & Hd & _)]);
    [done| |done..].
  apply (collect_other_absent _ _ _ _ _ Hwf Hc Hne) in Hk.
  apply eq_None_not_Some. intros [r Hr]. apply (wo_holders _ _ _ Hwo) in Hr as [Hr _].
  rewrite stamped_holders in Hr. congruence.
Qed.

(** Every call keeps the tables well formed. *)
Lemma Reassemble_tables chunk ts p ra p' :
  proc_wf p → index_ok p → ck_ChunksCount chunk < 2 ^ 31 →
  Reassemble chunk ts p = Done (ra, p') → proc_wf p' ∧ index_ok p' ∧ same_config p p'.
Proof.
  intros Hwf Hix Hty H.
  apply Reassemble_inv in H as (c & p1 & Hc & [(e & _ & _ & -> & _)|(_ & m & n & dead & _ & Hl & Hwo & Hd & _)]);
    [done| |done..].
  destruct (collect_rel_wf _ _ _ _ Hwf Hix Hc) as (Hwf1 & Hix1 & Hsc1).
  split_and!; [apply (wo_wf _ _ _ Hwo)| |].
  - apply (wo_index _ _ _ Hwo). destruct (touched c); [by apply stamp_wf|done].
  - etransitivity; [done|]. etransitivity; [apply (stamped_config (touched c) ts)|].
    apply (wo_config _ _ _ Hwo).
Qed.
End reassemble.

(** ** Order by age is kept *)

Lemma aged_update p q r ts t :
  aged p t → t <= ts →
  (holderListByAge q = list_Remove r (holderListByAge p) ++ [r] ∨
   holderListByAge q = list_Remove r (holderListByAge p)) →
  (∀ r' h, r' ∈ holderListByAge p → r' ≠ r → heap q !! r' = Some h → heap p !! r' = Some h) →
  (∀ h, heap q !! r = Some h → h_timestamp h = ts) →
  aged q ts.
Proof.
  intros [Hs Hle] Ht Hl Hfr Hr.
  assert (Hrem : StronglySorted (older q) (list_Remove r (holderListByAge p))).
  { apply (StronglySorted_weaken (older p)); [|by apply StronglySorted_filter].
    intros x y [? ?]%list_Remove_elem [? ?]%list_Remove_elem Hxy h h' ??. apply Hxy; by apply Hfr. }
  assert (Hb : ∀ x h, x ∈ list_Remove r (holderListByAge p) → heap q !! x = Some h → h_timestamp h <= ts).
  { intros x h [? ?]%list_Remove_elem ?. etransitivity; [|exact Ht]. eapply Hle; [done|by apply Hfr]. }
  destruct Hl as [Hl|Hl]; unfold aged; rewrite Hl; [|done]. split.
  - apply StronglySorted_snoc; [done|]. intros y Hy h h' Hh Hh'. rewrite (Hr _ Hh'). by eapply Hb.
  - intros x h [Hx| ->%list_elem_of_singleton]%elem_of_app Hh; [by eapply Hb|]. rewrite (Hr _ Hh). done.
Qed.

Lemma collect_aged p chunk c p1 t ts :
  proc_wf p → aged p t → t <= ts → collect_rel p chunk c p1 → aged (stamped (touched c) ts p1) ts.
Proof.
  intros Hwf Hag Ht Hc.
  assert (Hst : ∀ r q h, heap (stamp ts r q) !! r = Some h → h_timestamp h = ts).
  { intros r q h (h0 & _ & ->)%stamp_lookup. by rewrite decide_True. }
  destruct Hc as [ | |k a p0 r h Hk Hf Hpp Hs Hm Hcnt Hlt|k a r h Hk Hr Hpp Hs Hm Hcnt Heq];
    [by eapply aged_weaken..| |].
  - destruct (findHolder_frame _ _ _ _ _ _ Hwf Hf) as (Hl & _ & Hh & _).
    eapply (aged_update p); [done..|left; simpl; by rewrite Hl| |by apply Hst].
    intros r' h' Hin Hne (h0 & Hr' & ->)%stamp_lookup. rewrite decide_False by done.
    simpl in Hr'. rewrite lookup_insert_ne in Hr' by done.
    destruct (pw_list _ Hwf _ Hin) as (h1 & Hr1 & _). rewrite (Hh _ _ Hr1) in Hr'. congruence.
  - destruct (holder_pre_withChunk h chunk) as [Hpre _]; [apply (pp_pre _ _ _ _ Hpp)|done|apply Hm|done|].
    destruct (proc_pre_remove _ _ _ _
      (proc_pre_set _ _ _ _ (withChunk h chunk) Hpp Hpre eq_refl eq_refl eq_refl)) as (E & _).
    rewrite E. eapply (aged_update p); [done..|by right| |by apply Hst].
    intros r' h' Hin Hne (h0 & Hr' & ->)%stamp_lookup. rewrite decide_False by done.
    simpl in Hr'. by rewrite lookup_insert_ne in Hr' by done.
Qed.

(** ** Reassembly of one message among others *)

Section roundtrip.
Context `{!Codec ApplicationMessage} `{!Codec ApplicationSignature}.
Context (sha256 : bytes → bytes) (sgnS sgnR : signer).

(** A sequence of calls of [Reassemble]. *)
Fixpoint ReassembleAll (tr : list (ApplicationMessageChunk * time)) (p : appMsgProcessorImpl)
    : outcome (list reassembled * appMsgProcessorImpl) :=
  match tr with
  | [] => Done ([], p)
  | (c, ts) :: tr =>
    '(ra, p) ← Reassemble sha256 sgnR c ts p;
    '(ras, p) ← ReassembleAll tr p;
    Done (ra :: ras, p)
  end.

(** *** Slots filled so far *)

Definition mark (pre : list ApplicationMessageChunk) (c : ApplicationMessageChunk)
    : option ApplicationMessageChunk :=
  if decide (c ∈ pre) then Some c else None.

Lemma filled_mark pre cs : filled (mark pre <$> cs) = length (filter (λ c, c ∈ pre) cs).
Proof.
  induction cs as [|c cs IH]; [done|]. rewrite fmap_cons, filter_cons. unfold mark at 1. simpl.
  case_decide; simpl; by rewrite IH.
Qed.

Lemma filled_marked pre cs :
  NoDup cs → NoDup pre → pre ⊆ cs → filled (mark pre <$> cs) = length pre.
Proof.
  intros Hcs Hpre Hsub. rewrite filled_mark. apply Permutation_length, NoDup_Permutation;
    [by apply NoDup_filter|done|].
  intros x. rewrite list_elem_of_filter. set_solver.
Qed.

Lemma mark_insert pre cs i c :
  NoDup cs → cs !! i = Some c → <[i := Some c]> (mark pre <$> cs) = mark (c :: pre) <$> cs.
Proof.
  intros Hcs Hi. apply list_eq. intros j. rewrite list_lookup_fmap.
  destruct (decide (i = j)) as [<-|Hne].
  - rewrite list_lookup_insert_eq by (rewrite length_fmap; by eapply lookup_lt_Some).
    rewrite Hi. simpl. unfold mark. rewrite decide_True by set_solver. done.
  - rewrite list_lookup_insert_ne, list_lookup_fmap by done.
    destruct (cs !! j) as [c'|] eqn:Hj; [|done]. simpl. f_equal. unfold mark.
    assert (c' ≠ c) by (intros ->; apply Hne; by eapply NoDup_lookup).
    apply decide_ext. set_solver.
Qed.

Lemma joinChunks_mark pre cs : cs ⊆ pre → mark pre <$> cs = Some <$> cs.
Proof.
  intros H. apply list_fmap_ext. intros i c Hc. unfold mark. rewrite decide_True; [done|].
  apply H. by eapply list_elem_of_lookup_2.
Qed.

(** *** The message being followed *)

Context (vs : Timestamp) (acc : option AccountID) (a : nbytes) (sz : Z) (data : bytes).
Let id := mkApplicationMessageID (Some vs) acc (Some (mkAny a)).
Let k := holderKey a vs.
Let cs := splitChunks id sz data.
Hypothesis Hsz : 0 < sz.
Hypothesis Hn31 : chunkTotal sz data < 2 ^ 31.

Lemma own_key c : c ∈ cs → chunkKey c = Some (k, a).
Proof.
  intros (i & Hi)%list_elem_of_lookup. apply splitChunks_lookup in Hi as ->; done.
Qed.

(** The processor holds exactly the chunks [pre], stamped at [t] or later. *)
Definition following (p : appMsgProcessorImpl) (pre : list ApplicationMessageChunk) (t : time) : Prop :=
  match pre with
  | [] => holders p !! k = None
  | _ => ∃ r h, holders p !! k = Some r ∧ heap p !! r = Some h ∧
           h_chunks h = mark pre <$> cs ∧ t <= h_timestamp h
  end.

(** The holder of the message, pending or new, has the slots of [pre] filled. *)
Lemma own_findHolder p pre t c :
  proc_wf p → index_ok p → following p pre t → multi_chunk c →
  ck_ChunksCount c = Z.of_nat (length cs) →
  ∃ r h p0, findHolder k c a p = (r, p0) ∧ proc_pre p0 k r h ∧ h_chunks h = mark pre <$> cs.
Proof.
  intros Hwf Hix Hfol Hm Hcnt. destruct pre as [|c0 pre].
  - destruct (proc_pre_new p k c a) as (E1 & Hpp & _); [done..|apply Hm|].
    destruct (findHolder k c a p) as [r p0]. simpl in *. subst r.
    eexists _, _, _. split_and!; [done..|]. simpl. rewrite Hcnt, Nat2Z.id.
    symmetry. apply list_eq. intros j. rewrite list_lookup_fmap.
    destruct (cs !! j) as [c'|] eqn:Hj; simpl; symmetry.
    + apply lookup_replicate. split; [done|by eapply lookup_lt_Some].
    + apply lookup_replicate_None. by apply lookup_ge_None.
  - destruct Hfol as (r & h & Hk & Hr & Hch & _). exists r, h, p. unfold findHolder. rewrite Hk.
    split_and!; [done|by apply proc_pre_existing|done].
Qed.

Lemma own_collect p pre t c :
  proc_wf p → index_ok p → following p pre t → 2 <= chunkTotal sz data →
  NoDup (c :: pre) → c :: pre ⊆ cs →
  ∃ p1 r, 
    if decide (length (c :: pre) = length cs)
    then collectChunk c p = Done (Complete data (Some r), p1) ∧ holders p1 !! k = None
    else collectChunk c p = Done (NeedMore r, p1) ∧
      ∃ h, holders p1 !! k = Some r ∧ heap p1 !! r = Some h ∧ h_chunks h = mark (c :: pre) <$> cs.
Proof.
  intros Hwf Hix Hfol H2 Hnd Hsub.
  assert (Hcs : NoDup cs) by by apply splitChunks_NoDup.
  assert (Hlen : Z.of_nat (length cs) = chunkTotal sz data) by by apply length_splitChunks.
  assert (Hc : c ∈ cs) by set_solver.
  apply NoDup_cons in Hnd as [Hni Hndp].
  destruct (proj1 (list_elem_of_lookup _ _) Hc) as [i Hi].
  assert (Hm : multi_chunk c) by by eapply splitChunks_multi.
  assert (Hshape := splitChunks_lookup id sz data Hsz i c Hn31 Hi).
  assert (Hidx : Z.to_nat (ck_ChunkIndex c) = i) by (subst c; simpl; lia).
  assert (Hcnt : ck_ChunksCount c = chunkTotal sz data) by by subst c.
  destruct (collectChunk_multi c p Hm) as [[Hk _]|(k' & a' & Hk & E)];
    [by rewrite own_key in Hk|]. rewrite own_key in Hk by done. injection Hk as <- <-.
  clear Hshape.
  rewrite E. clear E.
  destruct (own_findHolder p pre t c) as (r & h & p0 & Ef & Hpp & Hch); [done..|lia|].
  rewrite Ef. assert (Hfree : h_chunks h !! Z.to_nat (ck_ChunkIndex c) = Some None).
  { rewrite Hidx, Hch, list_lookup_fmap, Hi. simpl. unfold mark. by rewrite decide_False. }
  assert (Hwc : h_chunks (withChunk h c) = mark (c :: pre) <$> cs).
  { simpl. rewrite Hidx, Hch. by apply mark_insert. }
  rewrite (addChunk_free _ _ _ _ _ Hpp Hfree); [|apply Hm|rewrite Hch, length_fmap; lia].
  rewrite Hch, length_fmap, filled_marked by (done || set_solver).
  case_bool_decide as E1; destruct (decide (length (c :: pre) = length cs)) as [E2|E2];
    try (simpl in *; lia).
  - eexists _, r. split.
    + do 3 f_equal. rewrite Hwc, joinChunks_mark.
      * apply (joinChunks_split id sz); [done..|by rewrite length_fmap|].
        intros j c' Hj. change (cs !! j = Some c') in Hj. by rewrite list_lookup_fmap, Hj.
      * assert (c :: pre ≡ₚ cs) as <-; [|done]. apply submseteq_length_Permutation;
          [|simpl; lia]. apply NoDup_submseteq; [by constructor|]. intros x Hx. by apply Hsub.
    + destruct (holder_pre_withChunk h c) as [Hpre _];
        [apply (pp_pre _ _ _ _ Hpp)|done|apply Hm|rewrite Hch, length_fmap; lia|].
      destruct (proc_pre_remove _ _ _ _
        (proc_pre_set _ _ _ _ (withChunk h c) Hpp Hpre eq_refl eq_refl eq_refl)) as (E & _).
      rewrite E. simpl. apply lookup_delete_eq.
  - eexists _, r. split; [done|]. eexists. split_and!; [apply (pp_key _ _ _ _ Hpp)|apply lookup_insert_eq|].
    exact Hwc.
Qed.

(** A call with one of the message's own chunks. *)
Lemma own_Reassemble p pre t c ts :
  proc_wf p → index_ok p → following p pre t → 0 < reassembleTimeout p →
  2 <= chunkTotal sz data → NoDup (c :: pre) → c :: pre ⊆ cs → t <= ts →
  if decide (length (c :: pre) = length cs)
  then ∃ m n p' r, Reassemble sha256 sgnR c ts p =
         Done (collectedResult sha256 sgnR (Complete data r) m n, p') ∧ holders p' !! k = None
  else ∃ m n p', Reassemble sha256 sgnR c ts p = Done (mkReassembled None None m n None, p') ∧
         following p' (c :: pre) t.
Proof.
  intros Hwf Hix Hfol Hto H2 Hnd Hsub Hts.
  assert (Hty : ck_ChunksCount c < 2 ^ 31).
  { destruct (proj1 (list_elem_of_lookup cs c)) as [i Hi]; [set_solver|].
    by apply (splitChunks_multi id sz data) in Hi as [[]]. }
  destruct (own_collect p pre t c) as (p1 & r & Hcol); [done..|].
  case_decide as Hlen; destruct Hcol as [E Hcol];
    apply collectChunk_inv in E as Hc; try done;
    destruct (collect_rel_wf _ _ _ _ Hwf Hix Hc) as (Hwf1 & Hix1 & _ & _ & _ & Eto);
    unfold Reassemble; rewrite E; simpl;
    (destruct (stampAndExpire _ _ _) as [[m n] p2] eqn:Ex);
    change (expireByTimestamp ts (stamp ts r p1) = (m, n, p2)) in Ex;
    destruct (stamp_wf ts r p1 Hwf1 Hix1) as [Hwf2 _];
    apply expireLoop_spec in Ex as (dead & _ & Hwo & Hd & _); try done.
  - exists m, n, p2, (Some r). split; [by destruct (openMessage _ _ _) as [[]|]|].
    apply eq_None_not_Some. intros [r' Hr']. apply (wo_holders _ _ _ Hwo) in Hr' as [Hr' _].
    simpl in Hr'. congruence.
  - destruct Hcol as (h & Hk & Hr & Hch). exists m, n, p2. split; [done|].
    destruct (expire_keeps (stamp ts r p1) p2 dead ts k r {| h with h_timestamp := ts |})
      as [Hk2 Hr2]; [done..|rewrite (stamp_lookup_2 _ _ _ _ h) by done; by rewrite decide_True| |].
    { simpl. rewrite Eto. unfold time_sub, minDuration, maxDuration. lia. }
    exists r, {| h with h_timestamp := ts |}. done.
Qed.

(** A call with the only chunk of a small message. *)
Lemma single_Reassemble p c ts :
  proc_wf p → index_ok p → holders p !! k = None → chunkTotal sz data = 1 → c ∈ cs →
  ∃ m n p', Reassemble sha256 sgnR c ts p =
      Done (collectedResult sha256 sgnR (Complete data None) m n, p') ∧ holders p' !! k = None.
Proof.
  intros Hwf Hix Hk H1 (i & Hi)%list_elem_of_lookup.
  assert (i = 0%nat) as ->.
  { apply lookup_lt_Some in Hi. pose proof (length_splitChunks id sz data Hsz). unfold cs in Hi. lia. }
  apply splitChunks_lookup in Hi as ->; [|done..].
  assert (Hp : piece sz data 0 = data).
  { unfold piece. simpl. apply take_ge. pose proof (chunkTotal_bounds sz data Hsz). unfold blen in *. lia. }
  unfold Reassemble, collectChunk. simpl. rewrite H1, Hp. simpl.
  destruct (stampAndExpire _ _ _) as [[m n] p2] eqn:Ex.
  change (expireByTimestamp ts p = (m, n, p2)) in Ex.
  apply expireLoop_spec in Ex as (dead & _ & Hwo & _); [|done..].
  exists m, n, p2. split; [by destruct (openMessage _ _ _) as [[]|]|].
  apply eq_None_not_Some. intros [r' Hr']. apply (wo_holders _ _ _ Hwo) in Hr' as [Hr' _]. congruence.
Qed.

(** Chunks that may appear in the trace: the message's own, or chunks of
    other messages; all within the reassembly timeout of [t]. *)
Definition trace_ok (t timeout : Z) (x : ApplicationMessageChunk * time) : Prop :=
  (x.1 ∈ cs ∨ fst <$> chunkKey x.1 ≠ Some k) ∧ ck_ChunksCount x.1 < 2 ^ 31 ∧
  t <= x.2 < t + timeout.

Definition own (tr : list (ApplicationMessageChunk * time)) : list ApplicationMessageChunk :=
  filter (λ c, c ∈ cs) tr.*1.

Lemma trace_following tr p pre t outs p1 :
  proc_wf p → index_ok p → following p pre t → 0 < reassembleTimeout p →
  Forall (trace_ok t (reassembleTimeout p)) tr → pre ⊆ cs →
  NoDup (own tr ++ pre) → (length (own tr ++ pre) < length cs)%nat →
  ReassembleAll tr p = Done (outs, p1) →
  ∃ pre', pre' ≡ₚ own tr ++ pre ∧ proc_wf p1 ∧ index_ok p1 ∧ following p1 pre' t ∧
    reassembleTimeout p1 = reassembleTimeout p.
Proof.
  intros Hwf Hix Hfol Hto Htr Hsub Hnd Hlt. revert p pre outs Hwf Hix Hfol Hto Htr Hsub Hnd Hlt.
  induction tr as [|[c ts] tr IH]; intros p pre outs Hwf Hix Hfol Hto Htr Hsub Hnd Hlt H.
  { simpl in H. run_inv. exists pre. done. }
  apply Forall_cons in Htr as [(Hc & Hty & Hts) Htr]. simpl in Hc, Hty, Hts, H. run_inv.
  match goal with H : Reassemble _ _ _ _ _ = Done (_, ?q) |- _ =>
    rename H into Hra; rename q into p' end.
  match goal with H : ReassembleAll _ _ = Done (?o, _) |- _ => rename H into Hall; rename o into outs' end.
  destruct (Reassemble_tables _ _ _ _ _ _ _ Hwf Hix Hty Hra) as (Hwf' & Hix' & _ & _ & _ & Eto).
  unfold own in *. rewrite fmap_cons, filter_cons in *. simpl in *.
  destruct (decide (c ∈ cs)) as [Hin|Hin].
  - assert (Hnd' : NoDup (c :: pre)).
    { clear -Hnd. simpl in Hnd. rewrite Permutation_middle in Hnd. by apply NoDup_app in Hnd as (_ & _ & ?). }
    assert (Hsub' : c :: pre ⊆ cs) by set_solver.
    assert (H2 : 2 <= chunkTotal sz data).
    { rewrite <- (length_splitChunks id sz data) by done. fold cs. simpl in Hlt. lia. }
    pose proof (own_Reassemble p pre t c ts Hwf Hix Hfol Hto H2 Hnd' Hsub') as Hown.
    rewrite decide_False in Hown by (simpl in *; rewrite length_app in Hlt; lia).
    destruct Hown as (m & n & p'' & E & Hfol'); [lia|]. rewrite E in Hra. run_inv.
    destruct (IH p' (c :: pre) outs') as (pre' & Hp & ? & ? & ? & ?); try done.
    + by rewrite Eto.
    + by rewrite Eto.
    + by rewrite <- Permutation_middle.
    + rewrite <- Permutation_middle. done.
    + exists pre'. split_and!; try done; [|congruence]. by rewrite Hp, <- Permutation_middle.
  - destruct Hc as [Hc|Hc]; [done|].
    assert (Hne : ∀ a', chunkKey c ≠ Some (k, a')) by (intros a' E; by rewrite E in Hc).
    assert (Hfol' : following p' pre t).
    { destruct pre as [|c0 pre]; [exact (Reassemble_frame_absent sha256 sgnR c ts p _ p' k Hwf Hix Hty Hra Hne Hfol)|].
      destruct Hfol as (r0 & h & Hk & Hr & Hch & Ht).
      destruct (Reassemble_frame _ _ _ _ _ _ _ k r0 h Hwf Hix Hty Hra Hne Hk Hr); [|by exists r0, h].
      unfold time_sub, minDuration, maxDuration. lia. }
    destruct (IH p' pre outs') as (pre' & Hp & ? & ? & ? & ?); try done; try by rewrite Eto.
    exists pre'. split_and!; try done; congruence.
Qed.
End roundtrip.

(** ** Properties *)

(** What [Split] relies on: messages survive protobuf, a signature produced by
    the sender's signer is accepted by the receiver's, and neither keys,
    signatures, hashes nor encoded signatures are empty. *)
Class SplitEnv `{Codec ApplicationMessage} `{Codec ApplicationSignature}
    (sha256 : bytes → bytes) (sgnS sgnR : signer) := {
  se_am :: CodecOk ApplicationMessage am_canonical;
  se_as :: CodecOk ApplicationSignature as_canonical;
  se_sig pk sig : pk ≠ [] → marshal (mkApplicationSignature (Some pk) (Some sig)) ≠ [];
  se_hash b : sha256 b ≠ [];
  se_sign m pk sig : Sign sgnS m = Ok (pk, sig) →
    pk ≠ [] ∧ sig ≠ [] ∧ Verify sgnR (Some m) (Some pk) (Some sig) = true
}.

Section properties.
Context `{HcA : !Codec ApplicationMessage} `{HcS : !Codec ApplicationSignature}.
Context (sha256 : bytes → bytes) (sgnS sgnR : signer).
Context `{Henv : !SplitEnv sha256 sgnS sgnR}.

(** What [Split] returns, and that the receiver accepts the joined message. *)
Lemma Split_inv msg validStart s chunks hash :
  nb_canonical (appID s) →
  Split sha256 sgnS (Some msg) validStart s = Done (Ok (chunks, hash)) →
  ∃ vs data, TimestampProto validStart = Some vs ∧
    chunks = splitChunks (messageID s vs) (chunkSize s) data ∧
    openMessage sha256 sgnR data = Ok (Some msg, Some hash).
Proof.
  intros Happ H. unfold Split, timestampProtoOrPanic in H. case_bool_decide; run_inv.
  destruct (Sign sgnS (sha256 msg)) as [[pk sig]|] eqn:Es; run_inv.
  destruct (se_sign _ _ _ Es) as (Hpk & Hsig & Hv).
  match goal with H : TimestampProto _ = Some ?v |- _ => exists v end.
  eexists. split_and!; [done..|]. unfold openMessage.
  assert (Hna : ∀ b : bytes, b ≠ [] → nb_canonical (Some b)) by (intros b ? [= ->]; done).
  rewrite unmarshal_marshal by (split_and!; simpl; try apply Hna; try done;
    [by intros ->|apply se_hash|by apply se_sig|by intros i a [= <-] [= <-]]).
  simpl. rewrite ?bool_decide_false by naive_solver.
  rewrite unmarshal_marshal by (split; by apply Hna). simpl. by rewrite Hv.
Qed.

(** C6. Splitting a message and reassembling it are inverse: the chunks
    may arrive in any order and interleaved with the chunks of any other
    messages (valid or not), and the chunk that arrives last yields exactly
    the message that was split and its hash, and leaves nothing behind, as
    long as all of them arrive within the reassembly timeout. *)
Theorem split_reassemble_interleaved msg validStart s chunks hash p tr c ts t k outs p1 :
  0 < chunkSize s → nb_canonical (appID s) →
  Split sha256 sgnS (Some msg) validStart s = Done (Ok (chunks, hash)) →
  Z.of_nat (length chunks) < 2 ^ 31 →
  proc_wf p → index_ok p → 0 < reassembleTimeout p →
  fst <$> chunkKey c = Some k → holders p !! k = None →
  Forall (λ x : ApplicationMessageChunk * time,
            (x.1 ∈ chunks ∨ fst <$> chunkKey x.1 ≠ Some k) ∧ ck_ChunksCount x.1 < 2 ^ 31 ∧
            t <= x.2 < t + reassembleTimeout p) (tr ++ [(c, ts)]) →
  filter (λ c, c ∈ chunks) tr.*1 ++ [c] ≡ₚ chunks →
  ReassembleAll sha256 sgnR tr p = Done (outs, p1) →
  ∃ m n p2, Reassemble sha256 sgnR c ts p1 =
      Done (mkReassembled (Some msg) (Some hash) m n None, p2) ∧ holders p2 !! k = None.
Proof.
  intros Hsz Happ Hs Hlen Hwf Hix Hto Hck Hk Htr Hperm Hall.
  apply Split_inv in Hs as (vs & data & _ & -> & Hopen); [|done].
  unfold messageID in *. rewrite length_splitChunks in Hlen by done.
  set (cs := splitChunks _ _ _) in *.
  assert (Hin : c ∈ cs) by (rewrite <- Hperm; set_solver).
  rewrite (own_key vs (Some (accountID s)) (appID s) (chunkSize s) data Hsz Hlen c Hin) in Hck.
  injection Hck as <-. apply Forall_app in Htr as [Htr [(_ & Hty & Hts) _]%Forall_cons]. simpl in *.
  assert (Hcs : NoDup cs) by by apply splitChunks_NoDup.
  assert (Hl : Z.of_nat (length cs) = chunkTotal (chunkSize s) data) by by apply length_splitChunks.
  assert (Hndp : NoDup (filter (λ c, c ∈ cs) tr.*1 ++ [c])) by by rewrite Hperm.
  apply Permutation_length in Hperm as Hlp. rewrite length_app in Hlp. simpl in Hlp.
  destruct (trace_following sha256 sgnR vs (Some (accountID s)) (appID s) (chunkSize s) data
              Hsz Hlen tr p [] t outs p1) as (pre & Hpre & Hwf1 & Hix1 & Hfol & Eto);
    try done; rewrite ?app_nil_r in *.
  { set_solver. }
  { by apply NoDup_app in Hndp as (? & _). }
  { unfold own. fold cs. lia. }
  unfold own in Hpre. fold cs in Hpre.
  destruct (decide (chunkTotal (chunkSize s) data = 1)) as [H1|H1].
  - assert (pre = []) as ->.
    { apply nil_length_inv. apply Permutation_length in Hpre. lia. }
    destruct (single_Reassemble sha256 sgnR vs (Some (accountID s)) (appID s) (chunkSize s) data
                Hsz Hlen p1 c ts) as (m & n & p2 & E & Hk2); [done..|].
    exists m, n, p2. rewrite E. simpl. by rewrite Hopen.
  - assert (Hc : c :: pre ≡ₚ cs) by (rewrite <- Hperm, Hpre; solve_Permutation).
    pose proof (own_Reassemble sha256 sgnR vs (Some (accountID s)) (appID s) (chunkSize s) data
                  Hsz Hlen p1 pre t c ts Hwf1 Hix1 Hfol) as Hown.
    rewrite decide_True in Hown by (by rewrite Hc).
    destruct Hown as (m & n & p2 & r & E & Hk2); [by rewrite Eto| |by rewrite Hc|intros x; by rewrite Hc|lia|].
    { apply list_elem_of_lookup in Hin as [i Hi%lookup_lt_Some]. lia. }
    exists m, n, p2. rewrite E. simpl. by rewrite Hopen.
Qed.

(** [Reassemble] keeps the processor consistent under a clock that does
    not run backwards: the holder map, the list by age and the index by
    application describe the same set of incomplete messages, each with its
    chunks at their own indices; the list stays ordered by age; and after a
    chunk has been accepted no holder older than the timeout is left. *)
Theorem Reassemble_invariant chunk t ts p ra p' :
  proc_wf p → index_ok p → aged p t → t <= ts → ck_ChunksCount chunk < 2 ^ 31 →
  Reassemble sha256 sgnR chunk ts p = Done (ra, p') →
  proc_wf p' ∧ index_ok p' ∧ aged p' ts ∧
  (p' = p ∨ ∀ k r h, holders p' !! k = Some r → heap p' !! r = Some h →
              time_sub ts (h_timestamp h) < reassembleTimeout p').
Proof.
  intros Hwf Hix Hag Hts Hty H.
  destruct (Reassemble_tables _ _ _ _ _ _ _ Hwf Hix Hty H) as (Hwf' & Hix' & _).
  split_and!; [done..| |].
  all: apply Reassemble_inv in H as (c & p1 & Hc & [(e & _ & _ & -> & _)|
           (_ & m & n & dead & _ & Hl & Hwo & Hd & Hex)]); [| |done..].
  - by eapply aged_weaken.
  - apply (aged_without (stamped (touched c) ts p1) p' dead); [|done..].
    by apply (collect_aged p chunk c p1 t).
  - by left.
  - right. intros k r h Hk Hr. destruct (pw_holder _ Hwf' _ _ Hk) as (h' & ? & _ & _ & Hin).
    simplify_eq. apply Z.nle_gt. intros Hle.
    destruct (collect_rel_wf _ _ _ _ Hwf Hix Hc) as (Hwf1 & Hix1 & _).
    eapply (expireByTimestamp_complete ts (stamped (touched c) ts p1)); [| |done|done|].
    + destruct (touched c); [by apply stamp_wf|done].
    + by apply (collect_aged p chunk c p1 t).
    + by exists h.
Qed.

(** The inputs on which [Reassemble] panics, exactly: a chunk of a
    multi-chunk message whose message id, metadata or valid start is missing,
    or whose index lies beyond the slots of the holder its key already has
    (the index is used before the chunk count is compared). Such a chunk can
    be submitted to the topic by anyone, so this brings the orderer down. *)
Theorem Reassemble_panics_iff chunk ts p :
  proc_wf p → index_ok p → ck_ChunksCount chunk < 2 ^ 31 →
  is_done (Reassemble sha256 sgnR chunk ts p) = false ↔
  multi_chunk chunk ∧
  (chunkKey chunk = None ∨
   ∃ k a r h, chunkKey chunk = Some (k, a) ∧ holders p !! k = Some r ∧ heap p !! r = Some h ∧
     Z.of_nat (length (h_chunks h)) <= ck_ChunkIndex chunk).
Proof.
  intros Hwf Hix Hty.
  assert (Hd : is_done (Reassemble sha256 sgnR chunk ts p) = is_done (collectChunk chunk p)).
  { unfold Reassemble. destruct (collectChunk chunk p) as [[c p1]|w]; [|done]. simpl.
    destruct c; repeat destruct (stampAndExpire _ _ _) as [[??]?]; try done.
    by destruct (openMessage _ _ _) as [[]|]. }
  rewrite Hd. clear Hd. destruct (decide (multi_chunk chunk)) as [Hm|Hm].
  2: { split; [|by intros []]. unfold collectChunk. repeat split_if; try done. intros _. exfalso.
       apply Hm. unfold multi_chunk. zbool. lia. }
  destruct (collectChunk_multi chunk p Hm) as [[Hk E]|(k & a & Hk & E)].
  { split; [|done]. intros _. split; [done|by left]. }
  rewrite E. destruct (holders p !! k) as [r|] eqn:Ekr.
  - unfold findHolder. rewrite Ekr. destruct (pw_holder _ Hwf _ _ Ekr) as (h & Hr & _).
    unfold addChunk. rewrite Hr. simpl.
    destruct (h_chunks h !! Z.to_nat (ck_ChunkIndex chunk)) as [o|] eqn:Eo; simpl.
    + apply lookup_lt_Some in Eo. split.
      * destruct o; [done|]. by repeat case_bool_decide.
      * intros (_ & [?|(k' & a' & r' & h' & ? & ? & ? & ?)]); simplify_eq. lia.
    + split; [|done]. intros _. apply lookup_ge_None in Eo. split; [done|]. right.
      exists k, a, r, h. split_and!; try done. destruct Hm. lia.
  - destruct (proc_pre_new p k chunk a) as (E1 & Hpp & _); [done..|apply Hm|].
    destruct (findHolder k chunk a p) as [r p0]. simpl in *. subst r.
    rewrite (addChunk_free _ _ _ _ _ Hpp).
    + case_bool_decide; split; try done; intros (_ & [?|(? & ? & ? & ? & ? & ? & _)]); congruence.
    + simpl. apply lookup_replicate. destruct Hm. split; [done|lia].
    + apply Hm.
    + simpl. rewrite length_replicate. destruct Hm. lia.
Qed.
End properties.

(** ** Expiry of one application's messages *)

Lemma receivedBy_heap p q l : heap q = heap p → receivedBy q l = receivedBy p l.
Proof. intros H. induction l as [|r l IH]; simpl; rewrite ?H, ?IH; done. Qed.

Lemma expireKeys_spec keys p m c m' c' p' :
  proc_wf p → NoDup keys → (∀ k, k ∈ keys → is_Some (holders p !! k)) →
  expireKeys keys p m c = (m', c', p') →
  proc_wf p' ∧ heap p' = heap p ∧ same_config p p' ∧ holdersByAppID p' = holdersByAppID p ∧
  (∀ k r, holders p' !! k = Some r ↔ holders p !! k = Some r ∧ k ∉ keys) ∧
  m' = m + Z.of_nat (length keys) ∧
  c' = c + receivedBy p (omap (λ k, holders p !! k) keys).
Proof.
  revert p m c. induction keys as [|k keys IH]; intros p m c Hwf Hnd Hall H; simpl in H.
  { simplify_eq. split_and!; try done; simpl; try lia. set_solver. }
  apply NoDup_cons in Hnd as [Hni Hnd].
  destruct (Hall k) as [r Hk]; [left|]. rewrite Hk in H.
  destruct (pw_holder _ Hwf _ _ Hk) as (h & Hr & _). rewrite Hr in H.
  pose proof (proc_wf_remove false p k r Hwf Hk) as Hwf1.
  rewrite (removeHolder_eq false p k r h) in H, Hwf1 by done.
  apply IH in H as (? & Hheap & Hsc & Hbya & Hhs & -> & ->); [|done..|].
  2: { intros k' Hk'. simpl. rewrite lookup_delete_ne by set_solver. apply Hall. by right. }
  simpl in *. split_and!; try done.
  - intros k' r'. rewrite Hhs, lookup_delete_Some, not_elem_of_cons. naive_solver.
  - lia.
  - rewrite Hk. simpl. rewrite Hr, <- Z.add_assoc. do 2 f_equal.
    rewrite (receivedBy_heap p) by done. f_equal. apply list_omap_ext, Forall_Forall2_diag, Forall_forall.
    intros k' Hk'. by rewrite lookup_delete_ne by set_solver.
Qed.

(** What [ExpireByAppID] removes, and that the tables stay consistent. *)
Lemma ExpireByAppID_spec a p :
  proc_wf p → index_ok p →
  if nlen a =? 0 then ExpireByAppID a p = (Err (Errorf "invalid appID"), p) else
  ∃ keys p', ExpireByAppID a p =
      (Ok (Z.of_nat (length keys), receivedBy p (omap (λ k, holders p !! k) keys)), p') ∧
    NoDup keys ∧ (∀ k, k ∈ keys ↔ pending_for p (EncodeToString (nb a)) k) ∧
    proc_wf p' ∧ index_ok p' ∧ heap p' = heap p ∧ same_config p p' ∧
    ∀ k r, holders p' !! k = Some r ↔ holders p !! k = Some r ∧ k ∉ keys.
Proof.
  intros Hwf Hix. unfold ExpireByAppID. destruct (nlen a =? 0); [done|].
  set (key := EncodeToString (nb a)).
  destruct (holdersByAppID p !! key) as [s|] eqn:Es.
  - destruct (expireKeys _ _ _ _) as [[m c] p'] eqn:E. exists (elements s), p'.
    assert (Hs : ∀ k, k ∈ elements s ↔ pending_for p key k).
    { intros k. rewrite elem_of_elements, <- (Hix key k). naive_solver. }
    apply expireKeys_spec in E as (Hwf' & Hh & Hsc & Hbya & Hhs & -> & ->).
    + simpl in *. split_and!; try done; [|apply NoDup_elements|].
      { by rewrite !Z.add_0_l, (receivedBy_heap p). }
      intros b k. unfold pending_for. rewrite Hh, Hbya. setoid_rewrite Hhs. split.
      * intros (s' & [Hne Hs']%lookup_delete_Some & Hks).
        destruct (proj1 (Hix b k)) as (r & h & Hk & Hr & Hb); [eauto|].
        exists r, h. split_and!; try done. rewrite Hs. intros (r' & h' & ? & ? & ?). congruence.
      * intros (r & h & [Hk Hni] & Hr & Hb). rewrite Hs in Hni.
        destruct (proj2 (Hix b k)) as (s' & Hs' & Hks); [by exists r, h|].
        exists s'. split; [|done]. apply lookup_delete_Some. split; [|done].
        intros ->. apply Hni. by exists r, h.
    + by destruct Hwf.
    + apply NoDup_elements.
    + simpl. intros k (r & h & Hk & _)%Hs. eauto.
  - exists [], p. split_and!; try done; [constructor| |set_solver].
    intros k. rewrite <- (Hix key k). set_solver.
Qed.

(** [ExpireByAppID] drops exactly the incomplete messages of one
    application: afterwards no holder of that application is pending, every
    holder of another application is untouched, the tables are consistent, and
    the counts returned are those of the messages and chunks dropped. An empty
    or nil id is rejected and nothing changes. *)
Theorem ExpireByAppID_exact a p :
  proc_wf p → index_ok p →
  if nlen a =? 0 then ExpireByAppID a p = (Err (Errorf "invalid appID"), p) else
  ∃ keys p', ExpireByAppID a p =
      (Ok (Z.of_nat (length keys), receivedBy p (omap (λ k, holders p !! k) keys)), p') ∧
    NoDup keys ∧ (∀ k, k ∈ keys ↔ pending_for p (EncodeToString (nb a)) k) ∧
    proc_wf p' ∧ index_ok p' ∧ heap p' = heap p ∧ same_config p p' ∧
    ∀ k r, holders p' !! k = Some r ↔ holders p !! k = Some r ∧ k ∉ keys.
Proof. apply ExpireByAppID_spec. Qed.

(** ** Holder keys *)

Lemma hexDigit_ne_colon n : hexDigit n ≠ ":"%char.
Proof.
  unfold hexDigit. generalize (N.to_nat n). intros m.
  do 16 (destruct m as [|m]; [done|]). by destruct m.
Qed.

Lemma digit_ne_s d : pretty_N_char d ≠ "s"%char.
Proof. unfold pretty_N_char. by repeat case_match. Qed.

(** Two chunks are gathered in the same holder only if they come from
    the same application and carry the same valid start: the text key built
    from the three fields is unambiguous. *)
Theorem holderKey_injective a ts a' ts' :
  holderKey a ts = holderKey a' ts' → nb a = nb a' ∧ ts = ts'.
Proof.
  unfold holderKey. intros H.
  apply sep_inj in H as [->%(inj EncodeToString) H]; [|apply lacks_hex, hexDigit_ne_colon..].
  simpl in H. apply sep_inj in H as [H1%(inj pretty) H2%(inj pretty)];
    [|apply lacks_pretty_Z; [apply digit_ne_s|done]..].
  split; [done|]. destruct ts, ts'. simpl in *. congruence.
Qed.

Lemma holderKey_injective_witness : nb (Some [x01]) = nb (Some [x01]) ∧ mkTimestamp 5 6 = mkTimestamp 5 6.
Proof. apply holderKey_injective. reflexivity. Defined.
