(* ===== verification/AppMsgSpec.v ===== *)
(** * Reference model of the message processor

    The processor keeps its incomplete messages in a map of holders, an index by
    application and a list by age, over a shared heap. Its behaviour is that of
    one list of holders, the oldest first: this file states the operations on
    that list and proves that the processor implements them. It follows that two
    processors with the same list, whatever their tables look like, cannot be
    told apart. *)

From stdpp Require Import gmap strings list.
From S2P Require Import Prelude Protos AppMsg AppMsgFacts AppMsgProps.

(** The incomplete messages, the oldest first. *)
Definition held (p : appMsgProcessorImpl) : list chunkHolder :=
  omap (λ r, heap p !! r) (holderListByAge p).

Definition findKey (k : string) (l : list chunkHolder) : option chunkHolder :=
  head (filter (λ h, h_key h = k) l).

Definition removeKey (k : string) (l : list chunkHolder) : list chunkHolder :=
  filter (λ h, h_key h ≠ k) l.

(** Drop the holders at the front that are too old; count them and their chunks. *)
Fixpoint specExpire (timeout : duration) (now : time) (l : list chunkHolder)
    : Z * Z * list chunkHolder :=
  match l with
  | [] => (0, 0, [])
  | h :: l' =>
    if time_sub now (h_timestamp h) >=? timeout then
      let '(m, n, l'') := specExpire timeout now l' in (1 + m, h_received h + n, l'')
    else (0, 0, l)
  end.

(** What becomes of a chunk: refused, stored, or the last one of its message. *)
Inductive specCollected :=
  | SRejected (e : error)
  | SMore (l : list chunkHolder)
  | SComplete (protoMsg : bytes) (l : list chunkHolder).

Definition specCollect (chunk : ApplicationMessageChunk) (ts : time) (l : list chunkHolder)
    : outcome specCollected :=
  if ck_ChunksCount chunk <? 1
  then Done (SRejected (Errorf "invalid ChunksCount, corrupted data")) else
  if (ck_ChunkIndex chunk <? 0) || (ck_ChunkIndex chunk >=? ck_ChunksCount chunk)
  then Done (SRejected (Errorf "invalid ChunkIndex, corrupted data")) else
  if ck_ChunksCount chunk =? 1 then Done (SComplete (nb (ck_MessageChunk chunk)) l) else
  '(k, app) ← or_panic "nil pointer dereference" (chunkKey chunk);
  let h := default (newChunkHolder (ck_ChunksCount chunk) k app) (findKey k l) in
  slot ← or_panic "index out of range" (h_chunks h !! Z.to_nat (ck_ChunkIndex chunk));
  if slot is Some _ then Done (SRejected (Errorf "received duplicate chunk")) else
  if bool_decide (ck_ChunksCount chunk ≠ Z.of_nat (length (h_chunks h)))
  then Done (SRejected (Errorf "incorrect chunk ChunksCount, corrupted data")) else
  let h := withChunk h chunk in
  if bool_decide (filled (h_chunks h) = length (h_chunks h))
  then Done (SComplete (joinChunks (h_chunks h)) (removeKey k l))
  else Done (SMore (removeKey k l ++ [{| h with h_el := true; h_timestamp := ts |}])).

Section spec.
Context `{!Codec ApplicationMessage} `{!Codec ApplicationSignature}.
Context (sha256 : bytes → bytes) (sgn : signer).

Definition specReassemble (timeout : duration) (chunk : ApplicationMessageChunk) (ts : time)
    (l : list chunkHolder) : outcome (reassembled * list chunkHolder) :=
  c ← specCollect chunk ts l;
  match c with
  | SRejected e => Done (mkReassembled None None 0 0 (Some e), l)
  | SMore l =>
    let '(m, n, l) := specExpire timeout ts l in Done (mkReassembled None None m n None, l)
  | SComplete protoMsg l =>
    let '(m, n, l) := specExpire timeout ts l in
    match openMessage sha256 sgn protoMsg with
    | Ok (message, hash) => Done (mkReassembled message hash m n None, l)
    | Err e => Done (mkReassembled None None m n (Some e), l)
    end
  end.
End spec.

(** [ExpireByAppID] forgets the messages of an application. *)
Definition specExpireByAppID (a : nbytes) (l : list chunkHolder) : list chunkHolder :=
  if nlen a =? 0 then l
  else filter (λ h, EncodeToString (nb (h_appID h)) ≠ EncodeToString (nb a)) l.

(** ** The list of holders *)

Lemma omap_ext_in {A B} (f g : A → option B) (l : list A) :
  (∀ x, x ∈ l → f x = g x) → omap f l = omap g l.
Proof.
  induction l as [|x l IH]; intros H; [done|]. csimpl. rewrite (H x) by left.
  rewrite IH; [done|]. intros; apply H; by right.
Qed.

Lemma omap_snoc {A B} (f : A → option B) (l : list A) x y : f x = Some y → omap f (l ++ [x]) = omap f l ++ [y].
Proof. intros H. rewrite omap_app. csimpl. by rewrite H. Qed.

(** Removing a reference is removing a key, when the key identifies it. *)
Lemma omap_remove (hp : gmap nat chunkHolder) k r l :
  (∀ r', r' ∈ l → ∃ h', hp !! r' = Some h' ∧ (h_key h' = k ↔ r' = r)) →
  omap (λ r, hp !! r) (list_Remove r l) = removeKey k (omap (λ r, hp !! r) l).
Proof.
  induction l as [|x l IH]; intros H; [done|].
  destruct (H x) as (h & Hx & Hk); [left|].
  unfold list_Remove in *. rewrite filter_cons. csimpl. rewrite Hx. unfold removeKey. rewrite filter_cons.
  fold (removeKey k (omap (λ r, hp !! r) l)).
  rewrite <- IH by (intros; apply H; by right).
  repeat case_decide; csimpl; rewrite ?Hx; naive_solver.
Qed.

Lemma omap_find (hp : gmap nat chunkHolder) k r h l :
  (∀ r', r' ∈ l → ∃ h', hp !! r' = Some h' ∧ (h_key h' = k ↔ r' = r)) →
  r ∈ l → hp !! r = Some h → findKey k (omap (λ r, hp !! r) l) = Some h.
Proof.
  induction l as [|x l IH]; intros H Hin Hr; [by apply not_elem_of_nil in Hin|].
  destruct (H x) as (h' & Hx & Hk); [left|]. csimpl. rewrite Hx. unfold findKey. rewrite filter_cons.
  case_decide as E.
  - apply Hk in E as ->. csimpl. congruence.
  - apply IH; [intros; apply H; by right| |done]. apply elem_of_cons in Hin as [->|]; [|done]. naive_solver.
Qed.

Lemma held_keys p k r :
  proc_wf p → holders p !! k = Some r → ∀ r', r' ∈ holderListByAge p →
  ∃ h', heap p !! r' = Some h' ∧ (h_key h' = k ↔ r' = r).
Proof.
  intros Hwf Hk r' Hin. destruct (pw_list _ Hwf _ Hin) as (h' & Hr' & Hk'). exists h'. split; [done|].
  split; [intros E; rewrite E in Hk'; congruence|intros ->].
  destruct (pw_holder _ Hwf _ _ Hk) as (h & ? & ? & _). congruence.
Qed.

Lemma findKey_held p k :
  proc_wf p → findKey k (held p) = holders p !! k ≫= λ r, heap p !! r.
Proof.
  intros Hwf. destruct (holders p !! k) as [r|] eqn:E; csimpl.
  - destruct (pw_holder _ Hwf _ _ E) as (h & Hr & _ & _ & Hin). rewrite Hr.
    eapply omap_find; [by apply held_keys|done|done].
  - unfold findKey. destruct (filter _ _) as [|h l] eqn:F; [done|]. exfalso.
    assert (h ∈ filter (λ h, h_key h = k) (held p)) as [Hk Hin]%list_elem_of_filter by (rewrite F; left).
    apply list_elem_of_omap in Hin as (r & Hin & Hr).
    destruct (pw_list _ Hwf _ Hin) as (h' & Hr' & Hh). simplify_eq.
Qed.

Lemma held_remove p k r h :
  proc_wf p → holders p !! k = Some r → heap p !! r = Some h →
  held (removeHolder r true p) = removeKey k (held p).
Proof.
  intros Hwf Hk Hr. rewrite (removeHolder_eq true p k r h) by done. unfold held. csimpl.
  by apply omap_remove, held_keys.
Qed.

(** ** Expiry *)

Lemma removeKey_absent k l : (∀ h, h ∈ l → h_key h ≠ k) → removeKey k l = l.
Proof.
  induction l as [|h l IH]; intros H; [done|]. unfold removeKey.
  rewrite filter_cons_True by (apply H; left). f_equal. apply IH. intros; apply H; by right.
Qed.

Lemma expireLoop_held n now p m c m' c' p' :
  proc_wf p → (length (holderListByAge p) <= n)%nat →
  expireLoop n now p m c = (m', c', p') →
  ∃ m0 c0, specExpire (reassembleTimeout p) now (held p) = (m0, c0, held p') ∧
    m' = m + m0 ∧ c' = c + c0.
Proof.
  revert p m c. induction n as [|n IH]; intros p m c Hwf Hn; csimpl.
  { intros [= <- <- <-]. unfold held. destruct (holderListByAge p); [|simpl in *; lia].
    exists 0, 0. csimpl. split_and!; lia || done. }
  destruct (holderListByAge p) as [|r l] eqn:El.
  { intros [= <- <- <-]. exists 0, 0. unfold held. rewrite El. csimpl. split_and!; lia || done. }
  assert (r ∈ holderListByAge p) as Hin by (rewrite El; left).
  destruct (pw_list _ Hwf _ Hin) as (h & Hr & Hk). rewrite Hr.
  assert (held p = h :: omap (λ r, heap p !! r) l) as Hp.
  { unfold held. rewrite El. csimpl. by rewrite Hr. }
  rewrite Hp. cbn [specExpire]. destruct (_ >=? _) eqn:C.
  - intros H.
    assert (list_Remove r (r :: l) = l) as Hrm.
    { apply list_Remove_cons. rewrite <- El. apply (pw_nodup _ Hwf). }
    pose proof (removeHolder_eq true p (h_key h) r h Hwf Hk Hr) as E. rewrite El, Hrm in E.
    apply IH in H as (m0 & c0 & Es & -> & ->).
    + rewrite E in Es. unfold held at 1 in Es. csimpl in Es. rewrite Es. eexists _, _. split; [done|]. lia.
    + by eapply proc_wf_remove.
    + rewrite E. csimpl. simpl in Hn. lia.
  - intros [= <- <- <-]. exists 0, 0. rewrite Hp. split_and!; lia || done.
Qed.

Lemma expireByTimestamp_held now p m c p' :
  proc_wf p → expireByTimestamp now p = (m, c, p') →
  specExpire (reassembleTimeout p) now (held p) = (m, c, held p').
Proof.
  intros Hwf H. apply expireLoop_held in H as (m0 & c0 & E & -> & ->); [|done..]. done.
Qed.

(** ** Collecting a chunk *)

(** The holders after the touched one became the youngest, stamped. *)
Lemma held_youngest (p : appMsgProcessorImpl) hp k r h ts :
  (∀ r', r' ∈ holderListByAge p → r' ≠ r → hp !! r' = heap p !! r') →
  (∀ r', r' ∈ holderListByAge p → ∃ h', heap p !! r' = Some h' ∧ (h_key h' = k ↔ r' = r)) →
  held (stamp ts r {| p with heap := <[r := h]> hp;
                             holderListByAge := list_Remove r (holderListByAge p) ++ [r] |}) =
  removeKey k (held p) ++ [{| h with h_timestamp := ts |}].
Proof.
  intros Hhp Hkeys. unfold held. csimpl.
  rewrite (omap_snoc _ _ r {| h with h_timestamp := ts |}).
  2: { by rewrite lookup_alter_eq, lookup_insert_eq. }
  f_equal. rewrite <- (omap_remove _ k r) by done. apply omap_ext_in.
  intros r' [Hin Hne]%list_Remove_elem. rewrite lookup_alter_ne, lookup_insert_ne by done. auto.
Qed.

(** The holders after the touched one was removed. *)
Lemma held_completed p p1 k r ts :
  holderListByAge p1 = list_Remove r (holderListByAge p) →
  (∀ r', r' ≠ r → heap p1 !! r' = heap p !! r') →
  (∀ r', r' ∈ holderListByAge p → ∃ h', heap p !! r' = Some h' ∧ (h_key h' = k ↔ r' = r)) →
  held (stamp ts r p1) = removeKey k (held p).
Proof.
  intros Hl Hhp Hkeys. unfold held. csimpl. rewrite Hl, <- (omap_remove _ k r) by done.
  apply omap_ext_in. intros r' [Hin Hne]%list_Remove_elem. rewrite lookup_alter_ne by done. auto.
Qed.

Definition collectedAs (ts : time) (c : collected) (p p1 : appMsgProcessorImpl)
    (o : outcome specCollected) : Prop :=
  match c with
  | Rejected e => o = Done (SRejected e) ∧ p1 = p
  | NeedMore r => o = Done (SMore (held (stamp ts r p1)))
  | Complete b r => o = Done (SComplete b (held (stamped r ts p1)))
  end.

Lemma specCollect_multi chunk ts l k a :
  multi_chunk chunk → chunkKey chunk = Some (k, a) →
  specCollect chunk ts l =
    let h := default (newChunkHolder (ck_ChunksCount chunk) k a) (findKey k l) in
    slot ← or_panic "index out of range" (h_chunks h !! Z.to_nat (ck_ChunkIndex chunk));
    if slot is Some _ then Done (SRejected (Errorf "received duplicate chunk")) else
    if bool_decide (ck_ChunksCount chunk ≠ Z.of_nat (length (h_chunks h)))
    then Done (SRejected (Errorf "incorrect chunk ChunksCount, corrupted data")) else
    if bool_decide (filled (h_chunks (withChunk h chunk)) = length (h_chunks (withChunk h chunk)))
    then Done (SComplete (joinChunks (h_chunks (withChunk h chunk))) (removeKey k l))
    else Done (SMore (removeKey k l ++ [{| (withChunk h chunk) with h_el := true; h_timestamp := ts |}])).
Proof.
  intros [Hn Hi] Hk. unfold specCollect. rewrite Hk.
  rewrite (proj2 (Z.ltb_ge _ _)) by lia.
  rewrite (proj2 (Z.ltb_ge _ 0)), Z.geb_leb, (proj2 (Z.leb_gt _ _)) by lia. simpl orb. cbv iota.
  rewrite (proj2 (Z.eqb_neq _ _)) by lia. done.
Qed.

Lemma collect_existing chunk ts p k a r c p1 :
  proc_wf p → index_ok p → multi_chunk chunk → chunkKey chunk = Some (k, a) →
  holders p !! k = Some r → addChunk r chunk p = Done (c, p1) →
  collectedAs ts c p p1 (specCollect chunk ts (held p)).
Proof.
  intros Hwf Hix Hm Hk Er H. destruct (pw_holder _ Hwf _ _ Er) as (h & Hr & _).
  pose proof (proc_pre_existing _ _ _ _ Hwf Hix Er Hr) as Hpp.
  pose proof (hp_len _ (pp_pre _ _ _ _ Hpp)) as Hl.
  rewrite (specCollect_multi _ _ _ k a) by done. rewrite findKey_held, Er by done. csimpl. rewrite Hr. csimpl.
  destruct (h_chunks h !! Z.to_nat (ck_ChunkIndex chunk)) as [[c0|]|] eqn:Es; csimpl.
  - unfold addChunk in H. rewrite Hr in H. simpl in H. rewrite Es in H. simpl in H. by run_inv.
  - case_bool_decide as Ec.
    + unfold addChunk in H. rewrite Hr in H. simpl in H. rewrite Es in H. simpl in H.
      rewrite i32_small, bool_decide_true in H by (done || lia). by run_inv.
    + destruct (holder_pre_withChunk h chunk) as [_ Hf];
        [apply (pp_pre _ _ _ _ Hpp)|done|apply Hm|done|].
      rewrite (addChunk_free _ _ _ _ _ Hpp Es) in H by (done || apply Hm).
      simpl in Hf. rewrite Hf, length_insert.
      case_bool_decide as E; run_inv.
      * csimpl. do 2 f_equal. symmetry.
        destruct (proc_pre_remove _ _ _ _ (proc_pre_set _ _ _ _ (withChunk h chunk) Hpp
          (proj1 (holder_pre_withChunk h chunk (pp_pre _ _ _ _ Hpp) Es (proj1 (proj2 Hm)) Ec))
          eq_refl eq_refl eq_refl)) as (E1 & _ & _).
        apply held_completed; rewrite ?E1; [done| |by apply held_keys].
        intros r' Hne. csimpl. by rewrite lookup_insert_ne.
      * csimpl. do 2 f_equal. symmetry. apply held_youngest; [done|by apply held_keys].
  - unfold addChunk in H. rewrite Hr in H. simpl in H. rewrite Es in H. done.
Qed.

Lemma collect_new chunk ts p k a r p0 c p1 :
  proc_wf p → index_ok p → multi_chunk chunk → chunkKey chunk = Some (k, a) →
  holders p !! k = None → findHolder k chunk a p = (r, p0) → addChunk r chunk p0 = Done (c, p1) →
  collectedAs ts c p p1 (specCollect chunk ts (held p)).
Proof.
  intros Hwf Hix Hm Hk Er Hf H.
  destruct (proc_pre_new p k chunk a) as (E1 & Hpp & El & Hni); [done..|apply Hm|].
  rewrite Hf in *. simpl in *. subst r.
  assert (Es : h_chunks (newChunkHolder (ck_ChunksCount chunk) k a)
                 !! Z.to_nat (ck_ChunkIndex chunk) = Some None).
  { simpl. destruct Hm. apply lookup_replicate. split; [done|lia]. }
  assert (ck_ChunksCount chunk = Z.of_nat (length (h_chunks (newChunkHolder (ck_ChunksCount chunk) k a)))) as Ec.
  { simpl. rewrite length_replicate. destruct Hm. lia. }
  destruct (holder_pre_withChunk _ chunk (pp_pre _ _ _ _ Hpp) Es ltac:(apply Hm) Ec) as [_ Hfl].
  rewrite (addChunk_free _ _ _ _ _ Hpp Es) in H by (done || apply Hm).
  rewrite (specCollect_multi _ _ _ k a), findKey_held, Er by done. cbn [mbind option_bind default].
  rewrite Es. cbn [or_panic mbind outcome_bind]. rewrite bool_decide_false by (intros N; by apply N).
  rewrite Hfl. replace (length (h_chunks (withChunk _ chunk)))
    with (length (h_chunks (newChunkHolder (ck_ChunksCount chunk) k a))) by (simpl; by rewrite length_insert).
  assert (S (filled (h_chunks (newChunkHolder (ck_ChunksCount chunk) k a))) ≠
    length (h_chunks (newChunkHolder (ck_ChunksCount chunk) k a))) as Hne.
  { simpl. rewrite filled_replicate, length_replicate. destruct Hm. lia. }
  rewrite bool_decide_false in H by done. rewrite bool_decide_false by done. run_inv.
  csimpl. do 2 f_equal. symmetry.
  assert (heap p0 = <[heapNext p := newChunkHolder (ck_ChunksCount chunk) k a]> (heap p)) as Eh.
  { unfold findHolder in Hf. rewrite Er in Hf. by simplify_eq. }
  rewrite El. unfold held at 1. csimpl.
  etransitivity; [apply (held_youngest p (heap p0) k (heapNext p)
    {| (withChunk (newChunkHolder (ck_ChunksCount chunk) k a) chunk) with h_el := true |} ts)|done].
  - intros r' Hin Hn. rewrite Eh, lookup_insert_ne; done.
  - intros r' Hin. destruct (pw_list _ Hwf _ Hin) as (h' & Hr' & Hk'). exists h'. split; [done|].
    split; [intros E; rewrite E in Hk'; congruence|intros ->; done].
Qed.

Lemma collect_held chunk ts p c p1 :
  proc_wf p → index_ok p → ck_ChunksCount chunk < 2 ^ 31 →
  collectChunk chunk p = Done (c, p1) →
  collectedAs ts c p p1 (specCollect chunk ts (held p)).
Proof.
  intros Hwf Hix Hty H. destruct (decide (multi_chunk chunk)) as [Hm|Hm].
  2: { unfold collectChunk in H. unfold specCollect. repeat split_if; zbool; run_inv; try done.
       exfalso. apply Hm. unfold multi_chunk. zbool. lia. }
  destruct (collectChunk_multi chunk p Hm) as [[_ E]|(k & a & Hk & E)].
  { rewrite H in E. done. }
  rewrite E in H. destruct (findHolder k chunk a p) as [r p0] eqn:Hf.
  destruct (holders p !! k) as [r1|] eqn:Er; [|by eapply collect_new].
  assert (r = r1 ∧ p0 = p) as [-> ->] by (unfold findHolder in Hf; rewrite Er in Hf; by simplify_eq).
  by eapply collect_existing.
Qed.

Lemma collect_panics chunk ts p w :
  proc_wf p → index_ok p → collectChunk chunk p = Panic w → ck_ChunksCount chunk < 2 ^ 31 →
  is_done (specCollect chunk ts (held p)) = false.
Proof.
  intros Hwf Hix H Hty. destruct (decide (multi_chunk chunk)) as [Hm|Hm].
  2: { unfold collectChunk in H. repeat split_if; zbool; try done.
       exfalso. apply Hm. unfold multi_chunk. lia. }
  destruct (collectChunk_multi chunk p Hm) as [[Hk _]|(k & a & Hk & E)].
  { unfold specCollect. destruct Hm as [Hn Hi]. rewrite (proj2 (Z.ltb_ge _ _)) by lia.
    rewrite (proj2 (Z.ltb_ge _ 0)), Z.geb_leb, (proj2 (Z.leb_gt _ _)) by lia. simpl orb. cbv iota.
    by rewrite (proj2 (Z.eqb_neq _ _)), Hk by lia. }
  rewrite E in H. rewrite (specCollect_multi _ _ _ k a), findKey_held by done.
  destruct (holders p !! k) as [r|] eqn:Er; cbn [mbind option_bind default].
  - unfold findHolder in H. rewrite Er in H.
    destruct (pw_holder _ Hwf _ _ Er) as (h & Hr & _). rewrite Hr. cbn [default].
    destruct (h_chunks h !! Z.to_nat (ck_ChunkIndex chunk)) as [slot|] eqn:Es; [|by simpl; rewrite Es].
    exfalso. unfold addChunk in H. rewrite Hr in H. simpl in H. rewrite Es in H. simpl in H.
    destruct slot; [done|]. by repeat case_bool_decide.
  - destruct (proc_pre_new p k chunk a) as (E1 & Hpp & El & Hni); [done..|apply Hm|].
    destruct (findHolder k chunk a p) as [r p0] eqn:Hf. simpl in *. subst r. exfalso.
    erewrite addChunk_free in H; [by case_bool_decide|done| |apply Hm|].
    + simpl. destruct Hm. apply lookup_replicate. split; [done|lia].
    + simpl. rewrite length_replicate. destruct Hm. lia.
Qed.

Lemma Reassemble_spec `{!Codec ApplicationMessage} `{!Codec ApplicationSignature}
    sha256 sgn chunk ts p :
  proc_wf p → index_ok p → ck_ChunksCount chunk < 2 ^ 31 →
  match Reassemble sha256 sgn chunk ts p with
  | Done (ra, p') =>
    specReassemble sha256 sgn (reassembleTimeout p) chunk ts (held p) = Done (ra, held p')
  | Panic _ =>
    is_done (specReassemble sha256 sgn (reassembleTimeout p) chunk ts (held p)) = false
  end.
Proof.
  intros Hwf Hix Hty. unfold Reassemble, specReassemble.
  destruct (collectChunk chunk p) as [[c p1]|w] eqn:H.
  2: { apply (collect_panics _ ts) in H; [|done..]. cbn [mbind outcome_bind]. by destruct (specCollect chunk ts (held p)). }
  pose proof (collect_held _ ts _ _ _ Hwf Hix Hty H) as Hc.
  apply collectChunk_inv in H; [|done..].
  destruct (collect_rel_wf _ _ _ _ Hwf Hix H) as (Hwf1 & Hix1 & (_ & _ & _ & Ht)).
  assert (∀ r, proc_wf (stamped r ts p1) ∧ reassembleTimeout (stamped r ts p1) = reassembleTimeout p) as Hst.
  { intros [r|]; simpl; [|done]. split; [by apply stamp_wf|done]. }
  cbn [mbind outcome_bind].
  destruct c as [e|r|b r]; simpl in Hc; [destruct Hc as [-> ->]; done|rewrite Hc..]; cbn [mbind outcome_bind].
  - destruct (Hst (Some r)) as [Hw Hto]. unfold stampAndExpire. fold (stamp ts r p1).
    destruct (expireByTimestamp ts (stamp ts r p1)) as [[m n] p'] eqn:E.
    apply expireByTimestamp_held in E; [|done]. simpl in E, Hto. rewrite Hto in E. by rewrite E.
  - destruct (Hst r) as [Hw Hto]. unfold stampAndExpire. fold (stamped r ts p1).
    change (match r with Some r => _ | None => p1 end) with (stamped r ts p1).
    destruct (expireByTimestamp ts (stamped r ts p1)) as [[m n] p'] eqn:E.
    apply expireByTimestamp_held in E; [|done]. rewrite Hto in E. rewrite E.
    by destruct (openMessage sha256 sgn b) as [[? ?]|].
Qed.

(** ** Dropping the messages of an application *)

Lemma filter_iff_in {A} (P Q : A → Prop) `{∀ x, Decision (P x), ∀ x, Decision (Q x)} (l : list A) :
  (∀ x, x ∈ l → P x ↔ Q x) → filter P l = filter Q l.
Proof.
  induction l as [|x l IH]; intros H1; [done|]. rewrite !filter_cons.
  rewrite IH by (intros; apply H1; by right). pose proof (H1 x ltac:(left)).
  repeat case_decide; naive_solver.
Qed.

Lemma filter_in_all {A} (P : A → Prop) `{∀ x, Decision (P x)} (l : list A) :
  (∀ x, x ∈ l → P x) → filter P l = l.
Proof.
  induction l as [|x l IH]; intros H1; [done|]. rewrite filter_cons_True by (apply H1; left).
  f_equal. apply IH. intros; apply H1; by right.
Qed.

Lemma expireKeys_held keys p m c m' c' p' :
  proc_wf p → NoDup keys → (∀ k, k ∈ keys → is_Some (holders p !! k)) →
  expireKeys keys p m c = (m', c', p') →
  held p' = filter (λ h, h_key h ∉ keys) (held p).
Proof.
  revert p m c. induction keys as [|k keys IH]; intros p m c Hwf Hnd Hall H; simpl in H.
  { simplify_eq. symmetry. apply filter_in_all. set_solver. }
  apply NoDup_cons in Hnd as [Hni Hnd].
  destruct (Hall k) as [r Hk]; [left|]. rewrite Hk in H.
  destruct (pw_holder _ Hwf _ _ Hk) as (h & Hr & _).
  apply IH in H; [|by eapply proc_wf_remove|done|].
  - rewrite H. assert (held (removeHolder r false p) = removeKey k (held p)) as ->.
    { rewrite (removeHolder_eq false p k r h) by done. unfold held. csimpl.
      by apply omap_remove, held_keys. }
    unfold removeKey. rewrite list_filter_filter. apply filter_iff_in. set_solver.
  - intros k' Hin. rewrite (removeHolder_eq false p k r h) by done. simpl.
    rewrite lookup_delete_ne by set_solver. apply Hall. set_solver.
Qed.

Lemma ExpireByAppID_held a p :
  proc_wf p → index_ok p → held (ExpireByAppID a p).2 = specExpireByAppID a (held p).
Proof.
  intros Hwf Hix. unfold ExpireByAppID, specExpireByAppID. destruct (nlen a =? 0); [done|].
  set (key := EncodeToString (nb a)).
  assert (∀ h, h ∈ held p → pending_for p key (h_key h) ↔ EncodeToString (nb (h_appID h)) = key) as Hp.
  { intros h (r & Hin & Hr)%list_elem_of_omap. destruct (pw_list _ Hwf _ Hin) as (h' & Hr' & Hk).
    simplify_eq. split; [|intros <-; by exists r, h]. intros (r' & h'' & ? & ? & <-). by simplify_eq. }
  destruct (holdersByAppID p !! key) as [s|] eqn:Es.
  - destruct (expireKeys _ _ _ _) as [[m c] p'] eqn:E.
    assert (∀ k, k ∈ elements s ↔ pending_for p key k) as Hs.
    { intros k. rewrite elem_of_elements, <- (Hix key k). naive_solver. }
    apply expireKeys_held in E; [|by destruct Hwf|apply NoDup_elements|].
    + csimpl. rewrite E. unfold held at 1. csimpl. apply filter_iff_in. intros h Hin. by rewrite Hs, Hp.
    + csimpl. intros k (r & h & Hk & _)%Hs. eauto.
  - csimpl. symmetry. apply filter_in_all. intros h Hin%Hp E. apply Hin in E.
    apply Hix in E as (s & Hs & _). congruence.
Qed.

(** C27. The message processor implements its reference model. On a consistent
    processor, [Reassemble] returns exactly the result of the model on the list
    of incomplete messages ordered by age, and leaves the list the model leaves;
    it panics exactly if the model does. The heap, the map of holders, the index
    by application and the list by age are therefore an implementation detail. *)
Theorem Reassemble_refines `{!Codec ApplicationMessage} `{!Codec ApplicationSignature}
    sha256 sgn chunk ts p :
  proc_wf p → index_ok p → ck_ChunksCount chunk < 2 ^ 31 →
  match Reassemble sha256 sgn chunk ts p with
  | Done (ra, p') =>
    specReassemble sha256 sgn (reassembleTimeout p) chunk ts (held p) = Done (ra, held p')
  | Panic _ =>
    is_done (specReassemble sha256 sgn (reassembleTimeout p) chunk ts (held p)) = false
  end.
Proof. apply Reassemble_spec. Qed.
