(* ===== verification/AppMsgDemo.v ===== *)
(** * Application message processor: concrete runs

    Instances of the parameters, and witnesses that the hypotheses of the
    properties can be met together. *)

From stdpp Require Import gmap strings list pretty sorting.
From Stdlib Require Import Strings.Byte.
From S2P Require Import Prelude Protos Codecs AppMsg AppMsgFacts AppMsgProps AppMsgSpec.

#[export] Instance demo_am_codec : Codec ApplicationMessage := ser_codec ApplicationMessage.
#[export] Instance demo_as_codec : Codec ApplicationSignature := ser_codec ApplicationSignature.

Definition demo_sha (b : bytes) : bytes := x2a :: b.
Definition demo_signer : signer := mkSigner
  (λ m, Ok ([x01], x02 :: m))
  (λ m pk sig, bool_decide (pk = Some [x01] ∧ sig = Some (x02 :: nb m))).
Definition demo_sender : appMsgProcessorImpl :=
  mkProcessor (mkAccountID 0 0 2) (Some [x07]) 20 1000 ∅ 0 ∅ ∅ [].
Definition demo_chunks : list ApplicationMessageChunk :=
  match Split demo_sha demo_signer (Some [x10]) 100 demo_sender with
  | Done (Ok (cs, _)) => cs | _ => [] end.

Definition demo_chunk (i : nat) : ApplicationMessageChunk :=
  default (mkApplicationMessageChunk None 0 0 None) (demo_chunks !! i).

(** A chunk of a two-chunk message of another application. *)
Definition demo_other (count index : Z) : ApplicationMessageChunk :=
  mkApplicationMessageChunk
    (Some (mkApplicationMessageID (Some (mkTimestamp 9 9)) None (Some (mkAny (Some [x08])))))
    count index (Some [x55]).

Definition demo_trace : list (ApplicationMessageChunk * time) :=
  [(demo_chunk 2, 10); (demo_other 2 0, 11); (demo_chunk 0, 12)].

Definition demo_key : string := default "" (fst <$> chunkKey (demo_chunk 1)).

Definition demo_after (tr : list (ApplicationMessageChunk * time)) : appMsgProcessorImpl :=
  match ReassembleAll demo_sha demo_signer tr demo_sender with
  | Done (_, p) => p | Panic _ => demo_sender end.

#[export] Instance demo_split_env : SplitEnv demo_sha demo_signer demo_signer.
Proof.
  split.
  - apply ser_codec_ok.
  - apply ser_codec_ok.
  - intros pk sig _. done.
  - done.
  - intros m pk sig [= <- <-]. split_and!; try done. simpl. by apply bool_decide_true.
Qed.

Lemma demo_chunks_eq : demo_chunks = [demo_chunk 0; demo_chunk 1; demo_chunk 2].
Proof. vm_compute. reflexivity. Qed.

Lemma demo_filter_eq : filter (λ c, c ∈ demo_chunks) demo_trace.*1 = [demo_chunk 2; demo_chunk 0].
Proof. vm_compute. reflexivity. Qed.

Lemma demo_perm : [demo_chunk 2; demo_chunk 0] ++ [demo_chunk 1] ≡ₚ demo_chunks.
Proof. rewrite demo_chunks_eq. simpl. solve_Permutation. Qed.

Lemma split_reassemble_interleaved_witness :
  ∃ m n p2, Reassemble demo_sha demo_signer (demo_chunk 1) 13 (demo_after demo_trace) =
      Done (mkReassembled (Some [x10]) (Some (demo_sha [x10])) m n None, p2) ∧
    holders p2 !! demo_key = None.
Proof.
  apply (split_reassemble_interleaved demo_sha demo_signer demo_signer [x10] 100 demo_sender demo_chunks
           (demo_sha [x10]) demo_sender demo_trace (demo_chunk 1) 13 10 demo_key
           (match ReassembleAll demo_sha demo_signer demo_trace demo_sender with
            | Done (o, _) => o | Panic _ => [] end)).
  - reflexivity.
  - discriminate.
  - vm_compute. reflexivity.
  - rewrite demo_chunks_eq. reflexivity.
  - apply proc_wf_empty.
  - apply index_ok_empty.
  - reflexivity.
  - vm_compute. reflexivity.
  - vm_compute. reflexivity.
  - unfold demo_trace. rewrite demo_chunks_eq. repeat (apply Forall_cons; split); [..|by apply Forall_nil].
    all: split_and!; try (vm_compute; congruence).
    + left. simpl. set_solver.
    + right. vm_compute. congruence.
    + left. simpl. set_solver.
    + left. simpl. set_solver.
  - rewrite demo_filter_eq. exact demo_perm.
  - vm_compute. reflexivity.
Defined.

(** A processor with one incomplete message of two chunks. *)
Definition demo_pending : appMsgProcessorImpl := demo_after [(demo_other 2 0, 11)].

Lemma demo_pending_eq :
  ∃ ra, Reassemble demo_sha demo_signer (demo_other 2 0) 11 demo_sender = Done (ra, demo_pending).
Proof. eexists. vm_compute. reflexivity. Qed.

Lemma demo_pending_wf : proc_wf demo_pending ∧ index_ok demo_pending.
Proof.
  destruct demo_pending_eq as [ra E].
  apply Reassemble_tables in E as (? & ? & _);
    [done|apply proc_wf_empty|apply index_ok_empty|reflexivity].
Qed.

Lemma aged_empty acc app sz t t' : aged (mkProcessor acc app sz t ∅ 0 ∅ ∅ []) t'.
Proof. split; [constructor|]. simpl. set_solver. Qed.

Lemma Reassemble_invariant_witness :
  proc_wf demo_pending ∧ index_ok demo_pending ∧ aged demo_pending 11 ∧
  (demo_pending = demo_sender ∨ ∀ k r h, holders demo_pending !! k = Some r →
     heap demo_pending !! r = Some h → time_sub 11 (h_timestamp h) < reassembleTimeout demo_pending).
Proof.
  eapply (Reassemble_invariant demo_sha demo_signer (demo_other 2 0) 0 11 demo_sender);
    [apply proc_wf_empty|apply index_ok_empty|apply aged_empty|discriminate|reflexivity|].
  vm_compute. reflexivity.
Defined.

(** A second chunk that claims seven chunks and index six, under the key of the
    pending two-chunk message. *)
Lemma Reassemble_panics_iff_witness :
  is_done (Reassemble demo_sha demo_signer (demo_other 7 6) 12 demo_pending) = false.
Proof.
  apply (Reassemble_panics_iff demo_sha demo_signer (demo_other 7 6) 12 demo_pending);
    [apply demo_pending_wf..|reflexivity|].
  split; [vm_compute; intuition congruence|]. right.
  eexists _, _, _, _. split_and!; [vm_compute; reflexivity..|]. vm_compute. discriminate.
Defined.

Lemma ExpireByAppID_exact_witness :
  ∃ keys p', ExpireByAppID (Some [x08]) demo_pending =
      (Ok (Z.of_nat (length keys),
           receivedBy demo_pending (omap (λ k, holders demo_pending !! k) keys)), p') ∧
    NoDup keys ∧ (∀ k, k ∈ keys ↔ pending_for demo_pending (EncodeToString [x08]) k) ∧
    proc_wf p' ∧ index_ok p' ∧ heap p' = heap demo_pending ∧ same_config demo_pending p' ∧
    ∀ k r, holders p' !! k = Some r ↔ holders demo_pending !! k = Some r ∧ k ∉ keys.
Proof. apply (ExpireByAppID_exact (Some [x08]) demo_pending); apply demo_pending_wf. Defined.

Example ExpireByAppID_demo :
  (ExpireByAppID (Some [x08]) demo_pending).1 = Ok (1, 1) ∧
  IsPending demo_pending = true ∧ IsPending (ExpireByAppID (Some [x08]) demo_pending).2 = false.
Proof. vm_compute. done. Qed.

Lemma Reassemble_refines_witness :
  match Reassemble demo_sha demo_signer (demo_other 2 1) 13 demo_pending with
  | Done (ra, p') =>
    specReassemble demo_sha demo_signer (reassembleTimeout demo_pending) (demo_other 2 1) 13
      (held demo_pending) = Done (ra, held p')
  | Panic _ =>
    is_done (specReassemble demo_sha demo_signer (reassembleTimeout demo_pending) (demo_other 2 1) 13
      (held demo_pending)) = false
  end.
Proof.
  apply (Reassemble_refines demo_sha demo_signer (demo_other 2 1) 13 demo_pending);
    [apply demo_pending_wf..|reflexivity].
Defined.
