(* ===== verification/HcsChain.v ===== *)
(** * HCS chain: state and sending side

    [orderer/consensus/hcs/chain.go]: the state of a chain, its channels, the
    signer it gives to the message processor, and the path of a message from
    [Order] and [Configure] to the HCS topic. The receiving side is in
    [HcsMessages].

    Operations run in a state monad over a [node]: the chain, the support of its
    channel, the consenter's next valid start and the trace of effects on the
    outside world. A panic of the goroutine ends the computation. *)

From stdpp Require Import gmap strings list.
From Stdlib Require Import Strings.Byte.
From S2P Require Import Prelude Protos Support AppMsg.

(** [maxConsensusMessageSize] and the subscription retry parameters. *)
Definition maxConsensusMessageSize : Z := 960.
Definition subscriptionRetryBaseDelay : duration := 100 * 10 ^ 6.
Definition subscriptionRetryMax : Z := 8.

(** A channel that is only ever closed: open or closed. *)
Inductive signal := Open | Closed.

#[export] Instance signal_eq_dec : EqDecision signal.
Proof. solve_decision. Defined.

Definition isClosed (s : signal) : bool := match s with Closed => true | Open => false end.

Record timeToCutRequest := mkTimeToCutRequest {
  ttc_start : bool;
  ttc_nextBlockNumber : Z;
  ttc_messageHash : nbytes
}.

(** [chainImpl]. [publicKeys] is the key set of the map; the operator's key is
    kept as its public bytes and signing function in the environment. *)
Record chainImpl := mkChain {
  lastConsensusTimestampPersisted : time;
  lastConsensusTimestamp : time;
  lastOrdereredConsensusTimestamp : time;
  lastOriginalSequenceProcessed : Z;
  lastResubmittedConfigSequence : Z;
  lastChunkFreeConsensusTimestamp : time;
  lastChunkFreeSequenceProcessed : Z;
  lastSequenceProcessed : Z;
  lastCutBlockNumber : Z;
  doneReprocessingMsgInFlight : signal;
  errorChan : signal;
  haltChan : signal;
  doneProcessingMessages : option signal;
  startChan : signal;
  messageHashes : gset bytes;
  publicKeys : gset bytes;
  appMsgProcessor : appMsgProcessorImpl
}.

(** Errors of the Hedera SDK the code distinguishes. *)
Inductive hederaError :=
  | ErrHederaPreCheckStatus (status : Z)
  | ErrHederaNetwork (statusCode : option Z)
  | ErrHederaOther.

Definition StatusDuplicateTransaction : Z := 11.
Definition StatusBusy : Z := 12.

(** gRPC status codes. *)
Definition codes_NotFound : Z := 5.
Definition codes_ResourceExhausted : Z := 8.
Definition codes_Internal : Z := 13.
Definition codes_Unavailable : Z := 14.

(** What a chain does to the outside world. *)
Inductive effect :=
  | SendTimeToCutRequest (r : timeToCutRequest)
  | Submit (message : bytes) (validStart : time)
  | Write (isConfig : bool) (block : Block) (md : nbytes)
  | Subscribe (startTime : time)
  | Unsubscribe
  | ResetRetryTimer (delay : duration).

(** The environment of a chain: the [n]th reading of the clock and the results
    of the [n]th calls of the HCS client. *)
Record environment := mkEnvironment {
  clock : nat → time;
  submitResult : nat → bytes → option hederaError;
  subscribeResult : nat → option error;
  operatorPublicKeyBytes : bytes;
  operatorSign : bytes → bytes
}.

Record node (S : Type) := mkNode {
  chain : chainImpl;
  support : S;
  nextValidStart : time;
  tick : nat;
  trace : list effect
}.
Arguments mkNode {S} _ _ _ _ _.
Arguments chain {S} _.
Arguments support {S} _.
Arguments nextValidStart {S} _.
Arguments tick {S} _.
Arguments trace {S} _.

(** ** The monad *)

Definition M (S A : Type) : Type := node S → outcome (A * node S).

#[export] Instance M_ret S : MRet (M S) := λ A a n, Done (a, n).
#[export] Instance M_bind S : MBind (M S) := λ A B f m n,
  match m n with Done (a, n) => f a n | Panic w => Panic w end.

Lemma M_bind_Done {S A B} (m : M S A) (f : A → M S B) n b n' :
  (m ≫= f) n = Done (b, n') ↔ ∃ a n1, m n = Done (a, n1) ∧ f a n1 = Done (b, n').
Proof.
  unfold mbind, M_bind. split.
  - destruct (m n) as [[a n1]|]; [|done]. eauto.
  - by intros (a & n1 & -> & H).
Qed.

Section primitives.
Context {S : Type}.

Definition lift {A} (o : outcome A) : M S A := λ n, a ← o; Done (a, n).
Definition panic {A} (why : string) : M S A := λ _, Panic why.
Definition getChain : M S chainImpl := λ n, Done (chain n, n).
Definition setChain (f : chainImpl → chainImpl) : M S unit :=
  λ n, Done (tt, {| n with chain := f (chain n) |}).
Definition getSupport : M S S := λ n, Done (support n, n).
Definition setSupport (s : S) : M S unit := λ n, Done (tt, {| n with support := s |}).
Definition emit (e : effect) : M S unit := λ n, Done (tt, {| n with trace := trace n ++ [e] |}).
(** The next reading of an oracle. *)
Definition ask {A} (oracle : nat → A) : M S A :=
  λ n, Done (oracle (tick n), {| n with tick := Datatypes.S (tick n) |}).
End primitives.

(** [close] of a channel; closing it twice panics. *)
Definition closeSignal (s : signal) : outcome signal :=
  match s with Open => Done Closed | Closed => Panic "close of closed channel" end.

(** ** Valid start times: [consenterImpl.getUniqueValidStart] *)

Definition uniqueValidStart (wanted next : time) : time * time :=
  let next := if wanted >? next then wanted else next in (next, next + 1).

(** What a blocking call does in a given state. *)
Inductive blocking (A : Type) := Returns (a : A) | Blocks.
Arguments Returns {A} a.
Arguments Blocks {A}.

Section sending.
Context {S : Type} `{!ConsenterSupport S}.
Context `{!Codec ApplicationMessage, !Codec ApplicationSignature, !Codec ApplicationMessageChunk}.
Context `{!Codec HcsMessage, !Codec Envelope}.
(** SHA-256 and the verification of Ed25519 signatures. *)
Context (sha256 : bytes → bytes) (ed25519_Verify : bytes → bytes → bytes → bool).
Context (env : environment).

Definition getUniqueValidStart (wanted : time) : M S time := λ n,
  let '(validStart, next) := uniqueValidStart wanted (nextValidStart n) in
  Done (validStart, {| n with nextValidStart := next |}).

(** [time.Now().Add(-10*time.Second)] *)
Definition tenSecondsAgo : M S time :=
  now ← ask (clock env); mret (now - 10 * 10 ^ 9).

(** ** The signer interface of a chain *)

Definition Sign (message : bytes) : res (bytes * bytes) :=
  if bool_decide (length message = 0%nat) then Err (Errorf "invalid data")
  else Ok (operatorPublicKeyBytes env, operatorSign env message).

Definition Verify (keys : gset bytes) (message signerPublicKey signature : nbytes) : bool :=
  match message, signerPublicKey, signature with
  | Some m, Some pk, Some sg =>
    if bool_decide (pk ∈ keys) then ed25519_Verify pk m sg else false
  | _, _, _ => false
  end.

Definition chainSigner (keys : gset bytes) : signer := mkSigner Sign (Verify keys).

(** ** Messages *)

Definition newConfigMessage (config : bytes) (configSeq originalSeq : Z) : HcsMessage :=
  HcsMessage_Regular (mkHcsMessageRegular config configSeq HcsMessageRegular_CONFIG originalSeq).

Definition newNormalMessage (payload : bytes) (configSeq originalSeq : Z) : HcsMessage :=
  HcsMessage_Regular (mkHcsMessageRegular payload configSeq HcsMessageRegular_NORMAL originalSeq).

Definition newTimeToCutMessageWithBlockNumber (blockNumber : Z) : HcsMessage :=
  HcsMessage_TimeToCut (HcsMessageTimeToCut_BlockNumber blockNumber).

Definition newTimeToCutMessageWithMessageHash (messageHash : bytes) : HcsMessage :=
  HcsMessage_TimeToCut (HcsMessageTimeToCut_MessageHash messageHash).

Definition newOrdererStartedMessage (identity : bytes) : HcsMessage :=
  HcsMessage_OrdererStarted (mkHcsMessageOrdererStarted identity).

(** ** Enqueueing *)

(** Errors after which a chunk is sent again. *)
Definition retryable (e : hederaError) : bool :=
  match e with
  | ErrHederaPreCheckStatus s =>
    bool_decide (s = StatusDuplicateTransaction) || bool_decide (s = StatusBusy)
  | ErrHederaNetwork code => bool_decide (code = Some codes_Internal)
  | ErrHederaOther => false
  end.

(** The attempts for one chunk: [err] is the result of the last one. *)
Fixpoint sendChunk (attempts : nat) (message : bytes) (err : option hederaError)
    : M S (option hederaError) :=
  match attempts with
  | O => mret err
  | Datatypes.S attempts =>
    wanted ← tenSecondsAgo;
    validStart ← getUniqueValidStart wanted;
    emit (Submit message validStart);;
    err ← ask (λ n, submitResult env n message);
    match err with
    | Some e => if retryable e then sendChunk attempts message (Some e) else mret (Some e)
    | None => mret None
    end
  end.

Fixpoint sendChunks (chunks : list ApplicationMessageChunk) : M S bool :=
  match chunks with
  | [] => mret true
  | chunk :: chunks =>
    err ← sendChunk 3 (marshal chunk) None;
    match err with Some _ => mret false | None => sendChunks chunks end
  end.

Definition enqueueChecked (message : HcsMessage) : M S (bool * nbytes) :=
  let payload := marshal message in
  wanted ← tenSecondsAgo;
  validStart ← getUniqueValidStart wanted;
  c ← getChain;
  r ← lift (Split sha256 (chainSigner (publicKeys c)) (Some payload) validStart (appMsgProcessor c));
  match r with
  | Err _ => mret (false, None)
  | Ok (chunks, msgHash) =>
    ok ← sendChunks chunks;
    mret (if (ok : bool) then (true, Some msgHash) else (false, None))
  end.

Definition enqueue (message : HcsMessage) : M S (bool * nbytes) :=
  c ← getChain;
  if isClosed (startChan c) then
    if isClosed (haltChan c) then mret (false, None) else enqueueChecked message
  else mret (false, None).

Definition sendTimeToCut (msg : HcsMessage) : M S (option error) :=
  '(ok, _) ← enqueue msg;
  mret (if (ok : bool) then None else Some (Errorf "failed to send time-to-cut message")).

(** [order]: the deferred function asks for the batch timer when the message was
    sent. *)
Definition order (e : Envelope) (configSeq originalOffset : Z) : M S (option error) :=
  '(ok, msgHash) ← enqueue (newNormalMessage (marshal e) configSeq originalOffset);
  match msgHash with
  | Some h => emit (SendTimeToCutRequest (mkTimeToCutRequest false 0 (Some h)))
  | None => mret ()
  end;;
  mret (if (ok : bool) then None else Some (Errorf "cannot enqueue")).

Definition configure (config : Envelope) (configSeq originalOffset : Z) : M S (option error) :=
  '(ok, _) ← enqueue (newConfigMessage (marshal config) configSeq originalOffset);
  mret (if (ok : bool) then None else Some (Errorf "cannot enqueue the config message")).

Definition Order (e : Envelope) (configSeq : Z) : M S (option error) := order e configSeq 0.

Definition Configure (config : Envelope) (configSeq : Z) : M S (option error) :=
  configure config configSeq 0.

(** ** Readiness *)

Definition reprocessComplete : M S unit :=
  c ← getChain;
  s ← lift (closeSignal (doneReprocessingMsgInFlight c));
  setChain (λ c, {| c with doneReprocessingMsgInFlight := s |}).

Definition reprocessPending : M S unit :=
  setChain (λ c, {| c with doneReprocessingMsgInFlight := Open |}).

(** [WaitReady]. When both channels are ready the outer select may take either
    case; both re-check [haltChan] and return the same. *)
Definition WaitReady (c : chainImpl) : blocking (option error) :=
  if isClosed (startChan c) then
    if isClosed (haltChan c)
    then Returns (Some (Errorf "consenter for this channel has been halted"))
    else if isClosed (doneReprocessingMsgInFlight c) then Returns None else Blocks
  else Returns (Some (Errorf "consenter has not completed bootstraping; try again later")).

(** [Halt] up to the point where it waits for [processMessages] to end. *)
Definition Halt (c : chainImpl) : blocking (chainImpl * blocking unit) :=
  if isClosed (startChan c) then
    if isClosed (haltChan c) then Returns (c, Returns tt)
    else
      let c := {| c with haltChan := Closed |} in
      Returns (c, match doneProcessingMessages c with Some Closed => Returns tt | _ => Blocks end)
  else Blocks.

Definition Errored (c : chainImpl) : signal := errorChan c.
End sending.

(** ** What reaches the topic *)

Section submitting.
Context {S : Type} `{!ConsenterSupport S}.
Context `{!Codec ApplicationMessage, !Codec ApplicationSignature, !Codec ApplicationMessageChunk}.
Context `{!Codec HcsMessage, !Codec Envelope}.
Context (sha256 : bytes → bytes) (ed25519_Verify : bytes → bytes → bytes → bool).
Context (env : environment).

(** The messages were submitted in this order, between other effects. *)
Inductive submitted : list effect → list bytes → Prop :=
  | submitted_nil : submitted [] []
  | submitted_skip e es ms : submitted es ms → submitted (e :: es) ms
  | submitted_take m t es ms : submitted es ms → submitted (Submit m t :: es) (m :: ms).

Lemma submitted_app es1 ms1 es2 ms2 :
  submitted es1 ms1 → submitted es2 ms2 → submitted (es1 ++ es2) (ms1 ++ ms2).
Proof. intros H1 H2. induction H1; simpl; [done|by constructor..]. Qed.

(** The HCS client accepted the message on some attempt. *)
Definition clientAccepted (m : bytes) : Prop := ∃ t, submitResult env t m = None.

Lemma sendChunk_submits attempts m err n n' :
  sendChunk (S:=S) env attempts m err n = Done (None, n') →
  err ≠ None ∨ attempts ≠ 0%nat →
  clientAccepted m ∧ ∃ es, trace n' = trace n ++ es ∧ submitted es [m].
Proof.
  revert err n. induction attempts as [|k IH]; intros err n Hs Hne; simpl in Hs.
  { injection Hs as -> _. by destruct Hne. }
  unfold tenSecondsAgo in Hs.
  apply M_bind_Done in Hs as (w & n1 & (now & n0 & Hask & [= <- <-])%M_bind_Done & Hs).
  injection Hask as <- <-.
  apply M_bind_Done in Hs as (v & n2 & Hv & ([] & n3 & [= <-] & Hs)%M_bind_Done).
  unfold getUniqueValidStart in Hv. destruct (uniqueValidStart _ _) as [v' nx] eqn:Eu.
  injection Hv as <- <-. simpl in Hs.
  apply M_bind_Done in Hs as (r & n4 & [= <- <-] & Hs). simpl in Hs.
  destruct (submitResult env _ m) as [e|] eqn:Hres.
  - destruct (retryable e); [|by injection Hs].
    apply IH in Hs as (Hacc & es & Ht & Hsub); [|by left]. simpl in Ht.
    split; [done|]. exists (Submit m v' :: es). rewrite Ht, <- app_assoc. split; [done|by constructor].
  - injection Hs as <-. simpl. split; [by eexists|]. exists [Submit m v']. split; [done|]. apply submitted_take, submitted_nil.
Qed.

Lemma sendChunks_submits chunks n n' :
  sendChunks (S:=S) env chunks n = Done (true, n') →
  Forall (λ ck, clientAccepted (marshal ck)) chunks ∧
  ∃ es, trace n' = trace n ++ es ∧ submitted es (marshal <$> chunks).
Proof.
  revert n. induction chunks as [|ck chunks IH]; intros n Hs; cbn [sendChunks] in Hs.
  { injection Hs as <-. split; [constructor|]. exists []. rewrite app_nil_r. split; [done|constructor]. }
  apply M_bind_Done in Hs as ([e|] & n1 & H1 & Hs); [done|].
  apply sendChunk_submits in H1 as (Hacc & es1 & Ht1 & Hsub1); [|by right].
  apply IH in Hs as (Hall & es2 & Ht2 & Hsub2). split; [by constructor|]. exists (es1 ++ es2).
  rewrite Ht2, Ht1, <- app_assoc. split; [done|]. by apply (submitted_app _ [_]).
Qed.

(** The HCS message [m] went out in full from [n] to [n']. *)
Definition sent (m : HcsMessage) (n n' : node S) : Prop :=
  ∃ validStart chunks hash proc es,
    Split sha256 (chainSigner ed25519_Verify env (publicKeys (chain n))) (Some (marshal m)) validStart proc
      = Done (Ok (chunks, hash)) ∧
    Forall (λ ck, clientAccepted (marshal ck)) chunks ∧
    trace n' = trace n ++ es ∧ submitted es (marshal <$> chunks).

Lemma enqueue_sends m n h n' :
  enqueue (S:=S) sha256 ed25519_Verify env m n = Done ((true, h), n') → sent m n n'.
Proof.
  unfold enqueue. intros (c & n1 & [= <- <-] & He)%M_bind_Done.
  destruct (isClosed (startChan _)); [|done]. destruct (isClosed (haltChan _)); [done|].
  unfold enqueueChecked, tenSecondsAgo in He.
  apply M_bind_Done in He as (w & n1 & (now & n0 & Hask & [= <- <-])%M_bind_Done & He).
  injection Hask as <- <-.
  apply M_bind_Done in He as (v & n2 & Hv & (c & n3 & [= <- <-] & He)%M_bind_Done).
  unfold getUniqueValidStart in Hv. destruct (uniqueValidStart _ _) as [v' nx].
  injection Hv as <- <-. simpl in He.
  apply M_bind_Done in He as (r & n4 & (x & Hsplit & [= <- <-])%bind_Done & He).
  destruct x as [[chunks hash]|]; [|done].
  apply M_bind_Done in He as ([] & n5 & Hsend & He); [|done]. injection He as <- <-.
  apply sendChunks_submits in Hsend as (Hall & es & Ht & Hsub). simpl in Ht.
  by exists v', chunks, hash, (appMsgProcessor (chain n)), es.
Qed.

Lemma sent_trace m n n1 n2 e :
  sent m n n1 → trace n2 = trace n1 ++ e → sent m n n2.
Proof.
  intros (v & chunks & hash & proc & es & Hs & Hall & Ht & Hsub) Htr.
  exists v, chunks, hash, proc, (es ++ e). rewrite Htr, Ht, <- app_assoc. split_and!; try done.
  rewrite <- (app_nil_r (marshal <$> chunks)). apply submitted_app; [done|].
  clear. induction e; by constructor.
Qed.

(** The HCS client returned an error for the message on some attempt. *)
Definition clientRefused (m : bytes) : Prop := ∃ t e, submitResult env t m = Some e.

Lemma sendChunk_refused attempts m err e n n' :
  sendChunk (S:=S) env attempts m err n = Done (Some e, n') → attempts ≠ 0%nat ∨ clientRefused m →
  clientRefused m ∧ ∃ es, trace n' = trace n ++ es ∧ (attempts ≠ 0%nat → submitted es [m]).
Proof.
  revert err n. induction attempts as [|k IH]; intros err n Hs Hne; simpl in Hs.
  { injection Hs as _ <-. destruct Hne; [done|]. split; [done|]. exists []. by rewrite app_nil_r. }
  unfold tenSecondsAgo in Hs.
  apply M_bind_Done in Hs as (w & n1 & (now & n0 & Hask & [= <- <-])%M_bind_Done & Hs).
  injection Hask as <- <-.
  apply M_bind_Done in Hs as (v & n2 & Hv & ([] & n3 & [= <-] & Hs)%M_bind_Done).
  unfold getUniqueValidStart in Hv. destruct (uniqueValidStart _ _) as [v' nx].
  injection Hv as <- <-. simpl in Hs.
  apply M_bind_Done in Hs as (r & n4 & [= <- <-] & Hs). simpl in Hs.
  destruct (submitResult env _ m) as [e'|] eqn:Hres; [|done].
  assert (clientRefused m) as Href by (by eexists _, _). split; [done|].
  assert (∃ es, trace n' = trace n ++ Submit m v' :: es) as (es & Ht).
  { destruct (retryable e').
    - apply IH in Hs as (_ & es & Ht & _); [|by right]. simpl in Ht. exists es. by rewrite Ht, <- app_assoc.
    - injection Hs as _ <-. by exists []. }
  exists (Submit m v' :: es). split; [done|]. intros _. apply submitted_take. clear. induction es; by constructor.
Qed.

Lemma sendChunks_refused chunks n n' :
  sendChunks (S:=S) env chunks n = Done (false, n') →
  ∃ before ck after es, chunks = before ++ ck :: after ∧ clientRefused (marshal ck) ∧
    trace n' = trace n ++ es ∧ submitted es (marshal <$> before ++ [ck]).
Proof.
  revert n. induction chunks as [|ck chunks IH]; intros n Hs; cbn [sendChunks] in Hs; [done|].
  apply M_bind_Done in Hs as ([e|] & n1 & H1 & Hs).
  - injection Hs as <-. apply sendChunk_refused in H1 as (Hr & es & Ht & Hsub); [|by left].
    exists [], ck, chunks, es. split_and!; [done..|]. by apply Hsub.
  - apply sendChunk_submits in H1 as (_ & es1 & Ht1 & Hsub1); [|by right].
    apply IH in Hs as (before & ck' & after & es2 & -> & Hr & Ht2 & Hsub2).
    exists (ck :: before), ck', after, (es1 ++ es2). rewrite Ht2, Ht1, <- app_assoc. split_and!; [done..|].
    by apply (submitted_app _ [_]).
Qed.

(** What became of the HCS message [m] when it was to be sent: it went out in full, or
    the chain was not running, or it could not be signed and split, or the client refused
    a chunk of it, up to which all were submitted. *)
Inductive attempted (m : HcsMessage) (n n' : node S) : Prop :=
  | attempted_sent : sent m n n' → attempted m n n'
  | attempted_halted : startChan (chain n) = Open ∨ haltChan (chain n) = Closed → attempted m n n'
  | attempted_unsplit validStart e :
      Split sha256 (chainSigner ed25519_Verify env (publicKeys (chain n))) (Some (marshal m)) validStart
        (appMsgProcessor (chain n)) = Done (Err e) → attempted m n n'
  | attempted_refused validStart before ck after hash es :
      Split sha256 (chainSigner ed25519_Verify env (publicKeys (chain n))) (Some (marshal m)) validStart
        (appMsgProcessor (chain n)) = Done (Ok (before ++ ck :: after, hash)) →
      clientRefused (marshal ck) → trace n' = trace n ++ es → submitted es (marshal <$> before ++ [ck]) →
      attempted m n n'.

Lemma enqueue_attempts m n r n' :
  enqueue (S:=S) sha256 ed25519_Verify env m n = Done (r, n') → attempted m n n'.
Proof.
  intros H. destruct r as [[] h]; [by eapply attempted_sent, enqueue_sends|].
  unfold enqueue in H. apply M_bind_Done in H as (c & n1 & [= <- <-] & He).
  destruct (startChan (chain n)) eqn:Es; simpl in He; [by apply attempted_halted; left|].
  destruct (haltChan (chain n)) eqn:Eh; simpl in He; [|by apply attempted_halted; right].
  unfold enqueueChecked, tenSecondsAgo in He.
  apply M_bind_Done in He as (w & n1 & (now & n0 & Hask & [= <- <-])%M_bind_Done & He).
  injection Hask as <- <-.
  apply M_bind_Done in He as (v & n2 & Hv & (c & n3 & [= <- <-] & He)%M_bind_Done).
  unfold getUniqueValidStart in Hv. destruct (uniqueValidStart _ _) as [v' nx].
  injection Hv as <- <-. simpl in He.
  apply M_bind_Done in He as (r & n4 & (x & Hsplit & [= <- <-])%bind_Done & He).
  destruct x as [[chunks hash]|e]; [|by eapply attempted_unsplit].
  apply M_bind_Done in He as ([] & n5 & Hsend & He); [done|]. injection He as _ <-.
  apply sendChunks_refused in Hsend as (before & ck & after & es & -> & Hr & Ht & Hsub). simpl in Ht.
  by eapply attempted_refused.
Qed.

Lemma sendTimeToCut_attempts m n r n' :
  sendTimeToCut (S:=S) sha256 ed25519_Verify env m n = Done (r, n') → attempted m n n'.
Proof. unfold sendTimeToCut. intros ([ok h] & n1 & He & [= _ <-])%M_bind_Done. by eapply enqueue_attempts. Qed.
End submitting.
