(* ===== verification/HcsMessages.v ===== *)
(** * HCS chain: receiving side

    [orderer/consensus/hcs/chain.go]: what a chain does with the messages of the
    HCS topic. [handleEvent] is one iteration of the loop of [processMessages];
    [handleMessages] runs the loop over the messages of a subscription. *)

From stdpp Require Import gmap strings list.
From Stdlib Require Import Strings.Byte.
From S2P Require Import Prelude Protos Support AppMsg HcsChain.

(** [hedera.TopicMessage] *)
Record TopicMessage := mkTopicMessage {
  tm_ConsensusTimestamp : time;
  tm_SequenceNumber : Z;
  tm_Contents : bytes
}.

(** What the select of [processMessages] can receive. The message of a status is
    its list of code points. *)
Inductive event :=
  | EvHalt
  | EvError (code : Z) (message : list Z)
  | EvRetryTimer
  | EvMessage (resp : TopicMessage)
  | EvClosed.

(** The variables of [processMessages]. *)
Record loopState := mkLoopState {
  recollectPendingChunks : bool;
  subscriptionRetryCount : Z
}.

Inductive loopNext :=
  | Continue (l : loopState)
  | Return (err : option error).

(** ** Recoverable subscription errors

    The Go string "/\brst[^0-9a-zA-Z]stream\b/gi" holds two backspace characters
    (code 8) and two slashes, which the regular expression matches literally. *)

Definition isAlnum (r : Z) : bool :=
  ((48 <=? r) && (r <=? 57)) || ((65 <=? r) && (r <=? 90)) || ((97 <=? r) && (r <=? 122)).

Definition rstStreamRegex : list (Z → bool) :=
  (Z.eqb <$> [47; 8; 114; 115; 116]) ++ [λ r, negb (isAlnum r)] ++
  (Z.eqb <$> [115; 116; 114; 101; 97; 109; 8; 47; 103; 105]).

Fixpoint matchesAt (p : list (Z → bool)) (s : list Z) : bool :=
  match p, s with
  | [], _ => true
  | f :: p, r :: s => f r && matchesAt p s
  | _ :: _, [] => false
  end.

(** [regexp.FindIndex] is not nil. *)
Fixpoint matchesIn (p : list (Z → bool)) (s : list Z) : bool :=
  matchesAt p s || match s with [] => false | _ :: s => matchesIn p s end.

Definition isSubscriptionErrorRecoverable (code : Z) (message : list Z) : bool :=
  if bool_decide (code ∈ [codes_NotFound; codes_ResourceExhausted; codes_Unavailable]) then true
  else if bool_decide (code = codes_Internal) then matchesIn rstStreamRegex message
  else false.

Section receiving.
Context {S : Type} `{!ConsenterSupport S}.
Context `{!Codec ApplicationMessage, !Codec ApplicationSignature, !Codec ApplicationMessageChunk}.
Context `{!Codec HcsMessage, !Codec Envelope, !Codec HcsMetadata, !Codec HcsConfigMetadata}.
Context (sha256 : bytes → bytes) (ed25519_Verify : bytes → bytes → bytes → bool).
Context (env : environment).
(** [hedera.PublicKeyFromString], as the bytes of the key. *)
Context (PublicKeyFromString : string → option bytes).

(** ** Blocks *)

Definition newHcsMetadata (lastTimestamp : Timestamp) (lastOriginal lastResubmitted : Z)
    (lastChunkFree : Timestamp) (lastChunkFreeSequence : Z) : HcsMetadata :=
  mkHcsMetadata (Some lastTimestamp) lastOriginal lastResubmitted (Some lastChunkFree)
    lastChunkFreeSequence.

Definition stopTimerRequest : timeToCutRequest := mkTimeToCutRequest false 0 None.

Definition WriteBlock (block : Block) (isConfig : bool) (consensusTimestamp : time) : M S unit :=
  (if isConfig then mret () else setChain (λ c, {| c with messageHashes := ∅ |}));;
  emit (SendTimeToCutRequest stopTimerRequest);;
  setChain (λ c, {| c with lastCutBlockNumber := u64 (lastCutBlockNumber c + 1) |});;
  c ← getChain;
  ts ← lift (timestampProtoOrPanic consensusTimestamp);
  chunkFree ← lift (timestampProtoOrPanic (lastChunkFreeConsensusTimestamp c));
  let md := Some (marshal (newHcsMetadata ts (lastOriginalSequenceProcessed c)
                    (lastResubmittedConfigSequence c) chunkFree
                    (lastChunkFreeSequenceProcessed c))) in
  s ← getSupport;
  s ← lift (if isConfig then cs_WriteConfigBlock block md s else cs_WriteBlock block md s);
  setSupport s;;
  emit (Write isConfig block md).

(** Create the next block from a batch and write it. *)
Definition cutBlock (batch : list Envelope) (isConfig : bool) (ts : time) : M S unit :=
  s ← getSupport;
  WriteBlock (cs_CreateNextBlock batch s) isConfig ts.

Definition setProcessed (seq : Z) (ts : time) : M S unit :=
  setChain (λ c, {| c with lastOriginalSequenceProcessed := seq;
                           lastOrdereredConsensusTimestamp := ts |}).

(** The deferred function of [commitNormalMessage]. *)
Definition requestTimer (pending : bool) (messageHash : bytes) : M S unit :=
  if pending then
    c ← getChain;
    emit (SendTimeToCutRequest
      (mkTimeToCutRequest true (u64 (lastCutBlockNumber c + 1)) None));;
    setChain (λ c, {| c with messageHashes := {[messageHash]} ∪ messageHashes c |})
  else mret ().

Definition commitBatches (batches : list (list Envelope)) (pending : bool)
    (curConsensusTimestamp : time) (newOriginalSequenceProcessed : Z) : M S unit :=
  let update := setProcessed newOriginalSequenceProcessed curConsensusTimestamp in
  match batches with
  | [] => update
  | first :: rest =>
    (if pending || bool_decide (length batches = 2%nat) then mret () else update);;
    c ← getChain;
    cutBlock first false (lastOrdereredConsensusTimestamp c);;
    match rest with
    | [second] =>
      update;;
      cutBlock second false curConsensusTimestamp
    | _ => mret ()
    end
  end.

Definition commitNormalMessage (message : Envelope) (curConsensusTimestamp : time)
    (newOriginalSequenceProcessed : Z) (messageHash : bytes) : M S unit :=
  now ← ask (clock env);
  now' ← ask (clock env);
  s ← getSupport;
  '(batches, pending, s) ← lift (cs_Ordered now now' message s);
  setSupport s;;
  commitBatches batches pending curConsensusTimestamp newOriginalSequenceProcessed;;
  requestTimer pending messageHash.

(** [Cut] returns nil exactly when nothing is pending. *)
Definition commitConfigMessage (message : Envelope) (curConsensusTimestamp : time)
    (newOriginalSequenceProcessed : Z) : M S unit :=
  s ← getSupport;
  let '(batch, s) := cs_Cut s in
  setSupport s;;
  match batch with
  | [] => mret ()
  | _ => c ← getChain; cutBlock batch false (lastOrdereredConsensusTimestamp c)
  end;;
  setChain (λ c, {| c with lastOriginalSequenceProcessed := newOriginalSequenceProcessed |});;
  cutBlock [message] true curConsensusTimestamp.

(** ** Public keys *)

Fixpoint addPublicKeys (keysIn : list HcsConfigPublicKey) (keys : gset bytes) : res (gset bytes) :=
  match keysIn with
  | [] => Ok keys
  | k :: keysIn =>
    if bool_decide (pk_Type k ≠ "ed25519") then Err (Errorf "unsupported public key type") else
    pk ← or_err "invalid public key" (PublicKeyFromString (pk_Key k));
    addPublicKeys keysIn ({[pk]} ∪ keys)
  end.

Definition getPublicKeys (keysIn : list HcsConfigPublicKey) (extra : bytes) : res (gset bytes) :=
  addPublicKeys keysIn {[extra]}.

(** The keys of the current configuration; a bad configuration panics. *)
Definition configuredKeys (s : S) : outcome (gset bytes) :=
  oc ← cs_SharedConfig s;
  md ← or_panic "invalid consensus metadata in new channel configuration"
         (unmarshal (ConsensusMetadata oc));
  match getPublicKeys (cm_PublicKeys md) (operatorPublicKeyBytes env) with
  | Ok keys => Done keys
  | Err _ => Panic "failed to parse public keys in consensus metadata"
  end.

(** ** Messages *)

Definition processNormal (msg : HcsMessageRegular) (e : Envelope) (timestamp : time)
    (receivedSequence : Z) (messageHash : bytes) : M S (option error) :=
  c ← getChain;
  s ← getSupport;
  if bool_decide (reg_OriginalSeq msg ≠ 0) &&
     (reg_OriginalSeq msg <=? lastOriginalSequenceProcessed c)
  then mret None else
  if reg_ConfigSeq msg <? cs_Sequence s then
    match cs_ProcessNormalMsg e s with
    | Err err => mret (Some (Wrap err "discarding bad normal message because"))
    | Ok configSeq =>
      err ← order sha256 ed25519_Verify env e configSeq receivedSequence;
      mret ((λ x, Wrap x "error re-submitting normal message because") <$> err)
    end
  else
    let newSeq := if bool_decide (reg_OriginalSeq msg = 0)
                  then lastOriginalSequenceProcessed c else reg_OriginalSeq msg in
    commitNormalMessage e timestamp newSeq messageHash;;
    mret None.

Definition processConfig (msg : HcsMessageRegular) (e : Envelope) (timestamp : time)
    (receivedSequence : Z) : M S (option error) :=
  c ← getChain;
  s ← getSupport;
  if bool_decide (reg_OriginalSeq msg ≠ 0) &&
     (reg_OriginalSeq msg <=? lastOriginalSequenceProcessed c)
  then mret None else
  (if bool_decide (reg_OriginalSeq msg ≠ 0) then
     (if bool_decide (reg_OriginalSeq msg = lastResubmittedConfigSequence c) &&
         bool_decide (reg_ConfigSeq msg = cs_Sequence s)
      then reprocessComplete else mret ());;
     setChain (λ c, if lastResubmittedConfigSequence c <? reg_OriginalSeq msg
                    then {| c with lastResubmittedConfigSequence := reg_OriginalSeq msg |} else c)
   else mret ());;
  if reg_ConfigSeq msg <? cs_Sequence s then
    match cs_ProcessConfigMsg e s with
    | Err err => mret (Some (Wrap err "rejecting config message because"))
    | Ok (configEnv, configSeq) =>
      err ← configure sha256 ed25519_Verify env configEnv configSeq receivedSequence;
      match err with
      | Some x => mret (Some (Wrap x "error re-submitting config message because"))
      | None =>
        setChain (λ c, {| c with lastResubmittedConfigSequence := receivedSequence |});;
        reprocessPending;;
        mret None
      end
    end
  else
    let newSeq := if bool_decide (reg_OriginalSeq msg = 0)
                  then lastOriginalSequenceProcessed c else reg_OriginalSeq msg in
    commitConfigMessage e timestamp newSeq;;
    s ← getSupport;
    keys ← lift (configuredKeys s);
    setChain (λ c, {| c with publicKeys := keys |});;
    mret None.

Definition processRegularMessage (msg : HcsMessageRegular) (timestamp : time)
    (receivedSequence : Z) (messageHash : bytes) : M S (option error) :=
  match unmarshal (A:=Envelope) (reg_Payload msg) with
  | None => mret (Some (Errorf "failed to unmarshal payload of regular message"))
  | Some e =>
    if bool_decide (reg_Class msg = HcsMessageRegular_NORMAL)
    then processNormal msg e timestamp receivedSequence messageHash
    else if bool_decide (reg_Class msg = HcsMessageRegular_CONFIG)
    then processConfig msg e timestamp receivedSequence
    else mret (Some (Errorf "unsupported regular HCS message type"))
  end.

(** Whether a time-to-cut message asks for the next block. *)
Definition timeToCutMatches (msg : HcsMessageTimeToCut) (c : chainImpl) : res bool :=
  match msg with
  | HcsMessageTimeToCut_BlockNumber n =>
    if n =? u64 (lastCutBlockNumber c + 1) then Ok true
    else if n >? u64 (lastCutBlockNumber c + 1)
    then Err (Errorf "discard larger time-to-cut message than expected")
    else Ok false
  | HcsMessageTimeToCut_MessageHash h => Ok (bool_decide (h ∈ messageHashes c))
  | HcsMessageTimeToCut_unset => Ok false
  end.

Definition processTimeToCutMessage (msg : HcsMessageTimeToCut) (timestamp : time) (sequence : Z)
    : M S (option error) :=
  c ← getChain;
  match timeToCutMatches msg c with
  | Err e => mret (Some e)
  | Ok false => mret None
  | Ok true =>
    s ← getSupport;
    let '(batch, s) := cs_Cut s in
    setSupport s;;
    match batch with
    | [] => mret (Some (Errorf "bug, got correct time-to-cut message, but no pending transactions"))
    | _ =>
      let block := cs_CreateNextBlock batch s in
      setChain (λ c, {| c with lastOriginalSequenceProcessed := sequence |});;
      WriteBlock block false timestamp;;
      mret None
    end
  end.

Definition processOrdererStartedMessage (msg : HcsMessageOrdererStarted) : M S unit :=
  setChain (λ c, {| c with appMsgProcessor :=
    (ExpireByAppID (Some (OrdererIdentity msg)) (appMsgProcessor c)).2 |}).

(** A reassembled message in the normal processing loop; an error ends it. *)
Definition processMessage (msg : HcsMessage) (timestamp : time) (sequence : Z) (msgHash : bytes)
    : M S (option error) :=
  match msg with
  | HcsMessage_Regular m =>
    processRegularMessage m timestamp sequence msgHash;; mret None
  | HcsMessage_TimeToCut m => processTimeToCutMessage m timestamp sequence
  | HcsMessage_OrdererStarted m => processOrdererStartedMessage m;; mret None
  | HcsMessage_unset => mret None
  end.

(** A reassembled message while pending chunks are recollected: nothing is
    executed until the last persisted message is reached. *)
Definition recollectMessage (timestamp : time) : M S bool :=
  c ← getChain;
  if timestamp =? lastConsensusTimestampPersisted c then
    (if bool_decide (lastResubmittedConfigSequence c = 0) ||
        (lastResubmittedConfigSequence c <=? lastOriginalSequenceProcessed c)
     then reprocessComplete else mret ());;
    mret false
  else if timestamp >? lastConsensusTimestampPersisted c
  then panic "consensus timestamp of last processed message is later than lastConsensusTimestampPersisted"
  else mret true.

(** ** The loop *)

(** Feed a chunk to the message processor and note chunk-free points. The result
    is a complete message with its hash, if there is one. *)
Definition receiveChunk (resp : TopicMessage) : M S (option (bytes * nbytes)) :=
  c ← getChain;
  (if bool_decide (tm_SequenceNumber resp ≠ u64 (lastSequenceProcessed c + 1))
   then panic "incorrect sequence number" else mret ());;
  (if tm_ConsensusTimestamp resp >? lastConsensusTimestamp c then mret ()
   else panic "resp.ConsensusTimestamp not after lastConsensusTimestamp");;
  setChain (λ c, {| c with lastSequenceProcessed := u64 (lastSequenceProcessed c + 1);
                           lastConsensusTimestamp := tm_ConsensusTimestamp resp |});;
  match unmarshal (A:=ApplicationMessageChunk) (tm_Contents resp) with
  | None => mret None
  | Some chunk =>
    c ← getChain;
    '(ra, p) ← lift (Reassemble sha256 (chainSigner ed25519_Verify env (publicKeys c)) chunk
                       (tm_ConsensusTimestamp resp) (appMsgProcessor c));
    setChain (λ c, {| c with appMsgProcessor := p |});;
    (if IsPending p then mret () else
       setChain (λ c, {| c with lastChunkFreeConsensusTimestamp := lastConsensusTimestamp c;
                                lastChunkFreeSequenceProcessed := lastSequenceProcessed c |}));;
    mret (match ra_err ra, ra_message ra with
          | None, Some payload => Some (payload, ra_hash ra)
          | _, _ => None
          end)
  end.

Definition handleMessage (l : loopState) (resp : TopicMessage) : M S loopNext :=
  let l := {| l with subscriptionRetryCount := 0 |} in
  setChain (λ c, {| c with errorChan := Open |});;
  r ← receiveChunk resp;
  match r with
  | None => mret (Continue l)
  | Some (payload, msgHash) =>
    match unmarshal (A:=HcsMessage) payload with
    | None => mret (Continue l)
    | Some msg =>
      if recollectPendingChunks l then
        b ← recollectMessage (tm_ConsensusTimestamp resp);
        mret (Continue {| l with recollectPendingChunks := b |})
      else
        err ← processMessage msg (tm_ConsensusTimestamp resp) (tm_SequenceNumber resp) (nb msgHash);
        mret (match err with Some e => Return (Some e) | None => Continue l end)
    end
  end.

Definition scheduleSubscriptionRetry (l : loopState) : M S unit :=
  emit (ResetRetryTimer (subscriptionRetryBaseDelay * 2 ^ subscriptionRetryCount l)).

Definition closeHaltChan : M S unit :=
  c ← getChain;
  s ← lift (closeSignal (haltChan c));
  setChain (λ c, {| c with haltChan := s |}).

(** [startSubscription]: from just after the last message seen. *)
Definition startSubscription (startTime : time) : M S (option error) :=
  let startTime := if startTime =? unixEpoch then startTime else startTime + 1 in
  err ← ask (subscribeResult env);
  match err with
  | Some e => mret (Some e)
  | None => emit (Subscribe startTime);; mret None
  end.

Definition handleEvent (l : loopState) (ev : event) : M S loopNext :=
  match ev with
  | EvHalt => mret (Return None)
  | EvError code message =>
    setChain (λ c, {| c with errorChan := Closed |});;
    (if (subscriptionRetryCount l <? subscriptionRetryMax) &&
        isSubscriptionErrorRecoverable code message
     then scheduleSubscriptionRetry l else closeHaltChan);;
    mret (Continue l)
  | EvRetryTimer =>
    let l := {| l with subscriptionRetryCount := subscriptionRetryCount l + 1 |} in
    c ← getChain;
    err ← startSubscription (lastConsensusTimestamp c);
    match err with
    | Some _ =>
      (if subscriptionRetryCount l <? subscriptionRetryMax
       then scheduleSubscriptionRetry l else closeHaltChan);;
      mret (Continue l)
    | None =>
      emit Unsubscribe;;
      c ← getChain;
      sendTimeToCut sha256 ed25519_Verify env (newTimeToCutMessageWithBlockNumber (lastCutBlockNumber c));;
      mret (Continue l)
    end
  | EvMessage resp => handleMessage l resp
  | EvClosed => mret (Return None)
  end.

(** The deferred function of [processMessages]. *)
Definition finishProcessing : M S unit :=
  emit Unsubscribe;;
  c ← getChain;
  d ← lift (match doneProcessingMessages c with
            | Some s => closeSignal s
            | None => Panic "close of nil channel"
            end);
  setChain (λ c, {| c with doneProcessingMessages := Some d; errorChan := Closed |}).

(** The loop over a sequence of events. *)
Fixpoint handleEvents (l : loopState) (evs : list event) : M S loopNext :=
  match evs with
  | [] => mret (Continue l)
  | ev :: evs =>
    r ← handleEvent l ev;
    match r with
    | Continue l => handleEvents l evs
    | Return err => finishProcessing;; mret (Return err)
    end
  end.

Definition initialLoop (c : chainImpl) : loopState :=
  mkLoopState (negb (lastConsensusTimestampPersisted c =? lastChunkFreeConsensusTimestamp c)) 0.

Definition processMessages (evs : list event) : M S loopNext :=
  c ← getChain; handleEvents (initialLoop c) evs.

(** ** Start *)

Definition startThread (appID : bytes) (clientErr : option error) : M S unit :=
  (match clientErr with Some _ => panic "failed to create hcsClient" | None => mret () end);;
  c ← getChain;
  (if lastChunkFreeConsensusTimestamp c >? lastConsensusTimestampPersisted c
   then panic "corrupted metadata? chain.lastChunkFreeConsensusTimestamp is after chain.lastConsensusTimestampPersisted"
   else mret ());;
  err ← startSubscription (lastConsensusTimestamp c);
  (match err with Some _ => panic "failed to start topic subscription" | None => mret () end);;
  setChain (λ c, {| c with doneProcessingMessages := Some Open |});;
  '(ok, _) ← enqueueChecked sha256 ed25519_Verify env (newOrdererStartedMessage appID);
  (if ok : bool then mret () else panic "failed to send orderer started message");;
  c ← getChain;
  st ← lift (closeSignal (startChan c));
  setChain (λ c, {| c with startChan := st; errorChan := Open |}).
End receiving.
