(* ===== verification/HcsConsenter.v ===== *)
(** * HCS consenter

    [orderer/consensus/hcs/consenter.go] and the construction of a chain in
    [chain.go]: recovering the state from the metadata of the last block,
    parsing the configuration, and the table of topics in use. Topic and account
    identifiers are parsed as in the vendored Hedera SDK ([id.go],
    [topic_id.go], [account_id.go]); its key parsers, MD5 and
    [time.ParseDuration] are parameters. *)

From stdpp Require Import gmap strings list pretty.
From Stdlib Require Import Strings.Byte Ascii.
From S2P Require Import Prelude Protos Support AppMsg HcsChain HcsMessages.

(** ** Identifiers *)

Definition digitValue (c : ascii) : option Z :=
  let n := Z.of_N (N_of_ascii c) in if (48 <=? n) && (n <=? 57) then Some (n - 48) else None.

Fixpoint parseDigits (s : string) (acc : Z) : option Z :=
  match s with
  | EmptyString => Some acc
  | String c s => d ← digitValue c; parseDigits s (acc * 10 + d)
  end.

(** [strconv.Atoi]: an optional sign and at least one digit, within [int64]. *)
Definition Atoi (s : string) : option Z :=
  let '(neg, digits) :=
    match s with
    | String "-" s => (true, s)
    | String "+" s => (false, s)
    | _ => (false, s)
    end in
  match digits with
  | EmptyString => None
  | _ =>
    v ← parseDigits digits 0;
    let v := if neg : bool then - v else v in
    if (- 2 ^ 63 <=? v) && (v <? 2 ^ 63) then Some v else None
  end.

(** [strings.SplitN(s, sep, 2)] when [sep] occurs. *)
Fixpoint cutAt (sep : ascii) (s : string) : option (string * string) :=
  match s with
  | EmptyString => None
  | String c s =>
    if bool_decide (c = sep) then Some (EmptyString, s)
    else '(a, b) ← cutAt sep s; Some (String c a, b)
  end.

(** [idFromString]: [{shard}.{realm}.{num}] with an optional checksum. *)
Definition idFromString (s : string) : option (Z * Z * Z * option string) :=
  let '(s, checksum) :=
    match cutAt "-" s with Some (a, b) => (a, Some b) | None => (s, None) end in
  '(a, s) ← cutAt "." s;
  '(b, c) ← cutAt "." s;
  shard ← Atoi a;
  realm ← Atoi b;
  num ← Atoi c;
  Some (shard, realm, num, checksum).

Record TopicID := mkTopicID {
  topic_Shard : Z;
  topic_Realm : Z;
  topic_Topic : Z;
  topic_checksum : option string
}.

Definition TopicIDFromString (s : string) : option TopicID :=
  '(shard, realm, num, checksum) ← idFromString s;
  Some (mkTopicID (u64 shard) (u64 realm) (u64 num) checksum).

Definition TopicID_String (t : TopicID) : string :=
  let s := pretty (topic_Shard t) +:+ "." +:+ pretty (topic_Realm t) +:+ "." +:+
           pretty (topic_Topic t) in
  match topic_checksum t with None => s | Some k => s +:+ "-" +:+ k end.

Definition AccountIDFromString (s : string) : option AccountID :=
  '(shard, realm, num, _) ← idFromString s;
  Some (mkAccountID (u64 shard) (u64 realm) (u64 num)).

(** ** Configuration *)

(** [localconfig.Hcs] *)
Record Hcs := mkHcs {
  hcs_Nodes : gmap string string;
  hcs_MirrorNodeAddress : string;
  hcs_OperatorId : string;
  hcs_PrivateKeyType : string;
  hcs_PrivateKeyKey : string
}.

(** The parameters: keys of the Hedera SDK, MD5 and [time.ParseDuration]. *)
Record sdk (PrivateKey : Type) := mkSdk {
  PrivateKeyFromString : string → option PrivateKey;
  PrivateKeyFromPem : string → option PrivateKey;
  PublicKeyFromString : string → option bytes;
  PublicKeyBytes : PrivateKey → bytes;
  md5 : bytes → bytes;
  ParseDuration : string → option duration
}.
Arguments PrivateKeyFromString {PrivateKey} _ _.
Arguments PrivateKeyFromPem {PrivateKey} _ _.
Arguments PublicKeyFromString {PrivateKey} _ _.
Arguments PublicKeyBytes {PrivateKey} _ _.
Arguments md5 {PrivateKey} _ _.
Arguments ParseDuration {PrivateKey} _ _.

(** The results of [parseConfig]. *)
Record parsedConfig (PrivateKey : Type) := mkParsedConfig {
  pc_topicID : TopicID;
  pc_publicKeys : gset bytes;
  pc_reassembleTimeout : duration;
  pc_network : gmap string AccountID;
  pc_operatorID : AccountID;
  pc_privateKey : PrivateKey
}.
Arguments mkParsedConfig {PrivateKey} _ _ _ _ _ _.
Arguments pc_topicID {PrivateKey} _.
Arguments pc_publicKeys {PrivateKey} _.
Arguments pc_reassembleTimeout {PrivateKey} _.
Arguments pc_network {PrivateKey} _.
Arguments pc_operatorID {PrivateKey} _.
Arguments pc_privateKey {PrivateKey} _.

(** [consenterImpl] *)
Record consenterImpl := mkConsenter {
  cn_nextValidStart : time;
  cn_sharedHcsConfig : Hcs;
  cn_identity : bytes;
  topicChannelMap : gmap string string
}.

Section consenter.
Context {S : Type} `{!ConsenterSupport S}.
Context `{!Codec HcsMetadata, !Codec HcsConfigMetadata}.
Context {PrivateKey : Type} (K : sdk PrivateKey).

Definition New (config : Hcs) (identity : bytes) : consenterImpl :=
  mkConsenter zeroTime config identity ∅.

Definition parseEd25519PrivateKey (str : string) : option PrivateKey :=
  match PrivateKeyFromString K str with
  | Some k => Some k
  | None => PrivateKeyFromPem K str
  end.

Fixpoint parseNodes (nodes : list (string * string)) (network : gmap string AccountID)
    : res (gmap string AccountID) :=
  match nodes with
  | [] => Ok network
  | (addr, acc) :: nodes =>
    accountID ← or_err "invalid account ID" (AccountIDFromString acc);
    parseNodes nodes (<[addr := accountID]> network)
  end.

Definition parseConfig (configMetaData : bytes) (config : Hcs) : res (parsedConfig PrivateKey) :=
  if bool_decide (hcs_PrivateKeyType config ≠ "ed25519")
  then Err (Errorf "private key type is not supported") else
  privateKey ← or_err "invalid operator private key" (parseEd25519PrivateKey (hcs_PrivateKeyKey config));
  md ← or_err "cannot unmarshal HcsConfigMetadata" (unmarshal configMetaData);
  topicID ← or_err "invalid topic ID" (TopicIDFromString (cm_TopicId md));
  publicKeys ← getPublicKeys (PublicKeyFromString K) (cm_PublicKeys md) (PublicKeyBytes K privateKey);
  timeout ← or_err "failed to parse reassemble timeout" (ParseDuration K (cm_ReassembleTimeout md));
  if timeout =? 0 then Err (Errorf "invalid reassemble timeout") else
  if bool_decide (hcs_Nodes config = ∅) then Err (Errorf "empty nodes list in hcs config") else
  network ← parseNodes (map_to_list (hcs_Nodes config)) ∅;
  operatorID ← or_err "invalid operator ID" (AccountIDFromString (hcs_OperatorId config));
  Ok (mkParsedConfig topicID publicKeys timeout network operatorID privateKey).

(** ** Recovery *)

(** The state kept in the metadata of the last block: last timestamp persisted,
    last original sequence, last resubmitted config sequence, and timestamp and
    sequence of the last chunk-free point. *)
Definition getStateFromMetadata (metadataValue : nbytes) : outcome (time * Z * Z * time * Z) :=
  match metadataValue with
  | None => Done (unixEpoch, 0, 0, unixEpoch, 0)
  | Some raw =>
    md ← or_panic "cannot unmarshal orderer metadata in most recent block" (unmarshal raw);
    ts ← or_panic "invalid last consensus timestamp in most recent block"
           (TimestampOf (md_LastConsensusTimestampPersisted md));
    cf ← or_panic "invalid last chunk free consensus timestamp in most recent block"
           (TimestampOf (md_LastChunkFreeConsensusTimestampPersisted md));
    Done (ts, md_LastOriginalSequenceProcessed md, md_LastResubmittedConfigSequence md, cf,
          md_LastChunkFreeSequenceProcessed md)
  end.

Definition newChain (consenter : consenterImpl) (s : S) (st : time * Z * Z * time * Z)
    : outcome (res (chainImpl * parsedConfig PrivateKey)) :=
  let '(persisted, lastOriginal, lastResubmitted, chunkFree, chunkFreeSeq) := st in
  oc ← cs_SharedConfig s;
  match parseConfig (ConsensusMetadata oc) (cn_sharedHcsConfig consenter) with
  | Err e => Done (Err e)
  | Ok pc =>
    let doneReprocessing :=
      if (persisted =? chunkFree) &&
         (bool_decide (lastResubmitted = 0) || (lastResubmitted <=? lastOriginal))
      then Closed else Open in
    let appID := md5 K (cn_identity consenter) in
    match newAppMsgProcessor (pc_operatorID pc) (Some appID) maxConsensusMessageSize
            (pc_reassembleTimeout pc) false with
    | Err e => Done (Err (Wrap e "failed to create appMsgProcessor"))
    | Ok p =>
      Done (Ok (mkChain persisted chunkFree zeroTime lastOriginal lastResubmitted chunkFree
                  chunkFreeSeq chunkFreeSeq (u64 (cs_Height s - 1)) doneReprocessing
                  Closed Open None Open ∅ (pc_publicKeys pc) p, pc))
    end
  end.

(** [HandleChain]. The channel is entered in the table under the canonical text
    of its topic, but looked up under the text of the configuration. *)
Definition HandleChain (channelID : string) (s : S) (metadata : Metadata)
    (consenter : consenterImpl)
    : outcome (res (chainImpl * parsedConfig PrivateKey) * consenterImpl) :=
  oc ← cs_SharedConfig s;
  match (md ← or_err "cannot unmarshal config metadata"
                (unmarshal (A:=HcsConfigMetadata) (ConsensusMetadata oc));
         topicID ← or_err "invalid HCS Topic ID" (TopicIDFromString (cm_TopicId md));
         match topicChannelMap consenter !! cm_TopicId md with
         | Some _ => Err (Errorf "HCS Topic ID is already used")
         | None => Ok topicID
         end) with
  | Err e => Done (Err e, consenter)
  | Ok topicID =>
    st ← getStateFromMetadata (mdt_Value metadata);
    r ← newChain consenter s st;
    Done (r, match r with
             | Ok _ => {| consenter with topicChannelMap :=
                            <[TopicID_String topicID := channelID]> (topicChannelMap consenter) |}
             | Err _ => consenter
             end)
  end.

Definition JoinChain : res chainImpl :=
  Err (Errorf "the HCS orderer does not support JoinChain").
End consenter.
