(* ===== verification/HcsAgreement.v ===== *)
(** * Agreement between HCS orderers

    Two orderers that consume the same messages of the topic write the same
    blocks, whatever happens to their own submissions, clocks and subscriptions.
    The proof is a relational program logic over the chain's monad: [rel P m1 m2
    Q] relates the runs of two computations that both return, and [silent m]
    says that a computation does not touch what consensus decides. *)

From stdpp Require Import gmap strings list.
From S2P Require Import Prelude Protos Support AppMsg AppMsgFacts AppMsgProps AppMsgSpec.
From S2P Require Import HcsChain HcsMessages.

(** The blocks written in a trace. *)
Definition blockOf (e : effect) : option (bool * Block) :=
  match e with Write isConfig b _ => Some (isConfig, b) | _ => None end.

Definition blocksOf (t : list effect) : list (bool * Block) := omap blockOf t.

(** With the metadata. *)
Definition writeOf (e : effect) : option (Block * nbytes) :=
  match e with Write _ b md => Some (b, md) | _ => None end.

Definition writesOf (t : list effect) : list (Block * nbytes) := omap writeOf t.

(** The message processors cannot be told apart by [Reassemble]. *)
Record proc_agree (p1 p2 : appMsgProcessorImpl) : Prop := {
  pa_timeout : reassembleTimeout p1 = reassembleTimeout p2;
  pa_held : held p1 = held p2;
  pa_wf1 : proc_wf p1 ∧ index_ok p1;
  pa_wf2 : proc_wf p2 ∧ index_ok p2
}.

(** The chains agree on what decides the blocks. *)
Record chain_agree (c1 c2 : chainImpl) : Prop := {
  ca_timestamp : lastConsensusTimestamp c1 = lastConsensusTimestamp c2;
  ca_original : lastOriginalSequenceProcessed c1 = lastOriginalSequenceProcessed c2;
  ca_sequence : lastSequenceProcessed c1 = lastSequenceProcessed c2;
  ca_cut : lastCutBlockNumber c1 = lastCutBlockNumber c2;
  ca_hashes : messageHashes c1 = messageHashes c2;
  ca_proc : proc_agree (appMsgProcessor c1) (appMsgProcessor c2)
}.

(** One chain before and after a step that decides nothing. *)
Record chain_same (c c' : chainImpl) : Prop := {
  cs_timestamp : lastConsensusTimestamp c' = lastConsensusTimestamp c;
  cs_original : lastOriginalSequenceProcessed c' = lastOriginalSequenceProcessed c;
  cs_sequence : lastSequenceProcessed c' = lastSequenceProcessed c;
  cs_cutNumber : lastCutBlockNumber c' = lastCutBlockNumber c;
  cs_hashes : messageHashes c' = messageHashes c;
  cs_proc : appMsgProcessor c' = appMsgProcessor c;
  cs_keys : publicKeys c' = publicKeys c
}.

#[export] Instance chain_same_preorder : PreOrder chain_same.
Proof. split; [by split|]. intros c1 c2 c3 [] []. split; congruence. Qed.

Lemma blocksOf_app t t' : blocksOf (t ++ t') = blocksOf t ++ blocksOf t'.
Proof. apply omap_app. Qed.

Lemma writesOf_app t t' : writesOf (t ++ t') = writesOf t ++ writesOf t'.
Proof. apply omap_app. Qed.

Section silence.
Context {S : Type}.

Record node_same (n n' : node S) : Prop := {
  ns_chain : chain_same (chain n) (chain n');
  ns_support : support n' = support n;
  ns_blocks : blocksOf (trace n') = blocksOf (trace n);
  ns_writes : writesOf (trace n') = writesOf (trace n)
}.

#[export] Instance node_same_preorder : PreOrder node_same.
Proof.
  split; [by split|]. intros n1 n2 n3 [] []. split; [by etransitivity|congruence..].
Qed.

Definition silent {A} (m : M S A) : Prop := ∀ n a n', m n = Done (a, n') → node_same n n'.

Lemma silent_ret {A} (a : A) : silent (mret a).
Proof. intros n b n' H. by injection H as <- <-. Qed.

Lemma silent_bind {A B} (m : M S A) (f : A → M S B) :
  silent m → (∀ a, silent (f a)) → silent (m ≫= f).
Proof.
  intros Hm Hf n b n' (a & n1 & H1 & H2)%M_bind_Done. etransitivity; [by eapply Hm|by eapply Hf].
Qed.

Lemma silent_lift {A} (o : outcome A) : silent (lift o).
Proof. intros n a n' H. unfold lift in H. run_inv. done. Qed.

Lemma silent_panic {A} w : silent (panic (A:=A) w).
Proof. by intros n a n' H. Qed.

Lemma silent_getChain : silent getChain.
Proof. intros n a n' H. by injection H as <- <-. Qed.

Lemma silent_getSupport : silent getSupport.
Proof. intros n a n' H. by injection H as <- <-. Qed.

Lemma silent_ask {A} (o : nat → A) : silent (ask o).
Proof. intros n a n' H. injection H as <- <-. by split. Qed.

Lemma silent_emit e : blockOf e = None → silent (emit e).
Proof.
  intros He n a n' H. injection H as <- <-. destruct e; try done;
    (split; [done..| |]); simpl; rewrite ?blocksOf_app, ?writesOf_app; apply app_nil_r.
Qed.

Lemma silent_setChain f : (∀ c, chain_same c (f c)) → silent (setChain f).
Proof. intros Hf n a n' H. injection H as <- <-. by split. Qed.
End silence.

#[export] Hint Resolve silent_ret silent_lift silent_panic silent_getChain silent_getSupport
  silent_ask : hcs.

(** Prove silence by following the program. *)
Ltac silence :=
  repeat first
    [ apply silent_ret | apply silent_lift | apply silent_panic | apply silent_getChain
    | apply silent_getSupport | apply silent_ask
    | apply silent_emit; reflexivity
    | apply silent_setChain; intros;
        first [by split | match goal with |- chain_same _ (if ?b then _ else _) => destruct b; by split end]
    | progress eauto with hcs
    | apply silent_bind; [|intros ?]
    | match goal with
      | |- silent (if ?b then _ else _) => destruct b
      | |- silent (match ?x with _ => _ end) => destruct x
      end ].

Section sending_silent.
Context {S : Type} `{!ConsenterSupport S}.
Context `{!Codec ApplicationMessage, !Codec ApplicationSignature, !Codec ApplicationMessageChunk}.
Context `{!Codec HcsMessage, !Codec Envelope}.
Context (sha256 : bytes → bytes) (ed25519_Verify : bytes → bytes → bytes → bool).
Context (env : environment).

Lemma silent_validStart w : silent (getUniqueValidStart (S:=S) w).
Proof. intros n a n' H. unfold getUniqueValidStart in H. destruct (uniqueValidStart _ _). by run_inv. Qed.
#[local] Hint Resolve silent_validStart : hcs.

Lemma silent_sendChunk k m err : silent (sendChunk (S:=S) env k m err).
Proof.
  revert err. induction k as [|k IH]; intros err; simpl; [silence|].
  unfold tenSecondsAgo. silence.
Qed.
#[local] Hint Resolve silent_sendChunk : hcs.

Lemma silent_sendChunks cks : silent (sendChunks (S:=S) env cks).
Proof. induction cks as [|ck cks IH]; simpl; silence. Qed.
#[local] Hint Resolve silent_sendChunks : hcs.

Lemma silent_enqueueChecked m : silent (enqueueChecked (S:=S) sha256 ed25519_Verify env m).
Proof. unfold enqueueChecked, tenSecondsAgo. silence. Qed.
#[local] Hint Resolve silent_enqueueChecked : hcs.

Lemma silent_enqueue m : silent (enqueue (S:=S) sha256 ed25519_Verify env m).
Proof. unfold enqueue. silence. Qed.
#[local] Hint Resolve silent_enqueue : hcs.

Lemma silent_sendTimeToCut m : silent (sendTimeToCut (S:=S) sha256 ed25519_Verify env m).
Proof. unfold sendTimeToCut. silence. Qed.

Lemma silent_order e q o : silent (order (S:=S) sha256 ed25519_Verify env e q o).
Proof. unfold order. silence. Qed.

Lemma silent_configure e q o : silent (configure (S:=S) sha256 ed25519_Verify env e q o).
Proof. unfold configure. silence. Qed.

Lemma silent_reprocessComplete : silent (reprocessComplete (S:=S)).
Proof. unfold reprocessComplete. silence. Qed.

Lemma silent_reprocessPending : silent (reprocessPending (S:=S)).
Proof. unfold reprocessPending. silence. Qed.
End sending_silent.

#[export] Hint Resolve silent_enqueueChecked silent_sendTimeToCut silent_order silent_configure
  silent_reprocessComplete silent_reprocessPending : hcs.

(** ** Relational logic *)

Section relational.
Context {S : Type}.

Definition rel {A B} (P : node S → node S → Prop) (m1 : M S A) (m2 : M S B)
    (Q : A → B → node S → node S → Prop) : Prop :=
  ∀ n1 n2 a1 a2 n1' n2', P n1 n2 → m1 n1 = Done (a1, n1') → m2 n2 = Done (a2, n2') →
    Q a1 a2 n1' n2'.

Lemma rel_bind {A1 A2 B1 B2} P (m1 : M S A1) (m2 : M S A2) (f1 : A1 → M S B1) (f2 : A2 → M S B2) R Q :
  rel P m1 m2 R → (∀ a1 a2, rel (R a1 a2) (f1 a1) (f2 a2) Q) → rel P (m1 ≫= f1) (m2 ≫= f2) Q.
Proof.
  intros Hm Hf n1 n2 b1 b2 n1' n2' HP (a1 & k1 & H1 & H1')%M_bind_Done
    (a2 & k2 & H2 & H2')%M_bind_Done. eapply Hf; [by eapply Hm|done..].
Qed.

Lemma rel_ret {A B} P (a : A) (b : B) (Q : A → B → node S → node S → Prop) :
  (∀ n1 n2, P n1 n2 → Q a b n1 n2) → rel P (mret a) (mret b) Q.
Proof. intros H n1 n2 a1 a2 n1' n2' HP E1 E2. injection E1 as <- <-. injection E2 as <- <-. auto. Qed.

Lemma rel_lift {A B} P (o1 : outcome A) (o2 : outcome B) (Q : A → B → node S → node S → Prop) :
  (∀ n1 n2 a b, P n1 n2 → o1 = Done a → o2 = Done b → Q a b n1 n2) → rel P (lift o1) (lift o2) Q.
Proof. intros H n1 n2 a1 a2 n1' n2' HP E1 E2. unfold lift in *. run_inv. auto. Qed.

Lemma rel_getChain P :
  rel P getChain getChain (λ c1 c2 n1 n2, P n1 n2 ∧ c1 = chain n1 ∧ c2 = chain n2).
Proof. intros n1 n2 a1 a2 n1' n2' HP E1 E2. injection E1 as <- <-. injection E2 as <- <-. auto. Qed.

Lemma rel_getSupport P :
  rel P getSupport getSupport (λ s1 s2 n1 n2, P n1 n2 ∧ s1 = support n1 ∧ s2 = support n2).
Proof. intros n1 n2 a1 a2 n1' n2' HP E1 E2. injection E1 as <- <-. injection E2 as <- <-. auto. Qed.

Lemma rel_conseq {A B} (P P' : node S → node S → Prop) (m1 : M S A) (m2 : M S B)
    (Q Q' : A → B → node S → node S → Prop) :
  rel P' m1 m2 Q' → (∀ n1 n2, P n1 n2 → P' n1 n2) →
  (∀ a b n1 n2, Q' a b n1 n2 → Q a b n1 n2) → rel P m1 m2 Q.
Proof. intros H HP HQ n1 n2 a1 a2 n1' n2' Hn E1 E2. eapply HQ, H; eauto. Qed.

(** A fact that holds between any two related states may be assumed. *)
Lemma rel_pure {A B} (P : node S → node S → Prop) (F : Prop) (m1 : M S A) (m2 : M S B) Q :
  (∀ n1 n2, P n1 n2 → F) → (F → rel P m1 m2 Q) → rel P m1 m2 Q.
Proof. intros HF H n1 n2 a1 a2 n1' n2' HP. apply H; eauto. Qed.
End relational.

Section agreement.
Context {S : Type} `{!ConsenterSupport S} `{!ConsenterSupportOk S}.
Context `{!Codec ApplicationMessage, !Codec ApplicationSignature, !Codec ApplicationMessageChunk}.
Context `{!Codec HcsMessage, !Codec Envelope, !Codec HcsMetadata, !Codec HcsConfigMetadata}.
Context (sha256 : bytes → bytes) (ed25519_Verify : bytes → bytes → bytes → bool).
Context (env1 env2 : environment) (PublicKeyFromString : string → option bytes).
(** What the two orderers wrote before the runs that are compared. *)
Context (pre1 pre2 : list (bool * Block)).

Record agree (n1 n2 : node S) : Prop := {
  ag_chain : chain_agree (chain n1) (chain n2);
  ag_view : same_view (support n1) (support n2);
  ag_blocks : ∃ w, blocksOf (trace n1) = pre1 ++ w ∧ blocksOf (trace n2) = pre2 ++ w
}.

(** Agreement, with the same set of accepted signers. *)
Definition agreeK (n1 n2 : node S) : Prop :=
  agree n1 n2 ∧ publicKeys (chain n1) = publicKeys (chain n2).

Lemma chain_agree_same c1 c2 c1' c2' :
  chain_agree c1 c2 → chain_same c1 c1' → chain_same c2 c2' → chain_agree c1' c2'.
Proof.
  intros [] [] []. split; congruence.
Qed.

Lemma agree_same n1 n2 n1' n2' : agreeK n1 n2 → node_same n1 n1' → node_same n2 n2' → agreeK n1' n2'.
Proof.
  intros [[Hc Hv (w & H1 & H2)] Hk] [S1 P1 B1] [S2 P2 B2]. split; [split|].
  - by eapply chain_agree_same.
  - by rewrite P1, P2.
  - exists w. by rewrite B1, B2.
  - destruct S1, S2. congruence.
Qed.

Lemma rel_silent {A B} (m1 : M S A) (m2 : M S B) :
  silent m1 → silent m2 → rel agreeK m1 m2 (λ _ _, agreeK).
Proof. intros H1 H2 n1 n2 a1 a2 n1' n2' Hn E1 E2. eapply agree_same; eauto. Qed.

Lemma rel_setChain f1 f2 :
  (∀ c1 c2, chain_agree c1 c2 → publicKeys c1 = publicKeys c2 →
     chain_agree (f1 c1) (f2 c2) ∧ publicKeys (f1 c1) = publicKeys (f2 c2)) →
  rel agreeK (setChain f1) (setChain f2) (λ _ _, agreeK).
Proof.
  intros H n1 n2 a1 a2 n1' n2' [[Hc Hv Hb] Hk] E1 E2. injection E1 as _ <-. injection E2 as _ <-.
  destruct (H _ _ Hc Hk). by split; [split|].
Qed.

Lemma rel_setSupport s1 s2 :
  same_view s1 s2 → rel agreeK (setSupport s1) (setSupport s2) (λ _ _, agreeK).
Proof.
  intros H n1 n2 a1 a2 n1' n2' [[Hc Hv Hb] Hk] E1 E2. injection E1 as _ <-. injection E2 as _ <-.
  by split; [split|].
Qed.

Lemma rel_emit_write isConfig b md1 md2 :
  rel agreeK (emit (Write isConfig b md1)) (emit (Write isConfig b md2)) (λ _ _, agreeK).
Proof.
  intros n1 n2 a1 a2 n1' n2' [[Hc Hv (w & H1 & H2)] Hk] E1 E2.
  injection E1 as _ <-. injection E2 as _ <-. split; [split|]; try done. simpl.
  exists (w ++ [(isConfig, b)]). rewrite !blocksOf_app, H1, H2. simpl. by rewrite !app_assoc.
Qed.

(** Bind two silent computations. *)
Lemma rel_silent_bind {A1 A2 B1 B2} (m1 : M S A1) (m2 : M S A2) (f1 : A1 → M S B1) (f2 : A2 → M S B2) Q :
  silent m1 → silent m2 → (∀ a1 a2, rel agreeK (f1 a1) (f2 a2) Q) →
  rel agreeK (m1 ≫= f1) (m2 ≫= f2) Q.
Proof. intros H1 H2 Hf. eapply rel_bind; [by apply rel_silent|done]. Qed.

(** Reading the chain: the continuations may use that the chains agree. *)
Lemma rel_getChain_bind {B1 B2} (f1 : chainImpl → M S B1) (f2 : chainImpl → M S B2) Q :
  (∀ c1 c2, chain_agree c1 c2 → publicKeys c1 = publicKeys c2 → rel agreeK (f1 c1) (f2 c2) Q) →
  rel agreeK (getChain ≫= f1) (getChain ≫= f2) Q.
Proof.
  intros H. eapply rel_bind; [apply rel_getChain|]. intros c1 c2.
  eapply (rel_pure _ (chain_agree c1 c2 ∧ publicKeys c1 = publicKeys c2)).
  - intros n1 n2 ([[] ?] & -> & ->). done.
  - intros [Hc Hk]. eapply rel_conseq; [by apply H|by intros ? ? []|done].
Qed.

Lemma rel_getSupport_bind {B1 B2} (f1 f2 : S → M S _) (Q : B1 → B2 → _ → _ → Prop) :
  (∀ s1 s2, same_view s1 s2 → rel agreeK (f1 s1) (f2 s2) Q) →
  rel agreeK (getSupport ≫= f1) (getSupport ≫= f2) Q.
Proof.
  intros H. eapply rel_bind; [apply rel_getSupport|]. intros s1 s2.
  eapply (rel_pure _ (same_view s1 s2)).
  - intros n1 n2 ([[] ?] & -> & ->). done.
  - intros Hs. eapply rel_conseq; [by apply H|by intros ? ? []|done].
Qed.

Lemma rel_lift_bind {A1 A2 B1 B2} P (o1 : outcome A1) (o2 : outcome A2) (f1 : A1 → M S B1)
    (f2 : A2 → M S B2) Q :
  (∀ a1 a2, o1 = Done a1 → o2 = Done a2 → rel P (f1 a1) (f2 a2) Q) →
  rel P (lift o1 ≫= f1) (lift o2 ≫= f2) Q.
Proof.
  intros H n1 n2 b1 b2 n1' n2' HP (a1 & k1 & E1 & H1)%M_bind_Done (a2 & k2 & E2 & H2)%M_bind_Done.
  unfold lift in *. run_inv. by eapply H.
Qed.

Lemma rel_then {A1 A2 B1 B2} P (m1 : M S A1) (m2 : M S A2) (f1 : A1 → M S B1) (f2 : A2 → M S B2) Q :
  rel P m1 m2 (λ _ _, agreeK) → (∀ a1 a2, rel agreeK (f1 a1) (f2 a2) Q) →
  rel P (m1 ≫= f1) (m2 ≫= f2) Q.
Proof. intros. eapply rel_bind; eauto. Qed.

Lemma rel_bind_eq {A B1 B2} P (m1 m2 : M S A) (f1 : A → M S B1) (f2 : A → M S B2) Q :
  rel P m1 m2 (λ r1 r2 n1 n2, r1 = r2 ∧ agreeK n1 n2) →
  (∀ r, rel agreeK (f1 r) (f2 r) Q) → rel P (m1 ≫= f1) (m2 ≫= f2) Q.
Proof.
  intros Hm Hf. eapply rel_bind; [done|]. intros r1 r2 n1 n2 b1 b2 n1' n2' [-> Hn]. by eapply Hf.
Qed.

Lemma rel_if {A B} P (b1 b2 : bool) (m1 m1' : M S A) (m2 m2' : M S B) Q :
  b1 = b2 → rel P m1 m2 Q → rel P m1' m2' Q →
  rel P (if b1 then m1 else m1') (if b2 then m2 else m2') Q.
Proof. intros <-. by destruct b1. Qed.

Lemma rel_agree_ret {A B} (a : A) (b : B) : rel agreeK (mret a) (mret b) (λ _ _, agreeK).
Proof. by apply rel_ret. Qed.

(** ** Cutting blocks *)

Lemma rel_WriteBlock b isConfig ts1 ts2 :
  rel agreeK (WriteBlock b isConfig ts1) (WriteBlock b isConfig ts2) (λ _ _, agreeK).
Proof.
  unfold WriteBlock. eapply rel_then.
  { destruct isConfig; [by apply rel_agree_ret|]. apply rel_setChain. intros ? ? []. by split. }
  intros ? ?. apply rel_silent_bind; [silence..|]. intros ? ?. eapply rel_then.
  { apply rel_setChain. intros ? ? [] ?. split; [split|]; simpl; congruence. }
  intros ? ?. apply rel_getChain_bind. intros c1 c2 Hc _.
  apply rel_silent_bind; [silence..|]. intros t1 t2.
  apply rel_silent_bind; [silence..|]. intros u1 u2.
  apply rel_getSupport_bind. intros s1 s2 Hs. apply rel_lift_bind. intros s1' s2' E1 E2.
  eapply rel_then; [apply rel_setSupport|intros ? ?; apply rel_emit_write].
  destruct isConfig; [by eapply sv_WriteConfig|by eapply sv_Write].
Qed.

Lemma rel_cutBlock batch isConfig ts1 ts2 :
  rel agreeK (cutBlock batch isConfig ts1) (cutBlock batch isConfig ts2) (λ _ _, agreeK).
Proof.
  unfold cutBlock. apply rel_getSupport_bind. intros s1 s2 Hs.
  rewrite (sv_Create _ _ batch Hs). apply rel_WriteBlock.
Qed.

Lemma rel_setProcessed q ts1 ts2 :
  rel agreeK (setProcessed q ts1) (setProcessed q ts2) (λ _ _, agreeK).
Proof. apply rel_setChain. intros ? ? []. by split. Qed.

Lemma rel_requestTimer pending h :
  rel agreeK (requestTimer pending h) (requestTimer pending h) (λ _ _, agreeK).
Proof.
  unfold requestTimer. destruct pending; [|by apply rel_agree_ret].
  apply rel_getChain_bind. intros c1 c2 Hc _. apply rel_silent_bind; [silence..|]. intros ? ?.
  apply rel_setChain. intros ? ? [] ?. split; [split|]; simpl; congruence.
Qed.

Lemma rel_commitBatches bs pending ts q :
  rel agreeK (commitBatches bs pending ts q) (commitBatches bs pending ts q) (λ _ _, agreeK).
Proof.
  unfold commitBatches. destruct bs as [|b bs]; [apply rel_setProcessed|].
  eapply rel_then.
  { destruct (_ || _); [by apply rel_agree_ret|apply rel_setProcessed]. }
  intros ? ?. apply rel_getChain_bind. intros c1 c2 Hc _.
  eapply rel_then; [apply rel_cutBlock|]. intros ? ?.
  destruct bs as [|b' [|]]; [by apply rel_agree_ret| |by apply rel_agree_ret].
  eapply rel_then; [apply rel_setProcessed|]. intros ? ?. apply rel_cutBlock.
Qed.

Lemma rel_commitNormalMessage e ts q h :
  rel agreeK (commitNormalMessage env1 e ts q h) (commitNormalMessage env2 e ts q h) (λ _ _, agreeK).
Proof.
  unfold commitNormalMessage. apply rel_silent_bind; [silence..|]. intros now1 now2.
  apply rel_silent_bind; [silence..|]. intros now1' now2'.
  apply rel_getSupport_bind. intros s1 s2 Hs. apply rel_lift_bind.
  intros [[bs1 p1] s1'] [[bs2 p2] s2'] E1 E2.
  destruct (sv_Ordered _ _ _ _ _ _ _ _ _ _ _ _ _ Hs E1 E2) as (-> & -> & Hs').
  eapply rel_then; [by apply rel_setSupport|]. intros ? ?.
  eapply rel_then; [apply rel_commitBatches|]. intros ? ?. apply rel_requestTimer.
Qed.

Lemma rel_commitConfigMessage e ts q :
  rel agreeK (commitConfigMessage e ts q) (commitConfigMessage e ts q) (λ _ _, agreeK).
Proof.
  unfold commitConfigMessage. apply rel_getSupport_bind. intros s1 s2 Hs.
  destruct (sv_Cut _ _ Hs) as [Hb Hs']. destruct (cs_Cut s1) as [b1 s1'], (cs_Cut s2) as [b2 s2'].
  simpl in *. subst b2. eapply rel_then; [by apply rel_setSupport|]. intros ? ?.
  eapply rel_then.
  { destruct b1; [by apply rel_agree_ret|]. apply rel_getChain_bind. intros. apply rel_cutBlock. }
  intros ? ?. eapply rel_then; [|intros ? ?; apply rel_cutBlock].
  apply rel_setChain. intros ? ? []. by split.
Qed.

(** ** Processing messages *)

(** The configuration in force gives both orderers the same accepted signers. *)
Definition sameKeys (s : S) : Prop := ∀ k1 k2,
  configuredKeys env1 PublicKeyFromString s = Done k1 →
  configuredKeys env2 PublicKeyFromString s = Done k2 → k1 = k2.

(** Agreement that is conditional on the configuration reached. *)
Definition agreeC (n1 n2 : node S) : Prop := sameKeys (support n1) → agreeK n1 n2.

Lemma rel_weaken {A B} P (m1 : M S A) (m2 : M S B) :
  rel P m1 m2 (λ _ _, agreeK) → rel P m1 m2 (λ _ _, agreeC).
Proof. intros H. eapply rel_conseq; [done|done|]. by intros ? ? ? ? ? ?. Qed.

Lemma rel_processNormal msg e ts q h :
  rel agreeK (processNormal sha256 ed25519_Verify env1 msg e ts q h)
             (processNormal sha256 ed25519_Verify env2 msg e ts q h) (λ _ _, agreeK).
Proof.
  unfold processNormal. apply rel_getChain_bind. intros c1 c2 Hc _.
  apply rel_getSupport_bind. intros s1 s2 Hs.
  apply rel_if; [by rewrite (ca_original _ _ Hc)|by apply rel_agree_ret|].
  apply rel_if; [by rewrite (sv_Sequence _ _ Hs)| |].
  - apply rel_silent; silence.
  - rewrite (ca_original _ _ Hc). eapply rel_then; [apply rel_commitNormalMessage|].
    intros ? ?. by apply rel_agree_ret.
Qed.

Lemma rel_setKeys s1 s2 k1 k2 :
  configuredKeys env1 PublicKeyFromString s1 = Done k1 →
  configuredKeys env2 PublicKeyFromString s2 = Done k2 → same_view s1 s2 →
  rel (λ n1 n2, agreeK n1 n2 ∧ s1 = support n1) (setChain (λ c, {| c with publicKeys := k1 |}))
      (setChain (λ c, {| c with publicKeys := k2 |})) (λ _ _, agreeC).
Proof.
  intros E1 E2 Hs n1 n2 a1 a2 n1' n2' ([[Hc Hv Hb] _] & ->) F1 F2 Hk.
  injection F1 as _ <-. injection F2 as _ <-. split; [split|]; simpl.
  - destruct Hc. by split.
  - done.
  - done.
  - apply Hk; [done|]. simpl. rewrite <- E2. unfold configuredKeys. by rewrite (sv_SharedConfig _ _ Hs).
Qed.

Lemma rel_processConfig msg e ts q :
  rel agreeK (processConfig sha256 ed25519_Verify env1 PublicKeyFromString msg e ts q)
             (processConfig sha256 ed25519_Verify env2 PublicKeyFromString msg e ts q)
             (λ _ _, agreeC).
Proof.
  unfold processConfig. apply rel_getChain_bind. intros c1 c2 Hc _.
  apply rel_getSupport_bind. intros s1 s2 Hs.
  apply rel_if; [by rewrite (ca_original _ _ Hc)|apply rel_weaken; by apply rel_agree_ret|].
  apply rel_silent_bind; [silence..|]. intros ? ?.
  apply rel_if; [by rewrite (sv_Sequence _ _ Hs)| |].
  - apply rel_weaken, rel_silent; silence.
  - rewrite (ca_original _ _ Hc). eapply rel_then; [apply rel_commitConfigMessage|]. intros ? ?.
    eapply rel_bind; [apply rel_getSupport|]. intros t1 t2.
    eapply (rel_pure _ (same_view t1 t2)); [by intros n1 n2 ([[] ?] & -> & ->)|]. intros Ht.
    apply rel_lift_bind. intros k1 k2 E1 E2.
    eapply rel_bind; [eapply rel_conseq; [by apply (rel_setKeys t1 t2 k1 k2)|naive_solver|done]|].
    intros ? ?. by apply rel_ret.
Qed.

Lemma rel_processRegularMessage msg ts q h :
  rel agreeK (processRegularMessage sha256 ed25519_Verify env1 PublicKeyFromString msg ts q h)
             (processRegularMessage sha256 ed25519_Verify env2 PublicKeyFromString msg ts q h)
             (λ _ _, agreeC).
Proof.
  unfold processRegularMessage.
  destruct (unmarshal _) as [e|]; [|apply rel_weaken; by apply rel_agree_ret].
  case_bool_decide; [apply rel_weaken, rel_processNormal|].
  case_bool_decide; [apply rel_processConfig|apply rel_weaken; by apply rel_agree_ret].
Qed.

(** Errors are compared up to being present. *)
Definition bothErr (e1 e2 : option error) : Prop := is_Some e1 ↔ is_Some e2.

Lemma rel_processTimeToCutMessage msg ts q :
  rel agreeK (processTimeToCutMessage msg ts q) (processTimeToCutMessage msg ts q)
    (λ e1 e2 n1 n2, bothErr e1 e2 ∧ agreeK n1 n2).
Proof.
  unfold processTimeToCutMessage. apply rel_getChain_bind. intros c1 c2 Hc _.
  assert (timeToCutMatches msg c1 = timeToCutMatches msg c2) as ->.
  { unfold timeToCutMatches. by rewrite (ca_cut _ _ Hc), (ca_hashes _ _ Hc). }
  destruct (timeToCutMatches msg c2) as [[|]|]; [|by apply rel_ret..].
  apply rel_getSupport_bind. intros s1 s2 Hs.
  destruct (sv_Cut _ _ Hs) as [Hb Hs']. destruct (cs_Cut s1) as [b1 s1'], (cs_Cut s2) as [b2 s2'].
  simpl in *. subst b2. eapply rel_then; [by apply rel_setSupport|]. intros ? ?.
  destruct b1 as [|m b1]; [by apply rel_ret|]. eapply rel_then.
  { apply rel_setChain. intros ? ? []. by split. }
  intros ? ?. rewrite (sv_Create _ _ (m :: b1) Hs').
  eapply rel_then; [apply rel_WriteBlock|]. intros ? ?. by apply rel_ret.
Qed.

Lemma proc_agree_expire a p1 p2 :
  proc_agree p1 p2 → proc_agree (ExpireByAppID a p1).2 (ExpireByAppID a p2).2.
Proof.
  intros [Ht Hh [W1 I1] [W2 I2]].
  assert (∀ p, proc_wf p → index_ok p → (proc_wf (ExpireByAppID a p).2 ∧ index_ok (ExpireByAppID a p).2) ∧
    reassembleTimeout (ExpireByAppID a p).2 = reassembleTimeout p) as Hx.
  { intros p W I. pose proof (ExpireByAppID_spec a p W I) as Hs. destruct (nlen a =? 0).
    - by rewrite Hs.
    - destruct Hs as (keys & p' & -> & _ & _ & ? & ? & _ & (_ & _ & _ & ?) & _). done. }
  destruct (Hx p1) as [? ?], (Hx p2) as [? ?]; [done..|]. split; [congruence| |done..].
  rewrite !ExpireByAppID_held by done. by rewrite Hh.
Qed.

Lemma rel_processOrdererStarted msg :
  rel agreeK (processOrdererStartedMessage msg) (processOrdererStartedMessage msg) (λ _ _, agreeK).
Proof.
  apply rel_setChain. intros c1 c2 [] ?. split; [split; simpl; try done|done].
  by apply proc_agree_expire.
Qed.

Lemma rel_processMessage msg ts q h :
  rel agreeK (processMessage sha256 ed25519_Verify env1 PublicKeyFromString msg ts q h)
             (processMessage sha256 ed25519_Verify env2 PublicKeyFromString msg ts q h)
             (λ e1 e2 n1 n2, bothErr e1 e2 ∧ agreeC n1 n2).
Proof.
  unfold processMessage. destruct msg as [m|m|m|].
  - eapply rel_bind; [apply rel_processRegularMessage|]. intros ? ?. by apply rel_ret.
  - eapply rel_conseq; [apply rel_processTimeToCutMessage|done|]. intros ? ? ? ? [? ?]. split; [done|by intros ?].
  - eapply rel_then; [apply rel_processOrdererStarted|]. intros ? ?. apply rel_ret. intros ? ? ?. split; [done|by intros ?].
  - apply rel_ret. intros ? ? ?. split; [done|by intros ?].
Qed.

(** ** Receiving chunks *)

(** [ChunksCount] is an [int32]. *)
Class ChunkTyped := chunk_int32 b (c : ApplicationMessageChunk) :
  unmarshal b = Some c → ck_ChunksCount c < 2 ^ 31.

Lemma Reassemble_agree sg1 sg2 chunk ts p1 p2 ra1 ra2 p1' p2' :
  AppMsg.Verify sg1 = AppMsg.Verify sg2 → ck_ChunksCount chunk < 2 ^ 31 → proc_agree p1 p2 →
  Reassemble sha256 sg1 chunk ts p1 = Done (ra1, p1') →
  Reassemble sha256 sg2 chunk ts p2 = Done (ra2, p2') → ra1 = ra2 ∧ proc_agree p1' p2'.
Proof.
  intros Hv Hty [Ht Hh [W1 I1] [W2 I2]] E1 E2.
  pose proof (Reassemble_spec sha256 sg1 chunk ts p1 W1 I1 Hty) as H1. rewrite E1 in H1.
  pose proof (Reassemble_spec sha256 sg2 chunk ts p2 W2 I2 Hty) as H2. rewrite E2 in H2.
  assert (specReassemble sha256 sg1 (reassembleTimeout p1) chunk ts (held p1) =
    specReassemble sha256 sg2 (reassembleTimeout p2) chunk ts (held p2)) as E.
  { unfold specReassemble, openMessage. by rewrite Ht, Hh, Hv. }
  rewrite E, H2 in H1. injection H1 as -> Hp.
  apply Reassemble_tables in E1 as (? & ? & (_ & _ & _ & ?)); [|done..].
  apply Reassemble_tables in E2 as (? & ? & (_ & _ & _ & ?)); [|done..].
  split; [done|]. split; [congruence|done..].
Qed.

Lemma rel_receiveChunk `{!ChunkTyped} resp :
  rel agreeK (receiveChunk sha256 ed25519_Verify env1 resp) (receiveChunk sha256 ed25519_Verify env2 resp)
    (λ r1 r2 n1 n2, r1 = r2 ∧ agreeK n1 n2).
Proof.
  unfold receiveChunk. apply rel_getChain_bind. intros c1 c2 Hc _.
  apply rel_silent_bind; [silence..|]. intros ? ?. apply rel_silent_bind; [silence..|]. intros ? ?.
  eapply rel_then.
  { apply rel_setChain. intros ? ? [] ?. split; [split|]; simpl; congruence. }
  intros ? ?. destruct (unmarshal _) as [chunk|] eqn:U; [|by apply rel_ret].
  apply rel_getChain_bind. intros d1 d2 Hd Hk. apply rel_lift_bind.
  intros [ra1 p1] [ra2 p2] E1 E2. rewrite <- Hk in E2.
  destruct (Reassemble_agree _ _ _ _ _ _ _ _ _ _ eq_refl (chunk_int32 _ _ U) (ca_proc _ _ Hd) E1 E2) as [-> Hp].
  eapply rel_then.
  { apply rel_setChain. intros ? ? [] ?. by split; [split|]. }
  intros ? ?. apply rel_silent_bind; [silence..|]. intros ? ?. by apply rel_ret.
Qed.

(** The loops stop together, and neither recollects chunks. *)
Definition bothNext (r1 r2 : loopNext) : Prop :=
  match r1, r2 with
  | Continue l1, Continue l2 => recollectPendingChunks l1 = false ∧ recollectPendingChunks l2 = false
  | Return _, Return _ => True
  | _, _ => False
  end.

Lemma rel_handleMessage `{!ChunkTyped} l1 l2 resp :
  recollectPendingChunks l1 = false → recollectPendingChunks l2 = false →
  rel agreeK (handleMessage sha256 ed25519_Verify env1 PublicKeyFromString l1 resp)
             (handleMessage sha256 ed25519_Verify env2 PublicKeyFromString l2 resp)
             (λ r1 r2 n1 n2, bothNext r1 r2 ∧ agreeC n1 n2).
Proof.
  intros L1 L2. unfold handleMessage. apply rel_silent_bind; [silence..|]. intros ? ?.
  eapply rel_bind_eq; [apply rel_receiveChunk|]. intros r.
  destruct r as [[payload h]|]; [|apply rel_ret; intros ? ? ?; split; [done|by intros ?]].
  destruct (unmarshal payload) as [msg|]; [|apply rel_ret; intros ? ? ?; split; [done|by intros ?]].
  simpl recollectPendingChunks. rewrite L1, L2.
  eapply rel_bind; [apply rel_processMessage|]. intros e1 e2. apply rel_ret.
  intros n1 n2 [[He He'] Hn]. split; [|done]. unfold bothNext.
  destruct e1, e2; simpl; try done; exfalso; eauto using is_Some_None.
  - by eapply is_Some_None, He.
  - by eapply is_Some_None, He'.
Qed.
End agreement.

(** ** Runs *)

Definition messageOf (ev : event) : option TopicMessage :=
  match ev with EvMessage m => Some m | _ => None end.

(** The topic messages among the events of a run. *)
Definition messagesOf (evs : list event) : list TopicMessage := omap messageOf evs.

Section runs.
Context {S : Type} `{!ConsenterSupport S} `{!ConsenterSupportOk S}.
Context `{!Codec ApplicationMessage, !Codec ApplicationSignature, !Codec ApplicationMessageChunk}.
Context `{!Codec HcsMessage, !Codec Envelope, !Codec HcsMetadata, !Codec HcsConfigMetadata}.
Context `{!ChunkTyped}.
Context (sha256 : bytes → bytes) (ed25519_Verify : bytes → bytes → bytes → bool).
Context (PublicKeyFromString : string → option bytes).

Abbreviation handleEvent env := (handleEvent sha256 ed25519_Verify env PublicKeyFromString).
Abbreviation handleEvents env := (handleEvents sha256 ed25519_Verify env PublicKeyFromString).

Lemma silent_scheduleRetry l : silent (scheduleSubscriptionRetry (S:=S) l).
Proof. unfold scheduleSubscriptionRetry. silence. Qed.

Lemma silent_closeHaltChan : silent (closeHaltChan (S:=S)).
Proof. unfold closeHaltChan. silence. Qed.

Lemma silent_startSubscription env t : silent (startSubscription (S:=S) env t).
Proof. unfold startSubscription. silence. Qed.
#[local] Hint Resolve silent_scheduleRetry silent_closeHaltChan silent_startSubscription : hcs.

(** Errors and retries of the subscription decide nothing. *)
Lemma local_event env l ev (n n' : node S) r :
  messageOf ev = None → handleEvent env l ev n = Done (r, n') →
  node_same n n' ∧
  match r with Continue l' => recollectPendingChunks l' = recollectPendingChunks l | Return _ => True end.
Proof.
  intros Hev E. split.
  - revert E. enough (silent (handleEvent env l ev)) as Hsil by apply Hsil.
    destruct ev; try done; unfold HcsMessages.handleEvent; silence.
  - destruct ev as [|code msg| |resp|]; try done; unfold HcsMessages.handleEvent in E.
    + by injection E as <- <-.
    + do 2 apply M_bind_Done in E as (? & ? & _ & E). by injection E as <- <-.
    + apply M_bind_Done in E as (? & ? & _ & E). apply M_bind_Done in E as ([e|] & ? & _ & E).
      * apply M_bind_Done in E as (? & ? & _ & E). by injection E as <- <-.
      * do 3 apply M_bind_Done in E as (? & ? & _ & E). by injection E as <- <-.
    + by injection E as <- <-.
Qed.

(** The states of the channel a run passes through. *)
Fixpoint supports (env : environment) (l : loopState) (evs : list event) (n : node S) : list S :=
  match evs with
  | [] => []
  | ev :: evs =>
    match handleEvent env l ev n with
    | Done (Continue l, n) => support n :: supports env l evs n
    | _ => []
    end
  end.

Lemma handleEvents_cons env l ev evs (n : node S) l' n' :
  handleEvents env l (ev :: evs) n = Done (Continue l', n') →
  ∃ l1 n1, handleEvent env l ev n = Done (Continue l1, n1) ∧
    handleEvents env l1 evs n1 = Done (Continue l', n').
Proof.
  simpl. intros ([l1|err] & n1 & E1 & E2)%M_bind_Done; [by exists l1, n1|].
  apply M_bind_Done in E2 as (? & ? & _ & E). discriminate.
Qed.

Lemma handleEvents_agree env1 env2 pre1 pre2 evs1 evs2 l1 l2 (n1 n2 n1' n2' : node S) l1' l2' :
  agreeK pre1 pre2 n1 n2 →
  recollectPendingChunks l1 = false → recollectPendingChunks l2 = false →
  messagesOf evs1 = messagesOf evs2 →
  Forall (sameKeys env1 env2 PublicKeyFromString) (supports env1 l1 evs1 n1) →
  handleEvents env1 l1 evs1 n1 = Done (Continue l1', n1') →
  handleEvents env2 l2 evs2 n2 = Done (Continue l2', n2') →
  agreeK pre1 pre2 n1' n2'.
Proof.
  remember (length evs1 + length evs2)%nat as k eqn:Ek. assert (length evs1 + length evs2 <= k)%nat as Hk by lia.
  clear Ek. revert evs1 evs2 l1 l2 n1 n2 Hk.
  induction k as [|k IH]; intros evs1 evs2 l1 l2 n1 n2 Hk Hn L1 L2 Hm Hs E1 E2.
  { destruct evs1, evs2; simpl in Hk; try lia. injection E1 as _ <-. injection E2 as _ <-. done. }
  destruct evs1 as [|ev1 evs1].
  - destruct evs2 as [|ev2 evs2].
    { injection E1 as _ <-. injection E2 as _ <-. done. }
    apply handleEvents_cons in E2 as (l & n & E2 & E2').
    assert (messageOf ev2 = None) as Hl by (unfold messagesOf in Hm; simpl in Hm; by destruct (messageOf ev2)).
    destruct (local_event _ _ _ _ _ _ Hl E2) as [Hsame Hr].
    eapply (IH [] evs2 l1 l n1 n); try done; [simpl in *; lia|by eapply agree_same|congruence|].
    unfold messagesOf in *. simpl in Hm. by rewrite Hl in Hm.
  - destruct (messageOf ev1) as [m1|] eqn:M1.
    2: { apply handleEvents_cons in E1 as (l & n & E1 & E1'). simpl in Hs. rewrite E1 in Hs.
      destruct (local_event _ _ _ _ _ _ M1 E1) as [Hsame Hr]. apply Forall_cons in Hs as [_ Hs].
      eapply (IH evs1 evs2 l l2 n n2); try done; [simpl in *; lia|by eapply agree_same|congruence|].
      unfold messagesOf in *. simpl in Hm. by rewrite M1 in Hm. }
    destruct evs2 as [|ev2 evs2].
    { unfold messagesOf in Hm. simpl in Hm. by rewrite M1 in Hm. }
    destruct (messageOf ev2) as [m2|] eqn:M2.
    2: { apply handleEvents_cons in E2 as (l & n & E2 & E2').
      destruct (local_event _ _ _ _ _ _ M2 E2) as [Hsame Hr].
      eapply (IH (ev1 :: evs1) evs2 l1 l n1 n); try done; [simpl in *; lia|by eapply agree_same|congruence|].
      unfold messagesOf in *. simpl in Hm. by rewrite M2 in Hm. }
    unfold messagesOf in Hm. simpl in Hm. rewrite M1, M2 in Hm. injection Hm as <- Hm.
    destruct ev1; try done. destruct ev2; try done. simpl in M1, M2. injection M1 as ->. injection M2 as ->.
    apply handleEvents_cons in E1 as (k1 & j1 & E1 & E1').
    apply handleEvents_cons in E2 as (k2 & j2 & E2 & E2').
    simpl in Hs. simpl in E1, E2. rewrite E1 in Hs. apply Forall_cons in Hs as [Hkeys Hs].
    destruct (rel_handleMessage sha256 ed25519_Verify env1 env2 PublicKeyFromString pre1 pre2 l1 l2 m1
      L1 L2 n1 n2 _ _ _ _ Hn E1 E2) as [[R1 R2] Ha].
    eapply (IH evs1 evs2 k1 k2 j1 j2); try done; [simpl in *; lia|by apply Ha].
Qed.

(** C1. Agreement. Take two orderers in agreeing states that consume the same
    messages of the topic in the same order, with any local events (errors and
    retries of the subscription) in between, and with any clocks, operator keys
    and results of their own submissions. As long as the configurations they
    pass through give them the same accepted signers, and neither panics or
    halts, they write the same sequence of blocks, with equal headers and data,
    and reach agreeing states again. *)
Theorem orderers_agree env1 env2 evs1 evs2 l1 l2 (n1 n2 n1' n2' : node S) l1' l2' :
  chain_agree (chain n1) (chain n2) → publicKeys (chain n1) = publicKeys (chain n2) →
  same_view (support n1) (support n2) →
  recollectPendingChunks l1 = false → recollectPendingChunks l2 = false →
  messagesOf evs1 = messagesOf evs2 →
  Forall (sameKeys env1 env2 PublicKeyFromString) (supports env1 l1 evs1 n1) →
  handleEvents env1 l1 evs1 n1 = Done (Continue l1', n1') →
  handleEvents env2 l2 evs2 n2 = Done (Continue l2', n2') →
  ∃ w, blocksOf (trace n1') = blocksOf (trace n1) ++ w ∧
    blocksOf (trace n2') = blocksOf (trace n2) ++ w ∧
    same_view (support n1') (support n2') ∧ chain_agree (chain n1') (chain n2') ∧
    publicKeys (chain n1') = publicKeys (chain n2').
Proof.
  intros Hc Hk Hv L1 L2 Hm Hs E1 E2.
  assert (agreeK (blocksOf (trace n1)) (blocksOf (trace n2)) n1 n2) as Ha.
  { split; [split|done]; try done. exists []. by rewrite !app_nil_r. }
  destruct (handleEvents_agree _ _ _ _ _ _ _ _ _ _ _ _ _ _ Ha L1 L2 Hm Hs E1 E2)
    as [[Hc' Hv' (w & H1 & H2)] Hk']. by exists w.
Qed.
End runs.
