(* ===== verification/HcsInvariant.v ===== *)
(** * Invariants of an HCS chain

    What holds of a running chain between two events: the chain and its channel
    agree on the last block number, the recorded message hashes tell whether
    messages are pending in the block cutter, and the accepted signers are those
    of the configuration in force. Every event keeps this. *)

From stdpp Require Import gmap strings list.
From S2P Require Import Prelude Protos Support AppMsg AppMsgFacts AppMsgProps AppMsgSpec.
From S2P Require Import HcsChain HcsMessages HcsAgreement.

(** Decompose the run of a monadic program. *)
Ltac minv1 :=
  match goal with
  | H : (_ ≫= _) _ = Done (_, _) |- _ => apply M_bind_Done in H as (? & ? & ? & H)
  | H : mret _ _ = Done (_, _) |- _ => first [injection H as <- <- | injection H as ? ?; subst]
  | H : getChain _ = Done (_, _) |- _ => first [injection H as <- <- | injection H as ? ?; subst]
  | H : getSupport _ = Done (_, _) |- _ => first [injection H as <- <- | injection H as ? ?; subst]
  | H : setChain _ _ = Done (_, _) |- _ => first [injection H as <- <- | injection H as ? ?; subst]
  | H : setSupport _ _ = Done (_, _) |- _ => first [injection H as <- <- | injection H as ? ?; subst]
  | H : emit _ _ = Done (_, _) |- _ => first [injection H as <- <- | injection H as ? ?; subst]
  | H : ask _ _ = Done (_, _) |- _ => first [injection H as <- <- | injection H as ? ?; subst]
  | H : panic _ _ = Done (_, _) |- _ => discriminate H
  | H : lift _ _ = Done (_, _) |- _ => unfold lift in H; run_inv1
  | H : (let '(_, _) := ?x in _) _ = Done (_, _) |- _ => destruct x
  | H : _ ≫= _ = Done _ |- _ => apply bind_Done in H as (? & ? & H)
  end.
Ltac minv := repeat minv1; run_inv.

(** A run of a silent program. *)
Ltac by_silence H :=
  match type of H with ?m ?n = Done (?r, ?n') =>
    let Hs := fresh in assert (silent m) as Hs by silence; exact (Hs n r n' H)
  end.

Section invariant.
Context {S : Type} `{!ConsenterSupport S} `{!ConsenterSupportOk S}.
Context `{!Codec ApplicationMessage, !Codec ApplicationSignature, !Codec ApplicationMessageChunk}.
Context `{!Codec HcsMessage, !Codec Envelope, !Codec HcsMetadata, !Codec HcsConfigMetadata}.
Context (sha256 : bytes → bytes) (ed25519_Verify : bytes → bytes → bytes → bool).
Context (env : environment) (PublicKeyFromString : string → option bytes).

(** ** Writing a block *)

(** The metadata of a block written by chain [c] for the message at [ts]. *)
Definition blockMetadata (c : chainImpl) (ts : time) : option bytes :=
  t ← TimestampProto ts;
  cf ← TimestampProto (lastChunkFreeConsensusTimestamp c);
  Some (marshal (newHcsMetadata t (lastOriginalSequenceProcessed c)
    (lastResubmittedConfigSequence c) cf (lastChunkFreeSequenceProcessed c))).

(** The chain after a block was cut. *)
Definition afterCut (isConfig : bool) (c : chainImpl) : chainImpl :=
  {| c with messageHashes := if isConfig then messageHashes c else ∅;
            lastCutBlockNumber := u64 (lastCutBlockNumber c + 1) |}.

Lemma WriteBlock_inv b isConfig ts (n n' : node S) u :
  WriteBlock b isConfig ts n = Done (u, n') →
  ∃ s' raw, blockMetadata (chain n) ts = Some raw ∧
    (if isConfig then cs_WriteConfigBlock b (Some raw) (support n)
     else cs_WriteBlock b (Some raw) (support n)) = Done s' ∧
    n' = {| n with chain := afterCut isConfig (chain n); support := s';
                   trace := trace n ++ [SendTimeToCutRequest stopTimerRequest;
                                        Write isConfig b (Some raw)] |}.
Proof.
  intros H. unfold WriteBlock in H. destruct n as [c s v k t].
  destruct isConfig; minv; unfold timestampProtoOrPanic, blockMetadata in *; run_inv; simpl in *;
    repeat match goal with H : TimestampProto _ = Some _ |- _ => rewrite H; clear H end;
    eexists _, _; (split; [done|]); (split; [done|]); simpl; rewrite <- app_assoc; by destruct c.
Qed.

(** The last block carries the chain's current state, at the message of [ts]. *)
Definition checkpointed (ts : time) (n : node S) : Prop :=
  ∃ b raw, last (writesOf (trace n)) = Some (b, Some raw) ∧ blockMetadata (chain n) ts = Some raw.

(** ** The invariant *)

(** The chain and its channel count the same blocks. *)
Definition counted (n : node S) : Prop := lastCutBlockNumber (chain n) = cs_lastNumber (support n).

Definition keyed (n : node S) : Prop :=
  configuredKeys env PublicKeyFromString (support n) = Done (publicKeys (chain n)).

Record node_ok (n : node S) : Prop := {
  nk_counted : counted n;
  nk_hashes : messageHashes (chain n) = ∅ ↔ cs_pending (support n) = [];
  nk_keyed : keyed n;
  nk_proc : proc_wf (appMsgProcessor (chain n)) ∧ index_ok (appMsgProcessor (chain n))
}.

Lemma node_ok_same n n' : node_ok n → node_same n n' → node_ok n'.
Proof.
  intros [H1 H2 H3 H4] [[_ _ _ Ec Eh Ep Ek] Hs _]. unfold counted, keyed in *.
  split; unfold counted, keyed; rewrite ?Hs, ?Ec, ?Eh, ?Ek, ?Ep; done.
Qed.

(** ** What an orderer has output

    The envelopes of the blocks it wrote, and those that are pending. *)
Definition delivered (n : node S) : list Envelope :=
  concat ((λ w, cs_batchOf w.1) <$> writesOf (trace n)).

Definition output (n : node S) : list Envelope := delivered n ++ cs_pending (support n).

Lemma delivered_same n n' : writesOf (trace n') = writesOf (trace n) → delivered n' = delivered n.
Proof. unfold delivered. by intros ->. Qed.

Lemma output_same n n' : node_same n n' → output n' = output n.
Proof. intros [_ Hs _ Hw]. unfold output. by rewrite Hs, (delivered_same _ _ Hw). Qed.

(** The parts of a chain that cutting blocks leaves alone. *)
Record untouched (c c' : chainImpl) : Prop := {
  un_proc : appMsgProcessor c' = appMsgProcessor c;
  un_timestamp : lastConsensusTimestamp c' = lastConsensusTimestamp c;
  un_sequence : lastSequenceProcessed c' = lastSequenceProcessed c;
  un_chunkFree : lastChunkFreeConsensusTimestamp c' = lastChunkFreeConsensusTimestamp c;
  un_chunkFreeSeq : lastChunkFreeSequenceProcessed c' = lastChunkFreeSequenceProcessed c
}.

#[local] Instance untouched_preorder : PreOrder untouched.
Proof. split; [by split|]. intros c1 c2 c3 [] []. split; congruence. Qed.

(** Writing a block with the next number of a batch. *)
Lemma WriteBlock_ok batch isConfig ts s (n n' : node S) u :
  counted n → s = support n → WriteBlock (cs_CreateNextBlock batch s) isConfig ts n = Done (u, n') →
  counted n' ∧ checkpointed ts n' ∧ chain n' = afterCut isConfig (chain n) ∧
  cs_pending (support n') = cs_pending (support n) ∧ delivered n' = delivered n ++ batch ∧
  (isConfig = false → cs_SharedConfig (support n') = cs_SharedConfig (support n)).
Proof.
  intros Hc -> H. apply WriteBlock_inv in H as (s' & raw & Hm & Hw & ->). unfold counted in *. simpl.
  assert (cs_pending s' = cs_pending (support n) ∧
    cs_lastNumber s' = hdr_Number (blk_Header (cs_CreateNextBlock batch (support n)))) as [Hp Hl].
  { destruct isConfig; [by apply write_config_frame in Hw|by apply write_frame in Hw as (? & ? & _)]. }
  rewrite create_number, <- Hc in Hl. split_and!; try done.
  - eexists _, raw. simpl trace. rewrite writesOf_app. simpl. split; [by rewrite last_snoc|done].
  - unfold delivered. simpl trace. rewrite writesOf_app, fmap_app, concat_app. csimpl.
    by rewrite create_batch, app_nil_r.
  - intros ->. by apply write_frame in Hw as (_ & _ & _ & ?).
Qed.

(** One normal block. *)
Lemma cutBlock_normal batch ts (n n' : node S) u :
  counted n → cutBlock batch false ts n = Done (u, n') →
  counted n' ∧ checkpointed ts n' ∧ chain n' = afterCut false (chain n) ∧
  cs_pending (support n') = cs_pending (support n) ∧ delivered n' = delivered n ++ batch ∧
  cs_SharedConfig (support n') = cs_SharedConfig (support n).
Proof.
  unfold cutBlock. intros Hc H. minv. apply WriteBlock_ok in H as (? & ? & ? & ? & ? & Hs); [|done..].
  split_and!; try done. by apply Hs.
Qed.

Lemma keyed_config n n' :
  keyed n → publicKeys (chain n') = publicKeys (chain n) →
  cs_SharedConfig (support n') = cs_SharedConfig (support n) → keyed n'.
Proof. unfold keyed, configuredKeys. by intros H -> ->. Qed.

(** What [commitBatches] does, by the shape of the ordering result. *)
Lemma commitBatches_ok bs pending ts q (n n' : node S) u :
  counted n → (length bs <= 2)%nat → (length bs = 2%nat → pending = false) →
  commitBatches bs pending ts q n = Done (u, n') →
  counted n' ∧ untouched (chain n) (chain n') ∧ publicKeys (chain n') = publicKeys (chain n) ∧
  cs_pending (support n') = cs_pending (support n) ∧
  cs_SharedConfig (support n') = cs_SharedConfig (support n) ∧
  delivered n' = delivered n ++ concat bs ∧
  match bs with
  | [] => messageHashes (chain n') = messageHashes (chain n) ∧ writesOf (trace n') = writesOf (trace n)
  | _ => messageHashes (chain n') = ∅ ∧
         checkpointed (if pending then lastOrdereredConsensusTimestamp (chain n) else ts) n'
  end.
Proof.
  intros Hc Hl Hp H. unfold commitBatches, setProcessed in H.
  destruct bs as [|b [|b' [|]]]; simpl in Hl; [| | |lia].
  - minv. rewrite app_nil_r. by split_and!.
  - assert (∃ n1, counted n1 ∧ untouched (chain n) (chain n1) ∧
      publicKeys (chain n1) = publicKeys (chain n) ∧ support n1 = support n ∧ trace n1 = trace n ∧
      lastOrdereredConsensusTimestamp (chain n1) =
        (if pending then lastOrdereredConsensusTimestamp (chain n) else ts) ∧
      cutBlock b false (lastOrdereredConsensusTimestamp (chain n1)) n1 = Done (tt, n'))
      as (n1 & Hc1 & Hu & Hk1 & Hs & Htr & Ht & Hcut).
    { destruct pending; cbn [orb length] in H; [|rewrite bool_decide_false in H by done]; minv;
        repeat match goal with x : () |- _ => destruct x end; eexists; (split; [|split_and!; [..|done]]); done. }
    apply cutBlock_normal in Hcut as (? & Hk & E & ? & Hd & ?); [|done]. rewrite Hs, E in *.
    rewrite Hd. unfold delivered. rewrite Htr. csimpl. rewrite app_nil_r.
    rewrite Ht in Hk. split_and!; try done. destruct Hu; by split.
  - rewrite (Hp eq_refl) in *. cbn [orb length] in H. rewrite bool_decide_true in H by done. minv.
    match goal with H : cutBlock b _ _ _ = _ |- _ =>
      apply cutBlock_normal in H as (? & ? & E & Ep & Ed & Es); [|done] end.
    match goal with H : cutBlock b' _ _ _ = _ |- _ =>
      apply cutBlock_normal in H as (? & ? & E' & Ep' & Ed' & Es'); [|done] end.
    unfold delivered in *. simpl in *. rewrite E', E. rewrite Ed', Ed, app_nil_r, app_assoc.
    split_and!; try congruence; done.
Qed.
(** ** Processing a message

    [processed ts w n n']: the message at [ts] was processed and output [w]. If
    this wrote a block, the last block carries the state of the chain, with [ts]
    or, if the message is still pending, with the last message ordered before. *)
Record processed (ts : time) (w : list Envelope) (n n' : node S) : Prop := {
  pr_ok : node_ok n';
  pr_output : output n' = output n ++ w;
  pr_timestamp : lastConsensusTimestamp (chain n') = lastConsensusTimestamp (chain n);
  pr_sequence : lastSequenceProcessed (chain n') = lastSequenceProcessed (chain n);
  pr_settled : writesOf (trace n') = writesOf (trace n) ∨
    untouched (chain n) (chain n') ∧
    checkpointed (if bool_decide (cs_pending (support n') = []) then ts
                  else lastOrdereredConsensusTimestamp (chain n)) n'
}.

Lemma processed_same ts n n' : node_ok n → node_same n n' → processed ts [] n n'.
Proof.
  intros Hn Hs. split.
  - by eapply node_ok_same.
  - rewrite app_nil_r. by apply output_same.
  - apply Hs.
  - apply Hs.
  - left. apply Hs.
Qed.

(** Processing after a step that decides nothing but the resubmission state. *)
Lemma processed_after ts w n n1 n' :
  node_same n n1 → untouched (chain n) (chain n1) →
  lastOrdereredConsensusTimestamp (chain n1) = lastOrdereredConsensusTimestamp (chain n) →
  processed ts w n1 n' → processed ts w n n'.
Proof.
  intros Hs Hu Hlo [Hok Ho Ht Hq Hst]. pose proof (output_same _ _ Hs) as E. split; try done.
  - by rewrite Ho, E.
  - rewrite Ht. apply (ns_chain _ _ Hs).
  - rewrite Hq. apply (ns_chain _ _ Hs).
  - destruct Hst as [Hw|[Hu' ?]]; [left; rewrite Hw; apply Hs|right].
    rewrite <- Hlo. split; [by etransitivity|done].
Qed.

Lemma requestTimer_ok pending h (n n' : node S) u :
  requestTimer pending h n = Done (u, n') →
  support n' = support n ∧ writesOf (trace n') = writesOf (trace n) ∧
  untouched (chain n) (chain n') ∧ publicKeys (chain n') = publicKeys (chain n) ∧
  lastCutBlockNumber (chain n') = lastCutBlockNumber (chain n) ∧
  (∀ ts, checkpointed ts n → checkpointed ts n') ∧
  messageHashes (chain n') = if pending then {[h]} ∪ messageHashes (chain n) else messageHashes (chain n).
Proof.
  unfold requestTimer. intros H. destruct pending; minv; [|done].
  assert (∀ t e, writeOf e = None → writesOf (t ++ [e]) = writesOf t) as Hw.
  { intros t e He. rewrite writesOf_app. csimpl. rewrite He. apply app_nil_r. }
  unfold checkpointed. simpl. rewrite Hw by done. by split_and!.
Qed.

Lemma commitNormalMessage_ok e ts q h (n n' : node S) u :
  node_ok n → commitNormalMessage env e ts q h n = Done (u, n') → processed ts [e] n n'.
Proof.
  intros [Hc Hh Hk Hp] H. unfold commitNormalMessage in H. minv. simpl in *.
  match goal with H : cs_Ordered _ _ _ _ = _ |- _ =>
    apply ordered_spec in H as (Hl & Ho & Hpd & _ & Htwo & Hn & _ & Hsc) end.
  match goal with H : commitBatches ?bs _ _ _ _ = _ |- _ => 
    apply commitBatches_ok in H as (Hc1 & Hu & Hk1 & Hp1 & Hs1 & Hd & Hb);
      [|unfold counted in *; simpl; congruence|done|done]; rename bs into bs0 end.
  apply requestTimer_ok in H as (Es & Ew & Eu & Ek & El & Echk & Eh). simpl in *. subst.
  assert (output n' = output n ++ [e]) as Hout.
  { unfold output. rewrite (delivered_same _ _ Ew), Hd, Es, Hp1, <- app_assoc, Ho, app_assoc. done. }
  split; [split|..].
  - unfold counted in *. congruence.
  - rewrite Eh, Es, Hp1. case_bool_decide as Hb'; [split; [set_solver|done]|].
    destruct bs0; [|naive_solver]. simpl in Ho. rewrite Hb' in Ho.
    by destruct (cs_pending (support n)).
  - eapply keyed_config; [exact Hk|congruence|congruence].
  - rewrite (un_proc _ _ Eu), (un_proc _ _ Hu). done.
  - done.
  - rewrite (un_timestamp _ _ Eu), (un_timestamp _ _ Hu). done.
  - rewrite (un_sequence _ _ Eu), (un_sequence _ _ Hu). done.
  - rewrite Ew, Es, Hp1. destruct bs0; [left; apply Hb|right]. split; [by etransitivity|].
    apply Echk. destruct Hb as [_ Hb]. rewrite bool_decide_not in Hb. clear -Hb; repeat (case_bool_decide; simpl in *); done.
Qed.
Lemma commitConfigMessage_ok e ts q (n n' : node S) u :
  node_ok n → commitConfigMessage e ts q n = Done (u, n') →
  counted n' ∧ messageHashes (chain n') = ∅ ∧ cs_pending (support n') = [] ∧
  output n' = output n ++ [e] ∧ untouched (chain n) (chain n') ∧ checkpointed ts n'.
Proof.
  intros [Hc Hh Hk Hp] H. unfold commitConfigMessage in H.
  apply M_bind_Done in H as (? & ? & Hg & H). injection Hg as <- <-.
  destruct (cut_all (support n)) as (E & Hp' & Hn & _). destruct (cs_Cut (support n)) as [batch s].
  simpl in *. injection E as ->. minv. simpl in *.
  assert (∃ n1, counted n1 ∧ messageHashes (chain n1) = ∅ ∧ cs_pending (support n1) = [] ∧
    untouched (chain n) (chain n1) ∧ delivered n1 = output n ∧
    cutBlock [e] true ts {| n1 with chain := {| (chain n1) with lastOriginalSequenceProcessed := q |} |}
      = Done (u, n')) as (n1 & Hc1 & Hh1 & Hp1 & Hu & Hd & Hcut).
  { unfold output. destruct (cs_pending (support n)) as [|m batch].
    - minv. eexists. split; [|split_and!; [..|exact H]]; simpl; try done; [unfold counted in *; simpl; congruence|by apply Hh|].
      by rewrite app_nil_r.
    - minv. match goal with H : cutBlock (m :: batch) _ _ _ = _ |- _ =>
        apply cutBlock_normal in H as (? & _ & Ec & Epd & Ed & _); [|unfold counted in *; simpl; congruence] end.
      eexists. split; [|split_and!; [..|exact H]]; simpl in *; rewrite ?Ec, ?Epd; done. }
  unfold cutBlock in Hcut. minv. apply WriteBlock_ok in Hcut as (? & ? & Ec & Ep & Ed & _); [|done..].
  unfold output. rewrite Ec, Ep, Ed. simpl in *. rewrite Hp1, app_nil_r.
  split_and!; try done; [|destruct Hu; by split]. unfold delivered in *. simpl. by rewrite Hd.
Qed.

(** Whether a regular message is put into a block: it is not a resubmission
    already handled, and it was validated under the current configuration. *)
Definition accepted (msg : HcsMessageRegular) (n : node S) : bool :=
  negb (bool_decide (reg_OriginalSeq msg ≠ 0) &&
        (reg_OriginalSeq msg <=? lastOriginalSequenceProcessed (chain n))) &&
  negb (reg_ConfigSeq msg <? cs_Sequence (support n)).

Lemma processNormal_ok msg e ts q h (n n' : node S) r :
  node_ok n → processNormal sha256 ed25519_Verify env msg e ts q h n = Done (r, n') →
  processed ts (if accepted msg n then [e] else []) n n'.
Proof.
  intros Hn H. unfold processNormal in H. do 2 (apply M_bind_Done in H as (? & ? & Hg & H); injection Hg as <- <-).
  unfold accepted. destruct (_ && (_ <=? _)); simpl.
  { injection H as _ <-. by apply processed_same. }
  destruct (reg_ConfigSeq msg <? _); simpl.
  - apply processed_same; [done|]. by_silence H.
  - apply M_bind_Done in H as (? & ? & Hx & H). injection H as _ <-. by apply commitNormalMessage_ok in Hx.
Qed.
(** A committed config message leaves the keys of the new configuration. *)
Lemma commitConfig_keys e ts q (n n1 n' : node S) u s keys :
  node_ok n → commitConfigMessage e ts q n = Done (u, n1) →
  s = support n1 → configuredKeys env PublicKeyFromString s = Done keys →
  n' = {| n1 with chain := {| (chain n1) with publicKeys := keys |} |} → processed ts [e] n n'.
Proof.
  intros Hn H -> Hk ->. pose proof H as H'.
  apply commitConfigMessage_ok in H as (Hc & Hh & Hp & Ho & [Hu Ht Hq Hf Hfs] & Hchk); [|done].
  split; [split|..].
  - exact Hc.
  - simpl. by rewrite Hh, Hp.
  - exact Hk.
  - simpl. rewrite Hu. apply Hn.
  - exact Ho.
  - exact Ht.
  - exact Hq.
  - right. split; [by split|]. simpl. by rewrite bool_decide_true.
Qed.

Lemma processConfig_ok msg e ts q (n n' : node S) r :
  node_ok n → processConfig sha256 ed25519_Verify env PublicKeyFromString msg e ts q n = Done (r, n') →
  processed ts (if accepted msg n then [e] else []) n n'.
Proof.
  intros Hn H. unfold processConfig in H.
  do 2 (apply M_bind_Done in H as (? & ? & Hg & H); injection Hg as <- <-).
  unfold accepted. destruct (_ && (_ <=? _)); simpl.
  { injection H as _ <-. by apply processed_same. }
  apply M_bind_Done in H as (? & n1 & Hpre & H).
  assert (node_same n n1) as Hs1 by by_silence Hpre.
  assert (untouched (chain n) (chain n1) ∧
    lastOrdereredConsensusTimestamp (chain n1) = lastOrdereredConsensusTimestamp (chain n)) as [Hu1 Hlo].
  { clear H. case_bool_decide; [|by injection Hpre as _ <-].
    apply M_bind_Done in Hpre as (? & n2 & Hpre & Hset). injection Hset as _ <-.
    assert (untouched (chain n) (chain n2) ∧
      lastOrdereredConsensusTimestamp (chain n2) = lastOrdereredConsensusTimestamp (chain n)) as [Hu Hlo].
    { destruct (_ && _); [unfold reprocessComplete in Hpre|]; minv; by split. }
    simpl. destruct (_ <? _); [|done]. destruct Hu. by split. }
  destruct (reg_ConfigSeq msg <? _); simpl.
  - apply processed_same; [done|]. etransitivity; [done|]. by_silence H.
  - eapply processed_after; [done..|]. minv.
    eapply commitConfig_keys; [by eapply node_ok_same|done..].
Qed.

(** The envelope a regular message puts into a block. *)
Definition committed (msg : HcsMessageRegular) (n : node S) : list Envelope :=
  match unmarshal (A:=Envelope) (reg_Payload msg) with
  | Some e =>
    if bool_decide (reg_Class msg ∈ [HcsMessageRegular_NORMAL; HcsMessageRegular_CONFIG]) && accepted msg n
    then [e] else []
  | None => []
  end.

Lemma processRegularMessage_ok msg ts q h (n n' : node S) r :
  node_ok n →
  processRegularMessage sha256 ed25519_Verify env PublicKeyFromString msg ts q h n = Done (r, n') →
  processed ts (committed msg n) n n'.
Proof.
  intros Hn H. unfold processRegularMessage, committed in *.
  destruct (unmarshal _) as [e|]; [|injection H as _ <-; by apply processed_same].
  destruct (decide (reg_Class msg = HcsMessageRegular_NORMAL)) as [H1|H1];
    [rewrite (bool_decide_true (reg_Class msg = _) H1) in H|
     rewrite (bool_decide_false (reg_Class msg = _) H1) in H;
     destruct (decide (reg_Class msg = HcsMessageRegular_CONFIG)) as [H2|H2];
     [rewrite bool_decide_true in H by done|rewrite bool_decide_false in H by done]].
  - rewrite bool_decide_true by (rewrite H1; set_solver). by eapply processNormal_ok.
  - rewrite bool_decide_true by (rewrite H2; set_solver). by eapply processConfig_ok.
  - rewrite bool_decide_false by set_solver. injection H as _ <-. by apply processed_same.
Qed.
(** ** Time-to-cut messages *)

Definition nextBlock (c : chainImpl) : Z := u64 (lastCutBlockNumber c + 1).

(** Whether a time-to-cut message cuts a block: it names the next block, and
    something is pending, or it names a pending message. *)
Definition cuts (msg : HcsMessageTimeToCut) (n : node S) : bool :=
  match msg with
  | HcsMessageTimeToCut_BlockNumber k =>
    bool_decide (k = nextBlock (chain n) ∧ cs_pending (support n) ≠ [])
  | HcsMessageTimeToCut_MessageHash h => bool_decide (h ∈ messageHashes (chain n))
  | HcsMessageTimeToCut_unset => false
  end.

(** Whether it ends the loop: it names a later block, or the next one with
    nothing pending. *)
Definition rejects (msg : HcsMessageTimeToCut) (n : node S) : bool :=
  match msg with
  | HcsMessageTimeToCut_BlockNumber k =>
    bool_decide (k > nextBlock (chain n) ∨ k = nextBlock (chain n) ∧ cs_pending (support n) = [])
  | _ => false
  end.

(** A matching message cuts what is pending, if anything is. *)
Lemma matched_cut msg ts q (n n' : node S) r :
  node_ok n → timeToCutMatches msg (chain n) = Ok true →
  processTimeToCutMessage msg ts q n = Done (r, n') →
  processed ts [] n n' ∧ cs_pending (support n') = [] ∧ delivered n' = output n ∧
  if bool_decide (cs_pending (support n) = []) then is_Some r ∧ chain n' = chain n
  else r = None ∧ lastCutBlockNumber (chain n') = nextBlock (chain n).
Proof.
  intros [Hc Hh Hk Hp] Hm H. unfold processTimeToCutMessage in H.
  apply M_bind_Done in H as (? & ? & Hg & H). injection Hg as <- <-. rewrite Hm in H.
  apply M_bind_Done in H as (? & ? & Hg & H). injection Hg as <- <-.
  destruct (cut_all (support n)) as (E & Hp' & Hn & _ & Hsc). destruct (cs_Cut (support n)) as [batch s].
  simpl in *. injection E as ->. apply M_bind_Done in H as (? & ? & Hg & H). injection Hg as _ <-.
  destruct (cs_pending (support n)) as [|m batch] eqn:Ep.
  - injection H as <- <-. rewrite bool_decide_true by done. unfold output. rewrite Ep.
    assert (delivered {| n with support := s |} = delivered n ++ []) as Hd by by rewrite app_nil_r.
    split_and!; try done. split; [split|..]; try done.
    + unfold counted in *. simpl. congruence.
    + simpl. by rewrite Hp'.
    + by eapply keyed_config.
    + unfold output. rewrite Ep, app_nil_r, <- Hd. simpl. by rewrite Hp', app_nil_r.
    + by left.
  - rewrite bool_decide_false by done. apply M_bind_Done in H as (? & ? & Hg & H). injection Hg as _ <-.
    apply M_bind_Done in H as (? & ? & Hw & H). injection H as <- ->.
    apply (WriteBlock_ok (m :: batch)) in Hw as (Hc' & Hchk & Ec & Ep' & Ed & Es);
      [|unfold counted in *; simpl; congruence|done].
    simpl in *. rewrite Hp' in Ep'. assert (delivered n' = output n) as Hd by (unfold output; by rewrite Ep, Ed).
    split_and!; [|done|done|done|by rewrite Ec]. split; [split|..]; rewrite ?Ec, ?Ep'; try done.
    + eapply keyed_config; [exact Hk|by rewrite Ec|]. rewrite Es; done.
    + unfold output at 1. by rewrite Ep', Hd.
    + right. split; [by split|]. by rewrite bool_decide_true.
Qed.

Lemma timeToCutMatches_spec msg (n : node S) :
  node_ok n →
  match timeToCutMatches msg (chain n) with
  | Ok true => cuts msg n = negb (bool_decide (cs_pending (support n) = [])) ∧
               rejects msg n = bool_decide (cs_pending (support n) = [])
  | Ok false => cuts msg n = false ∧ rejects msg n = false
  | Err _ => cuts msg n = false ∧ rejects msg n = true
  end.
Proof.
  intros Hn. unfold timeToCutMatches, cuts, rejects. fold (nextBlock (chain n)). destruct msg as [k|h|]; [| |done].
  - destruct (Z.eqb_spec k (nextBlock (chain n))) as [->|Hne].
    + split; [|by apply bool_decide_ext; naive_solver lia].
      rewrite <- bool_decide_not. apply bool_decide_ext. naive_solver.
    + rewrite Z.gtb_ltb. destruct (Z.ltb_spec (nextBlock (chain n)) k).
      * rewrite bool_decide_false by naive_solver. rewrite bool_decide_true by lia. done.
      * rewrite !bool_decide_false by naive_solver lia. done.
  - case_bool_decide as Hin; [|done]. assert (cs_pending (support n) ≠ []) as Hp.
    { intros Hp%(nk_hashes _ Hn). set_solver. }
    by rewrite bool_decide_false.
Qed.

Lemma timeToCut_spec msg ts q (n n' : node S) r :
  node_ok n → processTimeToCutMessage msg ts q n = Done (r, n') →
  processed ts [] n n' ∧ (is_Some r ↔ rejects msg n = true) ∧
  if cuts msg n
  then cs_pending (support n') = [] ∧ delivered n' = output n ∧
       lastCutBlockNumber (chain n') = nextBlock (chain n)
  else chain n' = chain n ∧ delivered n' = delivered n ∧ cs_pending (support n') = cs_pending (support n).
Proof.
  intros Hn H. pose proof (timeToCutMatches_spec msg n Hn) as Hm.
  destruct (timeToCutMatches msg (chain n)) as [[|]|x] eqn:E; destruct Hm as [-> ->].
  - destruct (matched_cut _ _ _ _ _ _ Hn E H) as (Hp & Hpd & Hd & Hr).
    case_bool_decide as Hb; destruct Hr as [Hr Hl]; simpl.
    + split_and!; try done; [|congruence]. rewrite Hd. unfold output. by rewrite Hb, app_nil_r.
    + rewrite Hr. by split_and!.
  - unfold processTimeToCutMessage in H. apply M_bind_Done in H as (? & ? & Hg & H). injection Hg as <- <-.
    rewrite E in H. injection H as <- <-. split_and!; try done. by apply processed_same.
  - unfold processTimeToCutMessage in H. apply M_bind_Done in H as (? & ? & Hg & H). injection Hg as <- <-.
    rewrite E in H. injection H as <- <-. split_and!; try done. by apply processed_same.
Qed.
(** ** The loop *)

(** What a complete message outputs. *)
Definition outputs (msg : HcsMessage) (n : node S) : list Envelope :=
  match msg with HcsMessage_Regular m => committed m n | _ => [] end.

Lemma expire_wf a p : proc_wf p ∧ index_ok p →
  proc_wf (ExpireByAppID a p).2 ∧ index_ok (ExpireByAppID a p).2.
Proof.
  intros [W I]. pose proof (ExpireByAppID_spec a p W I) as Hs. destruct (nlen a =? 0).
  - by rewrite Hs.
  - destruct Hs as (keys & p' & -> & _ & _ & ? & ? & _). done.
Qed.

Lemma processMessage_ok msg ts q h (n n' : node S) r :
  node_ok n →
  processMessage sha256 ed25519_Verify env PublicKeyFromString msg ts q h n = Done (r, n') →
  processed ts (outputs msg n) n n' ∧
  (is_Some r ↔ ∃ m, msg = HcsMessage_TimeToCut m ∧ rejects m n = true).
Proof.
  intros Hn H. unfold processMessage in H. destruct msg as [m|m|m|]; simpl.
  - apply M_bind_Done in H as (? & n1 & H & Hr). injection Hr as <- ->.
    split; [by eapply processRegularMessage_ok|naive_solver].
  - destruct (timeToCut_spec _ _ _ _ _ _ Hn H) as (Hp & Hr & _). split; [done|]. naive_solver.
  - apply M_bind_Done in H as (? & n1 & H & Hr). injection Hr as <- ->. injection H as _ <-.
    split; [|naive_solver]. destruct Hn as [? ? ? Hp]. split; [split|..]; try done.
    + by apply expire_wf.
    + by rewrite app_nil_r.
    + by left.
  - injection H as <- <-. split; [by apply processed_same|naive_solver].
Qed.
(** A chunk is accepted only in sequence. *)
Lemma receiveChunk_ok `{!ChunkTyped} resp (n n' : node S) r :
  node_ok n → receiveChunk sha256 ed25519_Verify env resp n = Done (r, n') →
  tm_SequenceNumber resp = u64 (lastSequenceProcessed (chain n) + 1) ∧
  lastConsensusTimestamp (chain n) < tm_ConsensusTimestamp resp ∧
  node_ok n' ∧ support n' = support n ∧ trace n' = trace n ∧
  lastSequenceProcessed (chain n') = tm_SequenceNumber resp ∧
  lastConsensusTimestamp (chain n') = tm_ConsensusTimestamp resp ∧
  lastOrdereredConsensusTimestamp (chain n') = lastOrdereredConsensusTimestamp (chain n) ∧
  (is_Some r → IsPending (appMsgProcessor (chain n')) = false →
   lastChunkFreeConsensusTimestamp (chain n') = tm_ConsensusTimestamp resp ∧
   lastChunkFreeSequenceProcessed (chain n') = tm_SequenceNumber resp).
Proof.
  intros [Hc Hh Hk [Hp Hi]] Hx. unfold receiveChunk in Hx.
  apply M_bind_Done in Hx as (? & ? & Hg & Hx). injection Hg as <- <-.
  case_bool_decide as Hq; [discriminate Hx|].
  apply M_bind_Done in Hx as (? & ? & Hg & Hx). injection Hg as _ <-.
  rewrite Z.gtb_ltb in Hx. destruct (Z.ltb_spec (lastConsensusTimestamp (chain n)) (tm_ConsensusTimestamp resp));
    [|discriminate Hx]. do 2 (apply M_bind_Done in Hx as (? & ? & Hg & Hx); injection Hg as _ <-).
  destruct (unmarshal _) as [chunk|] eqn:U.
  2: { injection Hx as <- <-. by split_and!. }
  apply M_bind_Done in Hx as (? & ? & Hg & Hx). injection Hg as <- <-.
  apply M_bind_Done in Hx as ([ra p] & ? & Hg & Hx). unfold lift in Hg. apply bind_Done in Hg as (? & HR & Hg).
  injection Hg as -> <-. simpl in HR.
  apply Reassemble_tables in HR as (Hp' & Hi' & _); [|done..|by eapply chunk_int32].
  apply M_bind_Done in Hx as (? & ? & Hg & Hx). injection Hg as _ <-.
  apply M_bind_Done in Hx as (? & ? & Hg & Hx). injection Hx as _ ->.
  destruct (IsPending p) eqn:Ep; injection Hg as _ <-; split_and!; try done; simpl; try congruence.
Qed.
End invariant.
