(* ===== verification/HcsRuns.v ===== *)
(** * Runs of an HCS chain

    The loop of [processMessages] over any sequence of events: the invariant of
    [HcsInvariant] holds throughout, topic messages are consumed in sequence, and
    the blocks together with the pending messages are exactly the messages the
    chain accepted, in the order of the topic. *)

From stdpp Require Import gmap strings list.
From S2P Require Import Prelude Protos Support AppMsg AppMsgFacts AppMsgProps AppMsgSpec.
From S2P Require Import HcsChain HcsMessages HcsAgreement HcsInvariant.

Section runs.
Context {S : Type} `{!ConsenterSupport S} `{!ConsenterSupportOk S}.
Context `{!Codec ApplicationMessage, !Codec ApplicationSignature, !Codec ApplicationMessageChunk}.
Context `{!Codec HcsMessage, !Codec Envelope, !Codec HcsMetadata, !Codec HcsConfigMetadata}.
Context `{!ChunkTyped}.
Context (sha256 : bytes → bytes) (ed25519_Verify : bytes → bytes → bytes → bool).
Context (env : environment) (PublicKeyFromString : string → option bytes).

Abbreviation node_ok := (node_ok env PublicKeyFromString).
Abbreviation processed := (processed env PublicKeyFromString).
Abbreviation handleMessage := (handleMessage sha256 ed25519_Verify env PublicKeyFromString).
Abbreviation handleEvent := (handleEvent sha256 ed25519_Verify env PublicKeyFromString).
Abbreviation handleEvents := (handleEvents sha256 ed25519_Verify env PublicKeyFromString).

(** The complete message a topic message gives, if any, and the chain then. *)
Definition received (resp : TopicMessage) (n : node S) : outcome (option (bytes * nbytes) * node S) :=
  (setChain (λ c, {| c with errorChan := Open |});; receiveChunk sha256 ed25519_Verify env resp) n.

(** The envelopes a topic message puts into the output. *)
Definition outputsOf (l : loopState) (resp : TopicMessage) (n : node S) : list Envelope :=
  match received resp n with
  | Done (Some (payload, _), n1) =>
    match unmarshal (A:=HcsMessage) payload with
    | Some msg => if recollectPendingChunks l then [] else outputs msg n1
    | None => []
    end
  | _ => []
  end.

Lemma node_ok_opened n : node_ok n → node_ok {| n with chain := {| (chain n) with errorChan := Open |} |}.
Proof. intros Hn. eapply node_ok_same; [done|]. by split. Qed.

Lemma silent_recollect ts : silent (recollectMessage (S:=S) ts).
Proof. unfold recollectMessage. silence. Qed.

(** One topic message. *)
Lemma handleMessage_ok l resp (n n' : node S) r :
  node_ok n → handleMessage l resp n = Done (r, n') →
  node_ok n' ∧ output n' = output n ++ outputsOf l resp n ∧
  tm_SequenceNumber resp = u64 (lastSequenceProcessed (chain n) + 1) ∧
  lastConsensusTimestamp (chain n) < tm_ConsensusTimestamp resp ∧
  lastSequenceProcessed (chain n') = tm_SequenceNumber resp ∧
  lastConsensusTimestamp (chain n') = tm_ConsensusTimestamp resp.
Proof.
  intros Hn Hx. unfold HcsMessages.handleMessage in Hx. unfold outputsOf, received.
  apply M_bind_Done in Hx as (? & ? & Hg & Hx). injection Hg as _ <-.
  apply M_bind_Done in Hx as (rc & n1 & Hrc & Hx).
  assert ((setChain (λ c, {| c with errorChan := Open |});; receiveChunk sha256 ed25519_Verify env resp) n
    = Done (rc, n1)) as -> by done.
  destruct (receiveChunk_ok _ _ _ _ _ _ _ _ (node_ok_opened _ Hn) Hrc) as (Hq & Ht & Hn1 & Hs & Htr & Hq1 & Ht1 & _ & _).
  simpl in *. assert (output n1 = output n) as Ho by (unfold output, delivered; by rewrite Hs, Htr).
  destruct rc as [[payload h]|].
  2: { injection Hx as _ <-. rewrite app_nil_r. by split_and!. }
  destruct (unmarshal payload) as [msg|].
  2: { injection Hx as _ <-. rewrite app_nil_r. by split_and!. }
  destruct (recollectPendingChunks l).
  - apply M_bind_Done in Hx as (? & n2 & Hr & Hx). injection Hx as _ ->. rewrite app_nil_r.
    apply silent_recollect in Hr. rewrite (output_same _ _ Hr). destruct (ns_chain _ _ Hr).
    split_and!; try congruence. by eapply node_ok_same.
  - apply M_bind_Done in Hx as (? & n2 & Hr & Hx). injection Hx as _ ->.
    apply processMessage_ok in Hr as [[] _]; [|done]. split_and!; congruence.
Qed.
(** The envelopes a run puts into the output. *)
Fixpoint runOutputs (l : loopState) (evs : list event) (n : node S) : list Envelope :=
  match evs with
  | [] => []
  | ev :: evs =>
    match ev with EvMessage resp => outputsOf l resp n | _ => [] end ++
    match handleEvent l ev n with
    | Done (Continue l, n) => runOutputs l evs n
    | _ => []
    end
  end.

Lemma handleEvent_ok l ev (n n' : node S) r :
  node_ok n → handleEvent l ev n = Done (r, n') →
  node_ok n' ∧ output n' = output n ++ match ev with EvMessage resp => outputsOf l resp n | _ => [] end.
Proof.
  intros Hn Hx. destruct (messageOf ev) as [m|] eqn:Em.
  - destruct ev; try done. apply handleMessage_ok in Hx as (? & ? & _); done.
  - destruct (local_event _ _ _ _ _ _ _ _ _ Em Hx) as [Hs _].
    split; [by eapply node_ok_same|]. destruct ev; try done; by rewrite app_nil_r, (output_same _ _ Hs).
Qed.

Lemma silent_finish : silent (finishProcessing (S:=S)).
Proof. unfold finishProcessing. silence. Qed.

Lemma handleEvents_ok l evs (n n' : node S) r :
  node_ok n → handleEvents l evs n = Done (r, n') →
  node_ok n' ∧ output n' = output n ++ runOutputs l evs n.
Proof.
  revert l n. induction evs as [|ev evs IH]; intros l n Hn Hx.
  - injection Hx as _ <-. by rewrite app_nil_r.
  - simpl in Hx. apply M_bind_Done in Hx as (r1 & n1 & H1 & Hx). simpl. rewrite H1.
    apply handleEvent_ok in H1 as [Hn1 Ho]; [|done]. rewrite app_assoc, <- Ho. destruct r1 as [l1|err].
    + by apply IH.
    + apply M_bind_Done in Hx as (? & n2 & Hf & Hx). injection Hx as _ ->. apply silent_finish in Hf.
      rewrite app_nil_r, (output_same _ _ Hf). split; [by eapply node_ok_same|done].
Qed.

(** C20. The invariant of a chain. Through any sequence of events (topic
    messages, subscription errors, retries, halts), as long as no step panics,
    the number of the last block cut is that of the channel's last block, message
    hashes are recorded exactly while messages are pending in the block cutter,
    the accepted signers are those of the configuration in force, and the tables
    of the message processor are consistent. *)
Theorem run_invariant l evs (n n' : node S) r :
  node_ok n → handleEvents l evs n = Done (r, n') → node_ok n'.
Proof. intros Hn Hx. by apply (handleEvents_ok _ _ _ _ _ Hn Hx). Qed.

(** C5. Nothing is lost, duplicated or reordered. After any sequence of
    events the envelopes of all blocks written so far, followed by those pending
    in the block cutter, are what they were before followed by the envelopes of
    the regular messages that were accepted (not a resubmission already handled,
    and validated under the current configuration), in the order of the topic. *)
Theorem run_outputs l evs (n n' : node S) r :
  node_ok n → handleEvents l evs n = Done (r, n') →
  output n' = output n ++ runOutputs l evs n.
Proof. intros Hn Hx. by apply (handleEvents_ok _ _ _ _ _ Hn Hx). Qed.

(** Messages with consecutive sequence numbers and increasing timestamps. *)
Fixpoint inOrder (sequence : Z) (timestamp : time) (ms : list TopicMessage) : Prop :=
  match ms with
  | [] => True
  | m :: ms =>
    tm_SequenceNumber m = u64 (sequence + 1) ∧ timestamp < tm_ConsensusTimestamp m ∧
    inOrder (tm_SequenceNumber m) (tm_ConsensusTimestamp m) ms
  end.

(** Topic messages are consumed in sequence. If a run over a sequence of
    events did not panic, the topic messages among them had consecutive sequence
    numbers and strictly increasing timestamps, starting after the last ones
    processed before the run; a gap, a repeat or an older message panics. *)
Theorem run_in_order l evs (n n' : node S) l' :
  node_ok n → handleEvents l evs n = Done (Continue l', n') →
  inOrder (lastSequenceProcessed (chain n)) (lastConsensusTimestamp (chain n)) (messagesOf evs).
Proof.
  revert l n. induction evs as [|ev evs IH]; intros l n Hn Hx; [done|].
  apply handleEvents_cons in Hx as (l1 & n1 & H1 & Hx).
  destruct (handleEvent_ok _ _ _ _ _ Hn H1) as [Hn1 _]. specialize (IH _ _ Hn1 Hx).
  destruct (messageOf ev) as [m|] eqn:Em.
  - destruct ev; try done. injection Em as ->.
    apply handleMessage_ok in H1 as (_ & _ & Hq & Ht & Hq1 & Ht1); [|done].
    rewrite Hq1, Ht1 in IH. by split_and!.
  - destruct (local_event _ _ _ _ _ _ _ _ _ Em H1) as [[[Ht _ Hq _ _ _ _] _ _ _] _].
    rewrite Ht, Hq in IH. unfold messagesOf in *. simpl. by rewrite Em.
Qed.

(** Time-to-cut messages. A time-to-cut message cuts a block exactly when
    it names the next block while messages are pending, or names a pending
    message; then everything pending goes into one block with the next number.
    It ends the loop with an error exactly when it names a later block, or the
    next one with nothing pending. In all other cases nothing changes; a message
    hash never finds the block cutter empty. *)
Theorem timeToCut_table msg ts q (n n' : node S) r :
  node_ok n → processTimeToCutMessage msg ts q n = Done (r, n') →
  (is_Some r ↔ rejects msg n = true) ∧
  if cuts msg n
  then cs_pending (support n') = [] ∧ delivered n' = output n ∧
       lastCutBlockNumber (chain n') = nextBlock (chain n)
  else chain n' = chain n ∧ delivered n' = delivered n ∧ cs_pending (support n') = cs_pending (support n).
Proof. intros Hn Hx. apply (timeToCut_spec sha256 ed25519_Verify env PublicKeyFromString) in Hx as (_ & ? & ?); [by split|exact Hn]. Qed.
End runs.
