(* ===== verification/HcsRecovery.v ===== *)
(** * Restarting an HCS chain

    What a chain recovers from the metadata of its last block. When a message
    ended with a block, nothing pending in the block cutter and no incomplete
    message, a chain restarted from that block agrees with the one that kept
    running. When a message overflows the pending batch, it does not start. *)

From stdpp Require Import gmap strings list.
From S2P Require Import Prelude Protos Support AppMsg AppMsgFacts AppMsgProps AppMsgSpec.
From S2P Require Import HcsChain HcsMessages HcsConsenter HcsAgreement HcsInvariant HcsRuns.

(** The numbers of [HcsMetadata] are [uint64]. *)
Definition metadata_wf (m : HcsMetadata) : Prop :=
  is_u64 (md_LastOriginalSequenceProcessed m) ∧ is_u64 (md_LastResubmittedConfigSequence m) ∧
  is_u64 (md_LastChunkFreeSequenceProcessed m).

(** The same fields of a chain. *)
Definition chain_typed (c : chainImpl) : Prop :=
  is_u64 (lastOriginalSequenceProcessed c) ∧ is_u64 (lastResubmittedConfigSequence c) ∧
  is_u64 (lastChunkFreeSequenceProcessed c).

Section recovery.
Context {S : Type} `{!ConsenterSupport S} `{!ConsenterSupportOk S}.
Context `{!Codec ApplicationMessage, !Codec ApplicationSignature, !Codec ApplicationMessageChunk}.
Context `{!Codec HcsMessage, !Codec Envelope, !Codec HcsMetadata, !Codec HcsConfigMetadata}.
Context {typed_chunks : ChunkTyped} {metadata_codec : CodecOk HcsMetadata metadata_wf}.
Context (sha256 : bytes → bytes) (ed25519_Verify : bytes → bytes → bytes → bool).
Context (env : environment) {PrivateKey : Type} (K : sdk PrivateKey).

Abbreviation node_ok := (node_ok env (PublicKeyFromString K)).
Abbreviation handleMessage := (handleMessage sha256 ed25519_Verify env (PublicKeyFromString K)).

(** ** What the metadata gives back *)

Lemma recover_metadata c ts raw :
  chain_typed c → blockMetadata c ts = Some raw →
  getStateFromMetadata (Some raw) =
    Done (ts, lastOriginalSequenceProcessed c, lastResubmittedConfigSequence c,
          lastChunkFreeConsensusTimestamp c, lastChunkFreeSequenceProcessed c).
Proof.
  intros (H1 & H2 & H3) H. unfold blockMetadata in H.
  destruct (TimestampProto ts) as [t|] eqn:E1; [|done].
  destruct (TimestampProto (lastChunkFreeConsensusTimestamp c)) as [cf|] eqn:E2; [|done].
  injection H as <-. unfold getStateFromMetadata. rewrite unmarshal_marshal by done.
  apply TimestampProto_roundtrip in E1, E2. unfold newHcsMetadata.
  cbn [or_panic mbind outcome_bind md_LastConsensusTimestampPersisted
       md_LastChunkFreeConsensusTimestampPersisted].
  rewrite E1. cbn [or_panic mbind outcome_bind]. by rewrite E2.
Qed.

(** A new message processor holds nothing. *)
Lemma new_processor_ok a b k t p :
  newAppMsgProcessor a b k t false = Ok p →
  proc_wf p ∧ index_ok p ∧ held p = [] ∧ reassembleTimeout p = t.
Proof.
  unfold newAppMsgProcessor. intros H. destruct (_ <=? _); [done|]. destruct b as [b|]; [|done].
  case_bool_decide; [done|]. injection H as <-. split_and!; [|apply index_ok_empty|done|done].
  apply proc_wf_empty.
Qed.
Lemma held_empty p : proc_wf p → IsPending p = false → held p = [].
Proof.
  unfold IsPending. intros Hw Hp. apply negb_false_iff, bool_decide_eq_true, map_size_empty_iff in Hp.
  unfold held. destruct (holderListByAge p) as [|r l] eqn:E; [done|].
  destruct (pw_list _ Hw r) as (h & _ & Hh); [rewrite E; by left|]. rewrite Hp in Hh. by apply lookup_empty_Some in Hh.
Qed.

(** The parts of a recovered chain. *)
Lemma newChain_inv cn s persisted o rs cf q c pc :
  newChain K cn s (persisted, o, rs, cf, q) = Done (Ok (c, pc)) →
  proc_wf (appMsgProcessor c) ∧ index_ok (appMsgProcessor c) ∧ held (appMsgProcessor c) = [] ∧
  reassembleTimeout (appMsgProcessor c) = pc_reassembleTimeout pc ∧ messageHashes c = ∅ ∧
  lastConsensusTimestampPersisted c = persisted ∧ lastConsensusTimestamp c = cf ∧
  lastChunkFreeConsensusTimestamp c = cf ∧ lastOriginalSequenceProcessed c = o ∧
  lastSequenceProcessed c = q ∧ lastCutBlockNumber c = u64 (cs_Height s - 1) ∧
  publicKeys c = pc_publicKeys pc ∧
  ∃ oc, cs_SharedConfig s = Done oc ∧
    parseConfig K (ConsensusMetadata oc) (cn_sharedHcsConfig cn) = Ok pc.
Proof.
  unfold newChain. intros H. apply bind_Done in H as (oc & Hoc & H).
  destruct (parseConfig _ _ _) as [pc'|] eqn:Epc; [|done].
  destruct (newAppMsgProcessor _ _ _ _ _) as [p|] eqn:Ep; [|done].
  apply new_processor_ok in Ep as (? & ? & ? & ?). injection H as <- <-. simpl.
  split_and!; try done. by exists oc.
Qed.

(** The keys of a parsed configuration are those of [configuredKeys]. *)
Lemma parseConfig_keys s oc h pc keys :
  cs_SharedConfig s = Done oc → parseConfig K (ConsensusMetadata oc) h = Ok pc →
  PublicKeyBytes K (pc_privateKey pc) = operatorPublicKeyBytes env →
  configuredKeys env (PublicKeyFromString K) s = Done keys → pc_publicKeys pc = keys.
Proof.
  intros Hoc Hp Hk Hc. unfold configuredKeys in Hc. rewrite Hoc in Hc. simpl in Hc.
  unfold parseConfig in Hp. case_bool_decide; [done|].
  destruct (parseEd25519PrivateKey _ _); [|done]. simpl in Hp.
  destruct (unmarshal (ConsensusMetadata oc)) as [md|]; [|done]. simpl in *.
  destruct (TopicIDFromString _); [|done]. simpl in Hp.
  destruct (getPublicKeys (PublicKeyFromString K) (cm_PublicKeys md) (PublicKeyBytes K _)) as [ks|] eqn:E; [|done].
  simpl in Hp. destruct (ParseDuration K _); [|done]. simpl in Hp. destruct (_ =? 0); [done|].
  case_bool_decide; [done|]. destruct (parseNodes _ _); [|done]. simpl in Hp.
  destruct (AccountIDFromString _); [|done]. injection Hp as <-. simpl in *.
  rewrite <- Hk, E in Hc. by injection Hc.
Qed.
(** ** A message that ends with a block *)

Lemma handleMessage_checkpoint l resp (n n' : node S) r :
  node_ok n → recollectPendingChunks l = false → handleMessage l resp n = Done (r, n') →
  writesOf (trace n') ≠ writesOf (trace n) → IsPending (appMsgProcessor (chain n')) = false →
  checkpointed (if bool_decide (cs_pending (support n') = []) then tm_ConsensusTimestamp resp
                else lastOrdereredConsensusTimestamp (chain n)) n' ∧
  lastChunkFreeConsensusTimestamp (chain n') = tm_ConsensusTimestamp resp ∧
  lastChunkFreeSequenceProcessed (chain n') = tm_SequenceNumber resp.
Proof.
  intros Hn Hl Hx Hw Hi. unfold HcsMessages.handleMessage in Hx.
  apply M_bind_Done in Hx as (? & ? & Hg & Hx). injection Hg as _ <-.
  apply M_bind_Done in Hx as (rc & n1 & Hrc & Hx).
  destruct (receiveChunk_ok _ _ _ _ _ _ _ _ (node_ok_opened _ _ _ Hn) Hrc) as (_ & _ & Hn1 & _ & Htr & _ & _ & Hlo & Hcf).
  destruct rc as [[payload h]|]; [|injection Hx as _ <-; by rewrite Htr in Hw].
  destruct (unmarshal payload) as [msg|]; [|injection Hx as _ <-; by rewrite Htr in Hw].
  simpl in Hx. rewrite Hl in Hx. apply M_bind_Done in Hx as (? & n2 & Hr & Hx). injection Hx as _ ->.
  apply processMessage_ok in Hr as [[_ _ _ _ Hs] _]; [|done].
  destruct Hs as [Hs|[Hu Hs]]; [rewrite Hs, Htr in Hw; done|]. rewrite Hlo in Hs.
  split; [done|]. rewrite (un_chunkFree _ _ Hu), (un_chunkFreeSeq _ _ Hu).
  apply Hcf; [done|]. by rewrite <- (un_proc _ _ Hu).
Qed.

(** The state [HandleChain] starts a chain with. *)
Lemma HandleChain_inv channelID s md cn c pc cn' raw st :
  mdt_Value md = Some raw → getStateFromMetadata (Some raw) = Done st →
  HandleChain (S:=S) K channelID s md cn = Done (Ok (c, pc), cn') → newChain K cn s st = Done (Ok (c, pc)).
Proof.
  unfold HandleChain. intros Hmd Hst HC. apply bind_Done in HC as (oc & Hoc & HC).
  destruct (mbind _ _); [|done]. rewrite Hmd, Hst in HC.
  apply bind_Done in HC as (? & Est & HC). injection Est as <-. apply bind_Done in HC as (r0 & HC & E).
  by injection E as -> _.
Qed.

(** C16. Restarting is transparent at a block boundary. Take a chain that has
    processed a message which ended with a block, left nothing pending in the
    block cutter and no incomplete message. Let the consenter create a chain from
    the metadata of that block, over a channel with the same last block, pending
    messages and configuration, with the same operator key and reassemble timeout.
    Then the new chain and the one that kept running agree on everything that
    decides blocks, including the accepted signers; the new chain does not
    recollect chunks, and its subscription starts right after that message. *)
Theorem restart_agrees l resp (n n' : node S) r b raw s' channelID md cn c pc cn' :
  node_ok n → recollectPendingChunks l = false → handleMessage l resp n = Done (r, n') →
  writesOf (trace n') ≠ writesOf (trace n) → cs_pending (support n') = [] →
  IsPending (appMsgProcessor (chain n')) = false → chain_typed (chain n') →
  last (writesOf (trace n')) = Some (b, Some raw) → mdt_Value md = Some raw →
  same_view (support n') s' → cs_Height s' = cs_lastNumber s' + 1 → is_u64 (cs_lastNumber s') →
  HandleChain K channelID s' md cn = Done (Ok (c, pc), cn') →
  PublicKeyBytes K (pc_privateKey pc) = operatorPublicKeyBytes env →
  pc_reassembleTimeout pc = reassembleTimeout (appMsgProcessor (chain n')) →
  chain_agree (chain n') c ∧ publicKeys c = publicKeys (chain n') ∧
  recollectPendingChunks (initialLoop c) = false ∧
  lastConsensusTimestamp c = tm_ConsensusTimestamp resp.
Proof.
  intros Hn Hl Hx Hw Hp Hi Hty Hb Hmd Hv Hht Hnum HC Hkey Hto.
  destruct (handleMessage_checkpoint _ _ _ _ _ Hn Hl Hx Hw Hi) as ((b' & raw' & Hb' & Hraw) & Hcf & Hcq).
  rewrite bool_decide_true in Hraw by done.
  rewrite Hb in Hb'. injection Hb' as <- <-.
  destruct (handleMessage_ok _ _ _ _ _ _ _ _ _ Hn Hx) as ([Hc Hh Hk [Hpw Hpi]] & _ & _ & _ & Hq & Ht).
  apply (HandleChain_inv _ _ _ _ _ _ _ _ _ Hmd (recover_metadata _ _ _ Hty Hraw)) in HC.
  rewrite Hcf, Hcq in HC. apply newChain_inv in HC
    as (Hpw' & Hpi' & Hheld & Hto' & Hmh & Hper & Hts & Hchf & Hor & Hsq & Hcut & Hpk & oc' & Hoc' & Hpc).
  split; [split; try congruence|].
  - unfold counted in Hc. rewrite Hc, Hcut, Hht, (sv_lastNumber _ _ Hv). replace (cs_lastNumber s' + 1 - 1)
      with (cs_lastNumber s') by lia. by rewrite u64_small.
  - rewrite Hmh. by apply Hh.
  - split; [congruence| |done..]. by rewrite Hheld, held_empty.
  - split_and!; [|by unfold initialLoop; simpl; rewrite Hper, Hchf, Z.eqb_refl|congruence].
    rewrite Hpk. eapply parseConfig_keys; [done..|]. unfold keyed, configuredKeys in *.
    by rewrite <- (sv_SharedConfig _ _ Hv).
Qed.
(** ** A message that overflows the pending batch *)

(** C36. A chain does not start from a block that was cut by an overflow. When a
    message without incomplete messages around it makes the block cutter cut the
    pending messages and stays pending itself, the metadata of the block says
    that the last message was before the last chunk-free point: the point is
    advanced before the block is written. A chain created from that block panics
    in [startThread], whatever its environment. *)
Theorem overflow_restart_panics l resp (n n' : node S) r b raw s' channelID md cn c pc cn'
    env' appID (m : node S) :
  node_ok n → recollectPendingChunks l = false → handleMessage l resp n = Done (r, n') →
  writesOf (trace n') ≠ writesOf (trace n) → cs_pending (support n') ≠ [] →
  IsPending (appMsgProcessor (chain n')) = false → chain_typed (chain n') →
  lastOrdereredConsensusTimestamp (chain n) < tm_ConsensusTimestamp resp →
  last (writesOf (trace n')) = Some (b, Some raw) → mdt_Value md = Some raw →
  HandleChain K channelID s' md cn = Done (Ok (c, pc), cn') → chain m = c →
  ∃ why, startThread sha256 ed25519_Verify env' appID None m = Panic why.
Proof.
  intros Hn Hl Hx Hw Hp Hi Hty Hlt Hb Hmd HC Hm.
  destruct (handleMessage_checkpoint _ _ _ _ _ Hn Hl Hx Hw Hi) as ((b' & raw' & Hb' & Hraw) & Hcf & Hcq).
  rewrite bool_decide_false in Hraw by done. rewrite Hb in Hb'. injection Hb' as <- <-.
  apply (HandleChain_inv _ _ _ _ _ _ _ _ _ Hmd (recover_metadata _ _ _ Hty Hraw)) in HC.
  apply newChain_inv in HC as (_ & _ & _ & _ & _ & Hper & _ & Hchf & _).
  unfold startThread, mbind, M_bind, mret, M_ret, getChain. rewrite Hm, Hper, Hchf, Hcf, Z.gtb_ltb.
  destruct (Z.ltb_spec (lastOrdereredConsensusTimestamp (chain n)) (tm_ConsensusTimestamp resp)); [|lia].
  by eexists.
Qed.
End recovery.
