(* ===== verification/TimeToCut.v ===== *)
(** * Time-to-cut timers

    [processTimeToCutRequests] of [chain.go]: the goroutine that asks for a block
    when a batch has waited long enough. One timer is armed when the orderer
    submits a message, the other when it receives a message that stays pending.
    The theorem ties the second timer to the state of the chain. *)

From stdpp Require Import gmap strings list.
From S2P Require Import Prelude Protos Support AppMsg AppMsgFacts AppMsgProps AppMsgSpec.
From S2P Require Import HcsChain HcsMessages HcsAgreement HcsInvariant HcsRuns.

(** The variables of [processTimeToCutRequests]; a timer is its expiry time. *)
Record timers := mkTimers {
  sendTimerRunning : bool;
  sendTimer : time;
  recvTimerRunning : bool;
  recvTimer : time;
  ttc_messageHashToSend : bytes;
  ttc_blockNumberToSend : Z
}.

Definition stoppedTimers : timers := mkTimers false 0 false 0 [] 0.

(** What the select of [processTimeToCutRequests] can receive. *)
Inductive timerEvent :=
  | TimerDone
  | TimerRequest (request : timeToCutRequest)
  | SendTimerExpired
  | RecvTimerExpired.

Section timers.
Context {S : Type} `{!ConsenterSupport S}.
Context `{!Codec ApplicationMessage, !Codec ApplicationSignature, !Codec ApplicationMessageChunk}.
Context `{!Codec HcsMessage, !Codec Envelope}.
Context (sha256 : bytes → bytes) (ed25519_Verify : bytes → bytes → bytes → bool).
Context (env : environment).

(** The expiry time of a timer started now with the batch timeout. *)
Definition batchExpiry : M S time :=
  s ← getSupport;
  oc ← lift (cs_SharedConfig s);
  now ← ask (clock env);
  mret (now + BatchTimeout oc).

(** A request of either side. *)
Definition handleRequest (request : timeToCutRequest) (t : timers) : M S timers :=
  match ttc_messageHash request with
  | Some h =>
    if sendTimerRunning t then mret t else
    expiry ← batchExpiry;
    mret {| t with sendTimerRunning := true; sendTimer := expiry; ttc_messageHashToSend := h |}
  | None =>
    if recvTimerRunning t && negb (ttc_start request)
    then mret {| t with recvTimerRunning := false |}
    else if negb (recvTimerRunning t) && ttc_start request then
      expiry ← batchExpiry;
      mret {| t with recvTimerRunning := true; recvTimer := expiry;
                     ttc_blockNumberToSend := ttc_nextBlockNumber request |}
    else mret t
  end.

(** One iteration of the loop; [None] ends it. *)
Definition handleTimerEvent (ev : timerEvent) (t : timers) : M S (option timers) :=
  match ev with
  | TimerDone => mret None
  | TimerRequest request => t ← handleRequest request t; mret (Some t)
  | SendTimerExpired =>
    sendTimeToCut sha256 ed25519_Verify env
      (newTimeToCutMessageWithMessageHash (ttc_messageHashToSend t));;
    mret (Some {| t with sendTimerRunning := false |})
  | RecvTimerExpired =>
    sendTimeToCut sha256 ed25519_Verify env
      (newTimeToCutMessageWithBlockNumber (ttc_blockNumberToSend t));;
    mret (Some {| t with recvTimerRunning := false |})
  end.

(** A timer expires only while it runs. *)
Definition enabled (now : time) (ev : timerEvent) (t : timers) : bool :=
  match ev with
  | SendTimerExpired => sendTimerRunning t && (sendTimer t <=? now)
  | RecvTimerExpired => recvTimerRunning t && (recvTimer t <=? now)
  | _ => true
  end.
End timers.

(** ** The receive-side requests of a chain *)

Definition requestOf (e : effect) : option timeToCutRequest :=
  match e with
  | SendTimeToCutRequest r => match ttc_messageHash r with None => Some r | Some _ => None end
  | _ => None
  end.

Definition requestsOf (t : list effect) : list timeToCutRequest := omap requestOf t.

Lemma requestsOf_app t t' : requestsOf (t ++ t') = requestsOf t ++ requestsOf t'.
Proof. apply omap_app. Qed.

(** A sequence of requests that leaves the timer armed for a block, or off. A
    timer that is armed is only armed again for the same block. *)
Inductive tracks : list timeToCutRequest → option Z → Prop :=
  | tracks_nil : tracks [] None
  | tracks_stop rs st : tracks rs st → tracks (rs ++ [stopTimerRequest]) None
  | tracks_start rs st b :
      tracks rs st → st = None ∨ st = Some b →
      tracks (rs ++ [mkTimeToCutRequest true b None]) (Some b).

Section keeping.
Context {S : Type}.

(** A computation that makes no receive-side request. *)
Definition keeps {A} (m : M S A) : Prop :=
  ∀ n a n', m n = Done (a, n') → requestsOf (trace n') = requestsOf (trace n).

Lemma keeps_ret {A} (a : A) : keeps (mret a).
Proof. intros n b n' H. by injection H as <- <-. Qed.

Lemma keeps_bind {A B} (m : M S A) (f : A → M S B) :
  keeps m → (∀ a, keeps (f a)) → keeps (m ≫= f).
Proof.
  intros Hm Hf n b n' (a & n1 & H1 & H2)%M_bind_Done. etransitivity; [by eapply Hf|by eapply Hm].
Qed.

Lemma keeps_lift {A} (o : outcome A) : keeps (lift o).
Proof. intros n a n' H. unfold lift in H. run_inv. done. Qed.

Lemma keeps_panic {A} w : keeps (panic (A:=A) w).
Proof. by intros n a n' H. Qed.

Lemma keeps_getChain : keeps getChain.
Proof. intros n a n' H. by injection H as <- <-. Qed.

Lemma keeps_getSupport : keeps getSupport.
Proof. intros n a n' H. by injection H as <- <-. Qed.

Lemma keeps_ask {A} (o : nat → A) : keeps (ask o).
Proof. intros n a n' H. by injection H as <- <-. Qed.

Lemma keeps_setChain f : keeps (setChain f).
Proof. intros n a n' H. by injection H as <- <-. Qed.

Lemma keeps_setSupport s : keeps (setSupport s).
Proof. intros n a n' H. by injection H as <- <-. Qed.

Lemma keeps_emit e : requestOf e = None → keeps (emit e).
Proof.
  intros He n a n' H. injection H as <- <-. simpl. rewrite requestsOf_app. csimpl. rewrite He. apply app_nil_r.
Qed.

Lemma keeps_validStart w : keeps (getUniqueValidStart w).
Proof. intros n a n' H. unfold getUniqueValidStart in H. destruct (uniqueValidStart _ _). by run_inv. Qed.
End keeping.

#[export] Hint Resolve keeps_ret keeps_lift keeps_panic keeps_getChain keeps_getSupport keeps_ask
  keeps_setChain keeps_setSupport keeps_validStart : hcs.

(** Prove [keeps] by following the program. *)
Ltac keeping :=
  repeat first
    [ progress eauto with hcs
    | apply keeps_emit; reflexivity
    | apply keeps_bind; [|intros ?]
    | match goal with
      | |- keeps (if ?b then _ else _) => destruct b
      | |- keeps (match ?x with _ => _ end) => destruct x
      end ].

Section requests.
Context {S : Type} `{!ConsenterSupport S} `{!ConsenterSupportOk S}.
Context `{!Codec ApplicationMessage, !Codec ApplicationSignature, !Codec ApplicationMessageChunk}.
Context `{!Codec HcsMessage, !Codec Envelope, !Codec HcsMetadata, !Codec HcsConfigMetadata}.
Context {typed_chunks : ChunkTyped}.
Context (sha256 : bytes → bytes) (ed25519_Verify : bytes → bytes → bytes → bool).
Context (env : environment) (PublicKeyFromString : string → option bytes).

Abbreviation node_ok := (node_ok env PublicKeyFromString).

Lemma keeps_sendChunk k m err : keeps (sendChunk (S:=S) env k m err).
Proof. revert err. induction k as [|k IH]; intros err; simpl; [keeping|]. unfold tenSecondsAgo. keeping. Qed.
#[local] Hint Resolve keeps_sendChunk : hcs.

Lemma keeps_sendChunks cks : keeps (sendChunks (S:=S) env cks).
Proof. induction cks as [|ck cks IH]; simpl; keeping. Qed.
#[local] Hint Resolve keeps_sendChunks : hcs.

Lemma keeps_enqueue m : keeps (enqueue (S:=S) sha256 ed25519_Verify env m).
Proof. unfold enqueue, enqueueChecked, tenSecondsAgo. keeping. Qed.
#[local] Hint Resolve keeps_enqueue : hcs.

Lemma keeps_order e q o : keeps (order (S:=S) sha256 ed25519_Verify env e q o).
Proof. unfold order. keeping. Qed.

Lemma keeps_configure e q o : keeps (configure (S:=S) sha256 ed25519_Verify env e q o).
Proof. unfold configure. keeping. Qed.

Lemma keeps_sendTimeToCut m : keeps (sendTimeToCut (S:=S) sha256 ed25519_Verify env m).
Proof. unfold sendTimeToCut. keeping. Qed.

Lemma keeps_reprocessComplete : keeps (reprocessComplete (S:=S)).
Proof. unfold reprocessComplete. keeping. Qed.

Lemma keeps_reprocessPending : keeps (reprocessPending (S:=S)).
Proof. unfold reprocessPending. keeping. Qed.
#[local] Hint Resolve keeps_order keeps_configure keeps_sendTimeToCut keeps_reprocessComplete
  keeps_reprocessPending : hcs.
(** The block the timer should be armed for. *)
Definition pendingBlock (n : node S) : option Z :=
  if bool_decide (cs_pending (support n) = []) then None else Some (nextBlock (chain n)).

Definition timed (n : node S) : Prop := tracks (requestsOf (trace n)) (pendingBlock n).

Lemma timed_same n n' :
  timed n → node_same n n' → requestsOf (trace n') = requestsOf (trace n) → timed n'.
Proof.
  unfold timed, pendingBlock, nextBlock. intros Ht [[_ _ _ Hc _ _ _] Hs _ _] Hr. by rewrite Hs, Hc, Hr.
Qed.

Lemma timed_off n : tracks (requestsOf (trace n)) None → cs_pending (support n) = [] → timed n.
Proof. unfold timed, pendingBlock. intros Ht ->. by rewrite bool_decide_true. Qed.

Lemma cutBlock_requests batch isConfig ts (n n' : node S) u :
  cutBlock batch isConfig ts n = Done (u, n') →
  requestsOf (trace n') = requestsOf (trace n) ++ [stopTimerRequest] ∧
  lastCutBlockNumber (chain n') = nextBlock (chain n).
Proof.
  unfold cutBlock. intros H. minv. apply WriteBlock_inv in H as (s' & raw & _ & _ & ->). simpl.
  by rewrite requestsOf_app.
Qed.

Lemma commitBatches_requests bs pending ts q (n n' : node S) u st :
  (length bs <= 2)%nat → tracks (requestsOf (trace n)) st → commitBatches bs pending ts q n = Done (u, n') →
  tracks (requestsOf (trace n')) (match bs with [] => st | _ => None end) ∧
  (bs = [] → lastCutBlockNumber (chain n') = lastCutBlockNumber (chain n)).
Proof.
  intros Hl Ht H. unfold commitBatches, setProcessed in H.
  destruct bs as [|b [|b' [|]]]; simpl in Hl; [| | |lia].
  - by minv.
  - split; [|done]. destruct (pending || _); minv;
      match goal with H : cutBlock _ _ _ _ = _ |- _ => apply cutBlock_requests in H as [E _] end;
      simpl in E; rewrite E; by eapply tracks_stop.
  - split; [|done]. destruct (pending || _); minv;
      repeat match goal with H : cutBlock _ _ _ _ = _ |- _ => apply cutBlock_requests in H as [? _] end;
      simpl in *; repeat match goal with E : requestsOf _ = _ |- _ => rewrite E; clear E end;
      by do 2 eapply tracks_stop.
Qed.

Lemma requestTimer_requests pending h (n n' : node S) u :
  requestTimer pending h n = Done (u, n') →
  requestsOf (trace n') = requestsOf (trace n) ++
    (if pending then [mkTimeToCutRequest true (nextBlock (chain n)) None] else []).
Proof.
  unfold requestTimer. intros H. destruct pending; minv; [|by rewrite app_nil_r].
  simpl. by rewrite requestsOf_app.
Qed.

Lemma commitNormal_timed e ts q h (n n' : node S) u :
  node_ok n → timed n → commitNormalMessage env e ts q h n = Done (u, n') → timed n'.
Proof.
  intros Hok Ht H. unfold commitNormalMessage in H. minv. simpl in *.
  match goal with H : cs_Ordered _ _ _ _ = _ |- _ =>
    apply ordered_spec in H as (Hl & Ho & Hpd & _ & Htwo & Hn & _ & Hsc) end.
  match goal with H : commitBatches ?bs _ _ _ _ = _ |- _ => pose proof H as Hcb;
    apply commitBatches_ok in H as (_ & _ & _ & Hp1 & _);
      [|destruct Hok; unfold counted in *; simpl; congruence|done|done];
    eapply commitBatches_requests in Hcb as [Htr Hcut]; [|done|exact Ht]; rename bs into bs0 end.
  pose proof (requestTimer_requests _ _ _ _ _ H) as Hreq.
  apply requestTimer_ok in H as (Es & _ & _ & _ & El & _). simpl in *.
  unfold timed, pendingBlock, nextBlock in *. rewrite Es, Hp1, El, Hreq.
  rewrite Hpd. match goal with s : S |- _ => destruct (decide (cs_pending s = [])) as [Hb|Hb] end.
  - rewrite bool_decide_false, bool_decide_true, app_nil_r by auto. destruct bs0; [|done]. simpl in Ho. rewrite Hb in Ho.
    by destruct (cs_pending (support n)).
  - rewrite bool_decide_true, bool_decide_false by auto. eapply tracks_start; [exact Htr|]. destruct bs0; [|by left]. rewrite Hcut by done.
    case_bool_decide; [by left|by right].
Qed.

Lemma commitConfig_timed e ts q (n n' : node S) u :
  node_ok n → timed n → commitConfigMessage e ts q n = Done (u, n') → timed n'.
Proof.
  intros Hok Ht H. apply timed_off.
  2: { apply (commitConfigMessage_ok env PublicKeyFromString) in H as (_ & _ & ? & _); done. }
  unfold commitConfigMessage in H. apply M_bind_Done in H as (? & ? & Hg & H). injection Hg as <- <-.
  destruct (cs_Cut (support n)) as [batch s]. destruct batch; minv; simpl in *;
    repeat match goal with H : cutBlock _ _ _ _ = _ |- _ => apply cutBlock_requests in H as [? _] end;
    simpl in *; repeat match goal with E : requestsOf _ = _ |- _ => rewrite E; clear E end;
    repeat eapply tracks_stop; exact Ht.
Qed.
(** A computation that neither decides nor requests anything. *)
Lemma timed_quiet {A} (m : M S A) (n n' : node S) a :
  silent m → keeps m → m n = Done (a, n') → timed n → timed n'.
Proof. intros Hs Hk H Ht. eapply timed_same; [done|by eapply Hs|by eapply Hk]. Qed.

Lemma processRegular_timed msg ts q h (n n' : node S) r :
  node_ok n → timed n →
  processRegularMessage sha256 ed25519_Verify env PublicKeyFromString msg ts q h n = Done (r, n') → timed n'.
Proof.
  intros Hok Ht H. unfold processRegularMessage in H.
  destruct (unmarshal _) as [e|]; [|by injection H as _ <-].
  destruct (bool_decide (reg_Class msg = HcsMessageRegular_NORMAL)).
  { unfold processNormal in H. do 2 (apply M_bind_Done in H as (? & ? & Hg & H); injection Hg as <- <-).
    destruct (_ && _); [by injection H as _ <-|]. destruct (_ <? _).
    - eapply timed_quiet; [| |exact H|done]; [silence|keeping].
    - apply M_bind_Done in H as (? & ? & Hx & H). injection H as _ ->. by eapply commitNormal_timed. }
  destruct (bool_decide (reg_Class msg = HcsMessageRegular_CONFIG)); [|by injection H as _ <-].
  unfold processConfig in H. do 2 (apply M_bind_Done in H as (? & ? & Hg & H); injection Hg as <- <-).
  destruct (_ && (_ <=? _)); [by injection H as _ <-|]. apply M_bind_Done in H as (? & n1 & Hpre & H).
  assert (timed n1) as Ht1 by (eapply timed_quiet; [| |exact Hpre|done]; [silence|keeping]).
  assert (node_same n n1) as Hs1 by by_silence Hpre. destruct (_ <? _).
  - eapply timed_quiet; [| |exact H|done]; [silence|keeping].
  - apply M_bind_Done in H as (? & n2 & Hx & H).
    apply commitConfig_timed in Hx; [|by eapply node_ok_same|done]. minv. done.
Qed.

Lemma processMessage_timed msg ts q h (n n' : node S) r :
  node_ok n → timed n →
  processMessage sha256 ed25519_Verify env PublicKeyFromString msg ts q h n = Done (r, n') → timed n'.
Proof.
  intros Hok Ht H. unfold processMessage in H. destruct msg as [m|m|m|].
  - apply M_bind_Done in H as (? & ? & Hx & H). injection H as _ ->. by eapply processRegular_timed.
  - destruct (timeToCut_spec sha256 ed25519_Verify env PublicKeyFromString _ _ _ _ _ _ Hok H) as (_ & _ & Hc).
    unfold processTimeToCutMessage in H. apply M_bind_Done in H as (? & ? & Hg & H). injection Hg as <- <-.
    destruct (timeToCutMatches m (chain n)) as [[|]|]; [|by injection H as _ <-..].
    apply M_bind_Done in H as (? & ? & Hg & H). injection Hg as <- <-.
    destruct (cut_all (support n)) as (E & Hp & _). destruct (cs_Cut (support n)) as [batch s]. simpl in *.
    injection E as ->. destruct (cs_pending (support n)) eqn:Ep; minv.
    + unfold timed, pendingBlock in *. simpl in *. by rewrite Hp, Ep in *.
    + match goal with H : WriteBlock _ _ _ _ = _ |- _ => apply WriteBlock_inv in H as (s' & raw & _ & Hw & E) end.
      apply timed_off; [|apply write_frame in Hw as (Hw & _); by rewrite E; simpl; rewrite Hw].
      rewrite E. simpl. rewrite requestsOf_app. by eapply tracks_stop.
  - apply M_bind_Done in H as (? & ? & Hx & H). injection H as _ ->. by injection Hx as _ <-.
  - by injection H as _ <-.
Qed.
Lemma handleMessage_timed l resp (n n' : node S) r :
  node_ok n → timed n →
  handleMessage sha256 ed25519_Verify env PublicKeyFromString l resp n = Done (r, n') → timed n'.
Proof.
  intros Hok Ht Hx. unfold handleMessage in Hx.
  apply M_bind_Done in Hx as (? & ? & Hg & Hx). injection Hg as _ <-.
  apply M_bind_Done in Hx as (rc & n1 & Hrc & Hx).
  destruct (receiveChunk_ok _ _ _ _ _ _ _ _ (node_ok_opened _ _ _ Hok) Hrc) as (_ & _ & Hn1 & Hs & Htr & _).
  assert (timed n1) as Ht1.
  { pose proof (nk_counted _ _ _ Hn1) as H1. pose proof (nk_counted _ _ _ Hok) as H2. unfold counted in *.
    unfold timed, pendingBlock, nextBlock in *. rewrite Hs, Htr in *. simpl in *. by rewrite H1, <- H2. }
  destruct rc as [[payload h]|]; [|by injection Hx as _ <-].
  destruct (unmarshal payload) as [msg|]; [|by injection Hx as _ <-].
  destruct (recollectPendingChunks _); apply M_bind_Done in Hx as (? & n2 & Hr & Hx); injection Hx as _ ->.
  - eapply timed_quiet; [apply silent_recollect| |exact Hr|done]. unfold recollectMessage. keeping.
  - by eapply processMessage_timed.
Qed.

Lemma handleEvents_timed l evs (n n' : node S) r :
  node_ok n → timed n →
  handleEvents sha256 ed25519_Verify env PublicKeyFromString l evs n = Done (r, n') → timed n'.
Proof.
  revert l n. induction evs as [|ev evs IH]; intros l n Hok Ht Hx; [by injection Hx as _ <-|].
  simpl in Hx. apply M_bind_Done in Hx as (r1 & n1 & H1 & Hx).
  assert (timed n1) as Ht1.
  { destruct (messageOf ev) as [m|] eqn:Em.
    - destruct ev; try done. by eapply handleMessage_timed.
    - destruct (local_event _ _ _ _ _ _ _ _ _ Em H1) as [Hs _]. eapply timed_same; [done..|]. revert H1.
      enough (keeps (handleEvent sha256 ed25519_Verify env PublicKeyFromString l ev)) as Hk by apply Hk.
      destruct ev; try done; unfold handleEvent, scheduleSubscriptionRetry, closeHaltChan, startSubscription; keeping. }
  apply handleEvent_ok in H1 as [Hok1 _]; [|done]. destruct r1 as [l1|err]; [by eapply IH|].
  apply M_bind_Done in Hx as (? & n2 & Hf & Hx). injection Hx as _ ->.
  eapply timed_quiet; [apply silent_finish| |exact Hf|done]. unfold finishProcessing. keeping.
Qed.

(** ** The timer goroutine beside the chain *)

(** The receive-side requests among the timer's events. *)
Definition timerRequestOf (ev : timerEvent) : option timeToCutRequest :=
  match ev with TimerRequest r => requestOf (SendTimeToCutRequest r) | _ => None end.

(** The runs of the timer goroutine: between two iterations the chain may be in any state.
    The last argument has the state of the chain before and after every iteration. *)
Inductive timerRun : list timerEvent → timers → list (node S * node S) → Prop :=
  | timerRun_start : timerRun [] stoppedTimers []
  | timerRun_step evs t log ev now (n n' : node S) t' :
      timerRun evs t log → enabled now ev t = true →
      handleTimerEvent sha256 ed25519_Verify env ev t n = Done (Some t', n') →
      timerRun (evs ++ [ev]) t' (log ++ [(n, n')]).

(** In some iteration the message that asks for the block was submitted to the topic, as
    far as the chain and the client let it. *)
Definition asked (b : Z) (log : list (node S * node S)) : Prop :=
  ∃ n n', (n, n') ∈ log ∧ attempted sha256 ed25519_Verify env (newTimeToCutMessageWithBlockNumber b) n n'.

(** The timer follows the requests: it is off when it should be, and otherwise it
    runs for the block or has asked for it. *)
Definition follows (st : option Z) (t : timers) (log : list (node S * node S)) : Prop :=
  match st with
  | None => recvTimerRunning t = false
  | Some b => (recvTimerRunning t = true → ttc_blockNumberToSend t = b) ∧
              (recvTimerRunning t = true ∨ asked b log)
  end.

Lemma follows_longer st t log e : follows st t log → follows st t (log ++ [e]).
Proof.
  destruct st as [b|]; [|done]. intros [H1 [H2|(n & n' & Hin & H2)]]; split; [done|by left|done|right].
  exists n, n'. split; [|done]. apply elem_of_app. by left.
Qed.

Lemma tracks_snoc_inv rs r st :
  tracks (rs ++ [r]) st → ∃ st0, tracks rs st0 ∧
    (r = stopTimerRequest ∧ st = None ∨
     ∃ b, r = mkTimeToCutRequest true b None ∧ st = Some b ∧ (st0 = None ∨ st0 = Some b)).
Proof.
  intros H. inversion H as [Hn|rs' st0 Ht Hs|rs' st0 b Ht Hb Hs].
  - by destruct rs.
  - apply app_inj_tail in Hs as [-> <-]. exists st0. split; [done|by left].
  - apply app_inj_tail in Hs as [-> <-]. exists st0. split; [done|]. right. by exists b.
Qed.

Lemma timer_follows evs t log st :
  timerRun evs t log → tracks (omap timerRequestOf evs) st → follows st t log.
Proof.
  intros Hr. revert st. induction Hr as [|evs t log ev now n n' t' Hr IH He Hx]; intros st Ht.
  { inversion Ht as [|? ? ? Hs|? ? ? ? ? Hs]; [done|by destruct rs..]. }
  rewrite omap_app in Ht. unfold handleTimerEvent in Hx. destruct ev as [|r| |]; csimpl in Ht.
  - discriminate Hx.
  - apply follows_longer. apply M_bind_Done in Hx as (t1 & n1 & Hq & Hx). injection Hx as -> _. unfold handleRequest in Hq.
    destruct (ttc_messageHash r) as [h|] eqn:Eh; csimpl in Ht.
    + rewrite app_nil_r in Ht. specialize (IH _ Ht). destruct (sendTimerRunning t).
      * by injection Hq as -> _.
      * apply M_bind_Done in Hq as (? & ? & _ & Hq). by injection Hq as <- _.
    + apply tracks_snoc_inv in Ht as (st0 & Ht & [[-> ->]|(b & -> & -> & Hb)]); specialize (IH _ Ht); simpl in *.
      * destruct (recvTimerRunning t) eqn:Er; simpl in Hq; by injection Hq as <- _.
      * destruct (recvTimerRunning t) eqn:Er; simpl in Hq.
        -- injection Hq as <- _. destruct Hb as [->| ->]; simpl in IH; [congruence|]. rewrite Er in *. tauto.
        -- apply M_bind_Done in Hq as (? & ? & _ & Hq). injection Hq as <- _. simpl. tauto.
  - apply follows_longer. apply M_bind_Done in Hx as (? & n1 & _ & Hx). injection Hx as <- _. rewrite app_nil_r in *. by apply IH.
  - apply M_bind_Done in Hx as (? & n1 & Hsend%sendTimeToCut_attempts & Hx). injection Hx as <- <-. rewrite app_nil_r in Ht.
    specialize (IH _ Ht). simpl in *. apply andb_true_iff in He as [He _].
    destruct st as [b|]; simpl in *; [|done]. split; [done|right]. destruct IH as [IH _]. rewrite IH in Hsend by done.
    exists n, n1. split; [|done]. apply elem_of_app. right. by left.
Qed.

(** C26. Pending messages are timed. Run a chain over any events, and beside it
    the timer goroutine over the requests the chain made, interleaved in any way
    with requests of the sending side and expiries of the timers. If messages are
    pending, the receive-side timer runs and is set for exactly the next block; or it
    has expired, and then the time-to-cut message with exactly the number of that block
    went out in full: all of its chunks were submitted to the topic in order and accepted
    by the HCS client; unless the chain was not running, the message could not be signed
    or the client refused one of its chunks. If no messages are pending, the timer is
    off. *)
Theorem pending_timed l evs (n n' : node S) r tevs t log :
  node_ok n → timed n →
  handleEvents sha256 ed25519_Verify env PublicKeyFromString l evs n = Done (r, n') →
  timerRun tevs t log → omap timerRequestOf tevs = requestsOf (trace n') →
  follows (pendingBlock n') t log.
Proof.
  intros Hok Ht Hx Hr E. eapply timer_follows; [done|]. rewrite E. by eapply handleEvents_timed.
Qed.
End requests.
