(* ===== verification/HcsDemo.v ===== *)
(** * Concrete HCS orderers

    Two orderers of one channel, with different operator keys, clocks and
    submission results, run over the messages of a topic. They show that the
    hypotheses of the theorems on HCS chains can be met together. *)

From stdpp Require Import gmap strings list.
From Stdlib Require Import Strings.Byte.
From S2P Require Import Prelude Protos Codecs BlockCutter Support Blocks BlockWriter BlockWriterProps.
From S2P Require Import BlockWriterDemo ChainSupport AppMsg AppMsgFacts AppMsgProps AppMsgSpec AppMsgDemo.
From S2P Require Import HcsChain HcsMessages HcsConsenter HcsAgreement HcsInvariant HcsRuns HcsRecovery TimeToCut.

#[export] Instance demo_HcsMessage : Codec HcsMessage := ser_codec HcsMessage.
#[export] Instance demo_HcsMetadata : Codec HcsMetadata := ser_codec HcsMetadata.
#[export] Instance demo_HcsConfigMetadata : Codec HcsConfigMetadata := ser_codec HcsConfigMetadata.

(** The codec of chunks only decodes [int32] counts. *)
#[export] Instance demo_Chunk : Codec ApplicationMessageChunk := {|
  marshal := @marshal _ (ser_codec ApplicationMessageChunk);
  unmarshal b :=
    c ← @unmarshal _ (ser_codec ApplicationMessageChunk) b;
    if ck_ChunksCount c <? 2 ^ 31 then Some c else None
|}.

#[export] Instance demo_chunk_typed : ChunkTyped.
Proof.
  intros b c H. simpl in H. apply bind_Some in H as (c' & _ & H).
  destruct (Z.ltb_spec (ck_ChunksCount c') (2 ^ 31)); by simplify_eq.
Qed.

#[export] Instance demo_metadata_ok : CodecOk HcsMetadata metadata_wf := ser_codec_ok HcsMetadata metadata_wf.
#[export] Instance demo_envelope_ok : CodecOk Envelope (λ _, True) := ser_codec_ok Envelope _.

(** ** Keys and environments *)

Definition demo_verify (pk m sig : bytes) : bool := bool_decide (sig = pk ++ m).

Definition demo_env (key : byte) (busy : bool) : environment :=
  mkEnvironment (λ n, 10 ^ 10 + Z.of_nat n)
    (λ n _, if busy && Nat.even n then Some (ErrHederaPreCheckStatus StatusBusy) else None)
    (λ _, None) [key] (λ m, key :: m).

Definition demo_sdk (key : byte) : sdk unit :=
  mkSdk unit (λ _, Some tt) (λ _, None)
    (λ s, if bool_decide (s = "k1") then Some [x01] else if bool_decide (s = "k2") then Some [x02] else None)
    (λ _, [key]) (λ b, x0c :: b) (λ _, Some 1000).

Definition demo_hcs : Hcs :=
  mkHcs {["node:50211" := "0.0.3"]} "mirror:5600" "0.0.9" "ed25519" "key".

Definition demo_hcs_config (keys : list string) : HcsConfigMetadata :=
  mkHcsConfigMetadata "0.0.5" (mkHcsConfigPublicKey "ed25519" <$> keys) "1000ns".

(** ** A channel and its chain *)

Definition demo_bundle : demo_config := mkDemoConfig 0 "hcs" (marshal (demo_hcs_config ["k1"; "k2"])) 2.

Abbreviation demo_state := (ChainSupport demo_config).

#[export] Instance demo_support : ConsenterSupport demo_state :=
  chain_support demo_sum demo_identity demo_nonce (λ _ b, Ok (dc_sequence b))
    (λ e b, Ok (e, dc_sequence b)).

#[export] Instance demo_support_ok : ConsenterSupportOk demo_state :=
  chain_support_ok demo_sum demo_identity demo_nonce _ _.

Definition demo_genesis : demo_state :=
  mkChainSupport NewReceiverImpl (mkChannel demo_bundle [demo_first] [] (mkBlockWriter 0 0 demo_first None)).

Definition demo_consenter (id : byte) : consenterImpl := New demo_hcs [id].

Definition demo_chain (key : byte) (s : demo_state) (md : nbytes) : option chainImpl :=
  match HandleChain (demo_sdk key) "ch" s (mkMetadata md []) (demo_consenter key) with
  | Done (Ok (c, _), _) => Some c
  | _ => None
  end.

(** A started orderer. *)
Definition demo_node (key : byte) (busy : bool) : option (node demo_state) :=
  c ← demo_chain key demo_genesis None;
  match startThread demo_sum demo_verify (demo_env key busy) [key] None (mkNode c demo_genesis zeroTime 0 []) with
  | Done (_, n) => Some n
  | Panic _ => None
  end.

(** ** Topic messages *)

Definition demo_processor : appMsgProcessorImpl :=
  mkProcessor (mkAccountID 0 0 9) (Some [x0c; x01]) maxConsensusMessageSize 1000 ∅ 0 ∅ ∅ [].

Definition demo_chunksOf (m : HcsMessage) (validStart : time) : list ApplicationMessageChunk :=
  match Split demo_sum (chainSigner demo_verify (demo_env x01 false) ∅) (Some (marshal m)) validStart
          demo_processor with
  | Done (Ok (cs, _)) => cs
  | _ => []
  end.

Definition demo_topic (ms : list HcsMessage) : list TopicMessage :=
  imap (λ i c, mkTopicMessage (100 + 10 * Z.of_nat i) (1 + Z.of_nat i) (marshal c))
    (mjoin (imap (λ i m, demo_chunksOf m (1000 + Z.of_nat i)) ms)).

Definition demo_normal (payload : bytes) : HcsMessage :=
  newNormalMessage (marshal (mkEnvelope payload [])) 0 0.

Definition demo_small (n : byte) : HcsMessage := demo_normal [n; n; n].

(** ** Runs *)

(** An equation between closed terms, by conversion. *)
Ltac by_conv := match goal with |- _ = ?y => exact_no_check (eq_refl y) end.

(** An equation through the value of both sides. *)
Ltac by_value v := transitivity v; [|symmetry]; by_conv.

Abbreviation demo_pk := (PublicKeyFromString (demo_sdk x01)).
Abbreviation demo_handle key busy :=
  (handleEvents (S:=demo_state) demo_sum demo_verify (demo_env key busy) demo_pk).

Definition demo_none : node demo_state :=
  mkNode (mkChain 0 0 0 0 0 0 0 0 0 Open Open Open None Open ∅ ∅ demo_processor) demo_genesis 0 0 [].

Definition demo_n (key : byte) (busy : bool) : node demo_state := default demo_none (demo_node key busy).

Definition demo_l : loopState := mkLoopState false 0.

Definition nodeOf {A} (o : outcome (A * node demo_state)) : node demo_state :=
  match o with Done (_, n) => n | Panic _ => demo_none end.

(** The loop goes on in its initial state. *)
Definition goesOn (o : outcome (loopNext * node demo_state)) : bool :=
  match o with
  | Done (Continue l, _) => negb (recollectPendingChunks l) && (subscriptionRetryCount l =? 0)
  | _ => false
  end.

Lemma goesOn_eq o : goesOn o = true → o = Done (Continue demo_l, nodeOf o).
Proof.
  destruct o as [[[l|] n]|]; [|done..]. simpl. intros [H1 H2]%andb_true_iff.
  apply negb_true_iff in H1. apply Z.eqb_eq in H2. destruct l. simpl in *. by subst.
Qed.

Lemma no_error_eq (o : outcome (option error * node demo_state)) :
  match o with Done (None, _) => true | _ => false end = true → o = Done (None, nodeOf o).
Proof. by destruct o as [[[]]|]. Qed.

(** The chain after some events. *)
Definition demo_run (key : byte) (busy : bool) (evs : list event) : node demo_state :=
  nodeOf (demo_handle key busy demo_l evs (demo_n key busy)).

(** Two small messages fill a batch; two larger ones overflow it; the block
    number 3 is asked for. *)
Definition demo_messages : list TopicMessage :=
  demo_topic [demo_small x11; demo_small x12; demo_normal (replicate 6 x13); demo_normal (replicate 6 x14);
              newTimeToCutMessageWithBlockNumber 3].

Definition demo_msg (i : nat) : TopicMessage := default (mkTopicMessage 0 0 []) (demo_messages !! i).
Definition demo_events (k : nat) : list event := EvMessage ∘ demo_msg <$> seq 0 k.

Abbreviation demo_handleMessage :=
  (handleMessage (S:=demo_state) demo_sum demo_verify (demo_env x01 false) demo_pk).

Fixpoint hcs_after (k : nat) : node demo_state :=
  match k with
  | O => demo_n x01 false
  | S k => nodeOf (demo_handleMessage demo_l (demo_msg k) (hcs_after k))
  end.

Lemma demo_n_ok : node_ok (demo_env x01 false) demo_pk (demo_n x01 false).
Proof.
  split.
  - unfold counted. by_conv.
  - assert (messageHashes (chain (demo_n x01 false)) = ∅) as -> by by_conv.
    assert (cs_pending (support (demo_n x01 false)) = []) as -> by by_conv. done.
  - unfold keyed. by_conv.
  - assert (appMsgProcessor (chain (demo_n x01 false)) =
      mkProcessor (mkAccountID 0 0 9) (Some [x0c; x01]) maxConsensusMessageSize 1000 ∅ 0 ∅ ∅ []) as -> by by_conv.
    split; [apply proc_wf_empty|apply index_ok_empty].
Qed.

(** One more message. *)
Lemma hcs_after_step k : (k < 5)%nat →
  demo_handleMessage demo_l (demo_msg k) (hcs_after k) = Done (Continue demo_l, hcs_after (S k)).
Proof. intros Hk. apply goesOn_eq. do 5 (destruct k as [|k]; [by_conv|]). lia. Qed.

Lemma handleEvents_snoc key busy l evs ev n l1 n1 l2 n2 :
  demo_handle key busy l evs n = Done (Continue l1, n1) →
  handleEvent demo_sum demo_verify (demo_env key busy) demo_pk l1 ev n1 = Done (Continue l2, n2) →
  demo_handle key busy l (evs ++ [ev]) n = Done (Continue l2, n2).
Proof.
  revert l n. induction evs as [|e evs IH]; intros l n H1 H2.
  - injection H1 as -> ->. cbn [app handleEvents]. apply M_bind_Done. by exists (Continue l2), n2.
  - apply handleEvents_cons in H1 as (l' & n' & H1 & H1'). cbn [app handleEvents].
    apply M_bind_Done. exists (Continue l'), n'. split; [done|]. by apply IH.
Qed.

Lemma hcs_after_eq k : (k <= 5)%nat →
  demo_handle x01 false demo_l (demo_events k) (demo_n x01 false) = Done (Continue demo_l, hcs_after k).
Proof.
  induction k as [|k IH]; intros Hk; [reflexivity|].
  unfold demo_events. rewrite seq_S, fmap_app. eapply handleEvents_snoc; [apply IH; lia|].
  apply hcs_after_step. lia.
Qed.

Lemma hcs_after_ok k : (k <= 5)%nat → node_ok (demo_env x01 false) demo_pk (hcs_after k).
Proof. intros Hk. eapply handleEvents_ok; [apply demo_n_ok|by apply hcs_after_eq]. Qed.

Lemma run_invariant_witness : node_ok (demo_env x01 false) demo_pk (hcs_after 5).
Proof.
  apply (run_invariant demo_sum demo_verify (demo_env x01 false) demo_pk demo_l (demo_events 5)
           (demo_n x01 false) (hcs_after 5) (Continue demo_l));
    [apply demo_n_ok|apply hcs_after_eq; lia].
Defined.

Lemma run_outputs_witness :
  output (hcs_after 5) = output (demo_n x01 false) ++
    runOutputs demo_sum demo_verify (demo_env x01 false) demo_pk demo_l (demo_events 5) (demo_n x01 false) ∧
  (env_Payload <$> output (hcs_after 5)) =
    [replicate 3 x11; replicate 3 x12; replicate 6 x13; replicate 6 x14].
Proof.
  split; [|vm_compute; reflexivity].
  apply (run_outputs demo_sum demo_verify (demo_env x01 false) demo_pk demo_l (demo_events 5)
           (demo_n x01 false) (hcs_after 5) (Continue demo_l));
    [apply demo_n_ok|apply hcs_after_eq; lia].
Defined.

Lemma run_in_order_witness :
  inOrder (lastSequenceProcessed (chain (demo_n x01 false))) (lastConsensusTimestamp (chain (demo_n x01 false)))
    (messagesOf (demo_events 5)).
Proof.
  apply (run_in_order demo_sum demo_verify (demo_env x01 false) demo_pk demo_l (demo_events 5)
           (demo_n x01 false) (hcs_after 5) demo_l);
    [apply demo_n_ok|apply hcs_after_eq; lia].
Defined.

(** The fourth message is pending when block 3 is asked for. *)
Definition demo_cut : node demo_state :=
  nodeOf (processTimeToCutMessage (HcsMessageTimeToCut_BlockNumber 3) 140 5 (hcs_after 4)).

Lemma timeToCut_table_witness :
  cs_pending (support demo_cut) = [] ∧ delivered demo_cut = output (hcs_after 4) ∧
  lastCutBlockNumber (chain demo_cut) = 3.
Proof.
  destruct (timeToCut_table demo_sum demo_verify (demo_env x01 false) demo_pk
           (HcsMessageTimeToCut_BlockNumber 3) 140 5 (hcs_after 4) demo_cut None) as [_ H];
    [apply hcs_after_ok; lia|apply no_error_eq; by_conv|].
  assert (cuts (HcsMessageTimeToCut_BlockNumber 3) (hcs_after 4) = true) as E by by_conv.
  assert (nextBlock (chain (hcs_after 4)) = 3) as E3 by by_conv.
  rewrite E, E3 in H. exact H.
Defined.

(** ** Two orderers *)

(** The second orderer loses its subscription for a while. *)
Definition demo_events2 : list event :=
  demo_events 2 ++ [EvError codes_Unavailable []; EvRetryTimer] ++ drop 2 (demo_events 5).

Definition demo_other_after : node demo_state := demo_run x02 true demo_events2.

Lemma demo_processor_ok key busy app :
  appMsgProcessor (chain (demo_n key busy)) =
    mkProcessor (mkAccountID 0 0 9) app maxConsensusMessageSize 1000 ∅ 0 ∅ ∅ [] →
  proc_wf (appMsgProcessor (chain (demo_n key busy))) ∧ index_ok (appMsgProcessor (chain (demo_n key busy))).
Proof. intros ->. split; [apply proc_wf_empty|apply index_ok_empty]. Qed.

Lemma demo_agree : chain_agree (chain (demo_n x01 false)) (chain (demo_n x02 true)).
Proof.
  split; [by_value 0|by_value 0|by_value 0|by_value 0|by_value (∅ : gset bytes)|].
  split; [by_value 1000|by_value (@nil chunkHolder)| |].
  - apply (demo_processor_ok _ _ (Some [x0c; x01])). by_conv.
  - apply (demo_processor_ok _ _ (Some [x0c; x02])). by_conv.
Qed.

Lemma demo_same_keys (s : demo_state) :
  bundle (chan s) = demo_bundle → sameKeys (demo_env x01 false) (demo_env x02 true) demo_pk s.
Proof.
  intros E k1 k2.
  assert (cs_SharedConfig s = cs_SharedConfig demo_genesis) as F.
  { change (SharedConfig (bundle (chan s)) = SharedConfig demo_bundle). by rewrite E. }
  unfold configuredKeys. rewrite F.
  change (configuredKeys (demo_env x01 false) demo_pk demo_genesis = Done k1 →
    configuredKeys (demo_env x02 true) demo_pk demo_genesis = Done k2 → k1 = k2).
  assert (configuredKeys (demo_env x01 false) demo_pk demo_genesis =
    configuredKeys (demo_env x02 true) demo_pk demo_genesis) as -> by by_conv. congruence.
Qed.

Lemma orderers_agree_witness :
  ∃ w, blocksOf (trace (hcs_after 5)) = blocksOf (trace (demo_n x01 false)) ++ w ∧
    blocksOf (trace demo_other_after) = blocksOf (trace (demo_n x02 true)) ++ w ∧
    same_view (support (hcs_after 5)) (support demo_other_after) ∧
    chain_agree (chain (hcs_after 5)) (chain demo_other_after) ∧
    publicKeys (chain (hcs_after 5)) = publicKeys (chain demo_other_after).
Proof.
  apply (orderers_agree demo_sum demo_verify demo_pk (demo_env x01 false) (demo_env x02 true)
           (demo_events 5) demo_events2 demo_l demo_l (demo_n x01 false) (demo_n x02 true)
           (hcs_after 5) demo_other_after demo_l demo_l).
  - apply demo_agree.
  - by_value ({[ [x01]; [x02] ]} : gset bytes).
  - split; [by_value (@nil Envelope)|by_value 0|by_value demo_bundle|by_value (blk_Header demo_first)].
  - reflexivity.
  - reflexivity.
  - by_value (demo_msg <$> seq 0 5).
  - assert ((λ s : demo_state, bundle (chan s)) <$> supports demo_sum demo_verify demo_pk (demo_env x01 false)
      demo_l (demo_events 5) (demo_n x01 false) = replicate 5 demo_bundle) as E by by_conv.
    apply Forall_forall. intros s Hs. apply demo_same_keys.
    assert (bundle (chan s) ∈ replicate 5 demo_bundle) as [? _]%elem_of_replicate; [|done].
    rewrite <- E. apply list_elem_of_fmap. exists s. split; [reflexivity|exact Hs].
  - apply hcs_after_eq. lia.
  - apply goesOn_eq. by_conv.
Defined.

(** ** Restarts *)

(** The channel and the consenter metadata, read back from the ledger once the
    last block is committed. *)
Definition demo_reopen (n : node demo_state) : demo_state * Metadata :=
  match finishCommit demo_sum demo_identity demo_nonce (chan (support n)) with
  | Done c =>
    match newChainSupport (bundle c) (ledger c) with
    | Done (Ok r) => r
    | _ => (demo_genesis, mkMetadata None [])
    end
  | Panic _ => (demo_genesis, mkMetadata None [])
  end.

Definition demo_reopened (k : nat) : demo_state := (demo_reopen (hcs_after k)).1.
Definition demo_metadata (k : nat) : Metadata := (demo_reopen (hcs_after k)).2.

Definition demo_handled (k : nat)
    : outcome (res (chainImpl * parsedConfig unit) * consenterImpl) :=
  HandleChain (demo_sdk x01) "ch" (demo_reopened k) (demo_metadata k) (demo_consenter x01).

Definition demo_result (k : nat) : chainImpl * parsedConfig unit * consenterImpl :=
  match demo_handled k with
  | Done (Ok (c, pc), cn) => (c, pc, cn)
  | _ => (chain demo_none, mkParsedConfig (mkTopicID 0 0 0 None) ∅ 0 ∅ (mkAccountID 0 0 0) tt, demo_consenter x01)
  end.

Definition demo_restarted (k : nat) : chainImpl := (demo_result k).1.1.

Lemma demo_handled_eq k : (2 <= k <= 5)%nat →
  HandleChain (demo_sdk x01) "ch" (demo_reopened k) (demo_metadata k) (demo_consenter x01) =
    Done (Ok (demo_restarted k, (demo_result k).1.2), (demo_result k).2).
Proof.
  intros Hk. fold (demo_handled k). unfold demo_restarted, demo_result.
  assert (match demo_handled k with Done (Ok _, _) => true | _ => false end = true) as H.
  { do 6 (destruct k as [|k]; [first [lia|by_conv]|]). lia. }
  by destruct (demo_handled k) as [[[[c pc]|] cn]|].
Qed.

(** The last block written and its metadata. *)
Definition demo_last (k : nat) : Block * bytes :=
  match last (writesOf (trace (hcs_after k))) with
  | Some (b, md) => (b, nb md)
  | None => (demo_first, [])
  end.

Lemma demo_last_eq k : (2 <= k <= 5)%nat →
  last (writesOf (trace (hcs_after k))) = Some ((demo_last k).1, Some (demo_last k).2).
Proof.
  intros Hk. unfold demo_last.
  assert (match last (writesOf (trace (hcs_after k))) with Some (_, Some _) => true | _ => false end = true) as H.
  { do 6 (destruct k as [|k]; [first [lia|by_conv]|]). lia. }
  by destruct (last _) as [[b [md|]]|].
Qed.

Definition demo_raw2 : bytes := Eval vm_compute in (demo_last 2).2.
Definition demo_raw4 : bytes := Eval vm_compute in (demo_last 4).2.
Definition demo_header1 : BlockHeader := Eval vm_compute in blk_Header (demo_last 2).1.

(** After the second message block 1 was cut, and nothing is pending. *)
Lemma restart_agrees_witness :
  chain_agree (chain (hcs_after 2)) (demo_restarted 2) ∧
  publicKeys (demo_restarted 2) = publicKeys (chain (hcs_after 2)) ∧
  recollectPendingChunks (initialLoop (demo_restarted 2)) = false ∧
  lastConsensusTimestamp (demo_restarted 2) = 110.
Proof.
  apply (restart_agrees demo_sum demo_verify (demo_env x01 false) (demo_sdk x01) demo_l (demo_msg 1)
           (hcs_after 1) (hcs_after 2) (Continue demo_l) (demo_last 2).1 (demo_last 2).2 (demo_reopened 2)
           "ch" (demo_metadata 2) (demo_consenter x01) (demo_restarted 2) (demo_result 2).1.2 (demo_result 2).2).
  - apply hcs_after_ok. lia.
  - reflexivity.
  - apply hcs_after_step. lia.
  - intros E%(f_equal length).
    assert (length (writesOf (trace (hcs_after 2))) = 1%nat) as E1 by by_conv.
    assert (length (writesOf (trace (hcs_after 1))) = 0%nat) as E2 by by_conv.
    rewrite E1, E2 in E. discriminate E.
  - by_conv.
  - by_conv.
  - split_and!; vm_compute; intuition discriminate.
  - apply demo_last_eq. lia.
  - by_value (Some demo_raw2).
  - split; [by_value (@nil Envelope)|by_value 0|by_value demo_bundle|by_value demo_header1].
  - by_value 2.
  - split; vm_compute; [discriminate|reflexivity].
  - exact (demo_handled_eq 2 ltac:(lia)).
  - by_value [x01].
  - by_value 1000.
Defined.

(** The fourth message overflows the batch of the third; after a restart from
    block 2 the chain does not start. *)
Lemma overflow_restart_panics_witness :
  ∃ why, startThread demo_sum demo_verify (demo_env x01 false) [x01] None
    (mkNode (demo_restarted 4) (demo_reopened 4) zeroTime 0 []) = Panic why.
Proof.
  apply (overflow_restart_panics demo_sum demo_verify (demo_env x01 false) (demo_sdk x01) demo_l (demo_msg 3)
           (hcs_after 3) (hcs_after 4) (Continue demo_l) (demo_last 4).1 (demo_last 4).2 (demo_reopened 4)
           "ch" (demo_metadata 4) (demo_consenter x01) (demo_restarted 4) (demo_result 4).1.2 (demo_result 4).2).
  - apply hcs_after_ok. lia.
  - reflexivity.
  - apply hcs_after_step. lia.
  - intros E%(f_equal length).
    assert (length (writesOf (trace (hcs_after 4))) = 2%nat) as E1 by by_conv.
    assert (length (writesOf (trace (hcs_after 3))) = 1%nat) as E2 by by_conv.
    rewrite E1, E2 in E. discriminate E.
  - assert (cs_pending (support (hcs_after 4)) = [mkEnvelope (replicate 6 x14) []]) as -> by by_conv. discriminate.
  - by_conv.
  - split_and!; vm_compute; intuition discriminate.
  - vm_compute. reflexivity.
  - apply demo_last_eq. lia.
  - by_value (Some demo_raw4).
  - exact (demo_handled_eq 4 ltac:(lia)).
  - reflexivity.
Defined.

(** ** Timers *)

Abbreviation demo_timerRun := (timerRun (S:=demo_state) demo_sum demo_verify (demo_env x01 false)).

(** The timer goroutine over some events, beside a chain in a fixed state. *)
Fixpoint demo_timers (n : node demo_state) (evs : list timerEvent) (t : timers) (log : list (node demo_state * node demo_state))
    : option (timers * list (node demo_state * node demo_state)) :=
  match evs with
  | [] => Some (t, log)
  | ev :: evs =>
    if enabled (10 ^ 12) ev t then
      match handleTimerEvent demo_sum demo_verify (demo_env x01 false) ev t n with
      | Done (Some t', n') => demo_timers n evs t' (log ++ [(n, n')])
      | _ => None
      end
    else None
  end.

Lemma demo_timers_run n evs past t log t' log' :
  demo_timerRun past t log → demo_timers n evs t log = Some (t', log') →
  demo_timerRun (past ++ evs) t' log'.
Proof.
  revert past t log. induction evs as [|ev evs IH]; intros past t log Hr H; simpl in H.
  { injection H as <- <-. by rewrite app_nil_r. }
  destruct (enabled _ ev t) eqn:He; [|done].
  destruct (handleTimerEvent _ _ _ ev t n) as [[[t1|] n1]|] eqn:Hx; [|done..].
  replace (past ++ ev :: evs) with ((past ++ [ev]) ++ evs) by by rewrite <- app_assoc.
  eapply IH; [|done]. by eapply timerRun_step.
Qed.

Lemma demo_timers_runs n evs t' log' :
  demo_timers n evs stoppedTimers [] = Some (t', log') → demo_timerRun evs t' log'.
Proof. apply (demo_timers_run n evs []). constructor. Qed.

(** The third message is pending; the timer has been armed for block 1, stopped,
    armed for block 2, and has expired. *)
Definition demo_timer_events : list timerEvent :=
  (TimerRequest <$> requestsOf (trace (hcs_after 3))) ++ [RecvTimerExpired].

Definition demo_timer_state : timers * list (node demo_state * node demo_state) :=
  default (stoppedTimers, []) (demo_timers (hcs_after 3) demo_timer_events stoppedTimers []).

Lemma pending_timed_witness :
  asked demo_sum demo_verify (demo_env x01 false) 2 demo_timer_state.2.
Proof.
  assert (pendingBlock (hcs_after 3) = Some 2) as E by by_conv.
  assert (recvTimerRunning demo_timer_state.1 = false) as Er by by_conv.
  assert (follows demo_sum demo_verify (demo_env x01 false) (pendingBlock (hcs_after 3)) demo_timer_state.1 demo_timer_state.2) as H.
  { apply (pending_timed demo_sum demo_verify (demo_env x01 false) demo_pk demo_l (demo_events 3)
           (demo_n x01 false) (hcs_after 3) (Continue demo_l) demo_timer_events).
    - apply demo_n_ok.
    - apply timed_off; [|by_conv].
      assert (requestsOf (trace (demo_n x01 false)) = []) as -> by by_conv. constructor.
    - apply hcs_after_eq. lia.
    - apply (demo_timers_runs (hcs_after 3) demo_timer_events demo_timer_state.1 demo_timer_state.2).
      unfold demo_timer_state.
      assert (match demo_timers (hcs_after 3) demo_timer_events stoppedTimers [] with Some _ => true | None => false end
        = true) as H by by_conv. by destruct (demo_timers _ _ _ _) as [[]|].
    - by_value [mkTimeToCutRequest true 1 None; stopTimerRequest; mkTimeToCutRequest true 2 None]. }
  rewrite E in H. destruct H as [_ [H|H]]; [by rewrite Er in H|exact H].
Defined.
