(* ===== verification/GoLib.v ===== *)
(** * Go strings, loops and fallible calls

    The functions of package [strings] the configuration code uses, loops over
    maps, and sequencing of calls that return an error or panic. *)

From Stdlib Require Import Ascii String.
From stdpp Require Import gmap strings list pretty.
From S2P Require Import Prelude.

(** ** Calls that return an error or panic *)

Abbreviation fallible A := (outcome (res A)).

Definition try_bind {A B} (m : fallible A) (f : A → fallible B) : fallible B :=
  match m with
  | Done (Ok a) => f a
  | Done (Err e) => Done (Err e)
  | Panic w => Panic w
  end.

Notation "x ←? m ; k" := (try_bind m (λ x, k))
  (at level 20, m at level 100, k at level 200, right associativity).
Notation "' x ←? m ; k" := (try_bind m (λ x, k))
  (at level 20, x pattern, m at level 100, k at level 200, right associativity).

Definition ok {A} (a : A) : fallible A := Done (Ok a).
Definition fail {A} (msg : string) : fallible A := Done (Err (Errorf msg)).

Lemma try_bind_ok {A B} (m : fallible A) (f : A → fallible B) b :
  try_bind m f = Done (Ok b) ↔ ∃ a, m = Done (Ok a) ∧ f a = Done (Ok b).
Proof.
  split.
  - destruct m as [[a|e]|w]; [|done|done]. intros H. by exists a.
  - by intros (a & -> & H).
Qed.

Ltac try_inv :=
  repeat match goal with
  | H : try_bind _ _ = Done (Ok _) |- _ => apply try_bind_ok in H as (? & ? & H)
  | H : ok _ = Done (Ok _) |- _ => injection H as H
  | H : fail _ = Done (Ok _) |- _ => discriminate H
  | H : Done (Ok _) = Done (Ok _) |- _ => injection H as H
  | H : Done (or_err _ _) = Done (Ok _) |- _ => injection H as H; apply or_err_Ok in H
  | H : match ?x with pair _ _ => _ end = Done (Ok _) |- _ => is_var x; destruct x
  | _ => run_inv1
  end; subst.

(** ** Loops over a map

    [for k, v := range m { body }], where the body updates [a] and may return an
    error. Go does not fix the order of the iteration. *)
Definition range {K V A} `{Countable K} (body : K → V → A → fallible A) (m : gmap K V) (a : A)
    : fallible A :=
  map_fold (λ k v acc, try_bind acc (body k v)) (ok a) m.

Lemma range_empty {K V A} `{Countable K} (body : K → V → A → fallible A) a :
  range body ∅ a = ok a.
Proof. apply map_fold_empty. Qed.

(** Reasoning on a loop that completes: an invariant over the visited part. *)
Lemma range_ind {K V A} `{Countable K} (body : K → V → A → fallible A) (m : gmap K V) a
    (P : gmap K V → A → Prop) :
  P ∅ a →
  (∀ k v m' b b', m' !! k = None → m !! k = Some v → P m' b →
    body k v b = Done (Ok b') → P (<[k:=v]> m') b') →
  ∀ a', range body m a = Done (Ok a') → P m a'.
Proof.
  intros H0 HS. unfold range.
  cut (∀ m1, m1 ⊆ m → ∀ a', map_fold (λ k v acc, try_bind acc (body k v)) (ok a) m1 = Done (Ok a') →
    P m1 a'); [by auto|].
  intros m1. induction m1 as [|k v m1 Hk Hfirst IH] using map_first_key_ind; intros Hsub a'.
  - rewrite map_fold_empty. intros [= <-]. done.
  - rewrite map_fold_insert_first_key by done. intros (b & Hb & Hbody)%try_bind_ok.
    eapply HS; [done| | |done].
    + eapply lookup_weaken; [|done]. by rewrite lookup_insert_eq.
    + apply IH; [|done]. etrans; [|done]. by apply insert_subseteq.
Qed.

Lemma range_fmap {K V W A} `{Countable K} (body : K → W → A → fallible A) (f : V → W) (m : gmap K V) a :
  range body (f <$> m) a = range (λ k v, body k (f v)) m a.
Proof. unfold range. by rewrite map_fold_fmap. Qed.

(** The body only matters on the entries of the map. *)
Lemma range_ext {K V A} `{Countable K} (body body' : K → V → A → fallible A) (m : gmap K V) a :
  (∀ k v b, m !! k = Some v → body k v b = body' k v b) → range body m a = range body' m a.
Proof.
  intros Hb. unfold range. induction m as [|k v m Hk Hfirst IH] using map_first_key_ind; [by rewrite !map_fold_empty|].
  rewrite !map_fold_insert_first_key by done. rewrite IH; [|intros k' v' b Hk'; apply Hb; by rewrite lookup_insert_ne by congruence].
  clear IH. unfold try_bind. destruct (map_fold _ _ _) as [[b|]|]; [|done..]. apply Hb. by rewrite lookup_insert_eq.
Qed.

(** Every iteration of a loop that completes completed. *)
Lemma range_each {K V A} `{Countable K} (body : K → V → A → fallible A) (m : gmap K V) a a' :
  range body m a = Done (Ok a') →
  ∀ k v, m !! k = Some v → ∃ b b', body k v b = Done (Ok b').
Proof.
  intros Hr. pattern m, a'. revert a' Hr. apply range_ind.
  - intros k v. by rewrite lookup_empty.
  - intros k v m0 b b' Hk _ IH Hb j w [[-> ->]|[_ Hj]]%lookup_insert_Some; [by exists b, b'|eauto].
Qed.

(** A loop that fills a map, one entry for every entry of [m]. *)
Lemma range_fill {K V A} `{Countable K} (f : K → V → fallible A) (m : gmap K V)
    (m' : gmap K A) :
  range (λ k v acc, x ←? f k v; ok (<[k:=x]> acc)) m ∅ = Done (Ok m') →
  ∀ k, option_Forall2 (λ v x, f k v = Done (Ok x)) (m !! k) (m' !! k).
Proof.
  intros Hr. pattern m, m'. revert m' Hr. apply range_ind.
  - intros k. rewrite !lookup_empty. constructor.
  - intros k v m0 b b' Hk _ IH (x & Hx & Hb)%try_bind_ok. injection Hb as <-. intros j.
    destruct (decide (j = k)) as [->|Hj].
    + rewrite !lookup_insert_eq. by constructor.
    + rewrite !lookup_insert_ne by done. apply IH.
Qed.

(** A loop whose body always completes completes. *)
Lemma range_total {K V A} `{Countable K} (body : K → V → A → fallible A) (m : gmap K V) a
    (P : A → Prop) :
  P a →
  (∀ k v b, m !! k = Some v → P b → ∃ b', body k v b = Done (Ok b') ∧ P b') →
  ∃ a', range body m a = Done (Ok a') ∧ P a'.
Proof.
  intros H0 HS. unfold range.
  cut (∀ m1, m1 ⊆ m →
    ∃ a', map_fold (λ k v acc, try_bind acc (body k v)) (ok a) m1 = Done (Ok a') ∧ P a'); [by auto|].
  intros m1. induction m1 as [|k v m1 Hk Hfirst IH] using map_first_key_ind; intros Hsub.
  - rewrite map_fold_empty. by exists a.
  - rewrite map_fold_insert_first_key by done.
    destruct IH as (b & Hb & HP). { etrans; [|done]. by apply insert_subseteq. }
    destruct (HS k v b) as (b' & Hb' & HP'); [|done|].
    + eapply lookup_weaken; [|done]. by rewrite lookup_insert_eq.
    + exists b'. rewrite Hb. done.
Qed.

(** A loop that returns does so under any body that does at least as well. *)
Lemma range_mono {K V A} `{Countable K} (body body' : K → V → A → fallible A) (m : gmap K V) a r :
  (∀ k v b r, m !! k = Some v → body k v b = Done r → body' k v b = Done r) →
  range body m a = Done r → range body' m a = Done r.
Proof.
  intros Hbody. unfold range.
  cut (∀ m1, m1 ⊆ m → ∀ r, map_fold (λ k v acc, try_bind acc (body k v)) (ok a) m1 = Done r →
    map_fold (λ k v acc, try_bind acc (body' k v)) (ok a) m1 = Done r); [by auto|].
  intros m1. induction m1 as [|k v m1 Hk Hfirst IH] using map_first_key_ind; intros Hsub r'.
  - by rewrite !map_fold_empty.
  - rewrite !map_fold_insert_first_key by done.
    assert (m1 ⊆ m) as Hm1 by (etrans; [by apply insert_subseteq|done]). specialize (IH Hm1).
    destruct (map_fold _ _ m1) as [[b|e]|w] eqn:E; [| |done]; rewrite (IH _ eq_refl); simpl; [|done].
    apply Hbody. eapply lookup_weaken; [|exact Hsub]. apply lookup_insert_eq.
Qed.

Lemma range_done {K V A} `{Countable K} (body : K → V → A → fallible A) (m : gmap K V) a :
  (∀ k v b, m !! k = Some v → ∃ r, body k v b = Done r) → ∃ r, range body m a = Done r.
Proof.
  intros Hbody. unfold range.
  cut (∀ m1, m1 ⊆ m → ∃ r, map_fold (λ k v acc, try_bind acc (body k v)) (ok a) m1 = Done r); [by auto|].
  intros m1. induction m1 as [|k v m1 Hk Hfirst IH] using map_first_key_ind; intros Hsub.
  - rewrite map_fold_empty. by eexists.
  - rewrite map_fold_insert_first_key by done. destruct IH as [r ->].
    { etrans; [by apply insert_subseteq|done]. }
    destruct r as [b|e]; simpl; [|by eexists]. eapply Hbody, lookup_weaken; [|exact Hsub].
    apply lookup_insert_eq.
Qed.

Lemma range_fill_to {K V A} `{Countable K} (f : K → V → fallible A) (m : gmap K V) (m' : gmap K A) :
  (∀ k, option_Forall2 (λ v x, f k v = ok x) (m !! k) (m' !! k)) →
  range (λ k v acc, x ←? f k v; ok (<[k:=x]> acc)) m ∅ = ok m'.
Proof.
  intros Hf. destruct (range_total (λ k v acc, x ←? f k v; ok (<[k:=x]> acc)) m
    (∅ : gmap K A) (λ _, True)) as (r & Hr & _); [done| |].
  { intros k v b Hk _. specialize (Hf k). rewrite Hk in Hf. inversion Hf as [? ? Hx|]; subst.
    rewrite Hx. simpl. by eexists. }
  rewrite Hr. unfold ok. do 2 f_equal. apply map_eq. intros k.
  pose proof (range_fill _ _ _ Hr k) as H'. specialize (Hf k).
  inversion H' as [v x Hx E1 E2|E1 E2]; rewrite <- E1 in Hf; inversion Hf as [? y Hy|]; [|done].
  rewrite Hy in Hx. by injection Hx as <-.
Qed.

(** ** Strings *)

#[local] Arguments String.append !_ _ /.

Definition slen (s : string) : Z := Z.of_nat (String.length s).

(** [strings.HasPrefix] *)
Definition HasPrefix (s p : string) : bool := String.prefix p s.

Fixpoint str_drop (n : nat) (s : string) : string :=
  match n, s with S n, String _ s => str_drop n s | _, _ => s end.

(** [s[n:]] *)
Definition slice_from (s : string) (n : nat) : outcome string :=
  if (n <=? String.length s)%nat then Done (str_drop n s) else Panic "slice bounds out of range".

(** [strings.Split] at a separator of one character. *)
Fixpoint strings_Split (c : ascii) (s : string) : list string :=
  match s with
  | EmptyString => [EmptyString]
  | String x s =>
    match strings_Split c s with
    | [] => []
    | f :: fs => if decide (x = c) then EmptyString :: f :: fs else String x f :: fs
    end
  end.

(** [strings.Join] *)
Definition strings_Join (fields : list string) (sep : string) : string := String.concat sep fields.

Lemma str_app_length s t : String.length (s +:+ t) = (String.length s + String.length t)%nat.
Proof. induction s as [|c s IH]; simpl; [done|]. by f_equal. Qed.

Lemma str_app_assoc (s t u : string) : (s +:+ t) +:+ u = s +:+ (t +:+ u).
Proof. induction s as [|c s IH]; simpl; [done|]. by f_equal. Qed.

Lemma str_app_nil (s : string) : s +:+ "" = s.
Proof. induction s as [|c s IH]; simpl; [done|]. by f_equal. Qed.

Lemma str_app_inj (s t u : string) : s +:+ t = s +:+ u → t = u.
Proof. induction s as [|c s IH]; simpl; [done|]. intros [= ?]. auto. Qed.

Lemma str_drop_app s t : str_drop (String.length s) (s +:+ t) = t.
Proof. induction s as [|c s IH]; simpl; [by destruct t|done]. Qed.

Lemma HasPrefix_app s t : HasPrefix (s +:+ t) s = true.
Proof.
  unfold HasPrefix. induction s as [|c s IH]; simpl; [by destruct t|]. by destruct (ascii_dec c c).
Qed.

Lemma HasPrefix_spec s p : HasPrefix s p = true ↔ ∃ t, s = p +:+ t.
Proof.
  split.
  - unfold HasPrefix. revert s. induction p as [|c p IH]; intros s H; simpl in *; [by exists s|].
    destruct s as [|x s]; [done|]. simpl in H. destruct (ascii_dec c x) as [->|] in H; [|done].
    destruct (IH s H) as [t ->]. by exists t.
  - intros [t ->]. apply HasPrefix_app.
Qed.

Lemma lacks_app c s t : lacks c (s +:+ t) ↔ lacks c s ∧ lacks c t.
Proof. induction s as [|x s IH]; simpl; [tauto|]. rewrite IH. tauto. Qed.

(** A text without the separator is one field; joining inverts splitting. *)
Lemma strings_Split_lacks c s : lacks c s → strings_Split c s = [s].
Proof.
  induction s as [|x s IH]; simpl; [done|]. intros [Hx Hs]. rewrite IH by done.
  by rewrite decide_False.
Qed.

Lemma Split_nonempty c s : strings_Split c s ≠ [].
Proof.
  induction s as [|x s IH]; simpl; [done|]. destruct (strings_Split c s); [done|]. by case_decide.
Qed.

Lemma Split_sep c s t : lacks c s → strings_Split c (s +:+ String c t) = s :: strings_Split c t.
Proof.
  induction s as [|x s IH]; simpl.
  - intros _. destruct (strings_Split c t) eqn:E; [by apply Split_nonempty in E|].
    by rewrite decide_True.
  - intros [Hx Hs]. rewrite IH by done. by rewrite decide_False.
Qed.

Lemma Split_fields c s : Forall (lacks c) (strings_Split c s).
Proof.
  induction s as [|x s IH]; simpl; [by repeat constructor|].
  destruct (strings_Split c s) as [|f fs]; [done|]. inversion IH; subst. case_decide; by repeat constructor.
Qed.

Create HintDb reading.

(** ** Calls that read what other goroutines replace

    A call reads a shared resource several times, and between two reads another
    goroutine may have replaced it: the [n]th read sees [cur n]. A call carries
    the number of reads before it. *)
Definition reading (R A : Type) : Type := (nat → R) → nat → fallible (A * nat).

Definition rd_bind {R A B} (m : reading R A) (f : A → reading R B) : reading R B :=
  λ cur n, '(a, n) ←? m cur n; f a cur n.

Definition rd_ret {R A} (a : A) : reading R A := λ _ n, ok (a, n).
Definition rd_fail {R A} (msg : string) : reading R A := λ _ _, fail msg.
Definition rd_panic {R A} (w : string) : reading R A := λ _ _, Panic w.
Definition peek {R} : reading R R := λ cur n, ok (cur n, S n).
Definition lift {R A} (m : fallible A) : reading R A := λ _ n, a ←? m; ok (a, n).

Notation "x ←ᵣ m ; k" := (rd_bind m (λ x, k))
  (at level 20, m at level 100, k at level 200, right associativity).
Notation "' x ←ᵣ m ; k" := (rd_bind m (λ x, k))
  (at level 20, x pattern, m at level 100, k at level 200, right associativity).

Section reading.
Context {R : Type}.

Lemma rd_bind_ok {A B} (m : reading R A) (f : A → reading R B) cur n b n' :
  rd_bind m f cur n = Done (Ok (b, n')) ↔
  ∃ a n1, m cur n = Done (Ok (a, n1)) ∧ f a cur n1 = Done (Ok (b, n')).
Proof.
  unfold rd_bind. rewrite try_bind_ok. split.
  - intros ([a n1] & ? & ?). eauto.
  - intros (a & n1 & ? & ?). by exists (a, n1).
Qed.

Lemma lift_ok {A} (m : fallible A) (cur : nat → R) n a n' :
  lift m cur n = Done (Ok (a, n')) ↔ m = Done (Ok a) ∧ n' = n.
Proof.
  unfold lift. rewrite try_bind_ok. split; [intros (? & ? & [= <- <-])|intros [? ->]]; eauto.
Qed.

(** A call only moves forward. *)
Definition forward {A} (m : reading R A) : Prop :=
  ∀ cur n a n', m cur n = Done (Ok (a, n')) → (n <= n')%nat.

Lemma forward_bind {A B} (m : reading R A) (f : A → reading R B) :
  forward m → (∀ a, forward (f a)) → forward (rd_bind m f).
Proof. intros Hm Hf cur n b n' (a & n1 & ?%Hm & ?%Hf)%rd_bind_ok. lia. Qed.
Lemma forward_ret {A} (a : A) : forward (rd_ret a).
Proof. by intros cur n b n' [= <- <-]. Qed.
Lemma forward_fail {A} w : forward (A:=A) (rd_fail w).
Proof. by intros ????. Qed.
Lemma forward_panic {A} w : forward (A:=A) (rd_panic w).
Proof. by intros ????. Qed.
Lemma forward_peek : forward peek.
Proof. intros cur n b n' [= <- <-]. lia. Qed.
Lemma forward_lift {A} (m : fallible A) : forward (lift m).
Proof. intros cur n b n' [_ ->]%lift_ok. done. Qed.
End reading.

#[export] Hint Resolve forward_bind forward_ret forward_fail forward_panic forward_peek forward_lift : reading.

Ltac rd_inv :=
  repeat match goal with
  | H : rd_bind _ _ _ _ = Done (Ok _) |- _ => apply rd_bind_ok in H as (? & ? & ? & H)
  | H : lift _ _ _ = Done (Ok _) |- _ => apply lift_ok in H as [? ?]
  | H : peek _ _ = Done (Ok _) |- _ => injection H as ? ?
  | H : rd_ret _ _ _ = Done (Ok _) |- _ => injection H as ? ?
  | H : rd_fail _ _ _ = Done (Ok _) |- _ => discriminate H
  | H : rd_panic _ _ _ = Done (Ok _) |- _ => discriminate H
  | _ => try_inv
  end; subst.

(** ** Decimal numbers *)

Fixpoint digitsValue (s : string) (acc : Z) : option Z :=
  match s with
  | EmptyString => Some acc
  | String c s =>
    let n := Z.of_N (N_of_ascii c) in
    if (48 <=? n) && (n <=? 57) then digitsValue s (acc * 10 + (n - 48)) else None
  end.

(** [strconv.ParseUint(s, 10, 64)] *)
Definition ParseUint64 (s : string) : option Z :=
  if decide (s = "") then None
  else n ← digitsValue s 0; if n <? 2 ^ 64 then Some n else None.

Lemma digitsValue_pretty_go (x : N) s : digitsValue (pretty_N_go x s) 0 = digitsValue s (Z.of_N x).
Proof.
  revert s. induction (N.lt_wf_0 x) as [x _ IH]. intros s. destruct (decide (0 < x)%N) as [Hx|Hx].
  2: { replace x with 0%N by lia. by rewrite pretty_N_go_0. }
  rewrite pretty_N_go_step, IH by (try done; apply N.div_lt; lia). cbn [digitsValue].
  assert (∃ r, (x `mod` 10 = r)%N ∧ (r < 10)%N) as (r & Hr & Hlt) by (eexists; split; [done|by apply N.mod_lt]).
  assert (Z.of_N x = Z.of_N (x / 10) * 10 + Z.of_N r) as E by (rewrite <- Hr; pose proof (N.div_mod x 10); lia).
  rewrite Hr, E. clear -Hlt.
  assert (r = 0 ∨ r = 1 ∨ r = 2 ∨ r = 3 ∨ r = 4 ∨ r = 5 ∨ r = 6 ∨ r = 7 ∨ r = 8 ∨ r = 9)%N as H by lia.
  by repeat destruct H as [-> | H]; try subst r.
Qed.

Lemma ParseUint64_pretty x : 0 <= x < 2 ^ 64 → ParseUint64 (pretty x) = Some x.
Proof.
  intros Hx. unfold ParseUint64. assert (pretty x = pretty (Z.to_N x)) as -> by (destruct x; done || lia).
  unfold pretty, pretty_N. destruct (decide (Z.to_N x = 0%N)) as [E0|E0]; [replace x with 0 by lia; done|].
  rewrite decide_False.
  - rewrite digitsValue_pretty_go. cbn [digitsValue mbind option_bind]. rewrite Z2N.id by lia.
    by destruct (Z.ltb_spec x (2 ^ 64)); [|lia].
  - intros E. pose proof (digitsValue_pretty_go (Z.to_N x) "") as H. rewrite E in H. cbn [digitsValue] in H. injection H as H. lia.
Qed.
