(* ===== verification/ConfigProtos.v ===== *)
(** * Configuration messages

    The protobuf messages of channel configuration and of access control:
    [configtx.proto], [policies.proto] and [msp_principal.proto]. The three maps
    of a [ConfigGroup] are finite maps, so a configuration is a finitely
    branching tree; its induction principle is [ConfigGroup_tree_ind]. *)

From stdpp Require Import gmap strings list.
From S2P Require Import Prelude Protos.

(** ** Principals and signature policies *)

(** [msp.MSPPrincipal] *)
Record MSPPrincipal := mkMSPPrincipal {
  PrincipalClassification : Z;
  Principal : bytes
}.

(** A pointer to a [cb.SignaturePolicy]: nil, or one of its [oneof] variants. *)
Inductive SignaturePolicy :=
  | SignaturePolicy_nil
  | SignaturePolicy_unset
  | SignaturePolicy_SignedBy (i : Z)
  | SignaturePolicy_NOutOf (n : Z) (rules : list SignaturePolicy).

(** Induction that also reaches the rules of a gate. *)
Fixpoint SignaturePolicy_rules_ind (P : SignaturePolicy → Prop)
    (Hnil : P SignaturePolicy_nil) (Hunset : P SignaturePolicy_unset)
    (Hsigned : ∀ i, P (SignaturePolicy_SignedBy i))
    (Hgate : ∀ n rules, Forall P rules → P (SignaturePolicy_NOutOf n rules))
    (p : SignaturePolicy) : P p :=
  match p with
  | SignaturePolicy_nil => Hnil
  | SignaturePolicy_unset => Hunset
  | SignaturePolicy_SignedBy i => Hsigned i
  | SignaturePolicy_NOutOf n rules =>
    Hgate n rules ((fix go rs : Forall P rs :=
      match rs with
      | [] => Forall_nil_2 _
      | r :: rs =>
        Forall_cons_2 _ _ _
          (SignaturePolicy_rules_ind P Hnil Hunset Hsigned Hgate r) (go rs)
      end) rules)
  end.

Record SignaturePolicyEnvelope := mkSignaturePolicyEnvelope {
  spe_Version : Z;
  spe_Rule : SignaturePolicy;
  spe_Identities : list MSPPrincipal
}.

(** The open enum [ImplicitMetaPolicy_Rule]. *)
Definition ImplicitMetaPolicy_ANY : Z := 0.
Definition ImplicitMetaPolicy_ALL : Z := 1.
Definition ImplicitMetaPolicy_MAJORITY : Z := 2.

(** [cb.ImplicitMetaPolicy] *)
Record ImplicitMetaDefinition := mkImplicitMetaDefinition {
  SubPolicy : string;
  Rule : Z
}.

(** [Policy_PolicyType] *)
Definition Policy_SIGNATURE : Z := 1.
Definition Policy_IMPLICIT_META : Z := 3.

(** [cb.Policy] *)
Record PolicyMessage := mkPolicyMessage {
  pol_Type : Z;
  pol_Value : bytes
}.

(** ** The configuration tree *)

Record ConfigValue := mkConfigValue {
  cv_Version : Z;
  cv_Value : bytes;
  cv_ModPolicy : string
}.

Record ConfigPolicy := mkConfigPolicy {
  cp_Version : Z;
  cp_Policy : option PolicyMessage;
  cp_ModPolicy : string
}.

Inductive ConfigGroup := mkConfigGroup {
  cg_Version : Z;
  Groups : gmap string ConfigGroup;
  Values : gmap string ConfigValue;
  Policies : gmap string ConfigPolicy;
  cg_ModPolicy : string
}.

(** [protoutil.NewConfigGroup] *)
Definition NewConfigGroup : ConfigGroup := mkConfigGroup 0 ∅ ∅ ∅ "".

Fixpoint group_size (g : ConfigGroup) : nat :=
  let 'mkConfigGroup _ gs _ _ _ := g in S (map_fold (λ _ g n, (group_size g + n)%nat) 0%nat gs).

Lemma group_size_child g k h :
  Groups g !! k = Some h → (group_size h < group_size g)%nat.
Proof.
  destruct g as [v gs vs ps mp]. simpl. intros H.
  rewrite (map_fold_delete_L (λ _ g n, (group_size g + n)%nat) 0%nat k h gs); [lia|lia|done].
Qed.

Lemma ConfigGroup_tree_ind (P : ConfigGroup → Prop) :
  (∀ g, map_Forall (λ _, P) (Groups g) → P g) → ∀ g, P g.
Proof.
  intros H g. remember (group_size g) as n eqn:E. revert g E.
  induction (lt_wf n) as [n _ IH]. intros g ->. apply H. intros k h Hk.
  apply (IH (group_size h)); [|done]. by eapply group_size_child.
Qed.

(** The group at a path below [g]. *)
Fixpoint groupAt (path : list string) (g : ConfigGroup) : option ConfigGroup :=
  match path with
  | [] => Some g
  | k :: path => h ← Groups g !! k; groupAt path h
  end.

Record Config := mkConfig {
  cfg_Sequence : Z;
  ChannelGroup : option ConfigGroup
}.

Record ConfigEnvelope := mkConfigEnvelope {
  ce_Config : option Config;
  LastUpdate : option Envelope
}.

(** ** Configuration updates *)

Record ConfigSignature := mkConfigSignature {
  csig_SignatureHeader : bytes;
  csig_Signature : bytes
}.

Record ConfigUpdateEnvelope := mkConfigUpdateEnvelope {
  cue_ConfigUpdate : bytes;
  cue_Signatures : list ConfigSignature
}.

(** The [IsolatedData] of an update is not read. *)
Record ConfigUpdate := mkConfigUpdate {
  cu_ChannelId : string;
  ReadSet : option ConfigGroup;
  WriteSet : option ConfigGroup
}.

(** ** Decidable equality *)

#[export] Instance MSPPrincipal_eq_dec : EqDecision MSPPrincipal.
Proof. solve_decision. Defined.
#[export] Instance SignaturePolicy_eq_dec : EqDecision SignaturePolicy.
Proof.
  refine (fix go p q := let _ : EqDecision SignaturePolicy := go in
    match p, q with
    | SignaturePolicy_nil, SignaturePolicy_nil => left eq_refl
    | SignaturePolicy_unset, SignaturePolicy_unset => left eq_refl
    | SignaturePolicy_SignedBy i, SignaturePolicy_SignedBy j => cast_if (decide (i = j))
    | SignaturePolicy_NOutOf n rs, SignaturePolicy_NOutOf m ss =>
      cast_if_and (decide (n = m)) (decide (rs = ss))
    | _, _ => right _
    end); abstract congruence.
Defined.
#[export] Instance SignaturePolicyEnvelope_eq_dec : EqDecision SignaturePolicyEnvelope.
Proof. solve_decision. Defined.
#[export] Instance ImplicitMetaDefinition_eq_dec : EqDecision ImplicitMetaDefinition.
Proof. solve_decision. Defined.
#[export] Instance PolicyMessage_eq_dec : EqDecision PolicyMessage.
Proof. solve_decision. Defined.
#[export] Instance ConfigValue_eq_dec : EqDecision ConfigValue.
Proof. solve_decision. Defined.
#[export] Instance ConfigPolicy_eq_dec : EqDecision ConfigPolicy.
Proof. solve_decision. Defined.
#[export] Instance ConfigGroup_eq_dec : EqDecision ConfigGroup.
Proof.
  refine (fix go g h := let _ : EqDecision ConfigGroup := go in
    match g, h with
    | mkConfigGroup v1 gs1 vs1 ps1 m1, mkConfigGroup v2 gs2 vs2 ps2 m2 =>
      cast_if_and5 (decide (v1 = v2)) (decide (gs1 = gs2)) (decide (vs1 = vs2))
        (decide (ps1 = ps2)) (decide (m1 = m2))
    end); abstract congruence.
Defined.
#[export] Instance Config_eq_dec : EqDecision Config.
Proof. solve_decision. Defined.
#[export] Instance ConfigEnvelope_eq_dec : EqDecision ConfigEnvelope.
Proof. solve_decision. Defined.
