(* ===== verification/Cauthdsl.v ===== *)
(** * Signature policies

    [common/cauthdsl]: signature policies compiled to evaluators over the valid,
    de-duplicated identities of a signature set ([compile], the [provider]s and
    [policy]), and the identities of a set, [SignatureSetToValidIdentities] of
    [common/policies/policy.go]. The membership service is an interface: an
    identity is the dictionary of its methods.

    [sat] says declaratively which sets of signers satisfy a policy, every
    signer standing for one leaf; [compile_sound] shows that the evaluators only
    accept such sets and never index out of range. *)


From Stdlib Require Import String.
From stdpp Require Import gmap strings list.
From S2P Require Import Prelude Protos ConfigProtos.

(** ** The membership service interface *)

(** [msp.Identity]: [Verify] and [SatisfiesPrincipal] return nil or an error. *)
Record Identity := mkIdentity {
  GetIdentifier_Mspid : string;
  GetIdentifier_Id : string;
  Verify : bytes → bytes → option error;
  SatisfiesPrincipal : MSPPrincipal → option error
}.

(** [msp.IdentityDeserializer] *)
Abbreviation IdentityDeserializer := (bytes → res Identity).

(** [protoutil.SignedData] *)
Record SignedData := mkSignedData {
  sd_Data : bytes;
  sd_Identity : bytes;
  sd_Signature : bytes
}.

(** ** Policies as an interface *)

(** [policies.Policy]: nil is acceptance. [Converter] is [None] for a policy
    that does not implement the interface of that name. *)
Record Policy := mkPolicy {
  EvaluateSignedData : list SignedData → outcome (option error);
  EvaluateIdentities : list Identity → outcome (option error);
  Converter : option (outcome (res SignaturePolicyEnvelope))
}.

(** ** Identities of a signature set *)

Definition identityKey (id : Identity) : string :=
  (GetIdentifier_Mspid id +:+ GetIdentifier_Id id)%string.

Fixpoint validIdentities (signedData : list SignedData) (deserializer : IdentityDeserializer)
    (idMap : gset string) : list Identity :=
  match signedData with
  | [] => []
  | sd :: rest =>
    match deserializer (sd_Identity sd) with
    | Err _ => validIdentities rest deserializer idMap
    | Ok identity =>
      if decide (identityKey identity ∈ idMap) then validIdentities rest deserializer idMap
      else
        match Verify identity (sd_Data sd) (sd_Signature sd) with
        | Some _ => validIdentities rest deserializer idMap
        | None =>
          identity :: validIdentities rest deserializer ({[ identityKey identity ]} ∪ idMap)
        end
    end
  end.

Definition SignatureSetToValidIdentities (signedData : list SignedData)
    (deserializer : IdentityDeserializer) : list Identity :=
  validIdentities signedData deserializer ∅.

(** ** Compiled policies *)

(** [func([]msp.Identity, []bool) bool], with the final content of the slice
    [used] it writes to. *)
Abbreviation evaluator := (list Identity → list bool → outcome (bool * list bool)).

(** The evaluator of a leaf: the first unused identity that satisfies the
    principal is used up. *)
Fixpoint signedByEvaluator (signedByID : MSPPrincipal) (signedData : list Identity)
    (used : list bool) : outcome (bool * list bool) :=
  match signedData, used with
  | [], _ => Done (false, used)
  | _ :: _, [] => Panic "index out of range"
  | sd :: signedData, u :: used =>
    if negb u && bool_decide (SatisfiesPrincipal sd signedByID = None)
    then Done (true, true :: used)
    else '(ok, used) ← signedByEvaluator signedByID signedData used; Done (ok, u :: used)
  end.

(** The loop of a gate: what a satisfied rule used stays used. *)
Fixpoint gateLoop (policies : list evaluator) (signedData : list Identity)
    (verified : Z) (used : list bool) : outcome (Z * list bool) :=
  match policies with
  | [] => Done (verified, used)
  | policy :: policies =>
    '(ok, _used) ← policy signedData used;
    if ok : bool then gateLoop policies signedData (i32 (verified + 1)) _used
    else gateLoop policies signedData verified used
  end.

Definition gateEvaluator (n : Z) (policies : list evaluator) : evaluator := λ signedData used,
  '(verified, used) ← gateLoop policies signedData 0 used; Done (n <=? verified, used).

Fixpoint compile (policy : SignaturePolicy) (identities : list MSPPrincipal) : res evaluator :=
  match policy with
  | SignaturePolicy_nil => Err (Errorf "Empty policy element")
  | SignaturePolicy_NOutOf n rules =>
    policies ← (fix go rules :=
      match rules with
      | [] => Ok []
      | rule :: rules =>
        compiledPolicy ← compile rule identities; policies ← go rules;
        Ok (compiledPolicy :: policies)
      end) rules;
    Ok (gateEvaluator n policies)
  | SignaturePolicy_SignedBy i =>
    if (i <? 0) || (i32 (Z.of_nat (length identities)) <=? i) then
      Err (Errorf "identity index out of range")
    else
      signedByID ← or_err "index out of range" (identities !! Z.to_nat i);
      Ok (signedByEvaluator signedByID)
  | SignaturePolicy_unset => Err (Errorf "Unknown type")
  end.

(** The rules of a gate, compiled. *)
Fixpoint compileRules (rules : list SignaturePolicy) (identities : list MSPPrincipal)
    : res (list evaluator) :=
  match rules with
  | [] => Ok []
  | rule :: rules =>
    compiledPolicy ← compile rule identities; policies ← compileRules rules identities;
    Ok (compiledPolicy :: policies)
  end.

(** ** The policy object *)

(** [policy.EvaluateIdentities] *)
Definition policy_EvaluateIdentities (ev : evaluator) (identities : list Identity)
    : outcome (option error) :=
  '(ok, _) ← ev identities (replicate (length identities) false);
  Done (if ok : bool then None else Some (Errorf "signature set did not satisfy policy")).

(** [policy.EvaluateSignedData] *)
Definition policy_EvaluateSignedData (deserializer : IdentityDeserializer) (ev : evaluator)
    (signatureSet : list SignedData) : outcome (option error) :=
  policy_EvaluateIdentities ev (SignatureSetToValidIdentities signatureSet deserializer).

(** [policy], with its [Convert]. *)
Definition signaturePolicy (deserializer : IdentityDeserializer) (ev : evaluator)
    (spe : SignaturePolicyEnvelope) : Policy := {|
  EvaluateSignedData := policy_EvaluateSignedData deserializer ev;
  EvaluateIdentities := policy_EvaluateIdentities ev;
  Converter := Some (Done (Ok spe))
|}.

(** [EnvelopeBasedPolicyProvider.NewPolicy]; a nil envelope is [None]. *)
Definition EnvelopeBased_NewPolicy (deserializer : IdentityDeserializer)
    (sigPolicy : option SignaturePolicyEnvelope) : res Policy :=
  sigPolicy ← or_err "invalid arguments" sigPolicy;
  compiled ← compile (spe_Rule sigPolicy) (spe_Identities sigPolicy);
  Ok (signaturePolicy deserializer compiled sigPolicy).

(** [provider.NewPolicy] *)
Definition provider_NewPolicy `{!Codec SignaturePolicyEnvelope}
    (deserializer : IdentityDeserializer) (data : bytes) : res Policy :=
  sigPolicy ← or_err "Error unmarshaling to SignaturePolicy"
    (unmarshal (A:=SignaturePolicyEnvelope) data);
  if negb (spe_Version sigPolicy =? 0) then
    Err (Errorf "This evaluator only understands messages of version 0")
  else
    compiled ← compile (spe_Rule sigPolicy) (spe_Identities sigPolicy);
    Ok (signaturePolicy deserializer compiled sigPolicy).

(** ** Identities are valid and distinct *)

Lemma validIdentities_spec sds des idMap :
  NoDup (identityKey <$> validIdentities sds des idMap) ∧
  Forall (λ id, identityKey id ∉ idMap ∧
    ∃ sd, sd ∈ sds ∧ des (sd_Identity sd) = Ok id ∧ Verify id (sd_Data sd) (sd_Signature sd) = None)
    (validIdentities sds des idMap).
Proof.
  revert idMap. induction sds as [|sd sds IH]; intros idMap; simpl; [repeat constructor|].
  assert (Hskip : NoDup (identityKey <$> validIdentities sds des idMap) ∧
    Forall (λ id, identityKey id ∉ idMap ∧ ∃ sd', sd' ∈ sd :: sds ∧ des (sd_Identity sd') = Ok id ∧
      Verify id (sd_Data sd') (sd_Signature sd') = None) (validIdentities sds des idMap)).
  { destruct (IH idMap) as [Hn Hf]. split; [done|]. eapply Forall_impl; [exact Hf|].
    intros id [? (sd' & ? & ?)]. split; [done|]. exists sd'. split; [by right|done]. }
  destruct (des (sd_Identity sd)) as [id|e] eqn:Eid; [|done].
  case_decide as Hin; [done|]. destruct (Verify _ _ _) eqn:Ev; [done|].
  destruct (IH ({[identityKey id]} ∪ idMap)) as [Hn Hf]. split.
  - simpl. constructor; [|done]. rewrite list_elem_of_fmap. intros (id' & E & Hid').
    rewrite Forall_forall in Hf. destruct (Hf id' Hid') as [Hnew _]. set_solver.
  - constructor.
    + split; [done|]. exists sd. split; [by left|done].
    + eapply Forall_impl; [exact Hf|]. intros id' [Hnew (sd' & ? & ?)].
      split; [set_solver|]. exists sd'. split; [by right|done].
Qed.

(** ** Which signers satisfy a policy

    A set of positions [U] in the list of identities satisfies a leaf when it is
    one identity that satisfies the principal, and a gate when it splits into
    disjoint sets that satisfy at least [n] of its rules. *)

Section satisfaction.
Context (principals : list MSPPrincipal) (ids : list Identity).

Fixpoint sat (policy : SignaturePolicy) (U : gset nat) : Prop :=
  match policy with
  | SignaturePolicy_SignedBy i =>
    0 <= i ∧ ∃ pr k id, principals !! Z.to_nat i = Some pr ∧ ids !! k = Some id ∧
      SatisfiesPrincipal id pr = None ∧ U = {[ k ]}
  | SignaturePolicy_NOutOf n rules =>
    ∃ m, n <= m ∧ (fix go rules m U :=
      match rules with
      | [] => m = 0 ∧ U = ∅
      | rule :: rules =>
        go rules m U ∨ ∃ V W, sat rule V ∧ go rules (m - 1) W ∧ V ## W ∧ U = V ∪ W
      end) rules m U
  | _ => False
  end.

(** Exactly [m] of the rules are satisfied, by disjoint sets whose union is [U]. *)
Fixpoint satRules (rules : list SignaturePolicy) (m : Z) (U : gset nat) : Prop :=
  match rules with
  | [] => m = 0 ∧ U = ∅
  | rule :: rules =>
    satRules rules m U ∨ ∃ V W, sat rule V ∧ satRules rules (m - 1) W ∧ V ## W ∧ U = V ∪ W
  end.

(** The flags [used'] are the flags [used] with the positions of [U] added,
    none of which was in use. *)
Definition uses (used used' : list bool) (U : gset nat) : Prop :=
  length used' = length used ∧
  (∀ k, k ∈ U → used !! k = Some false) ∧
  ∀ k, used' !! k = Some true ↔ used !! k = Some true ∨ k ∈ U.

(** An evaluator that returns, and accepts only what satisfies the policy. *)
Definition sound (policy : SignaturePolicy) (ev : evaluator) : Prop :=
  ∀ used, length used = length ids →
  ∃ ok used', ev ids used = Done (ok, used') ∧ length used' = length used ∧
    (ok = true → ∃ U, sat policy U ∧ uses used used' U).

Lemma uses_none used : uses used used ∅.
Proof. split; [done|]. set_solver. Qed.

Lemma uses_trans used used' used'' U V :
  uses used used' U → uses used' used'' V → uses used used'' (U ∪ V) ∧ U ## V.
Proof.
  intros (L1 & F1 & S1) (L2 & F2 & S2).
  assert (Hd : ∀ k, k ∈ U → k ∉ V).
  { intros k HU HV. specialize (F2 k HV). destruct (S1 k) as [_ H].
    rewrite H in F2 by auto. done. }
  split; [|set_solver]. split; [congruence|]. split.
  - intros k [Hk|Hk]%elem_of_union; [auto|].
    destruct (used !! k) as [[]|] eqn:E; [|done|].
    + assert (H' : used' !! k = Some true) by (apply S1; auto). rewrite F2 in H' by done. done.
    + apply lookup_ge_None in E. assert (H' := F2 k Hk). apply lookup_lt_Some in H'. lia.
  - intros k. rewrite S2, S1. set_solver.
Qed.

Lemma signedBy_uses pr l used :
  length used = length l →
  ∃ ok used', signedByEvaluator pr l used = Done (ok, used') ∧ length used' = length used ∧
    (ok = true → ∃ k id, l !! k = Some id ∧ SatisfiesPrincipal id pr = None ∧
      uses used used' {[ k ]}) ∧
    (ok = false → ∀ k id, l !! k = Some id → used !! k = Some false →
      SatisfiesPrincipal id pr ≠ None).
Proof.
  revert used. induction l as [|id l IH]; intros [|u used]; simpl; intros Hl; try done.
  { by exists false, []. }
  destruct (negb u && bool_decide (SatisfiesPrincipal id pr = None)) eqn:E.
  - zbool. subst u. eexists true, _. split; [done|]. split; [done|]. split; [|done].
    intros _. exists 0%nat, id. split; [done|]. split; [done|]. split; [done|]. split.
    + intros k ->%elem_of_singleton. done.
    + intros [|k]; simpl; set_solver.
  - destruct (IH used) as (ok & used' & Hev & Hlen & Ht & Hf); [lia|].
    rewrite Hev. eexists ok, _. split; [done|]. split; [simpl; lia|]. split.
    + intros Hok. destruct (Ht Hok) as (k & id' & Hk & Hs & Hu). exists (S k), id'.
      split; [done|]. split; [done|]. destruct Hu as (L & F & S). split; [simpl; lia|]. split.
      * intros j ->%elem_of_singleton. simpl. apply F. set_solver.
      * intros [|j]; simpl; [set_solver|]. rewrite S. set_solver.
    + intros Hok [|k] id'; simpl; [|by apply Hf]. intros [= ->] [= ->]. simpl in E.
      by apply bool_decide_eq_false in E.
Qed.

Lemma gateLoop_sound rules policies :
  Forall2 sound rules policies →
  ∀ v used, - 2 ^ 31 <= v → length used = length ids →
  ∃ v' used' m U, gateLoop policies ids v used = Done (v', used') ∧ v' <= v + m ∧
    satRules rules m U ∧ uses used used' U.
Proof.
  induction 1 as [|rule ev rules evs Hev _ IH]; simpl; intros v used Hv Hl.
  { exists v, used, 0, ∅. split; [done|]. split; [lia|]. split; [done|]. apply uses_none. }
  destruct (Hev used Hl) as (ok & _used & E & Hl' & Hok). rewrite E. simpl. destruct ok.
  - destruct (Hok eq_refl) as (V & HV & Huse).
    pose proof (i32_range (v + 1)).
    destruct (IH (i32 (v + 1)) _used) as (v' & used' & m & W & E' & Hle & HW & Huse'); [lia|lia|].
    destruct (uses_trans _ _ _ _ _ Huse Huse') as [Hu Hd].
    exists v', used', (m + 1), (V ∪ W). split; [done|]. split.
    + assert (i32 (v + 1) <= v + 1); [|lia]. unfold i32.
      assert ((v + 1 + 2 ^ 31) mod 2 ^ 32 <= v + 1 + 2 ^ 31); [apply Z.mod_le; lia|lia].
    + split; [|done]. right. exists V, W. replace (m + 1 - 1) with m by lia. done.
  - destruct (IH v used Hv Hl) as (v' & used' & m & U & E' & Hle & HU & Huse).
    exists v', used', m, U. split; [done|]. split; [done|]. split; [by left|done].
Qed.
End satisfaction.

Lemma compile_gate n rules prs :
  compile (SignaturePolicy_NOutOf n rules) prs =
    (policies ← compileRules rules prs; Ok (gateEvaluator n policies)).
Proof.
  simpl. f_equal. induction rules as [|r rules IH]; simpl; [done|]. by rewrite IH.
Qed.

Lemma compileRules_Forall2 rules prs evs :
  compileRules rules prs = Ok evs ↔ Forall2 (λ r ev, compile r prs = Ok ev) rules evs.
Proof.
  revert evs. induction rules as [|r rules IH]; simpl; intros evs; split; intros H.
  - run_inv. constructor.
  - by inversion H.
  - run_inv. constructor; [done|]. by apply IH.
  - inversion H as [|? ev ? evs' Hr Hrs]; subst. rewrite Hr. simpl. by rewrite (proj2 (IH _) Hrs).
Qed.

(** Every compiled policy is sound: it never panics and only accepts sets of
    signers that satisfy the policy, each signer counted once. *)
Lemma compile_sound prs ids policy ev :
  compile policy prs = Ok ev → sound prs ids policy ev.
Proof.
  revert ev. induction policy as [| |i|n rules IH] using SignaturePolicy_rules_ind; intros ev H; try done.
  - simpl in H. destruct (_ || _) eqn:E; [done|]. run_inv. zbool.
    intros used Hl. destruct (signedBy_uses x ids used Hl) as (ok & used' & Hev & Hlen & Ht & _).
    exists ok, used'. split; [done|]. split; [done|]. intros Hok.
    destruct (Ht Hok) as (k & id & Hk & Hs & Hu). exists {[ k ]}. split; [|done].
    split; [done|]. by exists x, k, id.
  - rewrite compile_gate in H. destruct (compileRules rules prs) as [evs|] eqn:E; [|done].
    injection H as <-. apply compileRules_Forall2 in E.
    assert (Hs : Forall2 (sound prs ids) rules evs).
    { clear -IH E. induction E; inversion IH; subst; constructor; auto. }
    intros used Hl.
    destruct (gateLoop_sound prs ids rules evs Hs 0 used) as (v & used' & m & U & Ev & Hle & HU & Hu);
      [lia|done|].
    exists (n <=? v), used'. unfold gateEvaluator. rewrite Ev. split; [done|].
    split; [apply Hu|]. intros Hn. zbool. exists U. split; [|done].
    exists m. split; [lia|]. clear -HU. revert m U HU.
    induction rules as [|r rules IHr]; simpl; [done|]. intros m U [H|(V & W & ? & ? & ? & ?)].
    + left. by apply IHr.
    + right. exists V, W. split; [done|]. split; [by apply IHr|done].
Qed.

(** C21. A signature policy accepts a signature set only if the policy is
    satisfied by valid signers that are pairwise distinct, each counted for a
    single leaf of the policy; and evaluating it always returns. *)
Theorem signature_policy_sound des spe pol sds :
  EnvelopeBased_NewPolicy des (Some spe) = Ok pol →
  let ids := SignatureSetToValidIdentities sds des in
  ∃ r, EvaluateSignedData pol sds = Done r ∧
    NoDup (identityKey <$> ids) ∧
    Forall (λ id, ∃ sd, sd ∈ sds ∧ des (sd_Identity sd) = Ok id ∧
      Verify id (sd_Data sd) (sd_Signature sd) = None) ids ∧
    (r = None → ∃ U, sat (spe_Identities spe) ids (spe_Rule spe) U).
Proof.
  intros H ids. unfold EnvelopeBased_NewPolicy in H. simpl in H. run_inv.
  destruct (validIdentities_spec sds des ∅) as [Hn Hf].
  destruct (compile_sound _ ids _ _ H0 (replicate (length ids) false)) as (ok & used & Hev & _ & Hok);
    [by rewrite length_replicate|].
  simpl. unfold policy_EvaluateSignedData, policy_EvaluateIdentities. fold ids. rewrite Hev. simpl.
  eexists. split; [done|]. split; [done|]. split.
  { eapply Forall_impl; [exact Hf|]. by intros id [_ ?]. }
  destruct ok; [|done]. intros _. destruct (Hok eq_refl) as (U & HU & _). by exists U.
Qed.

(** ** Flat gates are exact *)

Definition satisfies (pr : MSPPrincipal) (id : Identity) : bool :=
  bool_decide (SatisfiesPrincipal id pr = None).

(** No identity satisfies two of the principals. *)
Definition exclusive (prs : list MSPPrincipal) (ids : list Identity) : Prop :=
  ∀ a b p q id, a ≠ b → prs !! a = Some p → prs !! b = Some q → id ∈ ids →
    satisfies p id = true → satisfies q id = false.

(** How many of the principals some identity satisfies. *)
Definition covered (prs : list MSPPrincipal) (ids : list Identity) : Z :=
  Z.of_nat (length (filter (λ pr, existsb (satisfies pr) ids = true) prs)).

Lemma exclusive_cons p prs ids :
  exclusive (p :: prs) ids →
  exclusive prs ids ∧
  ∀ q id, q ∈ prs → id ∈ ids → satisfies p id = true → satisfies q id = false.
Proof.
  intros H. split.
  - intros a b q r id Hab Ha Hb. apply (H (S a) (S b)); auto.
  - intros q id [b Hb]%list_elem_of_lookup. by apply (H 0%nat (S b)).
Qed.

Lemma signedBy_exact pr ids used :
  length used = length ids →
  (∀ k id, used !! k = Some true → ids !! k = Some id → satisfies pr id = false) →
  ∃ used', signedByEvaluator pr ids used = Done (existsb (satisfies pr) ids, used') ∧
    length used' = length used ∧
    (∀ k id, used' !! k = Some true → ids !! k = Some id →
      used !! k = Some true ∨ satisfies pr id = true ∨ existsb (satisfies pr) ids = false).
Proof.
  intros Hl Hu. destruct (signedBy_uses pr ids used Hl) as (ok & used' & Hev & Hlen & Ht & Hf).
  exists used'. rewrite Hev. destruct ok.
  - destruct (Ht eq_refl) as (k & id & Hk & Hs & _ & _ & Huse).
    assert (existsb (satisfies pr) ids = true) as ->.
    { apply existsb_exists. exists id. split; [by eapply list_elem_of_In, list_elem_of_lookup_2|].
      unfold satisfies. by rewrite bool_decide_true. }
    split; [done|]. split; [done|]. intros j idj Hj Hidj.
    apply Huse in Hj as [Hj| ->%elem_of_singleton]; [auto|]. right. left.
    unfold satisfies. rewrite bool_decide_true; congruence.
  - assert (existsb (satisfies pr) ids = false) as ->; [|auto].
    apply not_true_is_false. rewrite existsb_exists. intros (id & Hin & Hs).
    apply list_elem_of_In, list_elem_of_lookup in Hin as [k Hk].
    assert (is_Some (used !! k)) as [[] Eu].
    { apply lookup_lt_is_Some_2. rewrite Hl. by eapply lookup_lt_Some. }
    + rewrite (Hu k id) in Hs by done. done.
    + apply (Hf eq_refl k id Hk Eu). by apply bool_decide_eq_true in Hs.
Qed.

Lemma gateLoop_flat prs ids :
  exclusive prs ids →
  ∀ v used, length used = length ids → - 2 ^ 31 <= v → v + Z.of_nat (length prs) < 2 ^ 31 →
  (∀ pr k id, pr ∈ prs → used !! k = Some true → ids !! k = Some id → satisfies pr id = false) →
  ∃ used', gateLoop (signedByEvaluator <$> prs) ids v used = Done (v + covered prs ids, used').
Proof.
  induction prs as [|p prs IH]; intros Hex v used Hl Hv Hb Hu.
  { exists used. simpl. f_equal. f_equal. unfold covered. simpl. lia. }
  apply exclusive_cons in Hex as [Hex Hp].
  destruct (signedBy_exact p ids used Hl) as (_used & Hev & Hlen & Huse).
  { intros k id. apply Hu. set_solver. }
  simpl. rewrite Hev. simpl. unfold covered. rewrite filter_cons. simpl in Hb.
  destruct (existsb (satisfies p) ids) eqn:E.
  - rewrite decide_True by done. rewrite i32_small by lia.
    destruct (IH Hex (v + 1) _used) as [used' E']; [lia|lia|lia| |].
    + intros pr k id Hpr Hk Hid. destruct (Huse k id Hk Hid) as [?|[?|?]]; [|auto|done].
      * eapply Hu; [by right|done|done].
      * apply Hp; [done| |done]. by eapply list_elem_of_lookup_2.
    + exists used'. etrans; [exact E'|]. f_equal. f_equal. simpl. unfold covered. lia.
  - rewrite decide_False by done. apply (IH Hex v used); [done|lia|lia|].
    intros pr k id Hpr. apply Hu. by right.
Qed.

(** A gate over signed-by leaves whose principals no identity satisfies
    twice, the policies Fabric generates for organisations, accepts exactly when
    at least [n] of the principals are satisfied by some identity. *)
Theorem flat_gate_exact n idxs principals prs ids ev :
  compile (SignaturePolicy_NOutOf n (SignaturePolicy_SignedBy <$> idxs)) principals = Ok ev →
  Forall2 (λ i pr, principals !! Z.to_nat i = Some pr) idxs prs →
  Z.of_nat (length idxs) < 2 ^ 31 → exclusive prs ids →
  policy_EvaluateIdentities ev ids =
    Done (if n <=? covered prs ids then None
          else Some (Errorf "signature set did not satisfy policy")).
Proof.
  rewrite compile_gate. intros H Hprs Hlen Hex. run_inv.
  apply compileRules_Forall2 in H0.
  assert (x = signedByEvaluator <$> prs) as ->.
  { clear -H0 Hprs. revert x H0. induction Hprs as [|i pr idxs prs Hi _ IH]; intros evs H.
    - by inversion H.
    - inversion H as [|? ev ? evs' He Hes]; subst. simpl. f_equal; [|by apply IH].
      simpl in He. destruct (_ || _); [done|]. run_inv. congruence. }
  unfold policy_EvaluateIdentities, gateEvaluator.
  destruct (gateLoop_flat prs ids Hex 0 (replicate (length ids) false)) as [used' ->].
  - by rewrite length_replicate.
  - lia.
  - apply Forall2_length in Hprs. lia.
  - intros pr k id _ Hk. apply lookup_replicate_1 in Hk as [? _]. done.
  - reflexivity.
Qed.

(** ** Gates can starve a later rule

    A gate goes on after [n] of its rules are satisfied, and what the further
    rules use stays used. The policy "(A or B) and B" then rejects signatures of
    both A and B: the inner gate has used both signers when the second rule looks
    for one. *)

Definition demo_principal (org : string) : MSPPrincipal :=
  mkMSPPrincipal 0 (String.list_byte_of_string org).

(** A member of an organisation, whose signatures all verify. *)
Definition demo_member (org name : string) : Identity := {|
  GetIdentifier_Mspid := org;
  GetIdentifier_Id := name;
  Verify := λ _ _, None;
  SatisfiesPrincipal := λ pr,
    if decide (Principal pr = String.list_byte_of_string org) then None
    else Some (Errorf "not a member of the organisation")
|}.

Definition starving_policy : SignaturePolicy :=
  SignaturePolicy_NOutOf 2 [
    SignaturePolicy_NOutOf 1 [SignaturePolicy_SignedBy 0; SignaturePolicy_SignedBy 1];
    SignaturePolicy_SignedBy 1].

(** A gate keeps consuming signers after its threshold is reached, so
    evaluation is not complete: "(A or B) and B" rejects valid signatures of A
    and B although they satisfy it. *)
Theorem gate_starves :
  let prs := [demo_principal "A"; demo_principal "B"] in
  let ids := [demo_member "A" "a"; demo_member "B" "b"] in
  (∃ U, sat prs ids starving_policy U) ∧
  ∃ ev, compile starving_policy prs = Ok ev ∧
    policy_EvaluateIdentities ev ids = Done (Some (Errorf "signature set did not satisfy policy")).
Proof.
  split.
  - exists {[ 0%nat; 1%nat ]}, 2. split; [lia|]. right. exists {[ 0%nat ]}, {[ 1%nat ]}.
    split; [|split; [|set_solver]].
    + exists 1. split; [lia|]. right. exists {[ 0%nat ]}, ∅. split; [|split; [|set_solver]].
      * split; [lia|]. by eexists _, 0%nat, _.
      * left. split; [lia|done].
    + right. exists {[ 1%nat ]}, ∅. split; [|split; [|set_solver]].
      * split; [lia|]. by eexists _, 1%nat, _.
      * split; [lia|done].
  - eexists. split; reflexivity.
Qed.

(** ** Witnesses *)

Definition demo_envelope : SignaturePolicyEnvelope :=
  mkSignaturePolicyEnvelope 0
    (SignaturePolicy_NOutOf 2 (SignaturePolicy_SignedBy <$> [0; 1; 2]))
    [demo_principal "A"; demo_principal "B"; demo_principal "C"].

(** Identities are serialised as the name of their organisation. *)
Definition demo_deserializer : IdentityDeserializer := λ b,
  Ok (demo_member (String.string_of_list_byte b) "1").

Definition demo_signature (org : string) : SignedData :=
  mkSignedData [] (String.list_byte_of_string org) [].

(** Two of three organisations sign, one of them twice. *)
Definition demo_signatures : list SignedData :=
  [demo_signature "A"; demo_signature "A"; demo_signature "C"].

Lemma signature_policy_sound_witness :
  let ids := SignatureSetToValidIdentities demo_signatures demo_deserializer in
  (identityKey <$> ids) = ["A1"; "C1"]%string ∧
  ∃ pol, EnvelopeBased_NewPolicy demo_deserializer (Some demo_envelope) = Ok pol ∧
    EvaluateSignedData pol demo_signatures = Done None ∧
    ∃ U, sat (spe_Identities demo_envelope) ids (spe_Rule demo_envelope) U.
Proof.
  intros ids. split; [reflexivity|]. eexists. split; [reflexivity|]. split; [reflexivity|].
  edestruct (signature_policy_sound demo_deserializer demo_envelope _ demo_signatures eq_refl)
    as (r & Hr & _ & _ & H).
  apply H. injection Hr as <-. reflexivity.
Defined.

Lemma flat_gate_exact_witness :
  let ids := [demo_member "A" "1"; demo_member "C" "1"] in
  covered (spe_Identities demo_envelope) ids = 2 ∧
  ∃ ev, compile (spe_Rule demo_envelope) (spe_Identities demo_envelope) = Ok ev ∧
    policy_EvaluateIdentities ev ids = Done None.
Proof.
  intros ids. split; [reflexivity|]. eexists. split; [reflexivity|].
  eapply (flat_gate_exact 2 [0; 1; 2] (spe_Identities demo_envelope) (spe_Identities demo_envelope) ids
    _ eq_refl); [by repeat constructor|simpl; lia|].
  intros a b p q id Hab Ha Hb Hid.
  assert (id = demo_member "A" "1" ∨ id = demo_member "C" "1") as [-> | ->] by set_solver;
    destruct a as [|[|[|]]], b as [|[|[|]]]; simplify_eq/=; done.
Defined.
