(* ===== verification/PolicyManager.v ===== *)
(** * Policy managers

    [common/policies]: the tree of policy managers of a channel configuration
    ([NewManagerImpl], [Manager], [GetPolicy]), implicit meta policies
    ([NewImplicitMetaPolicy] and their evaluation), their textual form
    ([ImplicitMetaFromString]) and their conversion to signature policies
    ([remap], [merge], [Convert]). Logging is left out: a [PolicyLogger]
    evaluates and converts as the policy it wraps. *)

From Stdlib Require Import Ascii String.
From stdpp Require Import gmap strings list pretty.
From S2P Require Import Prelude Protos ConfigProtos GoLib Cauthdsl.

Definition PathSeparator : string := "/".

(** ** Managers *)

(** [policies.Provider] *)
Abbreviation Provider := (bytes → res Policy).

Inductive ManagerImpl := mkManagerImpl {
  pm_path : string;
  pm_Policies : gmap string Policy;
  pm_managers : gmap string ManagerImpl
}.

(** [rejectPolicy] *)
Definition rejectPolicy (rp : string) : Policy := {|
  EvaluateSignedData := λ _, Done (Some (Errorf "no such policy"));
  EvaluateIdentities := λ _, Done (Some (Errorf "no such policy"));
  Converter := None
|}.

(** [PolicyLogger]: it implements [Converter] whatever it wraps. *)
Definition PolicyLogger (p : Policy) : Policy := {|
  EvaluateSignedData := EvaluateSignedData p;
  EvaluateIdentities := EvaluateIdentities p;
  Converter := Some match Converter p with
    | None => fail "policy is not convertible to SignaturePolicyEnvelope"
    | Some c => c
    end
|}.

(** [ManagerImpl.Manager] *)
Fixpoint Manager (path : list string) (pm : ManagerImpl) : option ManagerImpl :=
  match path with
  | [] => Some pm
  | p :: path => m ← pm_managers pm !! p; Manager path m
  end.

(** [ManagerImpl.GetPolicy] *)
Definition GetPolicy (id : string) (pm : ManagerImpl) : outcome (Policy * bool) :=
  if decide (id = "") then Done (rejectPolicy id, false)
  else if HasPrefix id PathSeparator && negb (HasPrefix id (PathSeparator +:+ pm_path pm)) then
    Done (rejectPolicy id, false)
  else
    relpath ← (if HasPrefix id PathSeparator
               then slice_from id (1 + String.length (pm_path pm) + 1) else Done id);
    match pm_Policies pm !! relpath with
    | None => Done (rejectPolicy relpath, false)
    | Some policy => Done (PolicyLogger policy, true)
    end.

(** ** Implicit meta policies *)

Record ImplicitMetaPolicy := mkImplicitMetaPolicy {
  Threshold : Z;
  SubPolicies : list Policy;
  SubPolicyName : string
}.

(** The threshold of a rule over [n] sub-policies. *)
Definition thresholdOf (rule n : Z) : Z :=
  let threshold :=
    if rule =? ImplicitMetaPolicy_ANY then 1
    else if rule =? ImplicitMetaPolicy_ALL then n
    else if rule =? ImplicitMetaPolicy_MAJORITY then n / 2 + 1
    else 0 in
  if n =? 0 then 0 else threshold.

(** [for _, manager := range managers], collecting the sub-policies. *)
Fixpoint subPolicies (name : string) (managers : list ManagerImpl) : outcome (list Policy) :=
  match managers with
  | [] => Done []
  | m :: managers =>
    '(p, _) ← GetPolicy name m; ps ← subPolicies name managers; Done (p :: ps)
  end.

Definition NewImplicitMetaPolicy `{!Codec ImplicitMetaDefinition} (data : bytes)
    (managers : gmap string ManagerImpl) : fallible ImplicitMetaPolicy :=
  match unmarshal (A:=ImplicitMetaDefinition) data with
  | None => fail "Error unmarshaling to ImplicitMetaPolicy"
  | Some definition =>
    subs ← subPolicies (SubPolicy definition) (map_to_list managers).*2;
    ok (mkImplicitMetaPolicy (thresholdOf (Rule definition) (Z.of_nat (length subs))) subs
          (SubPolicy definition))
  end.

(** The loop over the sub-policies, with the number still [remaining]: it stops
    when that reaches zero. *)
Fixpoint countDown (evaluate : Policy → outcome (option error)) (policies : list Policy)
    (remaining : Z) : outcome Z :=
  match policies with
  | [] => Done remaining
  | policy :: policies =>
    err ← evaluate policy;
    match err with
    | None =>
      if remaining - 1 =? 0 then Done 0 else countDown evaluate policies (remaining - 1)
    | Some _ => countDown evaluate policies remaining
    end
  end.

(** [ImplicitMetaPolicy.EvaluateSignedData] and [EvaluateIdentities]. *)
Definition implicitEvaluate (imp : ImplicitMetaPolicy) (evaluate : Policy → outcome (option error))
    : outcome (option error) :=
  remaining ← countDown evaluate (SubPolicies imp) (Threshold imp);
  Done (if remaining =? 0 then None else Some (Errorf "implicit policy evaluation failed")).

Definition ImplicitMeta_EvaluateSignedData (imp : ImplicitMetaPolicy) (signatureSet : list SignedData)
    : outcome (option error) :=
  implicitEvaluate imp (λ policy, EvaluateSignedData policy signatureSet).

Definition ImplicitMeta_EvaluateIdentities (imp : ImplicitMetaPolicy) (identities : list Identity)
    : outcome (option error) :=
  implicitEvaluate imp (λ policy, EvaluateIdentities policy identities).

(** [ImplicitMetaFromString] *)
Definition ImplicitMetaFromString (input : string) : res ImplicitMetaDefinition :=
  match strings_Split " " input with
  | [rule; sub] =>
    if decide (rule = "ANY") then Ok (mkImplicitMetaDefinition sub ImplicitMetaPolicy_ANY)
    else if decide (rule = "ALL") then Ok (mkImplicitMetaDefinition sub ImplicitMetaPolicy_ALL)
    else if decide (rule = "MAJORITY") then
      Ok (mkImplicitMetaDefinition sub ImplicitMetaPolicy_MAJORITY)
    else Err (Errorf "unknown rule type")
  | _ => Err (Errorf "expected two space separated tokens")
  end.

(** ** Conversion to signature policies *)

(** [remap] *)
Fixpoint remap (sp : SignaturePolicy) (idRemap : gmap Z Z) : outcome SignaturePolicy :=
  match sp with
  | SignaturePolicy_NOutOf n rules =>
    rules ← (fix go rules :=
      match rules with
      | [] => Done []
      | rule :: rules => rule ← remap rule idRemap; rules ← go rules; Done (rule :: rules)
      end) rules;
    Done (SignaturePolicy_NOutOf n rules)
  | SignaturePolicy_SignedBy i =>
    match idRemap !! i with
    | None => Panic "programming error"
    | Some newID => Done (SignaturePolicy_SignedBy (i32 newID))
    end
  | SignaturePolicy_unset => Panic "invalid policy type"
  | SignaturePolicy_nil => Panic "nil pointer dereference"
  end.

(** [MSPPrincipal_Classification.String] *)
Definition classification_String (c : Z) : string :=
  if c =? 0 then "ROLE" else if c =? 1 then "ORGANIZATION_UNIT" else if c =? 2 then "IDENTITY"
  else if c =? 3 then "ANONYMITY" else if c =? 4 then "COMBINED" else pretty c.

(** The key under which [merge] identifies a principal. *)
Definition principalKey (id : MSPPrincipal) : string :=
  classification_String (PrincipalClassification id) +:+ String.string_of_list_byte (Principal id).

(** The first loop of [merge]: the last index of every principal of [this]. *)
Fixpoint indexPrincipals (i : Z) (ids : list MSPPrincipal) (idMap : gmap string Z) : gmap string Z :=
  match ids with
  | [] => idMap
  | id :: ids => indexPrincipals (i + 1) ids (<[principalKey id := i]> idMap)
  end.

(** The second loop: [that]'s principals are looked up or appended. *)
Fixpoint mergePrincipals (i : Z) (ids : list MSPPrincipal)
    (st : list MSPPrincipal * gmap string Z * gmap Z Z) : list MSPPrincipal * gmap string Z * gmap Z Z :=
  match ids with
  | [] => st
  | id :: ids =>
    let '(IDs, idMap, idRemap) := st in
    mergePrincipals (i + 1) ids
      match idMap !! principalKey id with
      | Some j => (IDs, idMap, <[i := j]> idRemap)
      | None =>
        (IDs ++ [id], <[principalKey id := Z.of_nat (length IDs)]> idMap,
         <[i := Z.of_nat (length IDs)]> idRemap)
      end
  end.

(** [merge], as the new value of [this]. *)
Definition merge (this that : SignaturePolicyEnvelope) : outcome SignaturePolicyEnvelope :=
  let idMap := indexPrincipals 0 (spe_Identities this) ∅ in
  let '(IDs, _, idRemap) := mergePrincipals 0 (spe_Identities that) (spe_Identities this, idMap, ∅) in
  newEntry ← remap (spe_Rule that) idRemap;
  match spe_Rule this with
  | SignaturePolicy_NOutOf n existingRules =>
    Done (mkSignaturePolicyEnvelope (spe_Version this)
            (SignaturePolicy_NOutOf n (existingRules ++ [newEntry])) IDs)
  | _ => Panic "interface conversion"
  end.

(** The loop of [Convert]. *)
Fixpoint convertAll (subs : list Policy) (converted : SignaturePolicyEnvelope)
    : fallible SignaturePolicyEnvelope :=
  match subs with
  | [] => ok converted
  | sub :: subs =>
    match Converter sub with
    | None => fail "subpolicy is not convertible"
    | Some Convert =>
      spe ←? Convert; converted ← merge converted spe; convertAll subs converted
    end
  end.

(** [ImplicitMetaPolicy.Convert] *)
Definition ImplicitMeta_Convert (imp : ImplicitMetaPolicy) : fallible SignaturePolicyEnvelope :=
  convertAll (SubPolicies imp)
    (mkSignaturePolicyEnvelope 0 (SignaturePolicy_NOutOf (i32 (Threshold imp)) []) []).

Definition implicitPolicy (imp : ImplicitMetaPolicy) : Policy := {|
  EvaluateSignedData := ImplicitMeta_EvaluateSignedData imp;
  EvaluateIdentities := ImplicitMeta_EvaluateIdentities imp;
  Converter := Some (ImplicitMeta_Convert imp)
|}.

(** ** Building the managers of a configuration *)

Section managers.
Context `{!Codec ImplicitMetaDefinition} (providers : gmap Z Provider).

(** One policy of a group, given the managers of its sub-groups. *)
Definition newPolicy (managers : gmap string ManagerImpl) (configPolicy : ConfigPolicy)
    : fallible Policy :=
  match cp_Policy configPolicy with
  | None => fail "policy was nil"
  | Some policy =>
    if pol_Type policy =? Policy_IMPLICIT_META then
      imp ←? NewImplicitMetaPolicy (pol_Value policy) managers; ok (implicitPolicy imp)
    else
      match providers !! pol_Type policy with
      | None => fail "policy has unknown policy type"
      | Some NewPolicy => Done (NewPolicy (pol_Value policy))
      end
  end.

(** The policies of the sub-managers, under qualified names. *)
Definition qualifiedPolicies (managers : gmap string ManagerImpl) (policies : gmap string Policy)
    : gmap string Policy :=
  map_fold (λ groupName m policies,
    map_fold (λ policyName policy policies,
      <[groupName +:+ PathSeparator +:+ policyName := policy]> policies) policies (pm_Policies m))
    policies managers.

(** [NewManagerImpl] *)
Fixpoint NewManagerImpl (path : string) (root : ConfigGroup) : fallible ManagerImpl :=
  match providers !! Policy_IMPLICIT_META with
  | Some _ => Panic "ImplicitMetaPolicy type must be provider by the policy manager"
  | None =>
    let 'mkConfigGroup _ groups _ configPolicies _ := root in
    managers ←? range (λ groupName group managers,
      m ←? NewManagerImpl (path +:+ PathSeparator +:+ groupName) group;
      ok (<[groupName := m]> managers)) groups ∅;
    policies ←? range (λ policyName configPolicy policies,
      policy ←? newPolicy managers configPolicy;
      ok (<[policyName := policy]> policies)) configPolicies ∅;
    ok (mkManagerImpl path (qualifiedPolicies managers policies) managers)
  end.
End managers.
