(* ===== verification/PolicyProps.v ===== *)
(** * Properties of policy managers

    How a policy is found in the tree of managers, when [GetPolicy] panics, what
    implicit meta policies accept, and that converting one to a signature policy
    keeps the sets of signers that satisfy it. *)

From Stdlib Require Import Ascii String.
From stdpp Require Import gmap strings list pretty.
From S2P Require Import Prelude Protos ConfigProtos GoLib Cauthdsl PolicyManager.

(** ** Looking up a policy *)

(** The absolute path of the manager itself is sliced out of range. *)
Lemma GetPolicy_own_path pm : ∃ why, GetPolicy (PathSeparator +:+ pm_path pm) pm = Panic why.
Proof.
  unfold GetPolicy. rewrite decide_False by done.
  rewrite (proj2 (HasPrefix_spec _ PathSeparator)) by eauto.
  rewrite (proj2 (HasPrefix_spec _ (PathSeparator +:+ _))) by (exists ""; by rewrite str_app_nil).
  simpl. eexists. unfold slice_from. rewrite (proj2 (Nat.leb_gt _ _)); [done|].
  rewrite str_app_length. simpl. lia.
Qed.

(** Looking up a policy panics exactly for the absolute path of the
    manager itself, whose trailing separator the code slices off unseen: a
    configuration that names such a path as a policy crashes the process. *)
Theorem GetPolicy_panics_iff id pm :
  (∃ why, GetPolicy id pm = Panic why) ↔ id = PathSeparator +:+ pm_path pm.
Proof.
  split.
  - unfold GetPolicy. intros [why H]. case_decide; [done|].
    destruct (HasPrefix id PathSeparator) eqn:Es; simpl in H; [|by destruct (_ !! _)].
    destruct (HasPrefix id (PathSeparator +:+ pm_path pm)) eqn:Ep; simpl in H; [|done].
    apply HasPrefix_spec in Ep as [t ->]. unfold slice_from in H.
    rewrite !str_app_length in H. destruct t as [|c t]; [by rewrite str_app_nil|].
    rewrite (proj2 (Nat.leb_le _ _)) in H; [|simpl; lia]. simpl in H. by destruct (_ !! _).
  - intros ->. apply GetPolicy_own_path.
Qed.

(** A name that can be an element of a path. *)
Definition pathName (s : string) : Prop := s ≠ "" ∧ lacks "/" s.

(** The name of a policy of the group at [p], seen from above. *)
Definition qualify (p : list string) (name : string) : string :=
  foldr (λ g s, g +:+ PathSeparator +:+ s) name p.

(** Every group and policy of the tree has a proper name, which is what
    [validateConfigID] enforces. *)
Definition namedTree (g : ConfigGroup) : Prop :=
  ∀ p h, groupAt p g = Some h →
    map_Forall (λ k _, pathName k) (Groups h) ∧ map_Forall (λ k _, pathName k) (Policies h).

Lemma namedTree_child g k h : namedTree g → Groups g !! k = Some h → namedTree h.
Proof. intros Hg Hk p h' Hp. apply (Hg (k :: p)). simpl. by rewrite Hk. Qed.

Lemma qualified_inj k n k' n' :
  pathName k → pathName k' →
  k +:+ PathSeparator +:+ n = k' +:+ PathSeparator +:+ n' → k = k' ∧ n = n'.
Proof. intros [_ H] [_ H']. apply sep_inj; done. Qed.

Lemma qualified_lacks k n : ¬ lacks "/" (k +:+ PathSeparator +:+ n).
Proof. rewrite lacks_app. simpl. tauto. Qed.

Section qualified.
Context (managers : gmap string ManagerImpl).
Hypothesis named : ∀ k m, managers !! k = Some m → pathName k.

Let inner (groupName : string) (m : ManagerImpl) (policies : gmap string Policy) :=
  map_fold (λ policyName policy policies,
    <[groupName +:+ PathSeparator +:+ policyName := policy]> policies) policies (pm_Policies m).

Lemma inner_other k m ps key :
  (∀ n, key ≠ k +:+ PathSeparator +:+ n) → inner k m ps !! key = ps !! key.
Proof.
  intros H. unfold inner. apply (map_fold_weak_ind (λ r _, r !! key = ps !! key)); [done|].
  intros n p ms r _ IH. rewrite lookup_insert_ne; [done|]. by apply not_eq_sym.
Qed.

Lemma inner_own k m ps n :
  inner k m ps !! (k +:+ PathSeparator +:+ n) =
    match pm_Policies m !! n with Some p => Some p | None => ps !! (k +:+ PathSeparator +:+ n) end.
Proof.
  unfold inner. revert n.
  apply (map_fold_weak_ind (λ r ms, ∀ n, r !! (k +:+ PathSeparator +:+ n) =
    match ms !! n with Some p => Some p | None => ps !! (k +:+ PathSeparator +:+ n) end)).
  - intros n. by rewrite lookup_empty.
  - intros n p ms r Hn IH j. destruct (decide (j = n)) as [->|Hj].
    + by rewrite !lookup_insert_eq.
    + rewrite !lookup_insert_ne; [done|done|]. by intros ?%str_app_inj%(str_app_inj PathSeparator).
Qed.

(** A qualified name is looked up in the manager of the group, and a plain name
    among the group's own policies. *)
Lemma qualified_lookup own k n :
  pathName k →
  (∀ j, own !! (k +:+ PathSeparator +:+ j) = None) →
  qualifiedPolicies managers own !! (k +:+ PathSeparator +:+ n) =
    (m ← managers !! k; pm_Policies m !! n).
Proof.
  intros Hk Hown. unfold qualifiedPolicies. fold inner. revert named.
  apply (map_fold_weak_ind (λ r ms, (∀ k m, ms !! k = Some m → pathName k) →
    r !! (k +:+ PathSeparator +:+ n) = (m ← ms !! k; pm_Policies m !! n))).
  - intros _. by rewrite lookup_empty.
  - intros j m ms r Hj IH Hnamed.
    assert (Hms : ∀ k m, ms !! k = Some m → pathName k).
    { intros k' m' Hk'. apply (Hnamed k' m'). rewrite lookup_insert_ne; [done|]. by intros ->; rewrite Hj in Hk'. }
    assert (Hpj : pathName j) by (apply (Hnamed j m); by rewrite lookup_insert_eq).
    change (inner j m r !! (k +:+ PathSeparator +:+ n) = (m ← <[j:=m]> ms !! k; pm_Policies m !! n)).
    destruct (decide (k = j)) as [->|Hkj].
    + rewrite inner_own, IH, lookup_insert_eq, Hj by done. simpl. by destruct (pm_Policies m !! n).
    + rewrite inner_other, IH, lookup_insert_ne by (done || intros ? [? _]%qualified_inj; auto). done.
Qed.

Lemma qualified_plain own n :
  lacks "/" n → qualifiedPolicies managers own !! n = own !! n.
Proof.
  intros Hn. unfold qualifiedPolicies. fold inner.
  apply (map_fold_weak_ind (λ r _, r !! n = own !! n)); [done|].
  intros k m ms r _ IH. change (inner k m r !! n = own !! n). rewrite inner_other; [done|].
  intros j ->. by apply qualified_lacks in Hn.
Qed.
End qualified.

Section tree.
Context `{!Codec ImplicitMetaDefinition} (providers : gmap Z Provider).

(** What a manager holds: the managers of the sub-groups and the group's own
    policies, and the qualified policies of the former. *)
Lemma NewManagerImpl_inv path g pm :
  NewManagerImpl providers path g = Done (Ok pm) →
  pm_path pm = path ∧
  (∀ k, option_Forall2 (λ h m, NewManagerImpl providers (path +:+ PathSeparator +:+ k) h = Done (Ok m))
    (Groups g !! k) (pm_managers pm !! k)) ∧
  ∃ own, pm_Policies pm = qualifiedPolicies (pm_managers pm) own ∧
    ∀ n, option_Forall2 (λ cp pol, newPolicy providers (pm_managers pm) cp = Done (Ok pol))
      (Policies g !! n) (own !! n).
Proof.
  destruct g as [v gs vs ps mp]. cbn -[range]. destruct (providers !! _); [done|].
  intros (ms & Hms & (own & Hown & Hpm)%try_bind_ok)%try_bind_ok. injection Hpm as <-. simpl.
  split; [done|]. split; [by apply range_fill|]. exists own. split; [done|].
  apply (range_fill (λ _ cp, newPolicy providers ms cp)). done.
Qed.

(** The policies named below a group, found through the tree of managers. *)
Lemma policies_lookup p n path g pm :
  namedTree g → NewManagerImpl providers path g = Done (Ok pm) →
  Forall pathName p → pathName n →
  match h ← groupAt p g; Policies h !! n with
  | Some cp => ∃ sub pol, Manager p pm = Some sub ∧
      newPolicy providers (pm_managers sub) cp = Done (Ok pol) ∧
      pm_Policies pm !! qualify p n = Some pol
  | None => pm_Policies pm !! qualify p n = None
  end.
Proof.
  revert path g pm. induction p as [|k p IH]; intros path g pm Hg Hpm Hp Hn.
  - apply NewManagerImpl_inv in Hpm as (_ & _ & own & Hpol & Hown). simpl. specialize (Hown n).
    rewrite Hpol, qualified_plain by apply Hn.
    destruct Hown as [cp pol H|]; [|done]. by exists pm, pol.
  - inversion Hp as [|? ? Hk Hp']; subst.
    apply NewManagerImpl_inv in Hpm as (_ & Hms & own & Hpol & Hown). simpl.
    destruct (Hg [] g eq_refl) as [HgG HgP].
    assert (Hnamed : ∀ k' m, pm_managers pm !! k' = Some m → pathName k').
    { intros k' m Hk'. specialize (Hms k'). rewrite Hk' in Hms. inversion Hms as [h ? ? E|]; subst.
      by apply (HgG k' h). }
    assert (Hplain : ∀ j, own !! (k +:+ PathSeparator +:+ j) = None).
    { intros j. destruct (own !! _) eqn:Ej; [|done]. specialize (Hown (k +:+ PathSeparator +:+ j)).
      rewrite Ej in Hown. inversion Hown as [cp ? ? E|]; subst.
      destruct (HgP _ cp (eq_sym E)) as [_ Hl]. by apply qualified_lacks in Hl. }
    rewrite Hpol, (qualified_lookup (pm_managers pm) Hnamed own k _ Hk Hplain).
    specialize (Hms k). destruct (Groups g !! k) as [h|] eqn:Ek; inversion Hms as [? m Hm E|E]; subst;
      simpl; [|done].
    specialize (IH _ h m (namedTree_child _ _ _ Hg Ek) Hm Hp' Hn).
    destruct (groupAt p h ≫= λ h', Policies h' !! n); done.
Qed.

Lemma qualify_relative p n :
  Forall pathName p → pathName n → qualify p n ≠ "" ∧ HasPrefix (qualify p n) PathSeparator = false.
Proof.
  assert (Hname : ∀ s t, pathName s → s +:+ t ≠ "" ∧ HasPrefix (s +:+ t) PathSeparator = false).
  { intros [|c s] t [Hs Hl]; [done|]. split; [done|].
    apply not_true_is_false. intros [u Hu]%HasPrefix_spec. injection Hu as -> _. by destruct Hl. }
  intros [|k p' Hk Hp'] Hn; simpl; [|by apply Hname]. rewrite <- (str_app_nil n). by apply Hname.
Qed.

Lemma GetPolicy_relative rel pm :
  rel ≠ "" → HasPrefix rel PathSeparator = false →
  GetPolicy rel pm = Done match pm_Policies pm !! rel with
    | None => (rejectPolicy rel, false)
    | Some policy => (PolicyLogger policy, true)
    end.
Proof.
  intros H0 Hr. unfold GetPolicy. rewrite decide_False, Hr by done. simpl. by destruct (_ !! _).
Qed.

Lemma GetPolicy_absolute rel pm :
  GetPolicy (PathSeparator +:+ pm_path pm +:+ PathSeparator +:+ rel) pm =
    Done match pm_Policies pm !! rel with
    | None => (rejectPolicy rel, false)
    | Some policy => (PolicyLogger policy, true)
    end.
Proof.
  unfold GetPolicy. rewrite decide_False by done.
  rewrite (proj2 (HasPrefix_spec _ PathSeparator)) by eauto.
  rewrite (proj2 (HasPrefix_spec _ (PathSeparator +:+ pm_path pm))); [|].
  2: { exists (PathSeparator +:+ rel). by rewrite str_app_assoc. }
  simpl negb. unfold slice_from. rewrite (proj2 (Nat.leb_le _ _)).
  2: { rewrite !str_app_length. simpl. lia. }
  replace (1 + String.length (pm_path pm) + 1)%nat
    with (String.length (PathSeparator +:+ pm_path pm +:+ PathSeparator))
    by (rewrite !str_app_length; simpl; lia).
  replace (PathSeparator +:+ pm_path pm +:+ PathSeparator +:+ rel)
    with ((PathSeparator +:+ pm_path pm +:+ PathSeparator) +:+ rel) by by rewrite !str_app_assoc.
  rewrite str_drop_app. simpl. by destruct (_ !! _).
Qed.

(** The manager built for a configuration finds exactly the policies of
    the configuration tree: the policy of any group by its path, relative or
    absolute, compiled against the managers of that group's sub-groups, and a
    policy that rejects everything for any other name. *)
Theorem policy_tree p n path g pm :
  namedTree g → NewManagerImpl providers path g = Done (Ok pm) →
  Forall pathName p → pathName n →
  ∃ r, GetPolicy (qualify p n) pm = Done r ∧
    GetPolicy (PathSeparator +:+ path +:+ PathSeparator +:+ qualify p n) pm = Done r ∧
    match h ← groupAt p g; Policies h !! n with
    | Some cp => ∃ sub pol, Manager p pm = Some sub ∧
        newPolicy providers (pm_managers sub) cp = Done (Ok pol) ∧ r = (PolicyLogger pol, true)
    | None => r = (rejectPolicy (qualify p n), false)
    end.
Proof.
  intros Hg Hpm Hp Hn. destruct (qualify_relative p n Hp Hn) as [H0 Hr].
  assert (pm_path pm = path) as <- by (by apply NewManagerImpl_inv in Hpm as [? _]).
  rewrite GetPolicy_relative, GetPolicy_absolute by done.
  eexists. split; [done|]. split; [done|].
  pose proof (policies_lookup p n _ g pm Hg Hpm Hp Hn) as H.
  destruct (h ← groupAt p g; Policies h !! n) as [cp|].
  - destruct H as (sub & pol & ? & ? & ->). by exists sub, pol.
  - by rewrite H.
Qed.
End tree.

(** ** Implicit meta policies *)

Definition accepts (o : outcome (option error)) : bool :=
  match o with Done None => true | _ => false end.

(** The number of policies that accept. *)
Definition accepted (evaluate : Policy → outcome (option error)) (ps : list Policy) : Z :=
  Z.of_nat (length (filter (λ p, accepts (evaluate p) = true) ps)).

Section implicit.
Context (evaluate : Policy → outcome (option error)).

Lemma accepted_cons p ps :
  accepted evaluate (p :: ps) = (if accepts (evaluate p) then 1 else 0) + accepted evaluate ps.
Proof.
  unfold accepted. rewrite filter_cons. destruct (accepts _) eqn:E.
  - rewrite decide_True by done. simpl. lia.
  - rewrite decide_False by done. lia.
Qed.

Lemma countDown_spec ps rem :
  Forall (λ p, is_done (evaluate p) = true) ps →
  countDown evaluate ps rem =
    Done (if 1 <=? rem then Z.max 0 (rem - accepted evaluate ps) else rem - accepted evaluate ps).
Proof.
  intros H. revert rem. induction H as [|p ps Hp Hps IH]; intros rem; simpl.
  { unfold accepted. simpl. f_equal. destruct (1 <=? rem) eqn:E; zbool; lia. }
  rewrite accepted_cons. destruct (evaluate p) as [[e|]|]; simpl; [|clear Hp|done].
  - rewrite IH. done.
  - assert (0 <= accepted evaluate ps) by (unfold accepted; lia).
    destruct (rem - 1 =? 0) eqn:E1; [|rewrite IH]; f_equal;
      destruct (1 <=? rem) eqn:E2; try destruct (1 <=? rem - 1) eqn:E3; zbool; lia.
Qed.

Lemma implicitEvaluate_spec imp :
  Forall (λ p, is_done (evaluate p) = true) (SubPolicies imp) →
  ∃ r, implicitEvaluate imp evaluate = Done r ∧
    (r = None ↔ (if 1 <=? Threshold imp then Threshold imp <= accepted evaluate (SubPolicies imp)
                 else Threshold imp = accepted evaluate (SubPolicies imp))).
Proof.
  intros H. unfold implicitEvaluate. rewrite countDown_spec by done. simpl.
  assert (0 <= accepted evaluate (SubPolicies imp)) by (unfold accepted; lia).
  eexists. split; [done|].
  destruct (1 <=? Threshold imp); destruct (_ =? 0) eqn:E; zbool; split; (done || lia || intros; lia).
Qed.
End implicit.

Lemma countDown_accepted evaluate ps rem r : countDown evaluate ps rem = Done r → rem - accepted evaluate ps <= r.
Proof.
  revert rem. induction ps as [|p ps IH]; intros rem; simpl; [unfold accepted; simpl; intros [= <-]; lia|].
  rewrite accepted_cons. assert (0 <= accepted evaluate ps) by (unfold accepted; lia).
  destruct (evaluate p) as [[e|]|]; simpl; [intros ?%IH; lia| |done].
  destruct (rem - 1 =? 0) eqn:E; zbool; [intros [= <-]; lia|intros ?%IH; lia].
Qed.

(** An implicit meta policy that accepts has enough sub-policies that do. *)
Lemma implicitEvaluate_accepted imp evaluate :
  implicitEvaluate imp evaluate = Done None → Threshold imp <= accepted evaluate (SubPolicies imp).
Proof.
  unfold implicitEvaluate. intros (r & Hr%countDown_accepted & H)%bind_Done. destruct (r =? 0) eqn:E; zbool; [lia|done].
Qed.

Lemma accepted_le evaluate ps : 0 <= accepted evaluate ps <= Z.of_nat (length ps).
Proof.
  unfold accepted. pose proof (length_filter (λ p, accepts (evaluate p) = true) ps). lia.
Qed.

Lemma subPolicies_spec name ms ps :
  subPolicies name ms = Done ps ↔ Forall2 (λ m p, ∃ b, GetPolicy name m = Done (p, b)) ms ps.
Proof.
  revert ps. induction ms as [|m ms IH]; simpl; intros ps; split; intros H.
  - run_inv. constructor.
  - by inversion H.
  - run_inv. constructor; [by eexists|]. by apply IH.
  - inversion H as [|? p ? ps' (b & Hb) Hps]; subst. rewrite Hb. simpl. by rewrite (proj2 (IH _) Hps).
Qed.

Section implicit_meta.
Context `{!Codec ImplicitMetaDefinition}.

Lemma NewImplicitMetaPolicy_inv data managers imp :
  NewImplicitMetaPolicy data managers = Done (Ok imp) →
  ∃ def, unmarshal data = Some def ∧
    Forall2 (λ m p, ∃ b, GetPolicy (SubPolicy def) m = Done (p, b))
      (map_to_list managers).*2 (SubPolicies imp) ∧
    Threshold imp = thresholdOf (Rule def) (Z.of_nat (size managers)).
Proof.
  unfold NewImplicitMetaPolicy. destruct (unmarshal data) as [def|]; [|done].
  intros (ps & Hps & H)%bind_Done. injection H as <-. apply subPolicies_spec in Hps.
  exists def. split; [done|]. split; [done|]. simpl. do 2 f_equal.
  apply Forall2_length in Hps. rewrite <- Hps, length_fmap, length_map_to_list. done.
Qed.

(** C33. An implicit meta policy accepts exactly when enough of the
    like-named policies of the sub-groups accept: one for ANY, all for ALL, more
    than half for MAJORITY, and always when there is no sub-group. *)
Theorem implicit_meta_exact data managers imp def evaluate :
  NewImplicitMetaPolicy data managers = Done (Ok imp) → unmarshal data = Some def →
  Forall (λ p, is_done (evaluate p) = true) (SubPolicies imp) →
  let n := Z.of_nat (size managers) in
  let c := accepted evaluate (SubPolicies imp) in
  ∃ r, implicitEvaluate imp evaluate = Done r ∧
    (Rule def = ImplicitMetaPolicy_ANY → r = None ↔ n = 0 ∨ 1 <= c) ∧
    (Rule def = ImplicitMetaPolicy_ALL → r = None ↔ c = n) ∧
    (Rule def = ImplicitMetaPolicy_MAJORITY → r = None ↔ n = 0 ∨ n < 2 * c).
Proof.
  intros H Hdef Hdone n c. destruct (implicitEvaluate_spec evaluate imp Hdone) as (r & Hr & Hiff).
  apply NewImplicitMetaPolicy_inv in H as (def' & Hdef' & Hsubs & Ht).
  assert (def' = def) as -> by congruence.
  assert (Hc : 0 <= c <= n).
  { subst c n. apply Forall2_length in Hsubs. pose proof (accepted_le evaluate (SubPolicies imp)).
    rewrite length_fmap, length_map_to_list in Hsubs. lia. }
  exists r. split; [done|]. rewrite Hiff, Ht. fold n c. unfold thresholdOf.
  pose proof (Z.div_mod n 2 ltac:(lia)). pose proof (Z.mod_pos_bound n 2 ltac:(lia)).
  split; [|split]; intros Hrule; rewrite Hrule; cbn -[Z.div Z.leb];
    (destruct (n =? 0) eqn:En; zbool; [simpl; lia|]);
    (rewrite (proj2 (Z.leb_le _ _)) by lia); lia.
Qed.

(** An implicit meta policy with a rule outside the enumeration, which
    protobuf lets through, is accepted exactly when no sub-policy is satisfied:
    an unsigned request passes it. *)
Theorem implicit_meta_unknown_rule data managers imp def evaluate :
  NewImplicitMetaPolicy data managers = Done (Ok imp) → unmarshal data = Some def →
  Forall (λ p, is_done (evaluate p) = true) (SubPolicies imp) →
  ¬ 0 <= Rule def <= 2 →
  ∃ r, implicitEvaluate imp evaluate = Done r ∧
    (r = None ↔ accepted evaluate (SubPolicies imp) = 0).
Proof.
  intros H Hdef Hdone Hrule. destruct (implicitEvaluate_spec evaluate imp Hdone) as (r & Hr & Hiff).
  apply NewImplicitMetaPolicy_inv in H as (def' & Hdef' & Hsubs & Ht).
  assert (def' = def) as -> by congruence. exists r. split; [done|]. rewrite Hiff, Ht.
  assert (thresholdOf (Rule def) (Z.of_nat (size managers)) = 0) as ->; [|simpl; lia].
  unfold thresholdOf, ImplicitMetaPolicy_ANY, ImplicitMetaPolicy_ALL, ImplicitMetaPolicy_MAJORITY.
  destruct (Rule def =? 0) eqn:E0, (Rule def =? 1) eqn:E1, (Rule def =? 2) eqn:E2; zbool; try lia.
  by destruct (_ =? 0).
Qed.
End implicit_meta.
