(* ===== verification/PolicyConvert.v ===== *)
(** * Converting implicit meta policies

    [ImplicitMetaPolicy.Convert] merges the signature policies of the
    sub-policies into one gate over a shared list of principals. [Convert_sat]
    shows that it returns a policy that compiles, satisfied by exactly the sets
    of signers that split into disjoint sets satisfying enough sub-policies. *)

From Stdlib Require Import Ascii String Strings.Byte.
From stdpp Require Import gmap strings list pretty.
From S2P Require Import Prelude Protos ConfigProtos GoLib Cauthdsl PolicyManager.

(** ** Well-formed policies *)

(** Every leaf names one of [n] principals. *)
Fixpoint inRange (n : Z) (p : SignaturePolicy) : Prop :=
  match p with
  | SignaturePolicy_SignedBy i => 0 <= i < n
  | SignaturePolicy_NOutOf _ rules =>
    (fix go rules := match rules with [] => True | r :: rs => inRange n r ∧ go rs end) rules
  | _ => False
  end.

Lemma inRange_gate n k rules :
  inRange n (SignaturePolicy_NOutOf k rules) ↔ Forall (inRange n) rules.
Proof.
  simpl. induction rules as [|r rules IH]; split; try done.
  - intros [H1 H2]. constructor; [done|]. by apply IH.
  - inversion 1; subst. split; [done|]. by apply IH.
Qed.

Lemma compile_inRange p prs :
  Z.of_nat (length prs) < 2 ^ 31 →
  (∃ ev, compile p prs = Ok ev) ↔ inRange (Z.of_nat (length prs)) p.
Proof.
  intros Hlen. induction p as [| |i|k rules IH] using SignaturePolicy_rules_ind.
  - split; [by intros []|done].
  - split; [by intros []|done].
  - simpl. rewrite i32_small by lia. destruct (_ || _) eqn:E.
    + split; [by intros []|]. intros. apply orb_true_iff in E as [?|?]; zbool; lia.
    + zbool. destruct (lookup_lt_is_Some_2 prs (Z.to_nat i)) as [pr ->]; [lia|]. simpl.
      split; [lia|]. by eexists.
  - rewrite compile_gate, inRange_gate. split.
    + intros [ev H]. run_inv. apply compileRules_Forall2 in H0. clear -IH H0.
      induction H0 as [|r ev rules evs Hr _ IHr]; inversion IH; subst; constructor; [|auto].
      naive_solver.
    + intros H. cut (∃ evs, compileRules rules prs = Ok evs). { intros [evs ->]. by eexists. }
      clear -IH H. induction rules as [|r rules IHr]; [by eexists|].
      inversion H as [|? ? Hr Hrs]; inversion IH as [|? ? IH1 IH2]; subst.
      destruct IHr as [evs Hevs]; [done..|]. destruct (proj2 IH1) as [ev Hev]; [done|]. simpl. rewrite Hev. simpl. rewrite Hevs. by eexists.
Qed.

(** ** Renaming principals keeps the satisfying sets *)

Lemma sat_gate prs ids n rules U :
  sat prs ids (SignaturePolicy_NOutOf n rules) U ↔ ∃ m, n <= m ∧ satRules prs ids rules m U.
Proof.
  simpl. split; intros (m & Hm & H); exists m; (split; [done|]); clear Hm; revert m U H;
    (induction rules as [|r rules IH]; [done|]); intros m U [H|(V & W & ? & ? & ? & ?)];
    (left + (right; exists V, W; split; [done|]; split; [|done])); by apply IH.
Qed.

(** Rules that are satisfied alike can be exchanged. *)
Lemma satRules_ext prs prs' ids rules rules' :
  Forall2 (λ r r', ∀ U, sat prs ids r U ↔ sat prs' ids r' U) rules rules' →
  ∀ m U, satRules prs ids rules m U ↔ satRules prs' ids rules' m U.
Proof.
  induction 1 as [|r r' rules rules' Hr _ IH]; intros m U; simpl; [done|].
  rewrite IH. f_equiv. split; intros (V & W & HV & HW & ?); exists V, W.
  - rewrite <- Hr, <- IH. done.
  - rewrite Hr, IH. done.
Qed.

Section remap.
Context (prs prs' : list MSPPrincipal) (idRemap : gmap Z Z) (ids : list Identity).
Hypothesis remap_principal : ∀ i pr, 0 <= i → prs !! Z.to_nat i = Some pr →
  ∃ j, idRemap !! i = Some j ∧ 0 <= j < 2 ^ 31 ∧ prs' !! Z.to_nat j = Some pr.

Lemma remap_sat p :
  inRange (Z.of_nat (length prs)) p →
  ∃ p', remap p idRemap = Done p' ∧ inRange (Z.of_nat (length prs')) p' ∧
    ∀ U, sat prs ids p U ↔ sat prs' ids p' U.
Proof.
  induction p as [| |i|k rules IH] using SignaturePolicy_rules_ind; [done|done| |].
  - simpl. intros Hi. destruct (lookup_lt_is_Some_2 prs (Z.to_nat i)) as [pr Hpr]; [lia|].
    destruct (remap_principal i pr) as (j & -> & Hj & Hpr'); [lia|done|].
    assert (Hlt := lookup_lt_Some _ _ _ Hpr').
    eexists. split; [done|]. rewrite i32_small by lia. split; [simpl; lia|].
    intros U. simpl. rewrite Hpr, Hpr'. split; (intros [_ H]; split; [lia|done]).
  - rewrite inRange_gate. intros Hr.
    cut (∃ rules', (fix go rules := match rules with
        | [] => Done []
        | rule :: rules => rule ← remap rule idRemap; rules ← go rules; Done (rule :: rules)
        end) rules = Done rules' ∧ Forall (inRange (Z.of_nat (length prs'))) rules' ∧
        Forall2 (λ r r', ∀ U, sat prs ids r U ↔ sat prs' ids r' U) rules rules').
    { intros (rules' & Hgo & Hin & Hsat). exists (SignaturePolicy_NOutOf k rules').
      split; [simpl; by rewrite Hgo|]. split; [by apply inRange_gate|]. intros U.
      rewrite !sat_gate. by setoid_rewrite (satRules_ext _ _ _ _ _ Hsat). }
    induction Hr as [|r rules Hr _ IHr]; [by exists []|].
    inversion IH as [|? ? IH1 IH2]; subst. destruct (IH1 Hr) as (r' & -> & ? & ?).
    destruct (IHr IH2) as (rules' & -> & ? & ?). exists (r' :: rules').
    split; [done|]. split; by constructor.
Qed.
End remap.

(** More principals at the end of the list change nothing. *)
Lemma sat_extend prs more ids p U :
  inRange (Z.of_nat (length prs)) p → sat (prs ++ more) ids p U ↔ sat prs ids p U.
Proof.
  revert U. induction p as [| |i|k rules IH] using SignaturePolicy_rules_ind; [done|done| |].
  - simpl. intros U Hi. rewrite lookup_app_l by lia. done.
  - intros U. rewrite inRange_gate, !sat_gate. intros Hr.
    assert (Forall2 (λ r r', ∀ U, sat (prs ++ more) ids r U ↔ sat prs ids r' U) rules rules) as Hs.
    { induction Hr as [|r rules Hr _ IHr]; inversion IH; subst; constructor; auto. }
    by setoid_rewrite (satRules_ext _ _ _ _ _ Hs).
Qed.

Lemma inRange_mono n n' p : n <= n' → inRange n p → inRange n' p.
Proof.
  intros Hn. induction p as [| |i|k rules IH] using SignaturePolicy_rules_ind; [done|done|simpl; lia|].
  rewrite !inRange_gate. intros Hr. induction Hr; inversion IH; subst; constructor; auto.
Qed.

(** ** Merging the principals *)

(** A principal of one of the five classifications of the enumeration. *)
Definition known (pr : MSPPrincipal) : Prop := 0 <= PrincipalClassification pr <= 4.

Lemma string_of_list_byte_inj a b :
  String.string_of_list_byte a = String.string_of_list_byte b → a = b.
Proof.
  intros H. apply (f_equal String.list_byte_of_string) in H.
  by rewrite !String.list_byte_of_string_of_list_byte in H.
Qed.

Lemma principalKey_inj a b :
  known a → known b → principalKey a = principalKey b → a = b.
Proof.
  destruct a as [c1 p1], b as [c2 p2]. unfold known, principalKey, classification_String. simpl.
  intros H1 H2.
  assert (c1 = 0 ∨ c1 = 1 ∨ c1 = 2 ∨ c1 = 3 ∨ c1 = 4) as Hc1 by lia.
  assert (c2 = 0 ∨ c2 = 1 ∨ c2 = 2 ∨ c2 = 3 ∨ c2 = 4) as Hc2 by lia.
  destruct_or!; subst; simpl; intros H; try discriminate H;
    repeat apply str_app_inj in H; apply string_of_list_byte_inj in H; by subst.
Qed.

(** The index points at principals with the right key. *)
Definition indexed (IDs : list MSPPrincipal) (idMap : gmap string Z) : Prop :=
  ∀ k j, idMap !! k = Some j → 0 <= j ∧ ∃ id, IDs !! Z.to_nat j = Some id ∧ principalKey id = k.

Lemma indexed_app IDs more idMap : indexed IDs idMap → indexed (IDs ++ more) idMap.
Proof.
  intros H k j Hj. destruct (H k j Hj) as (? & id & ? & ?). split; [done|]. exists id.
  split; [by apply lookup_app_l_Some|done].
Qed.

Lemma indexed_insert IDs id idMap :
  indexed IDs idMap → indexed (IDs ++ [id]) (<[principalKey id := Z.of_nat (length IDs)]> idMap).
Proof.
  intros H k j. destruct (decide (k = principalKey id)) as [->|Hk].
  - rewrite lookup_insert_eq. intros [= <-]. split; [lia|]. exists id.
    rewrite Nat2Z.id. by rewrite list_lookup_middle.
  - rewrite lookup_insert_ne by done. by apply indexed_app.
Qed.

Lemma indexPrincipals_ok pre ids idMap :
  indexed pre idMap →
  indexed (pre ++ ids) (indexPrincipals (Z.of_nat (length pre)) ids idMap).
Proof.
  revert pre idMap. induction ids as [|id ids IH]; intros pre idMap H; simpl.
  { by rewrite app_nil_r. }
  replace (pre ++ id :: ids) with ((pre ++ [id]) ++ ids) by by rewrite <- app_assoc.
  replace (Z.of_nat (length pre) + 1) with (Z.of_nat (length (pre ++ [id])))
    by (rewrite length_app; simpl; lia).
  apply IH. by apply indexed_insert.
Qed.

Lemma mergePrincipals_ok ids i IDs idMap idRemap IDs' idMap' idRemap' :
  indexed IDs idMap →
  mergePrincipals i ids (IDs, idMap, idRemap) = (IDs', idMap', idRemap') →
  ∃ more, IDs' = IDs ++ more ∧ Forall (λ pr, pr ∈ ids) more ∧ (length more <= length ids)%nat ∧
    (∀ k, k < i → idRemap' !! k = idRemap !! k) ∧
    ∀ k pr, ids !! k = Some pr → ∃ j pr', idRemap' !! (i + Z.of_nat k) = Some j ∧
      0 <= j ∧ IDs' !! Z.to_nat j = Some pr' ∧ principalKey pr' = principalKey pr.
Proof.
  revert i IDs idMap idRemap. induction ids as [|id ids IH]; simpl; intros i IDs idMap idRemap Hix H.
  { simplify_eq. exists []. rewrite app_nil_r. by repeat split. }
  assert (Hstep : ∃ more0 idMap1 j, Forall (λ pr, pr = id) more0 ∧ (length more0 <= 1)%nat ∧
    indexed (IDs ++ more0) idMap1 ∧ 0 <= j ∧
    (∃ pr', (IDs ++ more0) !! Z.to_nat j = Some pr' ∧ principalKey pr' = principalKey id) ∧
    mergePrincipals (i + 1) ids (IDs ++ more0, idMap1, <[i:=j]> idRemap) = (IDs', idMap', idRemap')).
  { destruct (idMap !! principalKey id) as [j|] eqn:Ej.
    - exists [], idMap, j. rewrite app_nil_r. destruct (Hix _ _ Ej) as [? ?].
      split_and!; auto using Forall_nil_2.
    - exists [id], (<[principalKey id := Z.of_nat (length IDs)]> idMap), (Z.of_nat (length IDs)).
      split_and!; [by constructor|simpl; lia|by apply indexed_insert|lia| |done]. exists id. rewrite Nat2Z.id.
      by rewrite list_lookup_middle. }
  clear H. destruct Hstep as (more0 & idMap1 & j & Hm0 & Hl0 & Hix' & Hj & (pr' & Hpr' & Hkey) & H).
  destruct (IH _ _ _ _ Hix' H) as (more & -> & Hmore & Hlen & Hold & Hnew).
  exists (more0 ++ more). rewrite <- app_assoc. split; [done|]. split; [|split; [|split]].
  - apply Forall_app. split; eapply Forall_impl; [exact Hm0| |exact Hmore|]; set_solver.
  - rewrite length_app. lia.
  - intros k Hk. rewrite Hold, lookup_insert_ne by lia. done.
  - intros [|k] pr Hk; simpl in Hk.
    + injection Hk as <-. exists j, pr'. rewrite Hold, Z.add_0_r, lookup_insert_eq by lia.
      split; [done|]. split; [done|]. split; [|done]. rewrite app_assoc. by apply lookup_app_l_Some.
    + destruct (Hnew k pr Hk) as (j' & pr'' & ? & ? & ? & ?). exists j', pr''.
      replace (i + Z.of_nat (S k)) with (i + 1 + Z.of_nat k) by lia. by rewrite app_assoc.
Qed.

(** ** The converted policy *)

(** An envelope that compiles, over known principals. *)
Definition wellFormed (spe : SignaturePolicyEnvelope) : Prop :=
  inRange (Z.of_nat (length (spe_Identities spe))) (spe_Rule spe) ∧
  Forall known (spe_Identities spe).

(** The envelope's policy is satisfied as the rule [r] over [prs]. *)
Definition represents (prs : list MSPPrincipal) (spe : SignaturePolicyEnvelope)
    (r : SignaturePolicy) : Prop :=
  inRange (Z.of_nat (length prs)) r ∧
  ∀ ids U, sat (spe_Identities spe) ids (spe_Rule spe) U ↔ sat prs ids r U.

(** Exactly [m] of the envelopes are satisfied, by disjoint sets of signers
    whose union is [U]. *)
Fixpoint satEnvelopes (ids : list Identity) (spes : list SignaturePolicyEnvelope) (m : Z)
    (U : gset nat) : Prop :=
  match spes with
  | [] => m = 0 ∧ U = ∅
  | spe :: spes =>
    satEnvelopes ids spes m U ∨
    ∃ V W, sat (spe_Identities spe) ids (spe_Rule spe) V ∧ satEnvelopes ids spes (m - 1) W ∧
      V ## W ∧ U = V ∪ W
  end.

Lemma represents_extend prs more spe r : represents prs spe r → represents (prs ++ more) spe r.
Proof.
  intros [Hr Hsat]. split.
  - eapply inRange_mono; [|done]. rewrite length_app. lia.
  - intros ids U. rewrite Hsat. by rewrite sat_extend.
Qed.

Lemma represents_rules prs spes rules :
  Forall2 (represents prs) spes rules →
  ∀ ids m U, satEnvelopes ids spes m U ↔ satRules prs ids rules m U.
Proof.
  induction 1 as [|spe r spes rules [_ Hr] _ IH]; intros ids m U; simpl; [done|].
  rewrite IH. f_equiv. split; intros (V & W & HV & HW & ?); exists V, W.
  - rewrite <- Hr, <- IH. done.
  - rewrite Hr, IH. done.
Qed.

Lemma merge_ok v n rules IDs spe :
  Forall known IDs → wellFormed spe →
  Z.of_nat (length IDs + length (spe_Identities spe)) < 2 ^ 31 →
  ∃ more r, merge (mkSignaturePolicyEnvelope v (SignaturePolicy_NOutOf n rules) IDs) spe =
      Done (mkSignaturePolicyEnvelope v (SignaturePolicy_NOutOf n (rules ++ [r])) (IDs ++ more)) ∧
    Forall known more ∧ (length more <= length (spe_Identities spe))%nat ∧
    represents (IDs ++ more) spe r.
Proof.
  intros HIDs [Hrange Hknown] Hlen. unfold merge. simpl.
  destruct (mergePrincipals _ _ _) as [[IDs' idMap'] idRemap'] eqn:E.
  apply mergePrincipals_ok in E as (more & -> & Hmore & Hl & _ & Hnew).
  2: { apply (indexPrincipals_ok [] IDs ∅). intros k j. by rewrite lookup_empty. }
  assert (Hk : Forall known more).
  { rewrite Forall_forall in Hmore, Hknown. apply Forall_forall. auto. }
  assert (Hremap : ∀ i pr, 0 <= i → spe_Identities spe !! Z.to_nat i = Some pr →
    ∃ j, idRemap' !! i = Some j ∧ 0 <= j < 2 ^ 31 ∧ (IDs ++ more) !! Z.to_nat j = Some pr).
  { intros i pr Hi Hpr. destruct (Hnew _ _ Hpr) as (j & pr' & Hj & Hj0 & Hpr' & Hkey).
    assert (Hlt := lookup_lt_Some _ _ _ Hpr'). rewrite length_app in Hlt.
    exists j. rewrite Z.add_0_l, Z2Nat.id in Hj by lia. split; [done|]. split; [lia|].
    rewrite Hpr'. f_equal. apply principalKey_inj; [| |done].
    - assert (Forall known (IDs ++ more)) as Hall by (by apply Forall_app).
      by apply (Forall_lookup_1 _ _ _ _ Hall Hpr').
    - by apply (Forall_lookup_1 _ _ _ _ Hknown Hpr). }
  destruct (remap_sat _ _ _ [] Hremap _ Hrange) as (r & Hr & Hin & _).
  exists more, r. rewrite Hr. split; [done|]. split; [done|]. split; [done|]. split; [done|].
  intros ids U. destruct (remap_sat _ _ _ ids Hremap _ Hrange) as (r' & Hr' & _ & Hsat).
  rewrite Hr in Hr'. injection Hr' as ->. apply Hsat.
Qed.

(** The number of principals of all the envelopes. *)
Definition principals_total (spes : list SignaturePolicyEnvelope) : nat :=
  sum_list ((λ spe, length (spe_Identities spe)) <$> spes).

Lemma principals_total_cons spe spes :
  principals_total (spe :: spes) = (length (spe_Identities spe) + principals_total spes)%nat.
Proof. reflexivity. Qed.

Lemma convertAll_ok subs spes :
  Forall2 (λ sub spe, Converter sub = Some (Done (Ok spe))) subs spes → Forall wellFormed spes →
  ∀ v n old rules IDs,
  Forall known IDs → Forall2 (represents IDs) old rules →
  Z.of_nat (length IDs + principals_total spes) < 2 ^ 31 →
  ∃ rules' IDs',
    convertAll subs (mkSignaturePolicyEnvelope v (SignaturePolicy_NOutOf n rules) IDs) =
      Done (Ok (mkSignaturePolicyEnvelope v (SignaturePolicy_NOutOf n rules') IDs')) ∧
    (length IDs' <= length IDs + principals_total spes)%nat ∧
    Forall2 (represents IDs') (old ++ spes) rules'.
Proof.
  induction 1 as [|sub spe subs spes Hsub _ IH]; intros Hwf v n old rules IDs HIDs Hold Hlen.
  { exists rules, IDs. rewrite app_nil_r. split; [done|]. split; [lia|done]. }
  inversion Hwf as [|? ? Hspe Hspes]; subst. rewrite principals_total_cons in *.
  simpl. rewrite Hsub. simpl.
  destruct (merge_ok v n rules IDs spe HIDs Hspe) as (more & r & -> & Hmore & Hl & Hr); [lia|].
  simpl. destruct (IH Hspes v n (old ++ [spe]) (rules ++ [r]) (IDs ++ more)) as (rules' & IDs' & H & Hle & H2).
  - by apply Forall_app.
  - apply Forall2_app; [|constructor; [done|constructor]]. eapply Forall2_impl; [exact Hold|].
    intros. by apply represents_extend.
  - rewrite length_app. lia.
  - exists rules', IDs'. split; [done|]. rewrite length_app in Hle. rewrite <- app_assoc in H2.
    split; [lia|done].
Qed.

(** Converting an implicit meta policy over well-formed signature
    policies always returns a signature policy that compiles, and the sets of
    signers that satisfy it are exactly those that split into disjoint sets
    satisfying at least the threshold of sub-policies. *)
Theorem Convert_sat imp spes :
  Forall2 (λ sub spe, Converter sub = Some (Done (Ok spe))) (SubPolicies imp) spes →
  Forall wellFormed spes →
  Z.of_nat (principals_total spes) < 2 ^ 31 → - 2 ^ 31 <= Threshold imp < 2 ^ 31 →
  ∃ spe, ImplicitMeta_Convert imp = Done (Ok spe) ∧
    (∃ ev, compile (spe_Rule spe) (spe_Identities spe) = Ok ev) ∧
    ∀ ids U, sat (spe_Identities spe) ids (spe_Rule spe) U ↔
      ∃ m, Threshold imp <= m ∧ satEnvelopes ids spes m U.
Proof.
  intros Hsubs Hwf Hlen Ht. unfold ImplicitMeta_Convert. rewrite i32_small by done.
  destruct (convertAll_ok _ _ Hsubs Hwf 0 (Threshold imp) [] [] []) as (rules & IDs & H & Hle & Hrep);
    [done..|simpl; lia|].
  eexists. split; [exact H|]. simpl spe_Rule. simpl spe_Identities. simpl in Hle, Hrep. split.
  - apply compile_inRange; [lia|]. apply inRange_gate.
    clear -Hrep. induction Hrep as [|? ? ? ? [? _]]; by constructor.
  - intros ids U. rewrite sat_gate. by setoid_rewrite (represents_rules _ _ _ Hrep).
Qed.
