(* ===== verification/PolicyDemo.v ===== *)
(** * A policy tree, evaluated

    A channel with two application organisations, each with an admins policy
    that one member satisfies, and a majority policy above them; the theorems on
    policy managers applied to it. *)

From Stdlib Require Import Ascii String.
From stdpp Require Import gmap strings list.
From S2P Require Import Prelude Protos ConfigProtos Codecs GoLib Cauthdsl PolicyManager PolicyProps PolicyConvert.

#[export] Instance ImplicitMetaDefinition_ser : Ser ImplicitMetaDefinition.
Proof.
  apply (iso_ser (λ x, (SubPolicy x, Rule x)) (λ '(a, b), mkImplicitMetaDefinition a b)). by_tuple.
Defined.
#[export] Instance demo_ImplicitMetaDefinition : Codec ImplicitMetaDefinition :=
  ser_codec ImplicitMetaDefinition.

Definition demo_org_envelope (org : string) : SignaturePolicyEnvelope :=
  mkSignaturePolicyEnvelope 0 (SignaturePolicy_NOutOf 1 [SignaturePolicy_SignedBy 0])
    [demo_principal org].

(** The data of a signature policy is the name of an organisation. *)
Definition demo_providers : gmap Z Provider :=
  {[ Policy_SIGNATURE := λ data,
       EnvelopeBased_NewPolicy demo_deserializer
         (Some (demo_org_envelope (String.string_of_list_byte data))) ]}.

Definition demo_org_policy (org : string) : ConfigPolicy :=
  mkConfigPolicy 0 (Some (mkPolicyMessage Policy_SIGNATURE (String.list_byte_of_string org))) "Admins".

Definition demo_meta_policy (rule : Z) (sub : string) : ConfigPolicy :=
  mkConfigPolicy 0
    (Some (mkPolicyMessage Policy_IMPLICIT_META (marshal (mkImplicitMetaDefinition sub rule)))) "Admins".

Definition demo_org (org : string) : ConfigGroup :=
  mkConfigGroup 0 ∅ ∅ {[ "Admins" := demo_org_policy org ]} "Admins".

Definition demo_application : ConfigGroup :=
  mkConfigGroup 0 {[ "Org1" := demo_org "A"; "Org2" := demo_org "B" ]} ∅
    {[ "Admins" := demo_meta_policy ImplicitMetaPolicy_MAJORITY "Admins";
       "Odd" := demo_meta_policy 7 "Admins" ]} "Admins".

Definition demo_channel : ConfigGroup :=
  mkConfigGroup 0 {[ "Application" := demo_application ]} ∅
    {[ "Admins" := demo_meta_policy ImplicitMetaPolicy_ANY "Admins" ]} "Admins".

Definition demo_manager : fallible ManagerImpl :=
  NewManagerImpl demo_providers "Channel" demo_channel.

Lemma demo_groups p h :
  groupAt p demo_channel = Some h →
  h = demo_channel ∨ h = demo_application ∨ h = demo_org "A" ∨ h = demo_org "B".
Proof.
  destruct p as [|k p]; simpl; [naive_solver|].
  destruct (decide (k = "Application")) as [->|Hk].
  2: { by rewrite lookup_singleton_ne. }
  rewrite lookup_singleton_eq. simpl. destruct p as [|k p]; simpl; [naive_solver|].
  destruct (decide (k = "Org1")) as [->|H1]; [|destruct (decide (k = "Org2")) as [->|H2]].
  - rewrite lookup_insert_eq. simpl. destruct p; simpl; [naive_solver|]. by rewrite lookup_empty.
  - rewrite lookup_insert_ne, lookup_singleton_eq by done. simpl.
    destruct p; simpl; [naive_solver|]. by rewrite lookup_empty.
  - by rewrite lookup_insert_ne, lookup_singleton_ne.
Qed.

Lemma demo_named : namedTree demo_channel.
Proof.
  intros p h [->|[->|[->| ->]]]%demo_groups; simpl; split;
    repeat apply map_Forall_insert_2; try apply map_Forall_empty;
    try apply map_Forall_singleton; repeat split; done.
Qed.

Lemma demo_manager_built : ∃ pm, demo_manager = Done (Ok pm).
Proof.
  assert (match demo_manager with Done (Ok _) => true | _ => false end = true) as H by reflexivity.
  destruct demo_manager as [[pm|]|]; [by exists pm|discriminate H..].
Qed.

(** The path of the administrators of the first organisation. *)
Lemma policy_tree_witness :
  ∃ pm, demo_manager = Done (Ok pm) ∧
  ∃ sub pol, Manager ["Application"; "Org1"] pm = Some sub ∧
    newPolicy demo_providers (pm_managers sub) (demo_org_policy "A") = Done (Ok pol) ∧
    GetPolicy "Application/Org1/Admins" pm = Done (PolicyLogger pol, true) ∧
    GetPolicy "/Channel/Application/Org1/Admins" pm = Done (PolicyLogger pol, true).
Proof.
  destruct demo_manager_built as [pm E]. exists pm. split; [done|].
  destruct (policy_tree demo_providers ["Application"; "Org1"] "Admins" "Channel" demo_channel pm)
    as (r & H1 & H2 & H).
  - exact demo_named.
  - exact E.
  - repeat constructor; done.
  - repeat constructor; done.
  - change (∃ sub pol, Manager ["Application"; "Org1"] pm = Some sub ∧
      newPolicy demo_providers (pm_managers sub) (demo_org_policy "A") = Done (Ok pol) ∧
      r = (PolicyLogger pol, true)) in H.
    destruct H as (sub & pol & Hsub & Hpol & ->). exists sub, pol. by repeat split.
Defined.

(** The managers of the two organisations. *)
Definition demo_org_managers : gmap string ManagerImpl :=
  {[ "Org1" := mkManagerImpl "Channel/Application/Org1"
       {[ "Admins" := signaturePolicy demo_deserializer
            (gateEvaluator 1 [signedByEvaluator (demo_principal "A")]) (demo_org_envelope "A") ]} ∅;
     "Org2" := mkManagerImpl "Channel/Application/Org2"
       {[ "Admins" := signaturePolicy demo_deserializer
            (gateEvaluator 1 [signedByEvaluator (demo_principal "B")]) (demo_org_envelope "B") ]} ∅ ]}.

Definition demo_implicit (rule : Z) : fallible ImplicitMetaPolicy :=
  NewImplicitMetaPolicy (marshal (mkImplicitMetaDefinition "Admins" rule)) demo_org_managers.

(** The policy of a rule, as it is built. *)
Definition demo_imp (rule : Z) : ImplicitMetaPolicy :=
  mkImplicitMetaPolicy (thresholdOf rule 2)
    [PolicyLogger (signaturePolicy demo_deserializer
       (gateEvaluator 1 [signedByEvaluator (demo_principal "A")]) (demo_org_envelope "A"));
     PolicyLogger (signaturePolicy demo_deserializer
       (gateEvaluator 1 [signedByEvaluator (demo_principal "B")]) (demo_org_envelope "B"))] "Admins".

Lemma demo_implicit_built rule :
  unmarshal (marshal (mkImplicitMetaDefinition "Admins" rule)) =
    Some (mkImplicitMetaDefinition "Admins" rule) →
  ∃ imp, demo_implicit rule = Done (Ok imp) ∧
    (imp = demo_imp rule ∨
     imp = mkImplicitMetaPolicy (thresholdOf rule 2) (reverse (SubPolicies (demo_imp rule))) "Admins").
Proof.
  intros H. unfold demo_implicit, NewImplicitMetaPolicy. rewrite H.
  eexists. split; [reflexivity|]. (left + right); reflexivity.
Qed.

Lemma demo_codec rule :
  unmarshal (marshal (mkImplicitMetaDefinition "Admins" rule)) =
    Some (mkImplicitMetaDefinition "Admins" rule).
Proof. by apply (ser_codec_ok ImplicitMetaDefinition (λ _, True)). Qed.

Lemma demo_org_managers_size : size demo_org_managers = 2%nat.
Proof. reflexivity. Qed.

(** A majority of two needs both: one signature is not enough. *)
Lemma implicit_meta_exact_witness :
  ∃ imp, demo_implicit ImplicitMetaPolicy_MAJORITY = Done (Ok imp) ∧
  (∃ e, implicitEvaluate imp (λ p, EvaluateSignedData p [demo_signature "A"]) = Done (Some e)) ∧
  implicitEvaluate imp (λ p, EvaluateSignedData p [demo_signature "A"; demo_signature "B"]) = Done None.
Proof.
  destruct (demo_implicit_built ImplicitMetaPolicy_MAJORITY (demo_codec _)) as (imp & Himp & Hcase).
  exists imp. split; [done|]. split.
  - destruct (implicit_meta_exact _ _ imp _ (λ p, EvaluateSignedData p [demo_signature "A"]) Himp
      (demo_codec _)) as (r & Hr & _ & _ & H).
    { destruct Hcase as [-> | ->]; repeat constructor. }
    assert (Hc : accepted (λ p, EvaluateSignedData p [demo_signature "A"]) (SubPolicies imp) = 1).
    { destruct Hcase as [-> | ->]; reflexivity. }
    destruct r as [e|]; [by exists e|]. rewrite demo_org_managers_size, Hc in H.
    destruct (proj1 (H eq_refl) eq_refl); lia.
  - destruct (implicit_meta_exact _ _ imp _
      (λ p, EvaluateSignedData p [demo_signature "A"; demo_signature "B"]) Himp (demo_codec _))
      as (r & Hr & _ & _ & H).
    { destruct Hcase as [-> | ->]; repeat constructor. }
    assert (Hc : accepted (λ p, EvaluateSignedData p [demo_signature "A"; demo_signature "B"])
      (SubPolicies imp) = 2).
    { destruct Hcase as [-> | ->]; reflexivity. }
    rewrite demo_org_managers_size, Hc in H. rewrite Hr. f_equal. apply (proj2 (H eq_refl)). right. lia.
Defined.

(** A policy with rule 7 accepts an empty signature set and rejects a signed one. *)
Lemma implicit_meta_unknown_rule_witness :
  ∃ imp, demo_implicit 7 = Done (Ok imp) ∧
  implicitEvaluate imp (λ p, EvaluateSignedData p []) = Done None ∧
  ∃ e, implicitEvaluate imp (λ p, EvaluateSignedData p [demo_signature "A"]) = Done (Some e).
Proof.
  destruct (demo_implicit_built 7 (demo_codec _)) as (imp & Himp & Hcase).
  exists imp. split; [done|]. split.
  - destruct (implicit_meta_unknown_rule _ _ imp _ (λ p, EvaluateSignedData p []) Himp (demo_codec _))
      as (r & Hr & H).
    { destruct Hcase as [-> | ->]; repeat constructor. }
    { simpl. lia. }
    rewrite Hr. f_equal. apply H. destruct Hcase as [-> | ->]; reflexivity.
  - destruct (implicit_meta_unknown_rule _ _ imp _ (λ p, EvaluateSignedData p [demo_signature "A"]) Himp
      (demo_codec _)) as (r & Hr & H).
    { destruct Hcase as [-> | ->]; repeat constructor. }
    { simpl. lia. }
    destruct r as [e|]; [by exists e|]. assert (Hc := proj1 H eq_refl).
    destruct Hcase as [-> | ->]; discriminate Hc.
Defined.

Lemma Convert_sat_witness :
  ∃ spe, ImplicitMeta_Convert (demo_imp ImplicitMetaPolicy_MAJORITY) = Done (Ok spe) ∧
    (∃ ev, compile (spe_Rule spe) (spe_Identities spe) = Ok ev) ∧
    ∀ ids U, sat (spe_Identities spe) ids (spe_Rule spe) U ↔
      ∃ m, 2 <= m ∧ satEnvelopes ids [demo_org_envelope "A"; demo_org_envelope "B"] m U.
Proof.
  apply (Convert_sat (demo_imp ImplicitMetaPolicy_MAJORITY)).
  - repeat constructor.
  - repeat constructor; simpl; done.
  - vm_compute. done.
  - vm_compute. done.
Defined.
