(* ===== verification/ConfigTx.v ===== *)
(** * Configuration transactions

    [common/configtx]: a configuration tree flattened to a map of [comparable]
    elements and back ([mapConfig], [configMapToConfig]), the authorisation of an
    update ([authorizeUpdate]) and the validator of a channel ([NewValidatorImpl],
    [ProposeConfigUpdate], [Validate]). *)

From Stdlib Require Import Ascii String.
From stdpp Require Import gmap strings list.
From S2P Require Import Prelude Protos ConfigProtos GoLib Blocks Cauthdsl PolicyManager.

(** ** Elements of a configuration: [compare.go] *)

(** The one of the three embedded pointers of a [comparable] that is set. *)
Inductive element :=
  | ElGroup (g : ConfigGroup)
  | ElValue (v : ConfigValue)
  | ElPolicy (p : ConfigPolicy).

Record comparable := mkComparable {
  cmp_element : element;
  cmp_key : string;
  cmp_path : list string
}.

Definition version (cg : comparable) : Z :=
  match cmp_element cg with
  | ElGroup g => cg_Version g
  | ElValue v => cv_Version v
  | ElPolicy p => cp_Version p
  end.

Definition modPolicy (cg : comparable) : string :=
  match cmp_element cg with
  | ElGroup g => cg_ModPolicy g
  | ElValue v => cv_ModPolicy v
  | ElPolicy p => cp_ModPolicy p
  end.

Definition equalConfigValues (lhs rhs : ConfigValue) : bool :=
  (cv_Version lhs =? cv_Version rhs) && bool_decide (cv_ModPolicy lhs = cv_ModPolicy rhs)
  && bool_decide (cv_Value lhs = cv_Value rhs).

Definition equalConfigPolicies (lhs rhs : ConfigPolicy) : bool :=
  if negb (cp_Version lhs =? cp_Version rhs) || bool_decide (cp_ModPolicy lhs ≠ cp_ModPolicy rhs)
  then false
  else
    match cp_Policy lhs, cp_Policy rhs with
    | Some p, Some q =>
      (pol_Type p =? pol_Type q) && bool_decide (pol_Value p = pol_Value q)
    | None, None => true
    | _, _ => false
    end.

(** [subsetOfGroups], [subsetOfPolicies] and [subsetOfValues]. *)
Definition subsetOf {A} (inner outer : gmap string A) : bool :=
  if decide (size inner = 0%nat) then true
  else if decide (size outer < size inner)%nat then false
  else map_fold (λ key _ b, b && bool_decide (is_Some (outer !! key))) true inner.

Definition equalConfigGroup (lhs rhs : ConfigGroup) : bool :=
  if negb (cg_Version lhs =? cg_Version rhs) || bool_decide (cg_ModPolicy lhs ≠ cg_ModPolicy rhs)
  then false
  else
    negb (negb (subsetOf (Groups lhs) (Groups rhs)) || negb (subsetOf (Groups rhs) (Groups lhs))
       || negb (subsetOf (Policies lhs) (Policies rhs)) || negb (subsetOf (Policies rhs) (Policies lhs))
       || negb (subsetOf (Values lhs) (Values rhs)) || negb (subsetOf (Values rhs) (Values lhs))).

Definition equals (cg other : comparable) : bool :=
  match cmp_element cg, cmp_element other with
  | ElGroup g, ElGroup h => equalConfigGroup g h
  | ElValue v, ElValue w => equalConfigValues v w
  | ElPolicy p, ElPolicy q => equalConfigPolicies p q
  | _, _ => false
  end.

(** ** Identifiers: [validator.go] *)

Definition MaxLength : Z := 249.

Definition isLower (c : ascii) : bool :=
  let n := N_of_ascii c in (97 <=? n)%N && (n <=? 122)%N.
Definition isAlnum (c : ascii) : bool :=
  let n := N_of_ascii c in
  (48 <=? n)%N && (n <=? 57)%N || (65 <=? n)%N && (n <=? 90)%N || isLower c.
Definition isDotDash (c : ascii) : bool :=
  let n := N_of_ascii c in (n =? 45)%N || (n =? 46)%N.
Definition isLowerDigit (c : ascii) : bool :=
  let n := N_of_ascii c in (48 <=? n)%N && (n <=? 57)%N || isLower c.

Fixpoint takeWhile (p : ascii → bool) (s : string) : string :=
  match s with
  | EmptyString => EmptyString
  | String c s => if p c then String c (takeWhile p s) else EmptyString
  end.

(** [regexp.FindString] for an expression [[first][rest]*]: the leftmost match,
    as long as possible. *)
Fixpoint FindString (first rest : ascii → bool) (s : string) : string :=
  match s with
  | EmptyString => EmptyString
  | String c s' => if first c then String c (takeWhile rest s') else FindString first rest s'
  end.

(** The character class [[a-zA-Z0-9.-]], of [configAllowedChars]. *)
Definition configChar (c : ascii) : bool := isAlnum c || isDotDash c.
(** The class [[a-z0-9.-]], of [ChannelAllowedChars]. *)
Definition channelChar (c : ascii) : bool := isLowerDigit c || isDotDash c.

Definition validateConfigID (configID : string) : res unit :=
  if slen configID <=? 0 then Err (Errorf "config ID illegal, cannot be empty")
  else if MaxLength <? slen configID then Err (Errorf "config ID illegal, cannot be longer than 249")
  else if bool_decide (configID = ".") || bool_decide (configID = "..")
  then Err (Errorf "name for config ID is not allowed")
  else if negb (slen (FindString configChar configChar configID) =? slen configID)
  then Err (Errorf "config ID contains illegal characters")
  else Ok tt.

Definition ValidateChannelID (channelID : string) : res unit :=
  if slen channelID <=? 0 then Err (Errorf "channel ID illegal, cannot be empty")
  else if MaxLength <? slen channelID then Err (Errorf "channel ID illegal, cannot be longer than 249")
  else if negb (slen (FindString isLower channelChar channelID) =? slen channelID)
  then Err (Errorf "contains illegal characters")
  else Ok tt.

(** ** Flattening a configuration: [configmap.go] *)

Definition groupPrefix : string := "[Group]  ".
Definition valuePrefix : string := "[Value]  ".
Definition policyPrefix : string := "[Policy] ".

Definition hackyFixOrdererCapabilities : string := "[Value]  /Channel/Orderer/Capabilities".
Definition hackyFixNewModPolicy : string := "Admins".

Abbreviation configMap := (gmap string comparable).

Definition elementPrefix (e : element) : string :=
  match e with ElGroup _ => groupPrefix | ElValue _ => valuePrefix | ElPolicy _ => policyPrefix end.

(** The fully qualified path of an element. *)
Definition fqPath (cg : comparable) : string :=
  match cmp_path cg with
  | [] => elementPrefix (cmp_element cg) +:+ PathSeparator +:+ cmp_key cg
  | path =>
    elementPrefix (cmp_element cg) +:+
      PathSeparator +:+ strings_Join path PathSeparator +:+ PathSeparator +:+ cmp_key cg
  end.

Definition addToMap (cg : comparable) (result : configMap) : fallible configMap :=
  _ ←? Done (validateConfigID (cmp_key cg));
  ok (<[fqPath cg := cg]> result).

(** [recurseConfig], for the group [key] below [path]. *)
Fixpoint recurseConfig (path : list string) (key : string) (group : ConfigGroup)
    (result : configMap) : fallible configMap :=
  result ←? addToMap (mkComparable (ElGroup group) key path) result;
  let 'mkConfigGroup _ groups values policies _ := group in
  result ←? range (λ k g result, recurseConfig (path ++ [key]) k g result) groups result;
  result ←? range (λ k v result, addToMap (mkComparable (ElValue v) k (path ++ [key])) result)
    values result;
  range (λ k p result, addToMap (mkComparable (ElPolicy p) k (path ++ [key])) result)
    policies result.

Definition mapConfig (channelGroup : option ConfigGroup) (rootGroupKey : string)
    : fallible configMap :=
  match channelGroup with
  | None => ok ∅
  | Some g => recurseConfig [] rootGroupKey g ∅
  end.

(** The upgrade of an empty mod policy. *)
Definition upgrade (modPolicy : string) : string :=
  if decide (modPolicy = "") then hackyFixNewModPolicy else modPolicy.

Definition hackyFix (g : ConfigGroup) : ConfigGroup :=
  mkConfigGroup (cg_Version g) (Groups g)
    ((λ v, mkConfigValue (cv_Version v) (cv_Value v) (upgrade (cv_ModPolicy v))) <$> Values g)
    ((λ p, mkConfigPolicy (cp_Version p) (cp_Policy p) (upgrade (cp_ModPolicy p))) <$> Policies g)
    (upgrade (cg_ModPolicy g)).

Definition outOfFuel : string := "out of fuel".

(** [recurseConfigMap]. The recursion follows ever longer paths that are keys of
    the map, so as much fuel as the map has keys is enough
    ([recurseConfigMap_terminates]). *)
Fixpoint recurseConfigMap (fuel : nat) (path : string) (m : configMap) : fallible ConfigGroup :=
  match fuel with
  | O => Panic outOfFuel
  | S fuel =>
    match m !! (groupPrefix +:+ path) with
    | None => fail "missing group at path"
    | Some (mkComparable (ElGroup group) _ _) =>
      newGroups ←? range (λ key _ acc,
        updatedGroup ←? recurseConfigMap fuel (path +:+ PathSeparator +:+ key) m;
        ok (<[key := updatedGroup]> acc)) (Groups group) ∅;
      newValues ←? range (λ key _ acc,
        value ←? match m !! (valuePrefix +:+ path +:+ PathSeparator +:+ key) with
          | None => fail "missing value at path"
          | Some (mkComparable (ElValue value) _ _) => ok value
          | Some _ => fail "ConfigValue not found at value path"
          end;
        ok (<[key := value]> acc)) (Values group) ∅;
      newPolicies ←? range (λ key _ acc,
        policy ←? match m !! (policyPrefix +:+ path +:+ PathSeparator +:+ key) with
          | None => fail "missing policy at path"
          | Some (mkComparable (ElPolicy policy) _ _) => ok policy
          | Some _ => fail "ConfigPolicy not found at policy path"
          end;
        ok (<[key := policy]> acc)) (Policies group) ∅;
      let newConfigGroup :=
        mkConfigGroup (cg_Version group) newGroups newValues newPolicies (cg_ModPolicy group) in
      ok (if decide (is_Some (m !! hackyFixOrdererCapabilities))
          then hackyFix newConfigGroup else newConfigGroup)
    | Some _ => fail "ConfigGroup not found at group path"
    end
  end.

Definition configMapToConfig (m : configMap) (rootGroupKey : string) : fallible ConfigGroup :=
  recurseConfigMap (S (size m)) (PathSeparator +:+ rootGroupKey) m.

(** ** Authorising an update: [update.go] *)

(** [ValidatorImpl] *)
Record ValidatorImpl := mkValidatorImpl {
  vi_channelID : string;
  vi_sequence : Z;
  vi_configMap : configMap;
  vi_configProto : Config;
  vi_namespace : string;
  vi_pm : ManagerImpl
}.

Definition verifyReadSet (vi : ValidatorImpl) (readSet : configMap) : fallible unit :=
  range (λ key value _,
    match vi_configMap vi !! key with
    | None => fail "existing config does not contain element but was in the read set"
    | Some existing =>
      if negb (version existing =? version value)
      then fail "proposed update requires that key be at another version"
      else ok tt
    end) readSet tt.

Definition computeDeltaSet (readSet writeSet : configMap) : configMap :=
  map_fold (λ key value result,
    match readSet !! key with
    | Some readVal => if version readVal =? version value then result else <[key := value]> result
    | None => <[key := value]> result
    end) ∅ writeSet.

(** The elements of a mod policy, a path that may start with a separator. *)
Definition modPolicyElements (modPolicy : string) : list string :=
  strings_Split "/" match modPolicy with
    | String "/" trimmed => trimmed
    | _ => modPolicy
    end.

Fixpoint validateIDs (ids : list string) : res unit :=
  match ids with
  | [] => Ok tt
  | id :: ids => _ ← validateConfigID id; validateIDs ids
  end.

Definition validateModPolicy (modPolicy : string) : res unit :=
  if decide (modPolicy = "") then Err (Errorf "mod_policy not set")
  else validateIDs (modPolicyElements modPolicy).

(** [policyForItem]: [None] when the policy is not found. *)
Definition policyForItem (vi : ValidatorImpl) (item : comparable) : outcome (option Policy) :=
  let relative :=
    negb (slen (modPolicy item) =? 0) && negb (HasPrefix (modPolicy item) PathSeparator)
    && negb (bool_decide (cmp_path item = [])) in
  match (if relative then
           manager ← Manager (tail (cmp_path item)) (vi_pm vi);
           match cmp_element item with
           | ElGroup _ => Manager [cmp_key item] manager
           | _ => Some manager
           end
         else Some (vi_pm vi)) with
  | None => Done None
  | Some manager =>
    '(policy, found) ← GetPolicy (modPolicy item) manager;
    Done (if found : bool then Some policy else None)
  end.

(** The check of one element of the delta set. *)
Definition verifyDelta (vi : ValidatorImpl) (signedData : list SignedData) (key : string)
    (value : comparable) : fallible unit :=
  _ ←? Done (validateModPolicy (modPolicy value));
  match vi_configMap vi !! key with
  | None =>
    if negb (version value =? 0) then fail "attempted to set a version, but key does not exist"
    else ok tt
  | Some existing =>
    if negb (version value =? u64 (version existing + 1))
    then fail "attempt to set key to a version, but key is at another version"
    else
      policy ← policyForItem vi existing;
      match policy with
      | None => fail "unexpected missing policy for item"
      | Some policy =>
        err ← EvaluateSignedData policy signedData;
        match err with Some e => Done (Err (Wrap e "policy not satisfied")) | None => ok tt end
      end
  end.

Definition verifyDeltaSet (vi : ValidatorImpl) (deltaSet : configMap) (signedData : list SignedData)
    : fallible unit :=
  if decide (size deltaSet = 0%nat) then fail "delta set was empty -- update would have no effect"
  else range (λ key value _, verifyDelta vi signedData key value) deltaSet tt.

Definition verifyFullProposedConfig (writeSet fullProposedConfig : configMap) : fallible unit :=
  range (λ key _ _,
    if decide (is_Some (fullProposedConfig !! key)) then ok tt
    else fail "writeset contained key which did not appear in proposed config") writeSet tt.

Definition computeUpdateResult (vi : ValidatorImpl) (updatedConfig : configMap) : configMap :=
  map_fold (λ key value m, <[key := value]> m)
    (map_fold (λ key value m, <[key := value]> m) ∅ (vi_configMap vi)) updatedConfig.

Section validator.
Context `{!Codec Payload, !Codec ChannelHeader, !Codec SignatureHeader}.
Context `{!Codec ConfigUpdate, !Codec ConfigUpdateEnvelope}.

(** [protoutil.ConfigUpdateEnvelopeAsSignedData], of a non-nil envelope. *)
Fixpoint configSignatures (update : bytes) (sigs : list ConfigSignature) : res (list SignedData) :=
  match sigs with
  | [] => Ok []
  | configSig :: sigs =>
    sigHeader ← or_err "unmarshal signature header"
      (unmarshal (A:=SignatureHeader) (csig_SignatureHeader configSig));
    rest ← configSignatures update sigs;
    Ok (mkSignedData (csig_SignatureHeader configSig ++ update) (sh_Creator sigHeader)
          (csig_Signature configSig) :: rest)
  end.

Definition ConfigUpdateEnvelopeAsSignedData (ce : ConfigUpdateEnvelope) : res (list SignedData) :=
  configSignatures (cue_ConfigUpdate ce) (cue_Signatures ce).

(** [protoutil.EnvelopeToConfigUpdate], which dereferences the envelope. *)
Definition EnvelopeToConfigUpdate (configtx : option Envelope) : fallible ConfigUpdateEnvelope :=
  match configtx with
  | None => Panic "nil pointer dereference"
  | Some env =>
    Done ('(_, cue) ← UnmarshalEnvelopeOfType (A:=ConfigUpdateEnvelope) env HeaderType_CONFIG_UPDATE;
          Ok cue)
  end.

Definition UnmarshalConfigUpdate (data : bytes) : res ConfigUpdate :=
  or_err "proto: cannot parse" (unmarshal data).

Definition authorizeUpdate (vi : ValidatorImpl) (configUpdateEnv : ConfigUpdateEnvelope)
    : fallible configMap :=
  configUpdate ←? Done (UnmarshalConfigUpdate (cue_ConfigUpdate configUpdateEnv));
  if decide (cu_ChannelId configUpdate = vi_channelID vi) then
    readSet ←? mapConfig (ReadSet configUpdate) (vi_namespace vi);
    _ ←? verifyReadSet vi readSet;
    writeSet ←? mapConfig (WriteSet configUpdate) (vi_namespace vi);
    let deltaSet := computeDeltaSet readSet writeSet in
    signedData ←? Done (ConfigUpdateEnvelopeAsSignedData configUpdateEnv);
    _ ←? verifyDeltaSet vi deltaSet signedData;
    let fullProposedConfig := computeUpdateResult vi deltaSet in
    _ ←? verifyFullProposedConfig writeSet fullProposedConfig;
    ok fullProposedConfig
  else fail "ConfigUpdate for another channel".

(** ** The validator: [validator.go] *)

Definition NewValidatorImpl (channelID : string) (config : option Config) (namespace : string)
    (pm : ManagerImpl) : fallible ValidatorImpl :=
  match config with
  | None => fail "nil config parameter"
  | Some config =>
    match ChannelGroup config with
    | None => fail "nil channel group"
    | Some _ =>
      _ ←? Done (ValidateChannelID channelID);
      m ←? mapConfig (ChannelGroup config) namespace;
      ok (mkValidatorImpl channelID (cfg_Sequence config) m config namespace pm)
    end
  end.

Definition ProposeConfigUpdate (vi : ValidatorImpl) (configtx : option Envelope)
    : fallible ConfigEnvelope :=
  configUpdateEnv ←? EnvelopeToConfigUpdate configtx;
  m ←? authorizeUpdate vi configUpdateEnv;
  channelGroup ←? configMapToConfig m (vi_namespace vi);
  ok (mkConfigEnvelope (Some (mkConfig (u64 (vi_sequence vi + 1)) (Some channelGroup))) configtx).

(** [proto.Equal] on configuration groups is equality of the trees. *)
Definition Validate (vi : ValidatorImpl) (configEnv : option ConfigEnvelope) : fallible unit :=
  match configEnv with
  | None => fail "config envelope is nil"
  | Some configEnv =>
    match ce_Config configEnv with
    | None => fail "config envelope has nil config"
    | Some config =>
      if negb (cfg_Sequence config =? u64 (vi_sequence vi + 1))
      then fail "config currently at another sequence"
      else
        configUpdateEnv ←? EnvelopeToConfigUpdate (LastUpdate configEnv);
        m ←? authorizeUpdate vi configUpdateEnv;
        channelGroup ←? configMapToConfig m (vi_namespace vi);
        if decide (ChannelGroup config = Some channelGroup) then ok tt
        else fail "ConfigEnvelope LastUpdate did not produce the supplied config result"
    end
  end.
End validator.
