(* ===== verification/ConfigTree.v ===== *)
(** * Configuration trees and their flattening

    What the identifiers accepted by [validateConfigID] are, the addresses of the
    elements of a configuration tree, and that [mapConfig] holds exactly the
    elements of the tree under their addresses ([mapConfig_exact]). *)

From Stdlib Require Import Ascii String.
From stdpp Require Import gmap strings list.
From S2P Require Import Prelude Protos ConfigProtos GoLib PolicyManager ConfigTx.

(** ** Identifiers *)

Fixpoint allChars (p : ascii → bool) (s : string) : bool :=
  match s with EmptyString => true | String c s => p c && allChars p s end.

Lemma slen_takeWhile p s : slen (takeWhile p s) <= slen s.
Proof.
  unfold slen. induction s as [|c s IH]; simpl; [done|]. destruct (p c); simpl; lia.
Qed.

Lemma slen_cons c s : slen (String c s) = 1 + slen s.
Proof. unfold slen. simpl. lia. Qed.

Lemma slen_nonneg s : 0 <= slen s.
Proof. unfold slen. lia. Qed.

Lemma takeWhile_all p s : slen (takeWhile p s) = slen s ↔ allChars p s = true.
Proof.
  induction s as [|c s IH]; simpl; [done|]. destruct (p c); simpl.
  - rewrite !slen_cons, <- IH. lia.
  - rewrite slen_cons. pose proof (slen_nonneg s). split; [|done]. change (slen "") with 0. lia.
Qed.

Lemma slen_FindString first rest s : slen (FindString first rest s) <= slen s.
Proof.
  induction s as [|c s IH]; simpl; [done|]. destruct (first c).
  - rewrite !slen_cons. pose proof (slen_takeWhile rest s). lia.
  - rewrite slen_cons. lia.
Qed.

(** The whole text is matched exactly when it starts with a first character and
    goes on with others. *)
Lemma FindString_whole first rest c s :
  slen (FindString first rest (String c s)) = slen (String c s) ↔ first c = true ∧ allChars rest s = true.
Proof.
  simpl. destruct (first c).
  - rewrite !slen_cons, <- takeWhile_all. split; [|naive_solver lia]. intros. split; [done|lia].
  - rewrite slen_cons. pose proof (slen_FindString first rest s). split; [lia|naive_solver].
Qed.

Definition validID (s : string) : Prop :=
  0 < slen s <= MaxLength ∧ s ≠ "." ∧ s ≠ ".." ∧ allChars configChar s = true.

Lemma validateConfigID_ok s : validateConfigID s = Ok tt ↔ validID s.
Proof.
  unfold validateConfigID, validID. destruct s as [|c s]; [simpl; split; [done|unfold slen; simpl; lia]|].
  destruct (slen (String c s) <=? 0) eqn:E0; [zbool; split; [done|lia]|].
  destruct (MaxLength <? slen (String c s)) eqn:E1; [zbool; split; [done|lia]|].
  destruct (bool_decide (_ = ".") || bool_decide (_ = "..")) eqn:E2.
  { split; [done|]. apply orb_true_iff in E2 as [E2|E2]; zbool; naive_solver. }
  zbool. destruct (slen (FindString _ _ _) =? _) eqn:E3; zbool; simpl.
  - apply FindString_whole in E3 as [? ?]. split; [|done]. intros _.
    split; [lia|]. split; [done|]. split; [done|]. simpl. by apply andb_true_iff.
  - split; [done|]. intros (_ & _ & _ & Hall). simpl in Hall. apply andb_true_iff in Hall.
    by rewrite FindString_whole in E3.
Qed.

(** A configuration identifier is accepted exactly when it has 1 to 249
    characters, all of them letters, digits, dots or dashes, and is neither [.]
    nor [..]; a channel identifier exactly when it has 1 to 249 characters, a
    lower-case letter followed by lower-case letters, digits, dots or dashes.
    Searching the expression anywhere in the text and comparing lengths is the
    same as matching the whole text. *)
Theorem identifiers_exact s :
  (validateConfigID s = Ok tt ↔
    1 <= slen s <= 249 ∧ s ≠ "." ∧ s ≠ ".." ∧ allChars configChar s = true) ∧
  (ValidateChannelID s = Ok tt ↔
    slen s <= 249 ∧ ∃ c t, s = String c t ∧ isLower c = true ∧ allChars channelChar t = true).
Proof.
  split.
  { rewrite validateConfigID_ok. unfold validID, MaxLength. split; intros (? & ?); (split; [lia|done]). }
  unfold ValidateChannelID. destruct s as [|c s]; [simpl; naive_solver|].
  rewrite slen_cons. pose proof (slen_nonneg s) as Hs.
  rewrite (proj2 (Z.leb_gt (1 + slen s) 0)) by lia.
  destruct (MaxLength <? 1 + slen s) eqn:E1; zbool; unfold MaxLength in E1.
  { split; [done|lia]. }
  destruct (slen (FindString isLower channelChar (String c s)) =? 1 + slen s) eqn:E3; zbool; simpl negb.
  - rewrite <- (slen_cons c) in E3. apply FindString_whole in E3.
    split; [|done]. intros _. split; [lia|]. by exists c, s.
  - split; [done|]. intros (_ & c' & t & [= <- <-] & H).
    by rewrite <- (slen_cons c), FindString_whole in E3.
Qed.

Lemma allChars_lacks p c s : p c = false → allChars p s = true → lacks c s.
Proof.
  intros Hp. induction s as [|x s IH]; simpl; [done|]. intros [Hx Hs]%andb_true_iff.
  split; [|auto]. intros ->. congruence.
Qed.

Lemma validID_lacks s : validID s → lacks "/" s.
Proof. intros (_ & _ & _ & H). by apply (allChars_lacks configChar). Qed.

(** ** Addresses *)

Inductive kind := KGroup | KValue | KPolicy.

Definition kindOf (e : element) : kind :=
  match e with ElGroup _ => KGroup | ElValue _ => KValue | ElPolicy _ => KPolicy end.

Definition kindPrefix (k : kind) : string :=
  match k with KGroup => groupPrefix | KValue => valuePrefix | KPolicy => policyPrefix end.

(** [/a/b/c] *)
Definition slashes (path : list string) : string :=
  foldr (λ k s, PathSeparator +:+ k +:+ s) "" path.

(** The key of the element of kind [k] at the end of [path]. *)
Definition addressKey (k : kind) (path : list string) : string := kindPrefix k +:+ slashes path.

Lemma slashes_app p q : slashes (p ++ q) = slashes p +:+ slashes q.
Proof.
  induction p as [|k p IH]; [done|]. simpl. rewrite IH, !str_app_assoc. done.
Qed.

Lemma slashes_join p k :
  PathSeparator +:+ strings_Join (p ++ [k]) PathSeparator = slashes (p ++ [k]).
Proof.
  unfold strings_Join. revert k. induction p as [|j p IH]; intros k.
  - simpl. by rewrite str_app_nil.
  - simpl app. simpl slashes. rewrite <- IH. destruct (p ++ [k]) eqn:E; [by destruct p|done].
Qed.

Lemma fqPath_address cg :
  fqPath cg = addressKey (kindOf (cmp_element cg)) (cmp_path cg ++ [cmp_key cg]).
Proof.
  destruct cg as [e k p]. unfold fqPath, addressKey. simpl.
  assert (elementPrefix e = kindPrefix (kindOf e)) as -> by by destruct e.
  induction p as [|j p _] using rev_ind.
  - simpl. by rewrite str_app_nil.
  - rewrite (slashes_app (p ++ [j])), <- slashes_join. simpl slashes.
    destruct (p ++ [j]) eqn:E; [by destruct p|]. by rewrite str_app_nil, !str_app_assoc.
Qed.

Definition noSlash (path : list string) : Prop := Forall (lacks "/") path.

Lemma slashes_inj p q : noSlash p → noSlash q → slashes p = slashes q → p = q.
Proof.
  revert q. induction p as [|k p IH]; intros [|j q] Hp Hq H; [done|done|done|].
  inversion Hp as [|? ? Hk Hp']; inversion Hq as [|? ? Hj Hq']; subst. simpl in H.
  apply str_app_inj in H.
  destruct p as [|k' p], q as [|j' q].
  - simpl in H. rewrite !str_app_nil in H. by subst.
  - simpl in H. rewrite str_app_nil in H. subst k. by apply lacks_app in Hk as [_ [? _]].
  - simpl in H. rewrite str_app_nil in H. subst j. by apply lacks_app in Hj as [_ [? _]].
  - destruct (sep_inj "/" k j (k' +:+ slashes p) (j' +:+ slashes q)) as [-> E]; [done|done|exact H|].
    f_equal. apply IH; [done|done|]. simpl. by rewrite E.
Qed.

Lemma addressKey_inj k p j q :
  noSlash p → noSlash q → addressKey k p = addressKey j q → k = j ∧ p = q.
Proof.
  intros Hp Hq H. destruct k, j; try discriminate H;
    (split; [done|]); apply slashes_inj; [done|done| |done|done| |done|done|];
    by apply str_app_inj in H.
Qed.

(** ** The elements of a tree *)

(** The element of kind [k] at the end of a path below [g]. *)
Fixpoint elementAt (k : kind) (q : list string) (g : ConfigGroup) : option element :=
  match q with
  | [] => match k with KGroup => Some (ElGroup g) | _ => None end
  | j :: q' =>
    match k, q' with
    | KValue, [] => ElValue <$> Values g !! j
    | KPolicy, [] => ElPolicy <$> Policies g !! j
    | _, _ => h ← Groups g !! j; elementAt k q' h
    end
  end.

(** The element with the key and the path it has in the map. *)
Definition located (e : element) (path : list string) : comparable :=
  mkComparable e (default "" (last path)) (removelast path).

(** The names below a group, each accepted by [validateConfigID]. *)
Definition namesOk (g : ConfigGroup) : Prop :=
  ∀ k q e, elementAt k q g = Some e → Forall validID q.

Lemma elementAt_cons k j q g e :
  elementAt k (j :: q) g = Some e ↔
    (∃ h, Groups g !! j = Some h ∧ elementAt k q h = Some e) ∨
    (k = KValue ∧ q = [] ∧ ∃ v, Values g !! j = Some v ∧ e = ElValue v) ∨
    (k = KPolicy ∧ q = [] ∧ ∃ p, Policies g !! j = Some p ∧ e = ElPolicy p).
Proof.
  destruct k, q as [|i q]; cbn [elementAt]; rewrite ?bind_Some, ?fmap_Some; naive_solver.
Qed.

Lemma elementAt_kind k q g e : elementAt k q g = Some e → kindOf e = k.
Proof.
  revert g. induction q as [|j q IH]; intros g; [destruct k; simpl; naive_solver|].
  rewrite elementAt_cons. intros [(h & _ & H)|[(-> & _ & v & _ & ->)|(-> & _ & p & _ & ->)]]; eauto.
Qed.

(** ** Names *)

Lemma addToMap_ok cg m m' :
  addToMap cg m = Done (Ok m') → validID (cmp_key cg) ∧ m' = <[fqPath cg := cg]> m.
Proof.
  unfold addToMap. intros ([] & [= Hv] & [= <-])%try_bind_ok. split; [|done].
  by apply validateConfigID_ok.
Qed.

Lemma recurseConfig_names g path key m m' :
  recurseConfig path key g m = Done (Ok m') → validID key ∧ namesOk g.
Proof.
  revert path key m m'. induction g as [g IH] using ConfigGroup_tree_ind. intros path key m m'.
  destruct g as [v gs vs ps mp]. cbn [recurseConfig].
  intros (m1 & [Hkey _]%addToMap_ok & (m2 & Hgs & (m3 & Hvs & Hps)%try_bind_ok)%try_bind_ok)%try_bind_ok.
  split; [done|]. intros k [|j q] e; [constructor|].
  rewrite elementAt_cons. simpl. intros [(h & Hh & He)|[(_ & -> & w & Hw & _)|(_ & -> & w & Hw & _)]].
  - destruct (range_each _ _ _ _ Hgs _ _ Hh) as (b & b' & Hb).
    destruct (IH j h Hh _ _ _ _ Hb) as [Hj Hnames]. constructor; [done|]. by eapply Hnames.
  - destruct (range_each _ _ _ _ Hvs _ _ Hw) as (b & b' & [Hj _]%addToMap_ok).
    by apply Forall_singleton.
  - destruct (range_each _ _ _ _ Hps _ _ Hw) as (b & b' & [Hj _]%addToMap_ok).
    by apply Forall_singleton.
Qed.

(** ** What flattening writes *)

Abbreviation entries := (kind → list string → element → Prop).

(** [m'] is [m] with the entries of [S] written at their addresses. *)
Definition written (S : entries) (m m' : configMap) : Prop :=
  (∀ k p e, S k p e → m' !! addressKey k p = Some (located e p)) ∧
  (∀ x, m' !! x = m !! x ∨ ∃ k p e, S k p e ∧ x = addressKey k p).

Section written.
Context (U : entries).
Hypothesis functional : ∀ k p e e', U k p e → U k p e' → e = e'.
Hypothesis slashless : ∀ k p e, U k p e → noSlash p.

Definition within (S : entries) : Prop := ∀ k p e, S k p e → U k p e.

Lemma written_trans S T m1 m2 m3 :
  within S → within T → written S m1 m2 → written T m2 m3 →
  written (λ k p e, S k p e ∨ T k p e) m1 m3.
Proof.
  intros HS HT [S1 S2] [T1 T2]. split.
  - intros k p e [He|He]; [|auto].
    destruct (T2 (addressKey k p)) as [->|(k' & p' & e' & He' & Hx)]; [auto|].
    apply addressKey_inj in Hx as [<- <-]; [|by eapply slashless, HS..|by eapply slashless, HT].
    rewrite (functional k p e e') by auto. auto.
  - intros x. destruct (T2 x) as [->|?]; [|naive_solver]. destruct (S2 x); naive_solver.
Qed.

Lemma range_written {V} (body : string → V → configMap → fallible configMap) (mp : gmap string V)
    (S : string → V → entries) m m' :
  (∀ j v b b', mp !! j = Some v → body j v b = Done (Ok b') → written (S j v) b b') →
  (∀ j v, mp !! j = Some v → within (S j v)) →
  range body mp m = Done (Ok m') →
  written (λ k p e, ∃ j v, mp !! j = Some v ∧ S j v k p e) m m'.
Proof.
  intros Hbody HS Hr.
  assert (Hsub : ∀ mp0, mp0 ⊆ mp → within (λ k p e, ∃ j v, mp0 !! j = Some v ∧ S j v k p e)).
  { intros mp0 Hsub k p e (j & v & Hj & He). eapply HS; [|exact He]. by eapply lookup_weaken. }
  cut (mp ⊆ mp ∧ written (λ k p e, ∃ j v, mp !! j = Some v ∧ S j v k p e) m m'); [tauto|].
  revert m' Hr. apply (range_ind body mp m (λ mp0 b, mp0 ⊆ mp ∧
    written (λ k p e, ∃ j v, mp0 !! j = Some v ∧ S j v k p e) m b)).
  - split; [apply map_empty_subseteq|]. split; [|auto]. intros k p e (j & v & Hj & _).
    by rewrite lookup_empty in Hj.
  - intros j v mp0 b b' Hj Hv [Hle IH] Hb. split; [by apply insert_subseteq_l|].
    pose proof (written_trans _ _ _ _ _ (Hsub _ Hle) (HS j v Hv) IH (Hbody _ _ _ _ Hv Hb)) as [W1 W2].
    split.
    + intros k p e (i & w & [[<- <-]|[_ Hi]]%lookup_insert_Some & He); apply W1; eauto.
    + intros x. destruct (W2 x) as [?|(k & p & e & [(i & w & Hi & He)|He] & Hx)]; [auto| |].
      * right. exists k, p, e. split; [|done]. exists i, w. rewrite lookup_insert_ne; [done|].
        intros ->. congruence.
      * right. exists k, p, e. split; [|done]. exists j, v. by rewrite lookup_insert_eq.
Qed.
End written.

Lemma located_snoc e p k : mkComparable e k p = located e (p ++ [k]).
Proof. unfold located. by rewrite last_snoc, removelast_last. Qed.

(** One entry. *)
Definition single (e0 : element) (p0 : list string) : entries :=
  λ k p e, k = kindOf e0 ∧ p = p0 ∧ e = e0.

Lemma addToMap_written e k p m m' :
  addToMap (mkComparable e k p) m = Done (Ok m') → written (single e (p ++ [k])) m m'.
Proof.
  intros [_ ->]%addToMap_ok. rewrite fqPath_address. simpl. split.
  - intros k' p' e' (-> & -> & ->). rewrite <- located_snoc. apply lookup_insert_eq.
  - intros x. destruct (decide (x = addressKey (kindOf e) (p ++ [k]))) as [->|Hx].
    + right. by exists (kindOf e), (p ++ [k]), e.
    + left. by apply lookup_insert_ne.
Qed.

(** The entries of the tree [g] whose root is at [P]. *)
Definition under (P : list string) (g : ConfigGroup) : entries := λ k p e,
  ∃ q, p = P ++ q ∧ elementAt k q g = Some e.

Lemma under_functional P g k p e e' : under P g k p e → under P g k p e' → e = e'.
Proof. intros (q & -> & H) (q' & E & H'). apply app_inv_head in E as <-. congruence. Qed.

Lemma validIDs_noSlash q : Forall validID q → noSlash q.
Proof. intros H. eapply Forall_impl; [exact H|]. apply validID_lacks. Qed.

Lemma under_slashless P g k p e : noSlash P → namesOk g → under P g k p e → noSlash p.
Proof.
  intros HP Hg (q & -> & He). apply Forall_app. split; [done|]. by eapply validIDs_noSlash, Hg.
Qed.

Lemma under_child P g j h : Groups g !! j = Some h → within (under P g) (under (P ++ [j]) h).
Proof.
  intros Hj k p e (q & -> & He). exists (j :: q). rewrite <- app_assoc. split; [done|].
  apply elementAt_cons. eauto.
Qed.

Lemma written_ext S T m m' :
  (∀ k p e, S k p e ↔ T k p e) → written S m m' → written T m m'.
Proof.
  intros H [W1 W2]. split.
  - intros k p e He. by apply W1, H.
  - intros x. destruct (W2 x) as [?|(k & p & e & He & Hx)]; [auto|]. right. exists k, p, e.
    by rewrite <- H.
Qed.

(** The entries of a tree: its root, the trees below, its values and policies. *)
Lemma under_entries P g k p e :
  ((single (ElGroup g) P k p e ∨ ∃ j h, Groups g !! j = Some h ∧ under (P ++ [j]) h k p e) ∨
   (∃ j v, Values g !! j = Some v ∧ single (ElValue v) (P ++ [j]) k p e)) ∨
  (∃ j c, Policies g !! j = Some c ∧ single (ElPolicy c) (P ++ [j]) k p e)
  ↔ under P g k p e.
Proof.
  split.
  - intros [[[(-> & -> & ->)|(j & h & Hj & Hu)]|(j & v & Hj & -> & -> & ->)]|(j & c & Hj & -> & -> & ->)].
    + exists []. by rewrite app_nil_r.
    + by apply (under_child _ _ _ _ Hj) in Hu.
    + exists [j]. split; [done|]. apply elementAt_cons. naive_solver.
    + exists [j]. split; [done|]. apply elementAt_cons. naive_solver.
  - intros ([|j q] & -> & He).
    + destruct k; simpl in He; simplify_eq. left; left; left. by rewrite app_nil_r.
    + apply elementAt_cons in He as [(h & Hj & He)|[(-> & -> & v & Hj & ->)|(-> & -> & c & Hj & ->)]].
      * left; left; right. exists j, h. split; [done|]. exists q. by rewrite <- app_assoc.
      * left; right. by exists j, v.
      * right. by exists j, c.
Qed.

Lemma recurseConfig_written g path key m m' :
  noSlash path → recurseConfig path key g m = Done (Ok m') →
  written (under (path ++ [key]) g) m m'.
Proof.
  revert path key m m'. induction g as [g IH] using ConfigGroup_tree_ind. intros path key m m' Hpath Hr.
  destruct (recurseConfig_names _ _ _ _ _ Hr) as [Hkey Hnames].
  assert (HP : noSlash (path ++ [key])).
  { apply Forall_app. split; [done|]. by apply Forall_singleton, validID_lacks. }
  eapply written_ext; [apply under_entries|].
  assert (Hfun := under_functional (path ++ [key]) g).
  assert (Hsl : ∀ k p e, under (path ++ [key]) g k p e → noSlash p)
    by (intros k p e; by apply under_slashless).
  assert (Hin := under_entries (path ++ [key]) g).
  destruct g as [v gs vs ps mp]. cbn [recurseConfig] in Hr. cbn [Groups Values Policies] in *.
  apply try_bind_ok in Hr as (m1 & H1 & (m2 & H2 & (m3 & H3 & H4)%try_bind_ok)%try_bind_ok).
  apply addToMap_written in H1.
  eapply (range_written _ Hfun Hsl _ _ (λ j h, under ((path ++ [key]) ++ [j]) h)) in H2.
  2: { intros j h b b' Hj. by apply (IH j h Hj). }
  2: { intros j h Hj. by apply under_child. }
  eapply (range_written _ Hfun Hsl _ _ (λ j w, single (ElValue w) ((path ++ [key]) ++ [j]))) in H3.
  2: { intros j w b b' _. apply addToMap_written. }
  2: { intros j w Hj k p e He. apply Hin. naive_solver. }
  eapply (range_written _ Hfun Hsl _ _ (λ j w, single (ElPolicy w) ((path ++ [key]) ++ [j]))) in H4.
  2: { intros j w b b' _. apply addToMap_written. }
  2: { intros j w Hj k p e He. apply Hin. naive_solver. }
  eapply (written_trans _ Hfun Hsl); [| |eapply (written_trans _ Hfun Hsl)|exact H4];
    [| | | |eapply (written_trans _ Hfun Hsl)|exact H3]; [| | | | | |exact H1|exact H2];
    intros k p e He; apply Hin; tauto.
Qed.

(** A tree whose names are valid can be flattened. *)
Lemma recurseConfig_total g path key m :
  validID key → namesOk g → ∃ m', recurseConfig path key g m = Done (Ok m').
Proof.
  revert path key m. induction g as [g IH] using ConfigGroup_tree_ind. intros path key m Hkey Hg.
  assert (Hadd : ∀ e k p m, validID k → ∃ m', addToMap (mkComparable e k p) m = Done (Ok m') ∧ True).
  { intros e k p m0 Hk. unfold addToMap. simpl. apply validateConfigID_ok in Hk as ->. by eexists. }
  destruct g as [v gs vs ps mp]. cbn [recurseConfig].
  destruct (Hadd (ElGroup (mkConfigGroup v gs vs ps mp)) key path m Hkey) as (m1 & -> & _). simpl try_bind.
  edestruct (range_total (λ k g result, recurseConfig (path ++ [key]) k g result) gs m1 (λ _, True))
    as (m2 & -> & _); [done| |].
  { intros j h b Hj _. destruct (IH j h Hj (path ++ [key]) j b) as [b' Hb'].
    - assert (H := Hg KGroup [j] (ElGroup h)). apply (Forall_singleton validID j), H.
      apply elementAt_cons. left. by exists h.
    - intros k q e He. assert (H := Hg k (j :: q) e). eapply Forall_inv_tail, H.
      apply elementAt_cons. left. by exists h.
    - by exists b'. }
  simpl try_bind. edestruct (range_total (λ k v result,
    addToMap (mkComparable (ElValue v) k (path ++ [key])) result) vs m2 (λ _, True)) as (m3 & -> & _); [done| |].
  { intros j w b Hj _. apply Hadd. assert (H := Hg KValue [j] (ElValue w)).
    apply (Forall_singleton validID j), H. apply elementAt_cons. naive_solver. }
  simpl try_bind. edestruct (range_total (λ k p result,
    addToMap (mkComparable (ElPolicy p) k (path ++ [key])) result) ps m3 (λ _, True)) as (m4 & -> & _); [done| |].
  { intros j w b Hj _. apply Hadd. assert (H := Hg KPolicy [j] (ElPolicy w)).
    apply (Forall_singleton validID j), H. apply elementAt_cons. naive_solver. }
  by exists m4.
Qed.

(** What the map of a tree holds. *)
Lemma mapConfig_spec g ns m :
  mapConfig (Some g) ns = Done (Ok m) →
  validID ns ∧ namesOk g ∧
  (∀ k q, noSlash q → m !! addressKey k (ns :: q) = (λ e, located e (ns :: q)) <$> elementAt k q g) ∧
  (∀ x c, m !! x = Some c → ∃ k q e,
    elementAt k q g = Some e ∧ x = addressKey k (ns :: q) ∧ c = located e (ns :: q)).
Proof.
  simpl. intros Hr. destruct (recurseConfig_names _ _ _ _ _ Hr) as [Hns Hg].
  apply recurseConfig_written in Hr as [W1 W2]; [|constructor]. simpl in W1, W2.
  split; [done|]. split; [done|].
  assert (Hall : ∀ x c, m !! x = Some c → ∃ k q e,
    elementAt k q g = Some e ∧ x = addressKey k (ns :: q) ∧ c = located e (ns :: q)).
  { intros x c Hx. destruct (W2 x) as [H|(k & p & e & Hu & ->)]; [by rewrite H, lookup_empty in Hx|].
    assert (Hw := W1 k p e Hu). destruct Hu as (q & -> & He). exists k, q, e. simpl in *.
    split; [done|]. split; [done|]. congruence. }
  split; [|done]. intros k q Hq. destruct (elementAt k q g) as [e|] eqn:He; simpl.
  - apply W1. by exists q.
  - destruct (m !! _) as [c|] eqn:Hx; [|done]. destruct (Hall _ _ Hx) as (k' & q' & e & He' & E & _).
    apply addressKey_inj in E as [-> [= ->]]; [congruence| |];
      (constructor; [by apply validID_lacks|]); [done|]. by eapply validIDs_noSlash, Hg.
Qed.

(** A configuration is flattened exactly when all its names are valid,
    and the map then holds every group, value and policy of the tree under its
    own qualified path, and nothing else. *)
Theorem mapConfig_exact g ns :
  ((∃ m, mapConfig (Some g) ns = Done (Ok m)) ↔ validID ns ∧ namesOk g) ∧
  ∀ m, mapConfig (Some g) ns = Done (Ok m) →
    (∀ k q, noSlash q → m !! addressKey k (ns :: q) = (λ e, located e (ns :: q)) <$> elementAt k q g) ∧
    (∀ x c, m !! x = Some c → ∃ k q, x = addressKey k (ns :: q) ∧ noSlash q ∧
      elementAt k q g = Some (cmp_element c)).
Proof.
  split.
  - split.
    + intros [m Hm]. apply mapConfig_spec in Hm. tauto.
    + intros [Hns Hg]. by apply recurseConfig_total.
  - intros m Hm. apply mapConfig_spec in Hm as (_ & Hg & H1 & H2). split; [done|].
    intros x c Hx. destruct (H2 x c Hx) as (k & q & e & He & -> & ->). exists k, q.
    split; [done|]. split; [by eapply validIDs_noSlash, Hg|done].
Qed.

(** ** Parents and children *)

Lemma elementAt_app k q j g h :
  elementAt KGroup q g = Some (ElGroup h) → elementAt k (q ++ [j]) g = elementAt k [j] h.
Proof.
  revert g. induction q as [|i q IH]; intros g; [simpl; naive_solver|].
  intros [(h' & Hi & H)|[(? & _)|(? & _)]]%elementAt_cons; [|done..]. specialize (IH h' H).
  rewrite <- IH. cbn [app elementAt]. destruct (q ++ [j]) eqn:E; [by destruct q|].
  destruct k; by rewrite Hi.
Qed.

Lemma elementAt_parent k q j g e :
  elementAt k (q ++ [j]) g = Some e →
  ∃ h, elementAt KGroup q g = Some (ElGroup h) ∧ elementAt k [j] h = Some e.
Proof.
  revert g. induction q as [|i q IH]; intros g.
  - intros H. by exists g.
  - cbn [app]. rewrite elementAt_cons. intros [(h & Hi & H)|[(_ & E & _)|(_ & E & _)]];
      [|by destruct q..].
    destruct (IH h H) as (h' & H1 & H2). exists h'. split; [|done]. simpl. by rewrite Hi.
Qed.

(** The names of a group's children. *)
Definition childNames (h : ConfigGroup) : Prop :=
  ∀ k j e, elementAt k [j] h = Some e → validID j.

Lemma namesOk_children g q h :
  namesOk g → elementAt KGroup q g = Some (ElGroup h) → childNames h.
Proof.
  intros Hg Hq k j e He. rewrite <- (elementAt_app k q j g h Hq) in He.
  apply Hg in He. apply Forall_app in He as [_ He]. by apply Forall_inv in He.
Qed.
