(* ===== verification/ConfigTxProps.v ===== *)
(** * Properties of configuration transactions

    Turning a map of elements back into a tree terminates and inverts
    flattening; an update that is accepted changes only elements whose mod policy
    the signers satisfy; and validating a configuration accepts exactly what
    proposing its last update gives. *)

From Stdlib Require Import Ascii String.
From stdpp Require Import gmap strings list.
From S2P Require Import Prelude Protos ConfigProtos GoLib Blocks Cauthdsl PolicyManager ConfigTx ConfigTree.

(** ** Termination *)

(** The keys that are at least as long as the key of a group. *)
Definition longKeys (path : string) (m : configMap) : nat :=
  size (filter (λ kc, String.length (groupPrefix +:+ path) <= String.length kc.1)%nat m).

Lemma longKeys_child path key m c :
  m !! (groupPrefix +:+ path) = Some c →
  (longKeys (path +:+ PathSeparator +:+ key) m < longKeys path m)%nat.
Proof.
  intros Hc. unfold longKeys.
  set (long := filter _ m). set (longer := filter _ m).
  assert (Hl : longer !! (groupPrefix +:+ path) = Some c).
  { apply map_lookup_filter_Some. split; [done|]. simpl. lia. }
  assert (Hsub : long ⊆ delete (groupPrefix +:+ path) longer).
  { apply map_subseteq_spec. intros x d [Hx Hlen]%map_lookup_filter_Some.
    simpl in Hlen. rewrite !str_app_length in Hlen. simpl in Hlen.
    apply lookup_delete_Some. split.
    - intros <-. rewrite !str_app_length in Hlen. simpl in Hlen. lia.
    - apply map_lookup_filter_Some. split; [done|]. simpl. rewrite !str_app_length. simpl. lia. }
  apply map_subseteq_size in Hsub. rewrite map_size_delete_Some in Hsub by done.
  assert (size longer ≠ 0%nat); [|lia]. intros H%map_size_empty_inv. rewrite H in Hl. done.
Qed.

Lemma recurseConfigMap_done fuel path m :
  (longKeys path m < fuel)%nat → ∃ r, recurseConfigMap fuel path m = Done r.
Proof.
  revert path. induction fuel as [|fuel IH]; intros path Hf; [lia|]. cbn [recurseConfigMap].
  destruct (m !! (groupPrefix +:+ path)) as [[e key p]|] eqn:Ec; [|by eexists].
  destruct e as [group|v|v]; [|by eexists..].
  assert (Hbind : ∀ {A B} (x : fallible A) (f : A → fallible B),
    (∃ r, x = Done r) → (∀ a, ∃ r, f a = Done r) → ∃ r, try_bind x f = Done r).
  { intros A B x f [[a|e] ->] Hfa; simpl; [apply Hfa|by eexists]. }
  apply Hbind; [|intros gs; apply Hbind; [|intros vs; apply Hbind; [|intros ps; by eexists]]];
    apply range_done; intros k x b _; (apply Hbind; [|intros y; by eexists]).
  - apply IH. pose proof (longKeys_child path k m _ Ec). lia.
  - destruct (m !! (valuePrefix +:+ _)) as [[[] ? ?]|]; by eexists.
  - destruct (m !! (policyPrefix +:+ _)) as [[[] ? ?]|]; by eexists.
Qed.

Lemma try_bind_mono {A B} (x x' : fallible A) (f f' : A → fallible B) r :
  (∀ r, x = Done r → x' = Done r) → (∀ a r, f a = Done r → f' a = Done r) →
  try_bind x f = Done r → try_bind x' f' = Done r.
Proof.
  intros Hx Hf. destruct x as [[a|e]|w]; simpl; [| |done]; rewrite (Hx _ eq_refl); simpl; [apply Hf|done].
Qed.

Lemma recurseConfigMap_mono fuel fuel' path m r :
  (fuel <= fuel')%nat → recurseConfigMap fuel path m = Done r → recurseConfigMap fuel' path m = Done r.
Proof.
  revert fuel' path r. induction fuel as [|fuel IH]; intros [|fuel'] path r Hle; [done|done|lia|].
  cbn [recurseConfigMap]. destruct (m !! (groupPrefix +:+ path)) as [[[group| |] key p]|]; [|done..].
  apply try_bind_mono; [|done]. intros r'. apply range_mono. intros k x b r'' _.
  apply try_bind_mono; [|done]. intros r0. apply IH. lia.
Qed.

Lemma longKeys_size path m : (longKeys path m <= size m)%nat.
Proof. apply map_subseteq_size, map_filter_subseteq. Qed.

Lemma recurseConfigMap_terminates_at path m :
  ∃ r, ∀ fuel, (size m < fuel)%nat → recurseConfigMap fuel path m = Done r.
Proof.
  destruct (recurseConfigMap_done (S (size m)) path m) as [r Hr].
  { pose proof (longKeys_size path m). lia. }
  exists r. intros fuel Hf. eapply recurseConfigMap_mono; [|exact Hr]. lia.
Qed.

(** C37. Turning a map of elements into a tree terminates: with as much fuel
    as the map has elements, or more, the recursion returns a tree or an error,
    always the same one. *)
Theorem recurseConfigMap_terminates path m :
  ∃ r, ∀ fuel, (size m < fuel)%nat → recurseConfigMap fuel path m = Done r.
Proof. apply recurseConfigMap_terminates_at. Qed.

(** ** Back to a tree *)

(** The upgrade of the whole tree that [recurseConfigMap] makes when the orderer
    has capabilities. *)
Fixpoint upgradeTree (g : ConfigGroup) : ConfigGroup :=
  let 'mkConfigGroup v gs vs ps mp := g in hackyFix (mkConfigGroup v (upgradeTree <$> gs) vs ps mp).

Definition hasCapabilities (m : configMap) : Prop := is_Some (m !! hackyFixOrdererCapabilities).
#[export] Instance hasCapabilities_dec m : Decision (hasCapabilities m).
Proof. unfold hasCapabilities. apply _. Defined.

Definition fixTree (m : configMap) (g : ConfigGroup) : ConfigGroup :=
  if decide (hasCapabilities m) then upgradeTree g else g.

Definition upg (cap : bool) (modPolicy : string) : string :=
  if cap then upgrade modPolicy else modPolicy.

(** The element [e'] has the content of [e], up to the upgrade of an empty mod
    policy: for a group, its version, mod policy and the names of its members. *)
Definition kept (cap : bool) (e e' : element) : Prop :=
  match e, e' with
  | ElGroup h, ElGroup h' =>
    cg_Version h' = cg_Version h ∧ cg_ModPolicy h' = upg cap (cg_ModPolicy h) ∧
    dom (Groups h') = dom (Groups h) ∧ dom (Values h') = dom (Values h) ∧
    dom (Policies h') = dom (Policies h)
  | ElValue v, ElValue v' =>
    v' = mkConfigValue (cv_Version v) (cv_Value v) (upg cap (cv_ModPolicy v))
  | ElPolicy p, ElPolicy p' =>
    p' = mkConfigPolicy (cp_Version p) (cp_Policy p) (upg cap (cp_ModPolicy p))
  | _, _ => False
  end.

Lemma kept_refl e : kept false e e.
Proof. by destruct e as [h|[]|[]]. Qed.

Lemma kept_lookup {A B} (m1 : gmap string A) (m2 : gmap string B) k :
  dom m2 = dom m1 → (is_Some (m1 !! k) ↔ is_Some (m2 !! k)).
Proof. intros H. by rewrite <- !elem_of_dom, H. Qed.

(** The map holds the tree [h] at [path]: of the groups, their version, mod policy
    and the names of their members. *)
Definition holds (m : configMap) (path : string) (h : ConfigGroup) : Prop :=
  ∀ k q e, elementAt k q h = Some e →
    ∃ c, m !! (kindPrefix k +:+ path +:+ slashes q) = Some c ∧ kept false (cmp_element c) e.

Lemma holds_child m path h j h' :
  holds m path h → Groups h !! j = Some h' → holds m (path +:+ PathSeparator +:+ j) h'.
Proof.
  intros H Hj k q e He. destruct (H k (j :: q) e) as (c & Hm & Hc).
  - apply elementAt_cons. left. by exists h'.
  - exists c. simpl in Hm. by rewrite !str_app_assoc.
Qed.

Lemma fixTree_eq m h :
  fixTree m h =
    let h' := mkConfigGroup (cg_Version h) (fixTree m <$> Groups h) (Values h) (Policies h) (cg_ModPolicy h) in
    if decide (is_Some (m !! hackyFixOrdererCapabilities)) then hackyFix h' else h'.
Proof.
  destruct h as [v gs vs ps mp]. unfold fixTree.
  destruct (decide (hasCapabilities m)) as [H|H]; destruct (decide (is_Some _)) as [H'|H']; try done.
  simpl. by rewrite map_fmap_id.
Qed.

Lemma recurseConfigMap_tree m h path fuel :
  holds m path h → (group_size h <= fuel)%nat → recurseConfigMap fuel path m = ok (fixTree m h).
Proof.
  revert path fuel. induction h as [h IH] using ConfigGroup_tree_ind. intros path [|fuel] Hh Hf.
  { destruct h. simpl in Hf. lia. }
  destruct (Hh KGroup [] (ElGroup h) eq_refl) as ([[g| |] key p] & Hm & Hk); [|done..].
  simpl in Hm. rewrite str_app_nil in Hm. cbn [recurseConfigMap]. rewrite Hm.
  destruct Hk as (Hv & Hmp & HG & HV & HP). simpl in Hmp.
  rewrite (range_fill_to _ _ (fixTree m <$> Groups h)).
  2: { intros j. rewrite lookup_fmap. pose proof (kept_lookup _ _ j HG) as Hj.
       destruct (Groups g !! j), (Groups h !! j) as [h'|] eqn:E; simpl; [constructor|naive_solver..|constructor].
       apply (IH j h' E); [by eapply holds_child|]. pose proof (group_size_child h j h' E). lia. }
  simpl try_bind. rewrite (range_fill_to _ _ (Values h)).
  2: { intros j. pose proof (kept_lookup _ _ j HV) as Hj.
       destruct (Values g !! j), (Values h !! j) as [v|] eqn:E; simpl; [constructor|naive_solver..|constructor].
       destruct (Hh KValue [j] (ElValue v)) as ([[|[]|] key' p'] & Hv' & Hkv); try done; [simpl; by rewrite E|].
       simpl in Hv'. rewrite !str_app_nil in Hv'. rewrite Hv'. simpl in Hkv. by subst. }
  simpl try_bind. rewrite (range_fill_to _ _ (Policies h)).
  2: { intros j. pose proof (kept_lookup _ _ j HP) as Hj.
       destruct (Policies g !! j), (Policies h !! j) as [v|] eqn:E; simpl; [constructor|naive_solver..|constructor].
       destruct (Hh KPolicy [j] (ElPolicy v)) as ([[| |[]] key' p'] & Hv' & Hkv); try done; [simpl; by rewrite E|].
       simpl in Hv'. rewrite !str_app_nil in Hv'. rewrite Hv'. simpl in Hkv. by subst. }
  simpl try_bind. rewrite <- Hv, <- Hmp. apply (f_equal ok). symmetry. apply fixTree_eq.
Qed.

(** A map that holds a tree is turned into that tree. *)
Lemma configMapToConfig_tree m ns h :
  holds m (PathSeparator +:+ ns) h → configMapToConfig m ns = Done (Ok (fixTree m h)).
Proof.
  intros Hh. destruct (recurseConfigMap_terminates_at (PathSeparator +:+ ns) m) as [r Hr].
  unfold configMapToConfig. rewrite Hr by lia.
  rewrite <- (Hr (S (size m) `max` group_size h)%nat) by lia.
  apply recurseConfigMap_tree; [done|lia].
Qed.

(** C34. Flattening a configuration and turning it back gives the same
    configuration, except that a channel whose orderer has capabilities gets
    the mod policy Admins wherever the mod policy was empty. *)
Theorem config_roundtrip g ns m :
  mapConfig (Some g) ns = Done (Ok m) →
  configMapToConfig m ns = Done (Ok (fixTree m g)).
Proof.
  intros Hm. apply mapConfig_spec in Hm as (_ & Hnames & Hin & _).
  apply configMapToConfig_tree. intros k q e He.
  assert (Hq : noSlash q) by by eapply validIDs_noSlash, Hnames.
  specialize (Hin k q Hq). rewrite He in Hin. simpl in Hin.
  exists (located e (ns :: q)). split; [|apply kept_refl]. etrans; [|exact Hin].
  unfold addressKey. simpl. by rewrite !str_app_assoc.
Qed.

(** ** What the resulting tree holds *)

(** A group keeps its members when it is kept. *)
Lemma kept_child cap h h' k j :
  kept cap (ElGroup h) (ElGroup h') → is_Some (elementAt k [j] h) ↔ is_Some (elementAt k [j] h').
Proof.
  intros (_ & _ & HG & HV & HP).
  destruct k; simpl; rewrite ?fmap_is_Some.
  - destruct (Groups h !! j) eqn:E, (Groups h' !! j) eqn:E'; simpl; try done; exfalso;
      apply elem_of_dom_2 in E || apply elem_of_dom_2 in E';
      [rewrite <- HG in E; apply elem_of_dom in E as [? ?]|rewrite HG in E'; apply elem_of_dom in E' as [? ?]];
      congruence.
  - by rewrite <- !elem_of_dom, HV.
  - by rewrite <- !elem_of_dom, HP.
Qed.

Definition cap (m : configMap) : bool := bool_decide (hasCapabilities m).

Lemma option_Forall2_dom {A B} (R : string → A → B → Prop) (m1 : gmap string A) (m2 : gmap string B) :
  (∀ k, option_Forall2 (R k) (m1 !! k) (m2 !! k)) → dom m2 = dom m1.
Proof.
  intros H. apply set_eq. intros k. rewrite !elem_of_dom. specialize (H k).
  inversion H; split; intros []; (done || by eexists).
Qed.

(** One level of the recursion. *)
Lemma recurseConfigMap_inv fuel path m g' :
  recurseConfigMap (S fuel) path m = Done (Ok g') →
  ∃ group key p, m !! (groupPrefix +:+ path) = Some (mkComparable (ElGroup group) key p) ∧
    kept (cap m) (ElGroup group) (ElGroup g') ∧
    (∀ j h', Groups g' !! j = Some h' →
      recurseConfigMap fuel (path +:+ PathSeparator +:+ j) m = Done (Ok h')) ∧
    (∀ j v', Values g' !! j = Some v' → ∃ v key p,
      m !! (valuePrefix +:+ path +:+ PathSeparator +:+ j) = Some (mkComparable (ElValue v) key p) ∧
      kept (cap m) (ElValue v) (ElValue v')) ∧
    (∀ j p', Policies g' !! j = Some p' → ∃ q key p,
      m !! (policyPrefix +:+ path +:+ PathSeparator +:+ j) = Some (mkComparable (ElPolicy q) key p) ∧
      kept (cap m) (ElPolicy q) (ElPolicy p')).
Proof.
  cbn [recurseConfigMap]. destruct (m !! (groupPrefix +:+ path)) as [[[group| |] key p]|]; [|done..].
  intros (gs & Hgs & (vs & Hvs & (ps & Hps & H)%try_bind_ok)%try_bind_ok)%try_bind_ok.
  injection H as <-.
  assert (HG := range_fill (λ j _, recurseConfigMap fuel (path +:+ PathSeparator +:+ j) m) _ _ Hgs).
  assert (HV := range_fill _ _ _ Hvs). assert (HP := range_fill _ _ _ Hps). clear Hgs Hvs Hps.
  exists group, key, p. split; [done|].
  assert (HC : ∃ b, cap m = b ∧ bool_decide (is_Some (m !! hackyFixOrdererCapabilities)) = b) by by eexists.
  destruct HC as (b & -> & Hb).
  assert (Hv : ∀ j v', vs !! j = Some v' → ∃ key p,
    m !! (valuePrefix +:+ path +:+ PathSeparator +:+ j) = Some (mkComparable (ElValue v') key p)).
  { intros j v' Hj. specialize (HV j). rewrite Hj in HV. inversion HV as [? ? Hx|]; subst.
    destruct (m !! (valuePrefix +:+ _)) as [[[| v|] key' p']|]; try done. injection Hx as <-. by eexists _, _. }
  assert (Hp : ∀ j v', ps !! j = Some v' → ∃ key p,
    m !! (policyPrefix +:+ path +:+ PathSeparator +:+ j) = Some (mkComparable (ElPolicy v') key p)).
  { intros j v' Hj. specialize (HP j). rewrite Hj in HP. inversion HP as [? ? Hx|]; subst.
    destruct (m !! (policyPrefix +:+ _)) as [[[| |v] key' p']|]; try done. injection Hx as <-. by eexists _, _. }
  assert (HG' : ∀ j h', gs !! j = Some h' → recurseConfigMap fuel (path +:+ PathSeparator +:+ j) m = Done (Ok h')).
  { intros j h' Hj. specialize (HG j). rewrite Hj in HG. by inversion HG. }
  apply (option_Forall2_dom _ _ _) in HG, HV, HP.
  destruct (decide (is_Some _)) as [H|H]; [rewrite bool_decide_true in Hb by done|rewrite bool_decide_false in Hb by done];
    subst b; simpl.
  - split; [by rewrite !dom_fmap_L|]. split; [done|]. split; intros j x; rewrite lookup_fmap;
      intros (y & Hy & ->)%fmap_Some; [destruct (Hv j y Hy) as (?&?&?)|destruct (Hp j y Hy) as (?&?&?)];
      by eexists _, _, _.
  - split; [done|]. split; [done|]. split; intros j x Hx;
      [destruct (Hv j x Hx) as (?&?&?)|destruct (Hp j x Hx) as (?&?&?)];
      eexists _, _, _; (split; [done|]); by destruct x.
Qed.
