(* ===== verification/ConfigTxAuth.v ===== *)
(** * Authorisation of configuration updates

    [update_authorized]: every difference between the configuration of a channel
    and the one an accepted update gives was authorised by the mod policy of an
    existing element. [Validate_iff_Propose]: validating a configuration accepts
    exactly the result of proposing its last update. *)

From Stdlib Require Import Ascii String.
From stdpp Require Import gmap strings list.
From S2P Require Import Prelude Protos ConfigProtos GoLib Blocks Cauthdsl PolicyManager PolicyProps ConfigTx ConfigTree ConfigTxProps.

(** ** The elements of the new tree *)

(** Every element of the new tree stands in the map, at the address of the tree. *)
Lemma result_elements fuel path m g' :
  recurseConfigMap fuel path m = Done (Ok g') →
  ∀ k q e', elementAt k q g' = Some e' →
    ∃ c, m !! (kindPrefix k +:+ path +:+ slashes q) = Some c ∧ kept (cap m) (cmp_element c) e'.
Proof.
  revert path g'. induction fuel as [|fuel IH]; intros path g' H k q e' He; [done|].
  apply recurseConfigMap_inv in H as (group & key & p & Hm & Hk & HG & HV & HP).
  destruct q as [|j q].
  - destruct k; simpl in He; [|done..]. injection He as <-. simpl. rewrite str_app_nil. eauto.
  - apply elementAt_cons in He as [(h & Hj & He)|[(-> & -> & v & Hj & ->)|(-> & -> & v & Hj & ->)]].
    + destruct (IH _ _ (HG j h Hj) k q e' He) as (c & Hc & Hkept). exists c. split; [|done].
      rewrite <- Hc. simpl. by rewrite !str_app_assoc.
    + destruct (HV j v Hj) as (w & key' & p' & Hw & Hkept). simpl. rewrite str_app_nil. eauto.
    + destruct (HP j v Hj) as (w & key' & p' & Hw & Hkept). simpl. rewrite str_app_nil. eauto.
Qed.

(** ** The sets of an update *)

Lemma computeDeltaSet_lookup readSet writeSet key :
  computeDeltaSet readSet writeSet !! key =
    (value ← writeSet !! key;
     match readSet !! key with
     | Some readVal => if version readVal =? version value then None else Some value
     | None => Some value
     end).
Proof.
  unfold computeDeltaSet. revert key.
  apply (map_fold_weak_ind (λ r w, ∀ key, r !! key = (value ← w !! key;
     match readSet !! key with
     | Some readVal => if version readVal =? version value then None else Some value
     | None => Some value
     end))).
  - intros key. by rewrite !lookup_empty.
  - intros j v w r Hj IH key. destruct (decide (key = j)) as [->|Hne].
    + rewrite (lookup_insert_eq w). simpl. specialize (IH j). rewrite Hj in IH. simpl in IH.
      destruct (readSet !! j) as [rv|]; [destruct (_ =? _)|]; [done|apply lookup_insert_eq..].
    + rewrite (lookup_insert_ne w) by done. rewrite <- IH.
      destruct (readSet !! j) as [rv|]; [destruct (_ =? _)|]; [done|by apply lookup_insert_ne..].
Qed.

Lemma copy_into (m1 m2 : configMap) key :
  map_fold (λ key value m, <[key := value]> m) m1 m2 !! key =
    match m2 !! key with Some v => Some v | None => m1 !! key end.
Proof.
  revert key. apply (map_fold_weak_ind (λ r w, ∀ key, r !! key =
    match w !! key with Some v => Some v | None => m1 !! key end)).
  - intros key. by rewrite lookup_empty.
  - intros j v w r Hj IH key. destruct (decide (key = j)) as [->|Hne].
    + by rewrite !lookup_insert_eq.
    + by rewrite !lookup_insert_ne.
Qed.

Lemma computeUpdateResult_lookup vi delta key :
  computeUpdateResult vi delta !! key =
    match delta !! key with Some v => Some v | None => vi_configMap vi !! key end.
Proof.
  unfold computeUpdateResult. rewrite !copy_into, lookup_empty. by destruct (vi_configMap vi !! key).
Qed.

(** The signers satisfy the mod policy of an element. *)
Definition authorized (vi : ValidatorImpl) (sds : list SignedData) (c : comparable) : Prop :=
  ∃ pol, policyForItem vi c = Done (Some pol) ∧ EvaluateSignedData pol sds = Done None.

Lemma verifyDelta_ok vi sds key value :
  verifyDelta vi sds key value = Done (Ok tt) →
  match vi_configMap vi !! key with
  | None => version value = 0
  | Some existing => version value = u64 (version existing + 1) ∧ authorized vi sds existing
  end.
Proof.
  unfold verifyDelta. intros ([] & _ & H)%try_bind_ok.
  destruct (vi_configMap vi !! key) as [ex|]; split_if; try done; zbool; [|done].
  apply bind_Done in H as ([pol|] & Hpol & H); [|done].
  apply bind_Done in H as ([e|] & Hev & H); [done|]. split; [done|]. by exists pol.
Qed.

Definition elementVersion (e : element) : Z := version (located e []).

Lemma kept_version b e e' : kept b e e' → elementVersion e' = elementVersion e.
Proof. destruct e, e'; simpl; try done; [by intros [? _]|by intros ->..]. Qed.

(** ** A mod policy that crashes the validator *)

(** C38. The absolute path of the root group, such as [/Channel], is accepted
    as a mod policy, but any later update of an element that carries it makes
    the validator panic instead of rejecting the update. *)
Theorem modPolicy_crash vi sds key value existing :
  validID (pm_path (vi_pm vi)) →
  vi_configMap vi !! key = Some existing →
  modPolicy existing = PathSeparator +:+ pm_path (vi_pm vi) →
  validateModPolicy (modPolicy value) = Ok tt → version value = u64 (version existing + 1) →
  validateModPolicy (modPolicy existing) = Ok tt ∧
  ∃ why, verifyDelta vi sds key value = Panic why.
Proof.
  intros Hid Hex Hmp Hval Hver. split.
  - rewrite Hmp. unfold validateModPolicy. rewrite decide_False by done.
    change (modPolicyElements (PathSeparator +:+ ?p)) with (strings_Split "/" p).
    rewrite strings_Split_lacks by by apply validID_lacks.
    cbn [validateIDs]. apply validateConfigID_ok in Hid as ->. done.
  - unfold verifyDelta. rewrite Hval. simpl. rewrite Hex, Hver, Z.eqb_refl. simpl.
    unfold policyForItem. rewrite Hmp, (proj2 (HasPrefix_spec _ PathSeparator)) by eauto.
    rewrite andb_false_r. simpl.
    destruct (GetPolicy_own_path (vi_pm vi)) as [why ->]. by exists why.
Qed.

(** ** Comparing the two trees *)

Section compare.
Context (vi : ValidatorImpl) (g g' : ConfigGroup) (w : option ConfigGroup) (sds : list SignedData).
Context (writeSet delta : configMap).
Hypothesis Hold : mapConfig (Some g) (vi_namespace vi) = Done (Ok (vi_configMap vi)).
Hypothesis Hwrite : mapConfig w (vi_namespace vi) = Done (Ok writeSet).
Hypothesis Hdelta : delta ⊆ writeSet.
Hypothesis Hverify :
  ∀ key value, delta !! key = Some value → verifyDelta vi sds key value = Done (Ok tt).
Hypothesis Hnew : configMapToConfig (computeUpdateResult vi delta) (vi_namespace vi) = Done (Ok g').

Let ns := vi_namespace vi.
Let b := cap (computeUpdateResult vi delta).

Lemma new_element k q e' :
  elementAt k q g' = Some e' →
  ∃ c, computeUpdateResult vi delta !! addressKey k (ns :: q) = Some c ∧ kept b (cmp_element c) e'.
Proof.
  intros He. destruct (result_elements _ _ _ _ Hnew k q e' He) as (c & Hc & Hk). exists c.
  split; [|done]. rewrite <- Hc. unfold addressKey. simpl. by rewrite !str_app_assoc.
Qed.

(** The members of every group of the new map have valid names. *)
Lemma new_children x c h :
  computeUpdateResult vi delta !! x = Some c → cmp_element c = ElGroup h → childNames h.
Proof.
  assert (Hmap : ∀ t m, mapConfig t ns = Done (Ok m) → m !! x = Some c → cmp_element c = ElGroup h →
    childNames h).
  { intros [t|] m Hm Hx Hc; [|injection Hm as <-; done].
    apply mapConfig_spec in Hm as (_ & Hnames & _ & Hall).
    destruct (Hall x c Hx) as (k & q & e & He & _ & ->). simpl in Hc. subst e.
    apply (namesOk_children t q); [done|]. assert (k = KGroup) as ->; [|done].
    by apply elementAt_kind in He. }
  rewrite computeUpdateResult_lookup. destruct (delta !! x) as [v|] eqn:Ed.
  - intros [= ->]. apply (Hmap w writeSet Hwrite). by eapply lookup_weaken.
  - by apply (Hmap _ _ Hold).
Qed.

Lemma new_names k q e' : elementAt k q g' = Some e' → Forall validID q.
Proof.
  revert k e'. induction q as [|j q IH] using rev_ind; intros k e' He; [constructor|].
  destruct (elementAt_parent _ _ _ _ _ He) as (h' & Hh' & Hj). apply Forall_app.
  split; [by eapply IH|]. apply Forall_singleton.
  destruct (new_element _ _ _ Hh') as ([e key p] & Hc & Hk). simpl in Hk.
  destruct e as [h| |]; [|done..]. eapply kept_child in Hk as [_ Hk].
  destruct Hk as [e0 He0]; [by eexists|]. by apply (new_children _ _ h Hc eq_refl _ _ _ He0).
Qed.

(** An element of the new tree is kept, changed with authorisation, or new. *)
Lemma new_change k q e' :
  elementAt k q g' = Some e' →
  match elementAt k q g with
  | Some e => kept b e e' ∨
      (elementVersion e' = u64 (elementVersion e + 1) ∧ authorized vi sds (located e (ns :: q)))
  | None => elementVersion e' = 0
  end.
Proof.
  intros He. destruct (new_element _ _ _ He) as (c & Hc & Hk).
  assert (Hq : noSlash q) by by eapply validIDs_noSlash, new_names.
  destruct (mapConfig_spec _ _ _ Hold) as (_ & _ & Hin & _). specialize (Hin k q Hq).
  rewrite computeUpdateResult_lookup in Hc.
  destruct (delta !! addressKey k (ns :: q)) as [v|] eqn:Ed.
  - injection Hc as ->. apply Hverify, verifyDelta_ok in Ed.
    rewrite (kept_version _ _ _ Hk). unfold ns in Ed. rewrite Hin in Ed.
    destruct (elementAt k q g) as [e|]; [|done]. right. done.
  - unfold ns in Hc. rewrite Hin in Hc. destruct (elementAt k q g) as [e|]; [|done].
    injection Hc as <-. by left.
Qed.

(** A group that gained or lost a member was changed with authorisation. *)
Lemma members_change k q j h h' :
  elementAt KGroup q g = Some (ElGroup h) → elementAt KGroup q g' = Some (ElGroup h') →
  ¬ (is_Some (elementAt k [j] h) ↔ is_Some (elementAt k [j] h')) →
  cg_Version h' = u64 (cg_Version h + 1) ∧ authorized vi sds (located (ElGroup h) (ns :: q)).
Proof.
  intros Hh Hh' Hj. assert (H := new_change _ _ _ Hh'). rewrite Hh in H.
  destruct H as [H|H]; [|done]. destruct Hj. by eapply kept_child.
Qed.
End compare.

Section authorize.
Context `{!Codec Payload, !Codec ChannelHeader, !Codec SignatureHeader}.
Context `{!Codec ConfigUpdate, !Codec ConfigUpdateEnvelope}.

Lemma authorizeUpdate_ok vi cue m :
  authorizeUpdate vi cue = Done (Ok m) →
  ∃ cu sds writeSet delta,
    UnmarshalConfigUpdate (cue_ConfigUpdate cue) = Ok cu ∧
    ConfigUpdateEnvelopeAsSignedData cue = Ok sds ∧
    mapConfig (WriteSet cu) (vi_namespace vi) = Done (Ok writeSet) ∧
    delta ⊆ writeSet ∧ m = computeUpdateResult vi delta ∧
    ∀ key value, delta !! key = Some value → verifyDelta vi sds key value = Done (Ok tt).
Proof.
  unfold authorizeUpdate. intros (cu & [= Hcu] & H)%try_bind_ok. case_decide; [|done].
  apply try_bind_ok in H as (readSet & Hr & (_u & Hrs & (writeSet & Hw & H)%try_bind_ok)%try_bind_ok).
  apply try_bind_ok in H as (sds & [= Hsds] & ([] & Hd & ([] & _ & H)%try_bind_ok)%try_bind_ok).
  injection H as <-. exists cu, sds, writeSet, (computeDeltaSet readSet writeSet).
  split_and!; [done|done|done| |done|].
  - apply map_subseteq_spec. intros key v. rewrite computeDeltaSet_lookup.
    intros (w & Hw' & H)%bind_Some. rewrite Hw'. by repeat split_match; simplify_eq.
  - intros key value Hkey. unfold verifyDeltaSet in Hd. case_decide; [done|].
    destruct (range_each _ _ _ _ Hd _ _ Hkey) as ([] & [] & Hb). exact Hb.
Qed.

(** An update that writes an element at another version was authorised to. *)
Lemma authorizeUpdate_changed vi cue m cu ws key value existing :
  authorizeUpdate vi cue = Done (Ok m) → UnmarshalConfigUpdate (cue_ConfigUpdate cue) = Ok cu →
  mapConfig (WriteSet cu) (vi_namespace vi) = Done (Ok ws) → ws !! key = Some value →
  vi_configMap vi !! key = Some existing → version value ≠ version existing →
  ∃ sds, ConfigUpdateEnvelopeAsSignedData cue = Ok sds ∧ authorized vi sds existing.
Proof.
  unfold authorizeUpdate. intros Ha Hcu Hws Hv He Hne.
  apply try_bind_ok in Ha as (cu' & [= Hcu'] & Ha). rewrite Hcu in Hcu'. injection Hcu' as <-.
  case_decide; [|done]. apply try_bind_ok in Ha as (readSet & _ & ([] & Hrs & Ha)%try_bind_ok).
  apply try_bind_ok in Ha as (ws' & Hws' & Ha). rewrite Hws in Hws'. injection Hws' as <-.
  apply try_bind_ok in Ha as (sds & [= Hsds] & ([] & Hd & _)%try_bind_ok). exists sds. split; [done|].
  unfold verifyDeltaSet in Hd. case_decide; [done|].
  assert (computeDeltaSet readSet ws !! key = Some value) as Hkey.
  { rewrite computeDeltaSet_lookup, Hv. simpl. destruct (readSet !! key) as [rv|] eqn:Hr; [|done].
    destruct (range_each _ _ _ _ Hrs key rv Hr) as ([] & [] & Hb). rewrite He in Hb.
    destruct (version existing =? version rv) eqn:E1; [|done].
    destruct (version rv =? version value) eqn:E2; [|done]. zbool. congruence. }
  destruct (range_each _ _ _ _ Hd key value Hkey) as ([] & [] & Hb).
  apply verifyDelta_ok in Hb. rewrite He in Hb. by destruct Hb.
Qed.

(** C7. An accepted configuration update changes the channel's configuration
    only as far as mod policies allow. An element of both configurations is
    unchanged, or its version went up by one and the signers satisfied its mod
    policy. An element was added with version 0, or removed, only from a group
    that is itself new or gone, or whose mod policy the signers satisfied. *)
Theorem update_authorized chan cfg g pm ns vi tx env cfg' g' :
  NewValidatorImpl chan (Some cfg) ns pm = Done (Ok vi) → ChannelGroup cfg = Some g →
  ProposeConfigUpdate vi (Some tx) = Done (Ok env) →
  ce_Config env = Some cfg' → ChannelGroup cfg' = Some g' →
  ∃ cue sds b,
    EnvelopeToConfigUpdate (Some tx) = Done (Ok cue) ∧
    ConfigUpdateEnvelopeAsSignedData cue = Ok sds ∧
    ∀ k q,
    match elementAt k q g, elementAt k q g' with
    | Some e, Some e' => kept b e e' ∨
        (elementVersion e' = u64 (elementVersion e + 1) ∧ authorized vi sds (located e (ns :: q)))
    | None, Some e' => elementVersion e' = 0 ∧ ∃ p j, q = p ++ [j] ∧
        ∀ h, elementAt KGroup p g = Some (ElGroup h) →
          authorized vi sds (located (ElGroup h) (ns :: p))
    | Some e, None => ∃ p j h, q = p ++ [j] ∧ elementAt KGroup p g = Some (ElGroup h) ∧
        (is_Some (elementAt KGroup p g') → authorized vi sds (located (ElGroup h) (ns :: p)))
    | None, None => True
    end.
Proof.
  unfold NewValidatorImpl. intros Hvi Hg H Henv Hg'. rewrite Hg in Hvi.
  apply try_bind_ok in Hvi as ([] & _ & (m & Hm & [= <-])%try_bind_ok).
  set (vi := mkValidatorImpl _ _ _ _ _ _) in *.
  apply try_bind_ok in H as (cue & Hcue & (m' & Hm' & (gr & Hgr & [= <-])%try_bind_ok)%try_bind_ok).
  simpl in Henv. injection Henv as <-. simpl in Hg'. injection Hg' as ->.
  apply authorizeUpdate_ok in Hm' as (cu & sds & writeSet & delta & _ & Hsds & Hw & Hd & -> & Hv).
  exists cue, sds, (cap (computeUpdateResult vi delta)). split; [done|]. split; [done|]. intros k q.
  assert (Hmem := members_change vi g g' (WriteSet cu) sds writeSet delta Hm Hw Hd Hv Hgr).
  destruct (elementAt k q g') as [e'|] eqn:E'.
  - assert (Hc := new_change vi g g' (WriteSet cu) sds writeSet delta Hm Hw Hd Hv Hgr k q e' E').
    destruct (elementAt k q g) as [e|] eqn:E; [exact Hc|]. split; [exact Hc|].
    destruct q as [|j p _] using rev_ind; [by destruct k|]. exists p, j. split; [done|]. intros h Hh.
    destruct (elementAt_parent _ _ _ _ _ E') as (h' & Hh' & Hj).
    apply (Hmem k p j h h' Hh Hh'). rewrite (elementAt_app _ _ _ _ _ Hh) in E. rewrite E, Hj.
    intros [_ Hx]. destruct Hx; [by eexists|done].
  - destruct (elementAt k q g) as [e|] eqn:E; [|done].
    destruct q as [|j p _] using rev_ind; [by destruct k|]. exists p, j.
    destruct (elementAt_parent _ _ _ _ _ E) as (h & Hh & Hj). exists h. split; [done|]. split; [done|].
    intros [e' He']. assert (kindOf e' = KGroup) as Hk by by eapply elementAt_kind.
    destruct e' as [h'| |]; [|done..].
    apply (Hmem k p j h h' Hh He'). rewrite (elementAt_app _ _ _ _ _ He') in E'. rewrite E', Hj.
    intros [Hx _]. destruct Hx; [by eexists|done].
Qed.

(** What proposing gives validates. *)
Lemma Propose_Validate vi tx env :
  ProposeConfigUpdate vi tx = Done (Ok env) → LastUpdate env = tx ∧ Validate vi (Some env) = Done (Ok tt).
Proof.
  unfold Validate, ProposeConfigUpdate.
  intros (cue & Hc & (m & Hm & (gr & Hgr & H)%try_bind_ok)%try_bind_ok)%try_bind_ok.
  injection H as <-. simpl. split; [done|]. rewrite Hc. simpl. rewrite Z.eqb_refl. simpl.
  rewrite Hm. simpl. rewrite Hgr. simpl. by rewrite decide_True.
Qed.

(** The validator accepts a configuration envelope exactly when proposing
    the envelope's last update against the current configuration gives that very
    envelope; in particular its sequence number is the next one. *)
Theorem Validate_iff_Propose vi env :
  Validate vi (Some env) = Done (Ok tt) ↔
  ProposeConfigUpdate vi (LastUpdate env) = Done (Ok env).
Proof.
  split; [|by intros [_ ?]%Propose_Validate].
  destruct env as [cfg tx]. unfold Validate, ProposeConfigUpdate. simpl.
  destruct cfg as [[seq g]|]; [|done]. simpl. split_if; [done|]. zbool. subst seq.
  intros (cue & -> & (m & Hm & (gr & Hgr & H)%try_bind_ok)%try_bind_ok)%try_bind_ok.
  simpl. rewrite Hm. simpl. rewrite Hgr. simpl. case_decide; [|done]. by subst.
Qed.
End authorize.
