(* ===== verification/ConfigTxDemo.v ===== *)
(** * A configuration update, evaluated

    The administrators of two organisations add a value to the application group
    of the channel of [PolicyDemo]; the theorems on configuration transactions
    applied to it, and a mod policy that makes the validator panic. *)

From Stdlib Require Import Ascii String Strings.Byte.
From stdpp Require Import gmap strings list.
From S2P Require Import Prelude Protos ConfigProtos Codecs GoLib Blocks Cauthdsl PolicyManager PolicyProps PolicyDemo ConfigTx ConfigTree ConfigTxProps ConfigTxAuth.

#[export] Instance ConfigUpdateEnvelope_ser : Ser ConfigUpdateEnvelope.
Proof.
  apply (iso_ser
    (λ x, (cue_ConfigUpdate x, (λ s, (csig_SignatureHeader s, csig_Signature s)) <$> cue_Signatures x))
    (λ '(a, l), mkConfigUpdateEnvelope a ((λ '(h, s), mkConfigSignature h s) <$> l))).
  intros [u l]. simpl. f_equal. induction l as [|[h s] l IH]; simpl; [done|]. by f_equal.
Defined.
#[export] Instance demo_ConfigUpdateEnvelope : Codec ConfigUpdateEnvelope :=
  ser_codec ConfigUpdateEnvelope.
#[export] Instance demo_tx_Payload : Codec Payload := ser_codec Payload.
#[export] Instance demo_tx_ChannelHeader : Codec ChannelHeader := ser_codec ChannelHeader.
#[export] Instance demo_tx_SignatureHeader : Codec SignatureHeader := ser_codec SignatureHeader.

(** The read set of the update, and the application group it writes. *)
Definition demo_read : ConfigGroup :=
  mkConfigGroup 0 {[ "Application" := demo_application ]} ∅ ∅ "".

Definition demo_anchor : ConfigValue := mkConfigValue 0 [x01; x02] "Admins".

Definition demo_application' : ConfigGroup :=
  mkConfigGroup 1 (Groups demo_application) {[ "Anchor" := demo_anchor ]}
    (Policies demo_application) "Admins".

Definition demo_write : ConfigGroup :=
  mkConfigGroup 0 {[ "Application" := demo_application' ]} ∅ ∅ "".

Definition demo_update : ConfigUpdate := mkConfigUpdate "ch" (Some demo_read) (Some demo_write).

(** One update and its encoding. *)
#[export] Instance demo_ConfigUpdate : Codec ConfigUpdate := {|
  marshal _ := [x0a];
  unmarshal data := if decide (data = [x0a]) then Some demo_update else None
|}.

Definition demo_config_signature (org : string) : ConfigSignature :=
  mkConfigSignature (marshal (mkSignatureHeader (String.list_byte_of_string org) [])) [].

(** The update signed by the given organisations. *)
Definition demo_tx (orgs : list string) : Envelope :=
  let cue := mkConfigUpdateEnvelope (marshal demo_update) (demo_config_signature <$> orgs) in
  let header := mkHeader (Some (marshal (mkChannelHeader HeaderType_CONFIG_UPDATE "ch" ""))) [] in
  mkEnvelope (marshal (mkPayload (Some header) (marshal cue))) [].

Definition demo_current : Config := mkConfig 4 (Some demo_channel).

Definition demo_pm : ManagerImpl :=
  match demo_manager with Done (Ok pm) => pm | _ => mkManagerImpl "" ∅ ∅ end.

Definition demo_validator : fallible ValidatorImpl :=
  NewValidatorImpl "ch" (Some demo_current) "Channel" demo_pm.

Definition demo_vi : ValidatorImpl :=
  match demo_validator with
  | Done (Ok vi) => vi
  | _ => mkValidatorImpl "" 0 ∅ demo_current "" demo_pm
  end.

Definition built {A} (r : fallible A) : bool :=
  match r with Done (Ok _) => true | _ => false end.

Lemma demo_validator_built : demo_validator = Done (Ok demo_vi).
Proof.
  assert (built demo_validator = true) as H by reflexivity.
  unfold demo_vi. destruct demo_validator as [[vi|]|]; done.
Qed.

(** Both organisations sign: the update is accepted; one alone is not enough. *)
Lemma demo_accepted : built (ProposeConfigUpdate demo_vi (Some (demo_tx ["A"; "B"]))) = true.
Proof. reflexivity. Qed.
Lemma demo_rejected : built (ProposeConfigUpdate demo_vi (Some (demo_tx ["A"]))) = false.
Proof. reflexivity. Qed.

Definition demo_result : ConfigEnvelope :=
  match ProposeConfigUpdate demo_vi (Some (demo_tx ["A"; "B"])) with
  | Done (Ok env) => env
  | _ => mkConfigEnvelope None None
  end.

Lemma demo_proposed : ProposeConfigUpdate demo_vi (Some (demo_tx ["A"; "B"])) = Done (Ok demo_result).
Proof.
  assert (H := demo_accepted). unfold demo_result.
  destruct (ProposeConfigUpdate demo_vi (Some (demo_tx ["A"; "B"]))) as [[env|]|]; done.
Qed.

(** The value of the new configuration at a path. *)
Definition demo_new_group : option ConfigGroup := cfg ← ce_Config demo_result; ChannelGroup cfg.

Lemma demo_new_anchor :
  (g ← demo_new_group; elementAt KValue ["Application"; "Anchor"] g) = Some (ElValue demo_anchor).
Proof. reflexivity. Qed.

(** The new value is there, and whoever added it satisfied the mod policy of the
    application group. *)
Lemma update_authorized_witness :
  ∃ g' sds, demo_new_group = Some g' ∧
    elementAt KValue ["Application"; "Anchor"] g' = Some (ElValue demo_anchor) ∧
    authorized demo_vi sds (located (ElGroup demo_application) ["Channel"; "Application"]).
Proof.
  destruct (proj1 (bind_Some _ _ _) demo_new_anchor) as (g' & Hg' & H). exists g'.
  destruct (proj1 (bind_Some _ _ _) Hg') as (cfg' & Ecfg & Eg).
  destruct (update_authorized "ch" demo_current demo_channel demo_pm "Channel" demo_vi
    (demo_tx ["A"; "B"]) demo_result cfg' g' demo_validator_built eq_refl demo_proposed Ecfg Eg)
    as (cue & sds & b & _ & _ & Hall).
  exists sds. split; [done|]. split; [done|].
  specialize (Hall KValue ["Application"; "Anchor"]). rewrite H in Hall.
  change (elementAt KValue ["Application"; "Anchor"] demo_channel) with (@None element) in Hall.
  destruct Hall as (_ & p & j & Hp & Hauth).
  assert (p = ["Application"]) as ->.
  { apply (app_inj_2 ["Application"] p ["Anchor"] [j]) in Hp as [<- _]; done. }
  by apply Hauth.
Defined.

Lemma config_roundtrip_witness :
  ∃ m, mapConfig (Some demo_channel) "Channel" = Done (Ok m) ∧
    configMapToConfig m "Channel" = Done (Ok (fixTree m demo_channel)).
Proof.
  assert (built (mapConfig (Some demo_channel) "Channel") = true) as Hb by reflexivity.
  destruct (mapConfig (Some demo_channel) "Channel") as [[m|]|] eqn:H; [|discriminate Hb..].
  exists m. split; [reflexivity|]. exact (config_roundtrip demo_channel "Channel" m H).
Defined.

(** A channel whose root value has mod policy [/Channel]. *)
Lemma modPolicy_crash_witness :
  let old := located (ElValue (mkConfigValue 3 [] "/Channel")) ["Channel"; "X"] in
  let new := located (ElValue (mkConfigValue 4 [] "Admins")) ["Channel"; "X"] in
  let vi := mkValidatorImpl "ch" 0 {[ "[Value]  /Channel/X" := old ]} demo_current "Channel"
              (mkManagerImpl "Channel" ∅ ∅) in
  validateModPolicy "/Channel" = Ok tt ∧
  ∃ why, verifyDelta vi [] "[Value]  /Channel/X" new = Panic why.
Proof.
  intros old new vi.
  apply (modPolicy_crash vi [] "[Value]  /Channel/X" new old).
  - apply validateConfigID_ok. reflexivity.
  - reflexivity.
  - reflexivity.
  - reflexivity.
  - reflexivity.
Defined.
