(* ===== verification/Capabilities.v ===== *)
(** * Capabilities

    [common/capabilities]: what the capability names of the channel, orderer and
    application groups enable, and whether this binary supports them. Of a map of
    capabilities only the keys matter. *)

From stdpp Require Import gmap strings list.
From S2P Require Import Prelude GoLib.

Abbreviation capabilities := (gset string).

Definition has (name : string) (cs : capabilities) : bool := bool_decide (name ∈ cs).

(** [registry.Supported]: every required capability is one this binary has. *)
Definition Supported (HasCapability : string → bool) (cs : capabilities) : res unit :=
  if decide (set_Forall (λ name, HasCapability name = true) cs) then Ok tt
  else Err (Errorf "capability is required but not supported").

Definition oneOf (names : list string) (capability : string) : bool :=
  bool_decide (capability ∈ names).

(** ** Orderer capabilities: [OrdererProvider] *)

Record OrdererProvider := mkOrdererProvider {
  op_capabilities : capabilities;
  op_v11BugFixes : bool;
  op_v142 : bool;
  op_V20 : bool
}.

Definition NewOrdererProvider (cs : capabilities) : OrdererProvider :=
  mkOrdererProvider cs (has "V1_1" cs) (has "V1_4_2" cs) (has "V2_0" cs).

Definition OrdererHasCapability : string → bool := oneOf ["V1_1"; "V1_4_2"; "V2_0"].

Definition PredictableChannelTemplate (cp : OrdererProvider) : bool :=
  op_v11BugFixes cp || op_v142 cp || op_V20 cp.

Definition Resubmission (cp : OrdererProvider) : bool :=
  op_v11BugFixes cp || op_v142 cp || op_V20 cp.

Definition ExpirationCheck (cp : OrdererProvider) : bool :=
  op_v11BugFixes cp || op_v142 cp || op_V20 cp.

Definition OrdererConsensusTypeMigration (cp : OrdererProvider) : bool :=
  op_v142 cp || op_V20 cp.

Definition UseChannelCreationPolicyAsAdmins (cp : OrdererProvider) : bool := op_V20 cp.

(** ** Channel capabilities: [ChannelProvider] *)

Record ChannelProvider := mkChannelProvider {
  chp_capabilities : capabilities;
  chp_v11 : bool;
  chp_v13 : bool;
  chp_v142 : bool;
  chp_v143 : bool;
  chp_v20 : bool
}.

Definition NewChannelProvider (cs : capabilities) : ChannelProvider :=
  mkChannelProvider cs (has "V1_1" cs) (has "V1_3" cs) (has "V1_4_2" cs) (has "V1_4_3" cs)
    (has "V2_0" cs).

Definition ChannelHasCapability : string → bool :=
  oneOf ["V2_0"; "V1_4_3"; "V1_4_2"; "V1_3"; "V1_1"].

(** [msp.MSPVersion] *)
Definition MSPv1_0 : Z := 0.
Definition MSPv1_1 : Z := 1.
Definition MSPv1_3 : Z := 2.
Definition MSPv1_4_3 : Z := 3.

Definition MSPVersion (cp : ChannelProvider) : Z :=
  if chp_v143 cp || chp_v20 cp then MSPv1_4_3
  else if chp_v13 cp || chp_v142 cp then MSPv1_3
  else if chp_v11 cp then MSPv1_1
  else MSPv1_0.

Definition ChannelConsensusTypeMigration (cp : ChannelProvider) : bool :=
  chp_v142 cp || chp_v143 cp || chp_v20 cp.

Definition OrgSpecificOrdererEndpoints (cp : ChannelProvider) : bool :=
  chp_v142 cp || chp_v143 cp || chp_v20 cp.

(** ** Application capabilities: [ApplicationProvider] *)

Record ApplicationProvider := mkApplicationProvider {
  ap_capabilities : capabilities;
  ap_v11 : bool;
  ap_v12 : bool;
  ap_v13 : bool;
  ap_v142 : bool;
  ap_v20 : bool;
  ap_v11PvtDataExperimental : bool
}.

Definition NewApplicationProvider (cs : capabilities) : ApplicationProvider :=
  mkApplicationProvider cs (has "V1_1" cs) (has "V1_2" cs) (has "V1_3" cs) (has "V1_4_2" cs)
    (has "V2_0" cs) (has "V1_1_PVTDATA_EXPERIMENTAL" cs).

Definition ACLs (ap : ApplicationProvider) : bool :=
  ap_v12 ap || ap_v13 ap || ap_v142 ap || ap_v20 ap.

Definition ForbidDuplicateTXIdInBlock (ap : ApplicationProvider) : bool :=
  ap_v11 ap || ap_v12 ap || ap_v13 ap || ap_v142 ap || ap_v20 ap.

Definition PrivateChannelData (ap : ApplicationProvider) : bool :=
  ap_v11PvtDataExperimental ap || ap_v12 ap || ap_v13 ap || ap_v142 ap || ap_v20 ap.

Definition CollectionUpgrade (ap : ApplicationProvider) : bool :=
  ap_v12 ap || ap_v13 ap || ap_v142 ap || ap_v20 ap.

Definition V1_1Validation (ap : ApplicationProvider) : bool :=
  ap_v11 ap || ap_v12 ap || ap_v13 ap || ap_v142 ap || ap_v20 ap.

Definition V1_2Validation (ap : ApplicationProvider) : bool :=
  ap_v12 ap || ap_v13 ap || ap_v142 ap || ap_v20 ap.

Definition V1_3Validation (ap : ApplicationProvider) : bool :=
  ap_v13 ap || ap_v142 ap || ap_v20 ap.

Definition V2_0Validation (ap : ApplicationProvider) : bool := ap_v20 ap.

Definition LifecycleV20 (ap : ApplicationProvider) : bool := ap_v20 ap.

Definition KeyLevelEndorsement (ap : ApplicationProvider) : bool :=
  ap_v13 ap || ap_v142 ap || ap_v20 ap.

Definition StorePvtDataOfInvalidTx (ap : ApplicationProvider) : bool := ap_v142 ap || ap_v20 ap.

Definition ApplicationHasCapability : string → bool :=
  oneOf ["V1_1"; "V1_2"; "V1_3"; "V1_4_2"; "V2_0"; "V1_1_PVTDATA_EXPERIMENTAL";
         "V1_1_RESOURCETREE_EXPERIMENTAL"].

(** ** Enabling a capability never takes a feature away *)

Lemma has_mono name cs cs' : cs ⊆ cs' → has name cs = true → has name cs' = true.
Proof. unfold has. rewrite !bool_decide_eq_true. set_solver. Qed.

Lemma orb_mono a b a' b' :
  (a = true → a' = true) → (b = true → b' = true) → a || b = true → a' || b' = true.
Proof. destruct a, b, a', b'; naive_solver. Qed.

(** A feature that grows with the set of capabilities. *)
Definition monotone (feature : capabilities → bool) : Prop :=
  ∀ cs cs', cs ⊆ cs' → feature cs = true → feature cs' = true.

Ltac by_mono := intros ? ? ?; simpl; repeat apply orb_mono; by apply has_mono.

Lemma orderer_features_monotone :
  monotone (λ cs, PredictableChannelTemplate (NewOrdererProvider cs)) ∧
  monotone (λ cs, Resubmission (NewOrdererProvider cs)) ∧
  monotone (λ cs, ExpirationCheck (NewOrdererProvider cs)) ∧
  monotone (λ cs, OrdererConsensusTypeMigration (NewOrdererProvider cs)) ∧
  monotone (λ cs, UseChannelCreationPolicyAsAdmins (NewOrdererProvider cs)).
Proof. split_and!; by_mono. Qed.

Lemma application_features_monotone :
  monotone (λ cs, ACLs (NewApplicationProvider cs)) ∧
  monotone (λ cs, PrivateChannelData (NewApplicationProvider cs)) ∧
  monotone (λ cs, V1_3Validation (NewApplicationProvider cs)) ∧
  monotone (λ cs, StorePvtDataOfInvalidTx (NewApplicationProvider cs)).
Proof. split_and!; by_mono. Qed.
