(* ===== verification/ChannelConfig.v ===== *)
(** * Channel configuration bundles

    [common/channelconfig]: the values of the channel, orderer, application and
    consortium groups read from a configuration ([NewChannelConfig] and the
    constructors below it), and the [Bundle] of a configuration with its policy
    manager and validator ([NewBundle], [ValidateNew]). Setting up a membership
    service provider is a parameter, as are [time.ParseDuration] and the
    encodings of the values. *)

From Stdlib Require Import Ascii String.
From stdpp Require Import gmap strings list.
From S2P Require Import Prelude Protos ConfigProtos GoLib BlockCutter Support Blocks Capabilities Cauthdsl PolicyManager ConfigTx.

(** ** The values of a configuration *)

Record ConsensusTypeMessage := mkConsensusTypeMessage {
  ct_Type : string;
  ct_Metadata : bytes;
  ct_State : Z
}.

(** [ConsensusType_State] *)
Definition STATE_NORMAL : Z := 0.
Definition STATE_MAINTENANCE : Z := 1.

Record MSPConfig := mkMSPConfig { mc_Type : Z; mc_Config : bytes }.
#[export] Instance MSPConfig_eq_dec : EqDecision MSPConfig.
Proof. solve_decision. Defined.

(** The encodings of the value messages. A message that is a list or a number
    in one field is that field. *)
Class ValueCodecs := {
  dec_ConsensusType : bytes → option ConsensusTypeMessage;
  dec_BatchSize : bytes → option BatchSize;
  dec_BatchTimeout : bytes → option string;
  dec_KafkaBrokers : bytes → option (list string);
  dec_ChannelRestrictions : bytes → option Z;
  dec_Capabilities : bytes → option capabilities;
  dec_HashingAlgorithm : bytes → option string;
  dec_BlockDataHashingStructure : bytes → option Z;
  dec_OrdererAddresses : bytes → option (list string);
  dec_Consortium : bytes → option string;
  dec_MSPConfig : bytes → option MSPConfig;
  dec_AnchorPeers : bytes → option (list (string * Z));
  dec_ACLs : bytes → option (gmap string string);
  dec_Policy : bytes → option PolicyMessage;
  enc_Consortium : string → bytes
}.

(** [DeserializeProtoValuesFromGroup], for a structure with the setters [set]. *)
Definition DeserializeProtoValuesFromGroup {P} (set : string → bytes → P → res P)
    (group : ConfigGroup) (protos : P) : fallible P :=
  range (λ key value protos, Done (set key (cv_Value value) protos)) (Values group) protos.

Definition OrdererGroupKey : string := "Orderer".
Definition ApplicationGroupKey : string := "Application".
Definition ConsortiumsGroupKey : string := "Consortiums".
Definition CapabilitiesKey : string := "Capabilities".
Definition EndpointsKey : string := "Endpoints".
Definition ACLsKey : string := "ACLs".
Definition ConsortiumKey : string := "Consortium".
Definition RootGroupKey : string := "Channel".

(** ** Brokers: [brokerEntrySeemsValid] *)

(** [strconv.ParseUint(s, 10, 16)] *)
Definition ParseUint16 (s : string) : option Z :=
  if decide (s = "") then None
  else n ← digitsValue s 0; if n <? 2 ^ 16 then Some n else None.

Fixpoint lastChar (c : ascii) (s : string) : ascii :=
  match s with EmptyString => c | String d s => lastChar d s end.

Fixpoint everyChar (p : ascii → bool) (s : string) : bool :=
  match s with EmptyString => true | String c s => p c && everyChar p s end.

(** The match of the host expression, all of the host or nothing. *)
Definition matchHost (host : string) : string :=
  match host with
  | EmptyString => EmptyString
  | String c s =>
    if isAlnum c && isAlnum (lastChar c s) && everyChar configChar host then host else EmptyString
  end.

Definition brokerEntrySeemsValid (broker : string) : bool :=
  match strings_Split ":" broker with
  | [host; port] =>
    match ParseUint16 port with
    | None => false
    | Some _ => slen (matchHost host) =? slen host
    end
  | _ => false
  end.

Section channelconfig.
Context `{!ValueCodecs} `{!Codec SignaturePolicyEnvelope, !Codec ImplicitMetaDefinition}.
(** A membership service provider set up for a version of the protocol, its
    identifier, the manager of several, and [time.ParseDuration]. *)
Context {MSP : Type} (msp_Setup : Z → MSPConfig → res MSP) (GetIdentifier : MSP → string).
Context (msp_NewMSPManager : list MSP → res IdentityDeserializer).
Context (ParseDuration : string → option duration).

(** ** Membership services: [msp.go] *)

(** [msp.FABRIC] and [msp.IDEMIX] *)
Definition msp_FABRIC : Z := 0.
Definition msp_IDEMIX : Z := 1.

(** [MSPConfigHandler], its pending configurations. *)
Record MSPConfigHandler := mkMSPConfigHandler {
  mh_version : Z;
  idMap : gmap string (MSPConfig * MSP)
}.

Definition ProposeMSP (mspConfig : MSPConfig) (bh : MSPConfigHandler) : res (MSP * MSPConfigHandler) :=
  if (mc_Type mspConfig =? msp_FABRIC) || (mc_Type mspConfig =? msp_IDEMIX) then
    theMsp ← msp_Setup (mh_version bh) mspConfig;
    let mspID := GetIdentifier theMsp in
    match idMap bh !! mspID with
    | Some (existing, _) =>
      if decide (existing = mspConfig) then Ok (theMsp, bh)
      else Err (Errorf "Attempted to define two different versions of MSP")
    | None => Ok (theMsp, mkMSPConfigHandler (mh_version bh) (<[mspID := (mspConfig, theMsp)]> (idMap bh)))
    end
  else Err (Errorf "Setup error: unsupported msp type").

Definition CreateMSPManager (bh : MSPConfigHandler) : res IdentityDeserializer :=
  msp_NewMSPManager (map_to_list (idMap bh)).*2.*2.

(** ** Organisations *)

(** An organisation of any group: its MSP ID. The endpoints of an orderer
    organisation and the anchor peers of an application organisation are kept. *)
Record OrganizationConfig := mkOrganizationConfig {
  og_MSP : MSPConfig;
  og_Endpoints : list string;
  og_AnchorPeers : list (string * Z);
  MSPID : string
}.

Definition noMSP : MSPConfig := mkMSPConfig 0 [].

(** The setters of [OrganizationProtos], [OrdererOrgProtos] and
    [ApplicationOrgProtos]. *)
Definition setOrg (key : string) (value : bytes) (p : OrganizationConfig) : res OrganizationConfig :=
  if decide (key = "MSP") then
    v ← or_err "unmarshal" (dec_MSPConfig value); Ok {| p with og_MSP := v |}
  else Err (Errorf "Unexpected key").

Definition setOrdererOrg (key : string) (value : bytes) (p : OrganizationConfig)
    : res OrganizationConfig :=
  if decide (key = EndpointsKey) then
    v ← or_err "unmarshal" (dec_OrdererAddresses value); Ok {| p with og_Endpoints := v |}
  else setOrg key value p.

Definition setApplicationOrg (key : string) (value : bytes) (p : OrganizationConfig)
    : res OrganizationConfig :=
  if decide (key = "AnchorPeers") then
    v ← or_err "unmarshal" (dec_AnchorPeers value); Ok {| p with og_AnchorPeers := v |}
  else setOrg key value p.

(** [OrganizationConfig.validateMSP] *)
Definition validateMSP (oc : OrganizationConfig) (h : MSPConfigHandler)
    : fallible (OrganizationConfig * MSPConfigHandler) :=
  '(theMsp, h) ←? Done (ProposeMSP (og_MSP oc) h);
  let mspID := GetIdentifier theMsp in
  if decide (mspID = "") then fail "MSP for org has empty MSP ID"
  else ok ({| oc with MSPID := mspID |}, h).

Definition emptyOrg : OrganizationConfig := mkOrganizationConfig noMSP [] [] "".

(** [NewOrganizationConfig], [NewOrdererOrgConfig] and [NewApplicationOrgConfig]. *)
Definition newOrg (set : string → bytes → OrganizationConfig → res OrganizationConfig)
    (orgGroup : ConfigGroup) (h : MSPConfigHandler) : fallible (OrganizationConfig * MSPConfigHandler) :=
  if decide (size (Groups orgGroup) = 0%nat) then
    oc ←? DeserializeProtoValuesFromGroup set orgGroup emptyOrg;
    validateMSP oc h
  else fail "config does not allow sub-groups".

Definition NewOrganizationConfig := newOrg setOrg.

Definition NewOrdererOrgConfig (channelCapabilities : ChannelProvider) (orgGroup : ConfigGroup)
    (h : MSPConfigHandler) : fallible (OrganizationConfig * MSPConfigHandler) :=
  if decide (size (Groups orgGroup) = 0%nat) then
    if negb (OrgSpecificOrdererEndpoints channelCapabilities)
       && bool_decide (is_Some (Values orgGroup !! EndpointsKey))
    then fail "Orderer Org cannot contain endpoints value until V1_4_2+ capabilities have been enabled"
    else newOrg setOrdererOrg orgGroup h
  else fail "OrdererOrg config does not allow sub-groups".

Definition NewApplicationOrgConfig := newOrg setApplicationOrg.

(** The loop over the organisations of a group. *)
Definition newOrgs (new : ConfigGroup → MSPConfigHandler → fallible (OrganizationConfig * MSPConfigHandler))
    (groups : gmap string ConfigGroup) (h : MSPConfigHandler)
    : fallible (gmap string OrganizationConfig * MSPConfigHandler) :=
  range (λ orgName orgGroup '(orgs, h),
    '(org, h) ←? new orgGroup h; ok (<[orgName := org]> orgs, h)) groups (∅, h).

(** ** The orderer group: [orderer.go] *)

Record OrdererProtos := mkOrdererProtos {
  orp_ConsensusType : ConsensusTypeMessage;
  orp_BatchSize : BatchSize;
  orp_BatchTimeout : string;
  orp_KafkaBrokers : list string;
  orp_MaxCount : Z;
  orp_Capabilities : capabilities
}.

Definition emptyOrdererProtos : OrdererProtos :=
  mkOrdererProtos (mkConsensusTypeMessage "" [] 0) (mkBatchSize 0 0 0) "" [] 0 ∅.

Definition setOrderer (key : string) (value : bytes) (p : OrdererProtos) : res OrdererProtos :=
  if decide (key = "ConsensusType") then
    v ← or_err "unmarshal" (dec_ConsensusType value); Ok {| p with orp_ConsensusType := v |}
  else if decide (key = "BatchSize") then
    v ← or_err "unmarshal" (dec_BatchSize value); Ok {| p with orp_BatchSize := v |}
  else if decide (key = "BatchTimeout") then
    v ← or_err "unmarshal" (dec_BatchTimeout value); Ok {| p with orp_BatchTimeout := v |}
  else if decide (key = "KafkaBrokers") then
    v ← or_err "unmarshal" (dec_KafkaBrokers value); Ok {| p with orp_KafkaBrokers := v |}
  else if decide (key = "ChannelRestrictions") then
    v ← or_err "unmarshal" (dec_ChannelRestrictions value); Ok {| p with orp_MaxCount := v |}
  else if decide (key = CapabilitiesKey) then
    v ← or_err "unmarshal" (dec_Capabilities value); Ok {| p with orp_Capabilities := v |}
  else Err (Errorf "Unexpected key").

Record OrdererConf := mkOrdererConf {
  orc_protos : OrdererProtos;
  orc_orgs : gmap string OrganizationConfig;
  orc_batchTimeout : duration
}.

Definition validateBatchSize (bs : BatchSize) : res unit :=
  if MaxMessageCount bs =? 0 then Err (Errorf "invalid max message count: 0")
  else if AbsoluteMaxBytes bs =? 0 then Err (Errorf "invalid absolute max bytes: 0")
  else if PreferredMaxBytes bs =? 0 then Err (Errorf "invalid preferred max bytes: 0")
  else if AbsoluteMaxBytes bs <? PreferredMaxBytes bs
  then Err (Errorf "preferred max bytes greater than the absolute max bytes")
  else Ok tt.

(** [validateBatchTimeout], with the timeout it stores. *)
Definition validateBatchTimeout (timeout : string) : res duration :=
  batchTimeout ← or_err "Attempted to set the batch timeout to a invalid value" (ParseDuration timeout);
  if batchTimeout <=? 0 then Err (Errorf "Attempted to set the batch timeout to a non-positive value")
  else Ok batchTimeout.

Definition validateKafkaBrokers (brokers : list string) : res unit :=
  if forallb brokerEntrySeemsValid brokers then Ok tt else Err (Errorf "Invalid broker entry").

Definition NewOrdererConfig (ordererGroup : ConfigGroup) (h : MSPConfigHandler)
    (channelCapabilities : ChannelProvider) : fallible (OrdererConf * MSPConfigHandler) :=
  protos ←? DeserializeProtoValuesFromGroup setOrderer ordererGroup emptyOrdererProtos;
  _ ←? Done (validateBatchSize (orp_BatchSize protos));
  batchTimeout ←? Done (validateBatchTimeout (orp_BatchTimeout protos));
  _ ←? Done (validateKafkaBrokers (orp_KafkaBrokers protos));
  '(orgs, h) ←? newOrgs (NewOrdererOrgConfig channelCapabilities) (Groups ordererGroup) h;
  ok (mkOrdererConf protos orgs batchTimeout, h).

(** ** The application group: [application.go], [acls.go] *)

Record ApplicationProtos := mkApplicationProtos {
  app_ACLs : gmap string string;
  app_Capabilities : capabilities
}.

Definition setApplication (key : string) (value : bytes) (p : ApplicationProtos)
    : res ApplicationProtos :=
  if decide (key = ACLsKey) then
    v ← or_err "unmarshal" (dec_ACLs value); Ok {| p with app_ACLs := v |}
  else if decide (key = CapabilitiesKey) then
    v ← or_err "unmarshal" (dec_Capabilities value); Ok {| p with app_Capabilities := v |}
  else Err (Errorf "Unexpected key").

Record ApplicationConfig := mkApplicationConfig {
  apc_protos : ApplicationProtos;
  applicationOrgs : gmap string OrganizationConfig
}.

Definition NewApplicationConfig (appGroup : ConfigGroup) (h : MSPConfigHandler)
    : fallible (ApplicationConfig * MSPConfigHandler) :=
  protos ←? DeserializeProtoValuesFromGroup setApplication appGroup (mkApplicationProtos ∅ ∅);
  if negb (ACLs (NewApplicationProvider (app_Capabilities protos)))
     && bool_decide (is_Some (Values appGroup !! ACLsKey))
  then fail "ACLs may not be specified without the required capability"
  else
    '(orgs, h) ←? newOrgs NewApplicationOrgConfig (Groups appGroup) h;
    ok (mkApplicationConfig protos orgs, h).

(** [newAPIsProvider]: the policy references of the ACLs, as absolute paths. *)
Definition newAPIsProvider (acls : gmap string string) : gmap string string :=
  omap (λ ref,
    match ref with
    | EmptyString => None
    | _ => Some (if HasPrefix ref "/" then ref else "/Channel/Application/" +:+ ref)
    end) acls.

(** ** The consortiums: [consortium.go], [consortiums.go] *)

Record ConsortiumConfig := mkConsortiumConfig {
  csc_ChannelCreationPolicy : PolicyMessage;
  csc_orgs : gmap string OrganizationConfig
}.

Definition setConsortium (key : string) (value : bytes) (p : PolicyMessage) : res PolicyMessage :=
  if decide (key = "ChannelCreationPolicy") then or_err "unmarshal" (dec_Policy value)
  else Err (Errorf "Unexpected key").

Definition NewConsortiumConfig (consortiumGroup : ConfigGroup) (h : MSPConfigHandler)
    : fallible (ConsortiumConfig * MSPConfigHandler) :=
  policy ←? DeserializeProtoValuesFromGroup setConsortium consortiumGroup (mkPolicyMessage 0 []);
  '(orgs, h) ←? newOrgs NewOrganizationConfig (Groups consortiumGroup) h;
  ok (mkConsortiumConfig policy orgs, h).

Definition NewConsortiumsConfig (consortiumsGroup : ConfigGroup) (h : MSPConfigHandler)
    : fallible (gmap string ConsortiumConfig * MSPConfigHandler) :=
  range (λ consortiumName consortiumGroup '(cs, h),
    '(c, h) ←? NewConsortiumConfig consortiumGroup h; ok (<[consortiumName := c]> cs, h))
    (Groups consortiumsGroup) (∅, h).

(** ** The channel group: [channel.go] *)

Record ChannelProtos := mkChannelProtos {
  chp_HashingAlgorithm : string;
  chp_Width : Z;
  chp_OrdererAddresses : list string;
  chp_Consortium : string;
  chp_Capabilities : capabilities
}.

Definition setChannel (key : string) (value : bytes) (p : ChannelProtos) : res ChannelProtos :=
  if decide (key = "HashingAlgorithm") then
    v ← or_err "unmarshal" (dec_HashingAlgorithm value); Ok {| p with chp_HashingAlgorithm := v |}
  else if decide (key = "BlockDataHashingStructure") then
    v ← or_err "unmarshal" (dec_BlockDataHashingStructure value); Ok {| p with chp_Width := v |}
  else if decide (key = "OrdererAddresses") then
    v ← or_err "unmarshal" (dec_OrdererAddresses value); Ok {| p with chp_OrdererAddresses := v |}
  else if decide (key = ConsortiumKey) then
    v ← or_err "unmarshal" (dec_Consortium value); Ok {| p with chp_Consortium := v |}
  else if decide (key = CapabilitiesKey) then
    v ← or_err "unmarshal" (dec_Capabilities value); Ok {| p with chp_Capabilities := v |}
  else Err (Errorf "Unexpected key").

Inductive hashing := ComputeSHA256 | ComputeSHA3256.

Definition validateHashingAlgorithm (name : string) : res hashing :=
  if decide (name = "SHA256") then Ok ComputeSHA256
  else if decide (name = "SHA3_256") then Ok ComputeSHA3256
  else Err (Errorf "Unknown hashing algorithm type").

Definition validateBlockDataHashingStructure (width : Z) : res unit :=
  if negb (width =? 2 ^ 32 - 1)
  then Err (Errorf "BlockDataHashStructure width only supported at MaxUint32 in this version")
  else Ok tt.

Definition validateOrdererAddresses (addresses : list string) : res unit :=
  match addresses with [] => Err (Errorf "Must set some OrdererAddresses") | _ => Ok tt end.

(** [ChannelConfig.Validate], with the algorithm it sets. *)
Definition ChannelConfig_Validate (protos : ChannelProtos) (cp : ChannelProvider) : res hashing :=
  h ← validateHashingAlgorithm (chp_HashingAlgorithm protos);
  _ ← validateBlockDataHashingStructure (chp_Width protos);
  if negb (OrgSpecificOrdererEndpoints cp) then
    _ ← validateOrdererAddresses (chp_OrdererAddresses protos); Ok h
  else Ok h.

(** The sub-groups of a channel. *)
Record ChannelSections := mkChannelSections {
  appConfig : option ApplicationConfig;
  ordererConfig : option OrdererConf;
  consortiumsConfig : option (gmap string ConsortiumConfig)
}.

Record ChannelConfig := mkChannelConfig {
  chc_protos : ChannelProtos;
  hashingAlgorithm : hashing;
  mspManager : IdentityDeserializer;
  sections : ChannelSections
}.

(** One iteration of the loop over the sub-groups. *)
Definition newSection (cp : ChannelProvider) (groupName : string) (group : ConfigGroup)
    (st : ChannelSections * MSPConfigHandler) : fallible (ChannelSections * MSPConfigHandler) :=
  let '(cs, h) := st in
  if decide (groupName = ApplicationGroupKey) then
    '(c, h) ←? NewApplicationConfig group h; ok ({| cs with appConfig := Some c |}, h)
  else if decide (groupName = OrdererGroupKey) then
    '(c, h) ←? NewOrdererConfig group h cp; ok ({| cs with ordererConfig := Some c |}, h)
  else if decide (groupName = ConsortiumsGroupKey) then
    '(c, h) ←? NewConsortiumsConfig group h; ok ({| cs with consortiumsConfig := Some c |}, h)
  else fail "Disallowed channel group".

Definition NewChannelConfig (channelGroup : ConfigGroup) : fallible ChannelConfig :=
  protos ←? DeserializeProtoValuesFromGroup setChannel channelGroup (mkChannelProtos "" 0 [] "" ∅);
  let cp := NewChannelProvider (chp_Capabilities protos) in
  algo ←? Done (ChannelConfig_Validate protos cp);
  '(cs, h) ←? range (newSection cp) (Groups channelGroup)
    (mkChannelSections None None None, mkMSPConfigHandler (MSPVersion cp) ∅);
  manager ←? Done (CreateMSPManager h);
  ok (mkChannelConfig protos algo manager cs).

(** ** The bundle: [bundle.go] *)

Record Bundle := mkBundle {
  policyManager : ManagerImpl;
  channelConfig : ChannelConfig;
  configtxManager : ValidatorImpl
}.

Definition preValidate (config : option Config) : res ConfigGroup :=
  match config with
  | None => Err (Errorf "channelconfig Config cannot be nil")
  | Some config =>
    match ChannelGroup config with
    | None => Err (Errorf "config must contain a channel group")
    | Some cg =>
      match Groups cg !! OrdererGroupKey with
      | Some og =>
        match Values og !! CapabilitiesKey with
        | Some _ => Ok cg
        | None =>
          if decide (is_Some (Values cg !! CapabilitiesKey))
          then Err (Errorf "cannot enable channel capabilities without orderer support first")
          else match Groups cg !! ApplicationGroupKey with
          | Some ag =>
            if decide (is_Some (Values ag !! CapabilitiesKey))
            then Err (Errorf "cannot enable application capabilities without orderer support first")
            else Ok cg
          | None => Ok cg
          end
        end
      | None => Ok cg
      end
    end
  end.

(** [Policy_SIGNATURE], the one type of policy with a registered provider. *)
Definition policyProviderMap (manager : IdentityDeserializer) : gmap Z Provider :=
  {[ Policy_SIGNATURE := provider_NewPolicy manager ]}.

Definition NewBundle (channelID : string) (config : option Config) : fallible Bundle :=
  cg ←? Done (preValidate config);
  cc ←? NewChannelConfig cg;
  pm ←? NewManagerImpl (policyProviderMap (mspManager cc)) RootGroupKey cg;
  validator ←? NewValidatorImpl channelID config RootGroupKey pm;
  ok (mkBundle pm cc validator).

Definition Bundle_OrdererConfig (b : Bundle) : option OrdererConf :=
  ordererConfig (sections (channelConfig b)).
Definition Bundle_ApplicationConfig (b : Bundle) : option ApplicationConfig :=
  appConfig (sections (channelConfig b)).
Definition Bundle_ConsortiumsConfig (b : Bundle) : option (gmap string ConsortiumConfig) :=
  consortiumsConfig (sections (channelConfig b)).

(** [ChannelConfig.Capabilities] and [OrdererConfig.Capabilities] *)
Definition channelCapabilities (b : Bundle) : ChannelProvider :=
  NewChannelProvider (chp_Capabilities (chc_protos (channelConfig b))).
Definition ordererCapabilities (oc : OrdererConf) : OrdererProvider :=
  NewOrdererProvider (orp_Capabilities (orc_protos oc)).

(** The loop that compares the MSP IDs of the organisations both have. *)
Definition keepsMSPIDs (orgs norgs : gmap string OrganizationConfig) : fallible unit :=
  range (λ orgName org _,
    match norgs !! orgName with
    | None => ok tt
    | Some norg =>
      if decide (MSPID org = MSPID norg) then ok tt else fail "org attempted to change MSP ID"
    end) orgs tt.

Definition ValidateNew (b nb : Bundle) : fallible unit :=
  _ ←? match Bundle_OrdererConfig b with
       | None => ok tt
       | Some oc =>
         match Bundle_OrdererConfig nb with
         | None => fail "current config has orderer section, but new config does not"
         | Some noc =>
           if negb (ChannelConsensusTypeMigration (channelCapabilities b))
              && negb (bool_decide (ct_Type (orp_ConsensusType (orc_protos oc))
                                    = ct_Type (orp_ConsensusType (orc_protos noc))))
           then fail "attempted to change consensus type"
           else keepsMSPIDs (orc_orgs oc) (orc_orgs noc)
         end
       end;
  _ ←? match Bundle_ApplicationConfig b with
       | None => ok tt
       | Some ac =>
         match Bundle_ApplicationConfig nb with
         | None => fail "current config has application section, but new config does not"
         | Some nac => keepsMSPIDs (applicationOrgs ac) (applicationOrgs nac)
         end
       end;
  match Bundle_ConsortiumsConfig b with
  | Some cc =>
    match Bundle_ConsortiumsConfig nb with
    | None => fail "current config has consortiums section, but new config does not"
    | Some ncc =>
      range (λ consortiumName consortium _,
        match ncc !! consortiumName with
        | None => ok tt
        | Some nconsortium => keepsMSPIDs (csc_orgs consortium) (csc_orgs nconsortium)
        end) cc tt
    end
  | None =>
    match Bundle_ConsortiumsConfig nb with
    | Some _ => fail "current config has no consortiums section, but new config does"
    | None => ok tt
    end
  end.

Section resources.
Context `{!Codec Payload, !Codec ChannelHeader, !Codec SignatureHeader}.
Context `{!Codec ConfigUpdate, !Codec ConfigUpdateEnvelope, !Codec ConfigEnvelope}.

Definition NewBundleFromEnvelope (env : Envelope) : fallible Bundle :=
  payload ←? Done (or_err "failed to unmarshal payload from envelope" (unmarshal (A:=Payload) (env_Payload env)));
  configEnvelope ←? Done (or_err "failed to unmarshal config envelope from payload"
    (unmarshal (A:=ConfigEnvelope) (pl_Data payload)));
  match pl_Header payload with
  | None => fail "envelope header cannot be nil"
  | Some hdr =>
    chdr ←? Done (or_err "failed to unmarshal channel header"
      (unmarshal (A:=ChannelHeader) (nb (h_ChannelHeader hdr))));
    NewBundle (ch_ChannelId chdr) (ce_Config configEnvelope)
  end.

(** A call that must not fail: its caller panics on an error. *)
Definition settled {A} (r : fallible A) : res A :=
  match r with Done r => r | Panic w => Err (Errorf w) end.

(** [channelconfig.Orderer] of an orderer section. *)
Definition ordererView (oc : OrdererConf) : OrdererConfig := {|
  ConsensusType := ct_Type (orp_ConsensusType (orc_protos oc));
  ConsensusMetadata := ct_Metadata (orp_ConsensusType (orc_protos oc));
  oc_BatchSize := orp_BatchSize (orc_protos oc);
  BatchTimeout := orc_batchTimeout oc
|}.

(** The bundle as the resources of a channel. A block writer stops the process
    whether [Validate] or [CreateBundle] fails or panics. *)
#[global] Instance bundle_resources : Resources Bundle ConfigEnvelope := {|
  bundle_Sequence b := vi_sequence (configtxManager b);
  bundle_OrdererConfig b := ordererView <$> Bundle_OrdererConfig b;
  bundle_Validate ce b := settled (Validate (configtxManager b) (Some ce));
  CreateBundle channelID ce := settled (NewBundle channelID (ce_Config ce));
  ordererCapabilitiesSupported b :=
    match Bundle_OrdererConfig b with
    | Some oc => is_ok (Supported OrdererHasCapability (orp_Capabilities (orc_protos oc)))
    | None => false
    end;
  channelCapabilitiesSupported b :=
    is_ok (Supported ChannelHasCapability (chp_Capabilities (chc_protos (channelConfig b))))
|}.

Lemma preValidate_inv config cg :
  preValidate config = Ok cg → ∃ cfg, config = Some cfg ∧ ChannelGroup cfg = Some cg.
Proof.
  unfold preValidate. destruct config as [cfg|]; [|done].
  destruct (ChannelGroup cfg) as [cg'|] eqn:Hcg; [|done].
  intros Hp. exists cfg. split; [done|]. rewrite Hcg. repeat case_match; congruence.
Qed.

Lemma NewBundle_inv channelID config b :
  NewBundle channelID config = Done (Ok b) →
  ∃ cfg cg, config = Some cfg ∧ ChannelGroup cfg = Some cg ∧ preValidate config = Ok cg ∧
    NewChannelConfig cg = Done (Ok (channelConfig b)) ∧
    NewManagerImpl (policyProviderMap (mspManager (channelConfig b))) RootGroupKey cg
      = Done (Ok (policyManager b)) ∧
    NewValidatorImpl channelID config RootGroupKey (policyManager b) = Done (Ok (configtxManager b)).
Proof.
  unfold NewBundle. intros Hb. try_inv.
  match goal with Hp : preValidate _ = _ |- _ =>
    pose proof Hp as Hpre; apply preValidate_inv in Hp as (cfg & -> & Hcg) end.
  by eexists _, _.
Qed.

Lemma NewValidatorImpl_inv channelID cfg ns pm vi :
  NewValidatorImpl channelID (Some cfg) ns pm = Done (Ok vi) →
  vi_sequence vi = cfg_Sequence cfg ∧ vi_channelID vi = channelID ∧ vi_namespace vi = ns ∧
  vi_pm vi = pm ∧ vi_configProto vi = cfg ∧ ValidateChannelID channelID = Ok tt ∧
  mapConfig (ChannelGroup cfg) ns = Done (Ok (vi_configMap vi)).
Proof.
  unfold NewValidatorImpl. destruct (ChannelGroup cfg); [|done]. intros Hv. try_inv.
  by repeat match goal with x : unit |- _ => destruct x end.
Qed.

#[global] Instance bundle_resources_ok : ResourcesOk Bundle ConfigEnvelope.
Proof.
  split. simpl. intros b b' chan ce Hv Hb.
  destruct (NewBundle _ _) as [[?|]|] eqn:E; [|done|done]. simplify_eq/=.
  apply NewBundle_inv in E as (cfg & cg & Hcfg & Hcg & _ & _ & _ & Hvi).
  rewrite Hcfg in Hvi. apply NewValidatorImpl_inv in Hvi as (-> & _).
  revert Hv. unfold Validate. rewrite Hcfg.
  case_match eqn:Hs; [done|]. intros _. by apply negb_false_iff, Z.eqb_eq in Hs.
Qed.
End resources.
End channelconfig.
