(* ===== verification/ChannelConfigProps.v ===== *)
(** * Properties of configuration bundles

    [msp_ids_unambiguous]: the organisations of a bundle, in any of its sections,
    that share an MSP ID share its definition. [ValidateNew_exact]: what a new
    bundle keeps of the one it replaces. [orderer_section_bounds]: the limits of
    an accepted orderer section. *)

From Stdlib Require Import Ascii String.
From stdpp Require Import gmap strings list.
From S2P Require Import Prelude Protos ConfigProtos GoLib BlockCutter Support Blocks Capabilities Cauthdsl PolicyManager ConfigTx ChannelConfig.

(** ** Checking loops *)

(** A loop that only tests, as [if err := f(k, v); err != nil { return err }]. *)
Lemma range_test {K V} `{Countable K} (test : K → V → fallible unit) (m : gmap K V) :
  (∀ k v, ∃ r, test k v = Done r) →
  range (λ k v _, test k v) m tt = Done (Ok tt) ↔ map_Forall (λ k v, test k v = Done (Ok tt)) m.
Proof.
  intros Htot. split.
  - intros Hr k v Hk. destruct (range_each _ _ _ _ Hr k v Hk) as (? & [] & ?). done.
  - intros Hall. destruct (range_total (λ k v _, test k v) m tt (λ _, True)) as ([] & ? & _); [done| |done].
    intros k v [] Hk _. exists tt. split; [|done]. by apply Hall.
Qed.

(** The organisations of the same name in two maps keep their MSP ID. *)
Definition same_ids (orgs norgs : gmap string OrganizationConfig) : Prop :=
  ∀ name org norg, orgs !! name = Some org → norgs !! name = Some norg → MSPID org = MSPID norg.

Lemma keepsMSPIDs_exact orgs norgs :
  keepsMSPIDs orgs norgs = Done (Ok tt) ↔ same_ids orgs norgs.
Proof.
  unfold keepsMSPIDs, same_ids. rewrite range_test.
  - split.
    + intros Hall name org norg Ho Hn. specialize (Hall name org Ho). simpl in Hall.
      rewrite Hn in Hall. by case_decide.
    + intros Hall name org Ho. simpl. destruct (norgs !! name) eqn:Hn; [|done].
      rewrite decide_True; [done|]. by eapply Hall.
  - intros. repeat case_match; eexists; reflexivity.
Qed.

Lemma keepsMSPIDs_done orgs norgs : ∃ r, keepsMSPIDs orgs norgs = Done r.
Proof. apply range_done. intros. repeat case_match; eexists; reflexivity. Qed.

(** ** Replacing a bundle *)

(** What [ValidateNew] promises of a new bundle. *)
Record successor (b nb : Bundle) : Prop := {
  keeps_orderer oc : Bundle_OrdererConfig b = Some oc →
    ∃ noc, Bundle_OrdererConfig nb = Some noc ∧ same_ids (orc_orgs oc) (orc_orgs noc) ∧
      (ChannelConsensusTypeMigration (channelCapabilities b) = false →
       ct_Type (orp_ConsensusType (orc_protos oc)) = ct_Type (orp_ConsensusType (orc_protos noc)));
  keeps_application ac : Bundle_ApplicationConfig b = Some ac →
    ∃ nac, Bundle_ApplicationConfig nb = Some nac ∧ same_ids (applicationOrgs ac) (applicationOrgs nac);
  keeps_consortiums : is_Some (Bundle_ConsortiumsConfig b) ↔ is_Some (Bundle_ConsortiumsConfig nb);
  keeps_consortium cc ncc name c nc :
    Bundle_ConsortiumsConfig b = Some cc → Bundle_ConsortiumsConfig nb = Some ncc →
    cc !! name = Some c → ncc !! name = Some nc → same_ids (csc_orgs c) (csc_orgs nc)
}.

Lemma consortium_loop (cc ncc : gmap string ConsortiumConfig) :
  range (λ (consortiumName : string) consortium (_ : unit),
    match ncc !! consortiumName with
    | None => ok tt
    | Some nconsortium => keepsMSPIDs (csc_orgs consortium) (csc_orgs nconsortium)
    end) cc tt = Done (Ok tt) ↔
  ∀ name c nc, cc !! name = Some c → ncc !! name = Some nc → same_ids (csc_orgs c) (csc_orgs nc).
Proof.
  rewrite range_test.
  - split.
    + intros Hall name c nc Hc Hn. specialize (Hall name c Hc). simpl in Hall. rewrite Hn in Hall.
      by apply keepsMSPIDs_exact.
    + intros Hall name c Hc. simpl. destruct (ncc !! name) eqn:Hn; [|done].
      apply keepsMSPIDs_exact. by eapply Hall.
  - intros. case_match; [apply keepsMSPIDs_done|by eexists].
Qed.

(** [ValidateNew] accepts a new bundle exactly when it has the orderer and
    application sections the current one has, has a consortiums section exactly
    when the current one does, keeps the consensus type unless the current
    channel capabilities allow migration, and gives every organisation of the
    same section and name (and consortium) the same MSP ID. *)
Theorem ValidateNew_exact b nb : ValidateNew b nb = Done (Ok tt) ↔ successor b nb.
Proof.
  unfold ValidateNew. split.
  - intros ([] & Ho & ([] & Ha & Hc)%try_bind_ok)%try_bind_ok. split.
    + intros oc Hoc. rewrite Hoc in Ho. destruct (Bundle_OrdererConfig nb) as [noc|]; [|done].
      exists noc. split; [done|]. destruct (ChannelConsensusTypeMigration _); simpl in Ho.
      * by apply keepsMSPIDs_exact in Ho.
      * case_bool_decide; [|done]. by apply keepsMSPIDs_exact in Ho.
    + intros ac Hac. rewrite Hac in Ha. destruct (Bundle_ApplicationConfig nb) as [nac|]; [|done].
      exists nac. split; [done|]. by apply keepsMSPIDs_exact in Ha.
    + destruct (Bundle_ConsortiumsConfig b), (Bundle_ConsortiumsConfig nb); [|done|done|];
        split; (done || by intros []).
    + intros cc ncc name c nc Hcc Hncc. rewrite Hcc, Hncc in Hc. by apply consortium_loop.
  - intros [Ho Ha Hs Hc]. apply try_bind_ok. exists tt. split.
    { destruct (Bundle_OrdererConfig b) as [oc|]; [|done].
      destruct (Ho oc eq_refl) as (noc & -> & Hids & Hty).
      destruct (ChannelConsensusTypeMigration _); simpl; [by apply keepsMSPIDs_exact|].
      rewrite bool_decide_true by auto. by apply keepsMSPIDs_exact. }
    apply try_bind_ok. exists tt. split.
    { destruct (Bundle_ApplicationConfig b) as [ac|]; [|done].
      destruct (Ha ac eq_refl) as (nac & -> & Hids). by apply keepsMSPIDs_exact. }
    destruct (Bundle_ConsortiumsConfig b) as [cc|] eqn:E1, (Bundle_ConsortiumsConfig nb) as [ncc|] eqn:E2.
    + apply consortium_loop. intros. by eapply Hc.
    + by destruct (proj1 Hs (ex_intro _ cc eq_refl)).
    + by destruct (proj2 Hs (ex_intro _ ncc eq_refl)).
    + done.
Qed.

(** ** The membership services of a bundle *)

Section msps.
Context `{!ValueCodecs} `{!Codec SignaturePolicyEnvelope, !Codec ImplicitMetaDefinition}.
Context {MSP : Type} (msp_Setup : Z → MSPConfig → res MSP) (GetIdentifier : MSP → string).
Context (msp_NewMSPManager : list MSP → res IdentityDeserializer).
Context (ParseDuration : string → option duration).

Abbreviation handler := (MSPConfigHandler (MSP:=MSP)).

(** The handler has the definition of the MSP of the organisation. *)
Definition registered (h : handler) (org : OrganizationConfig) : Prop :=
  MSPID org ≠ "" ∧ (∃ m, idMap h !! MSPID org = Some (og_MSP org, m)) ∧
  ∃ m, msp_Setup (mh_version h) (og_MSP org) = Ok m ∧ GetIdentifier m = MSPID org.

Definition grows (h h' : handler) : Prop :=
  mh_version h = mh_version h' ∧ idMap h ⊆ idMap h'.

#[local] Instance grows_preorder : PreOrder grows.
Proof.
  split; [by split|]. intros h1 h2 h3 [E1 S1] [E2 S2]. split; [congruence|by etrans].
Qed.

Lemma registered_grows h h' org : grows h h' → registered h org → registered h' org.
Proof.
  intros [Hv Hs] (Hne & (m & Hm) & Hset). rewrite Hv in Hset. split_and!; [done| |done].
  exists m. by eapply lookup_weaken.
Qed.

Lemma validateMSP_registers oc h oc' h' :
  validateMSP msp_Setup GetIdentifier oc h = Done (Ok (oc', h')) → grows h h' ∧ registered h' oc'.
Proof.
  unfold validateMSP, ProposeMSP. intros ([m h1] & Hp & Hid)%try_bind_ok.
  destruct (_ || _); [|done]. injection Hp as Hp. destruct (msp_Setup _ _) as [m'|] eqn:Hset; [|done].
  simpl in Hp. case_decide as Hne; [done|]. injection Hid as <- <-.
  destruct (idMap h !! GetIdentifier m') as [[existing em]|] eqn:Hl.
  - case_decide; [|done]. simplify_eq. split; [done|]. split_and!; simpl; eauto.
  - simplify_eq. split; [split; [done|by apply insert_subseteq]|].
    split_and!; simpl; [done| |by eauto]. rewrite lookup_insert_eq. eauto.
Qed.

Lemma newOrg_registers set g h org h' :
  newOrg msp_Setup GetIdentifier set g h = Done (Ok (org, h')) → grows h h' ∧ registered h' org.
Proof.
  unfold newOrg. case_decide; [|done]. intros (oc & _ & Hv)%try_bind_ok. by eapply validateMSP_registers.
Qed.

Lemma NewOrdererOrgConfig_registers cp g h org h' :
  NewOrdererOrgConfig msp_Setup GetIdentifier cp g h = Done (Ok (org, h')) →
  grows h h' ∧ registered h' org.
Proof.
  unfold NewOrdererOrgConfig. case_decide; [|done]. case_match; [done|]. apply newOrg_registers.
Qed.

Lemma newOrgs_registers new groups h orgs h' :
  (∀ g h org h', new g h = Done (Ok (org, h')) → grows h h' ∧ registered h' org) →
  newOrgs new groups h = Done (Ok (orgs, h')) →
  grows h h' ∧ map_Forall (λ _, registered h') orgs.
Proof.
  intros Hnew. unfold newOrgs.
  apply (range_ind _ _ _ (λ _ st, grows h st.2 ∧ map_Forall (λ _, registered st.2) st.1)) with (a' := (orgs, h')).
  - split; [done|]. apply map_Forall_empty.
  - intros k g m' [orgs1 h1] [orgs2 h2] _ _ [Hg Hall] ([org h3] & Ho & [= <- <-])%try_bind_ok.
    apply Hnew in Ho as [Hg' Ho]. split; [by etrans|].
    simpl. intros n o [[-> <-]|[_ Hn]]%lookup_insert_Some; [done|].
    eapply registered_grows; [done|]. by eapply Hall.
Qed.

(** The organisations of the sections of a channel. *)
Inductive section_org (cs : ChannelSections) (org : OrganizationConfig) : Prop :=
  | application_org ac name :
      appConfig cs = Some ac → applicationOrgs ac !! name = Some org → section_org cs org
  | orderer_org oc name :
      ordererConfig cs = Some oc → orc_orgs oc !! name = Some org → section_org cs org
  | consortium_org cc cname c name :
      consortiumsConfig cs = Some cc → cc !! cname = Some c → csc_orgs c !! name = Some org →
      section_org cs org.

Definition all_registered (h : handler) (cs : ChannelSections) : Prop :=
  ∀ org, section_org cs org → registered h org.

Lemma NewApplicationConfig_registers g h c h' :
  NewApplicationConfig msp_Setup GetIdentifier g h = Done (Ok (c, h')) →
  grows h h' ∧ map_Forall (λ _, registered h') (applicationOrgs c).
Proof.
  unfold NewApplicationConfig. intros (protos & _ & Hb)%try_bind_ok. case_match; [done|].
  apply try_bind_ok in Hb as ([orgs h1] & Ho & [= <- <-]).
  eapply newOrgs_registers; [|done]. apply newOrg_registers.
Qed.

Lemma NewOrdererConfig_registers g h cp c h' :
  NewOrdererConfig msp_Setup GetIdentifier ParseDuration g h cp = Done (Ok (c, h')) →
  grows h h' ∧ map_Forall (λ _, registered h') (orc_orgs c).
Proof.
  unfold NewOrdererConfig. intros (? & _ & (? & _ & (? & _ & (? & _ &
    ([orgs h1] & Ho & [= <- <-])%try_bind_ok)%try_bind_ok)%try_bind_ok)%try_bind_ok)%try_bind_ok.
  eapply newOrgs_registers; [|done]. apply NewOrdererOrgConfig_registers.
Qed.

Lemma NewConsortiumsConfig_registers g h cs h' :
  NewConsortiumsConfig msp_Setup GetIdentifier g h = Done (Ok (cs, h')) →
  grows h h' ∧ map_Forall (λ _ c, map_Forall (λ _, registered h') (csc_orgs c)) cs.
Proof.
  unfold NewConsortiumsConfig. apply (range_ind _ _ _ (λ _ st, grows h st.2 ∧
    map_Forall (λ _ c, map_Forall (λ _, registered st.2) (csc_orgs c)) st.1)) with (a' := (cs, h')).
  - split; [done|]. apply map_Forall_empty.
  - intros k g' m' [cs1 h1] [cs2 h2] _ _ [Hg Hall] ([c h3] & Hc & [= <- <-])%try_bind_ok.
    unfold NewConsortiumConfig in Hc.
    apply try_bind_ok in Hc as (? & _ & ([orgs h4] & Ho & [= <- <-])%try_bind_ok).
    apply newOrgs_registers in Ho as [Hg' Ho]; [|apply newOrg_registers].
    split; [by etrans|]. simpl. intros n c' [[-> <-]|[_ Hn]]%lookup_insert_Some; [done|].
    intros n' o Hn'. eapply registered_grows; [done|]. by eapply Hall.
Qed.

Lemma newSection_registers cp name g cs h cs' h' :
  newSection msp_Setup GetIdentifier ParseDuration cp name g (cs, h) = Done (Ok (cs', h')) →
  all_registered h cs → grows h h' ∧ all_registered h' cs'.
Proof.
  unfold newSection. intros Hn Hall.
  repeat case_decide; [..|done]; apply try_bind_ok in Hn as ([c h1] & Hc & [= <- <-]).
  - apply NewApplicationConfig_registers in Hc as [Hg Hc]. split; [done|].
    intros org [ac n Ha Ho|oc n Ha Ho|cc cn c' n Ha Ho Hi]; simplify_eq/=; [by eapply Hc|..];
      eapply registered_grows; try done; apply Hall; [by eapply orderer_org|by eapply consortium_org].
  - apply NewOrdererConfig_registers in Hc as [Hg Hc]. split; [done|].
    intros org [ac n Ha Ho|oc n Ha Ho|cc cn c' n Ha Ho Hi]; simplify_eq/=; [|by eapply Hc|];
      eapply registered_grows; try done; apply Hall; [by eapply application_org|by eapply consortium_org].
  - apply NewConsortiumsConfig_registers in Hc as [Hg Hc]. split; [done|].
    intros org [ac n Ha Ho|oc n Ha Ho|cc cn c' n Ha Ho Hi]; simplify_eq/=; [..|by eapply Hc];
      eapply registered_grows; try done; apply Hall; [by eapply application_org|by eapply orderer_org].
Qed.

Lemma NewChannelConfig_registers g cc :
  NewChannelConfig msp_Setup GetIdentifier msp_NewMSPManager ParseDuration g = Done (Ok cc) →
  ∃ h : handler, all_registered h (sections cc) ∧ CreateMSPManager msp_NewMSPManager h = Ok (mspManager cc) ∧
    mh_version h = MSPVersion (NewChannelProvider (chp_Capabilities (chc_protos cc))).
Proof.
  unfold NewChannelConfig. intros (protos & _ & (algo & _ & ([cs h] & Hs & (mgr & Hm & Hc)%try_bind_ok)
    %try_bind_ok)%try_bind_ok)%try_bind_ok. injection Hc as <-. injection Hm as Hm.
  exists h. simpl. revert Hs. set (h0 := mkMSPConfigHandler _ ∅). intros Hs.
  cut (grows h0 h ∧ all_registered h cs); [intros [[Hv _] ?]; simpl in Hv; done|].
  revert Hs. apply (range_ind _ _ _ (λ _ st, grows h0 st.2 ∧ all_registered st.2 st.1)) with (a' := (cs, h)).
  - split; [done|]. by intros org [].
  - intros k g' m' [cs1 h1] [cs2 h2] _ _ [Hg Hall] Hn.
    apply newSection_registers in Hn as [? ?]; [|done]. split; [by etrans|done].
Qed.

(** C35. In an accepted configuration an MSP ID means one thing: any two
    organisations of the orderer, application or consortiums sections with the
    same MSP ID carry the same MSP definition, and every organisation has a
    non-empty ID, the one its definition gives when set up at the version of the
    channel's capabilities. *)
Theorem msp_ids_unambiguous channelID config b o1 o2 :
  NewBundle msp_Setup GetIdentifier msp_NewMSPManager ParseDuration channelID config = Done (Ok b) →
  section_org (sections (channelConfig b)) o1 → section_org (sections (channelConfig b)) o2 →
  (MSPID o1 = MSPID o2 → og_MSP o1 = og_MSP o2) ∧ MSPID o1 ≠ "" ∧
  ∃ m, msp_Setup (MSPVersion (channelCapabilities b)) (og_MSP o1) = Ok m ∧ GetIdentifier m = MSPID o1.
Proof.
  intros (cfg & cg & _ & _ & _ & Hcc & _)%NewBundle_inv H1 H2.
  apply NewChannelConfig_registers in Hcc as (h & Hall & _ & Hv).
  apply Hall in H1 as (Hne & [m1 E1] & Hset), H2 as (_ & [m2 E2] & _).
  rewrite Hv in Hset. split_and!; [|done|done]. intros E. rewrite E in E1. congruence.
Qed.

(** ** The limits of the orderer section *)

(** The fields of a decoded [BatchSize] are unsigned 32-bit numbers. *)
Definition batchSize_u32 (bs : BatchSize) : Prop :=
  is_u32 (MaxMessageCount bs) ∧ is_u32 (AbsoluteMaxBytes bs) ∧ is_u32 (PreferredMaxBytes bs).

(** What an accepted configuration says about the orderer section. *)
Record section_bounds (oc : OrdererConf) : Prop := {
  sb_count : 0 < MaxMessageCount (orp_BatchSize (orc_protos oc)) < 2 ^ 32;
  sb_preferred : 0 < PreferredMaxBytes (orp_BatchSize (orc_protos oc))
                 <= AbsoluteMaxBytes (orp_BatchSize (orc_protos oc));
  sb_absolute : AbsoluteMaxBytes (orp_BatchSize (orc_protos oc)) < 2 ^ 32;
  sb_timeout : 0 < orc_batchTimeout oc;
  sb_parsed : ParseDuration (orp_BatchTimeout (orc_protos oc)) = Some (orc_batchTimeout oc);
  sb_brokers : Forall (λ s, brokerEntrySeemsValid s = true) (orp_KafkaBrokers (orc_protos oc))
}.

Lemma Deserialize_ind {P} (set : string → bytes → P → res P) group p p' (Q : P → Prop) :
  (∀ k v p p', Q p → set k v p = Ok p' → Q p') →
  Q p → DeserializeProtoValuesFromGroup set group p = Done (Ok p') → Q p'.
Proof.
  intros Hset Hp. unfold DeserializeProtoValuesFromGroup.
  apply (range_ind _ _ _ (λ _, Q)); [done|]. intros k v m' b b' _ _ Hb [= Hs]. by eapply Hset.
Qed.

Lemma setOrderer_batchSize k v p p' :
  (∀ v bs, dec_BatchSize v = Some bs → batchSize_u32 bs) →
  batchSize_u32 (orp_BatchSize p) → setOrderer k v p = Ok p' → batchSize_u32 (orp_BatchSize p').
Proof.
  intros Hdec Hp. unfold setOrderer.
  repeat case_decide; try done; intros (x & Hx & [= <-])%bind_Ok; simpl; try done.
  apply or_err_Ok in Hx. by eapply Hdec.
Qed.

Context (dec_BatchSize_u32 : ∀ v bs, dec_BatchSize v = Some bs → batchSize_u32 bs).

Lemma validateBatchSize_Ok bs :
  batchSize_u32 bs → validateBatchSize bs = Ok tt →
  0 < MaxMessageCount bs < 2 ^ 32 ∧ 0 < PreferredMaxBytes bs <= AbsoluteMaxBytes bs ∧
  AbsoluteMaxBytes bs < 2 ^ 32.
Proof.
  intros (Hc & Ha & Hp). unfold is_u32 in *. unfold validateBatchSize. repeat split_if; [done..|].
  zbool. lia.
Qed.

Lemma NewOrdererConfig_bounds g h cp oc h' :
  NewOrdererConfig (MSP:=MSP) msp_Setup GetIdentifier ParseDuration g h cp = Done (Ok (oc, h')) →
  section_bounds oc.
Proof.
  unfold NewOrdererConfig. intros (protos & Hd & ([] & [= Hs] & (tm & [= Ht] & ([] & [= Hk] &
    ([orgs h1] & _ & [= <- <-])%try_bind_ok)%try_bind_ok)%try_bind_ok)%try_bind_ok)%try_bind_ok.
  assert (batchSize_u32 (orp_BatchSize protos)) as Hu.
  { revert Hd. apply (Deserialize_ind _ _ _ _ (λ p, batchSize_u32 (orp_BatchSize p)));
      [by intros; eapply setOrderer_batchSize|].
    unfold batchSize_u32, is_u32. simpl. lia. }
  destruct (validateBatchSize_Ok _ Hu Hs) as (? & ? & ?).
  unfold validateBatchTimeout in Ht. apply bind_Ok in Ht as (t & Hp%or_err_Ok & Ht).
  destruct (t <=? 0) eqn:Hpos; [done|]. injection Ht as <-. apply Z.leb_gt in Hpos.
  split; simpl; try done. unfold validateKafkaBrokers in Hk. destruct (forallb _ _) eqn:Hf; [|done].
  apply Forall_forall. intros s Hin. rewrite forallb_forall in Hf. apply Hf. by apply list_elem_of_In.
Qed.

Lemma bundle_section_bounds channelID config b oc :
  NewBundle msp_Setup GetIdentifier msp_NewMSPManager ParseDuration channelID config = Done (Ok b) →
  Bundle_OrdererConfig b = Some oc → section_bounds oc.
Proof.
  intros (cfg & cg & _ & _ & _ & Hcc & _)%NewBundle_inv. revert oc. unfold Bundle_OrdererConfig.
  unfold NewChannelConfig in Hcc. apply try_bind_ok in Hcc as (protos & _ & (algo & _ &
    ([cs h] & Hs & (mgr & _ & Hc)%try_bind_ok)%try_bind_ok)%try_bind_ok).
  injection Hc as <-. simpl. revert Hs.
  apply (range_ind _ _ _ (λ _ st, ∀ oc, ordererConfig st.1 = Some oc → section_bounds oc)) with (a' := (cs, h)).
  - done.
  - intros k g m' [cs1 h1] [cs2 h2] _ _ Hall Hn. unfold newSection in Hn.
    repeat case_decide; [..|done]; apply try_bind_ok in Hn as ([c h3] & Hc & [= <- <-]); simpl in *; try done.
    intros oc [= <-]. by eapply NewOrdererConfig_bounds.
Qed.
End msps.
