(* ===== verification/MsgProcessor.v ===== *)
(** * Message processing

    [orderer/common/msgprocessor]: the filters a message passes before it is
    ordered and the processors of standard and system channels, with
    [ChainSupport.ProposeConfigUpdate] and [VerifyBlockSignature] of
    [orderer/common/multichannel/chainsupport.go]. A processor reads the
    configuration bundle of its channel anew for every check, while blocks that
    replace it are being written: its calls are [reading] calls on the bundle. *)

From Stdlib Require Import Ascii String.
From stdpp Require Import gmap strings list.
From S2P Require Import Prelude Protos ConfigProtos GoLib BlockCutter Support Blocks BlockWriter Capabilities Cauthdsl PolicyManager ConfigTx ChannelConfig.

(** ** Errors compared by identity *)

Definition ErrEmptyMessage : error := Sentinel "Message was empty".
Definition ErrChannelDoesNotExist : error := Sentinel "channel does not exist".
Definition ErrPermissionDenied : error := Sentinel "permission denied".
Definition ErrMaintenanceMode : error := Sentinel "maintenance mode".

Inductive Classification := NormalMsg | ConfigUpdateMsg | ConfigMsg.

(** [msp.SerializedIdentity] *)
Record SerializedIdentity := mkSerializedIdentity { Mspid : string; IdBytes : bytes }.

Definition ChannelWriters : string := "/Channel/Writers".
Definition ChannelOrdererWriters : string := "/Channel/Orderer/Writers".
Definition BlockValidation : string := "/Channel/Orderer/BlockValidation".
Definition AdminsPolicyKey : string := "Admins".
Definition ChannelCreationPolicyKey : string := "ChannelCreationPolicy".
Definition ConsensusTypeKey : string := "ConsensusType".

Section msgprocessor.
Context `{!ValueCodecs} `{!Codec SignaturePolicyEnvelope, !Codec ImplicitMetaDefinition}.
Context {MSP : Type} (msp_Setup : Z → MSPConfig → res MSP) (GetIdentifier : MSP → string).
Context (msp_NewMSPManager : list MSP → res IdentityDeserializer).
Context (ParseDuration : string → option duration).
Context `{!Codec Envelope, !Codec Payload, !Codec ChannelHeader, !Codec SignatureHeader}.
Context `{!Codec ConfigUpdate, !Codec ConfigUpdateEnvelope, !Codec ConfigEnvelope}.
Context `{!Codec SerializedIdentity}.
(** [pem.Decode] and the [NotAfter] of [x509.ParseCertificate]. *)
Context (pem_Decode : bytes → option bytes) (NotAfter : bytes → option time).
(** The signer of the orderer and the random nonces it draws. *)
Context (sgn : SignerSerializer) (rand : nat → bytes).
(** [ValidateConsensusMetadata] of the consensus plug-in, and whether metadata
    is that of etcdraft. *)
Context (ValidateConsensusMetadata : bytes → bytes → bool → res unit).
Context (isRaftMetadata : bytes → bool).
(** The local setting [General.Authentication.NoExpirationChecks]. *)
Context (NoExpirationChecks : bool).

Abbreviation newBundle := (NewBundle msp_Setup GetIdentifier msp_NewMSPManager ParseDuration).
Abbreviation Rule := (Envelope → reading Bundle unit).

#[local] Instance channel_resources : Resources Bundle ConfigEnvelope :=
  bundle_resources msp_Setup GetIdentifier msp_NewMSPManager ParseDuration.

(** ** Filters *)

(** A decoded envelope whose payload is empty has a nil payload. *)
Definition EmptyRejectRule : Rule := λ message,
  match env_Payload message with
  | [] => lift (Done (Err ErrEmptyMessage))
  | _ => rd_ret tt
  end.

(** [messageByteSize] *)
Definition messageByteSize (message : Envelope) : Z :=
  u32 (blen (env_Payload message) + blen (env_Signature message)).

(** The read of the orderer configuration by a filter. *)
Definition readOrdererConfig : reading Bundle OrdererConf :=
  b ←ᵣ peek;
  match Bundle_OrdererConfig b with
  | None => rd_panic "Programming error: orderer config not found"
  | Some oc => rd_ret oc
  end.

(** [MaxBytesRule] *)
Definition MaxBytesRule : Rule := λ message,
  ordererConf ←ᵣ readOrdererConfig;
  if messageByteSize message >? AbsoluteMaxBytes (orp_BatchSize (orc_protos ordererConf))
  then rd_fail "message payload exceeds maximum allowed"
  else rd_ret tt.

(** [protoutil.EnvelopeAsSignedData], of a non-nil envelope. *)
Definition EnvelopeAsSignedData (env : Envelope) : res SignedData :=
  payload ← or_err "unmarshal payload" (unmarshal (A:=Payload) (env_Payload env));
  hdr ← or_err "Missing Header" (pl_Header payload);
  shdr ← or_err "GetSignatureHeaderFromBytes failed" (unmarshal (A:=SignatureHeader) (h_SignatureHeader hdr));
  Ok (mkSignedData (env_Payload env) (sh_Creator shdr) (env_Signature env)).

(** [crypto.ExpiresAt]; [None] is the zero time. *)
Definition ExpiresAt (identityBytes : bytes) : option time :=
  sId ← unmarshal (A:=SerializedIdentity) identityBytes;
  bl ← pem_Decode (IdBytes sId);
  NotAfter bl.

(** [expirationRejectRule], at the time [now]. *)
Definition expirationRejectRule (now : time) : Rule := λ message,
  ordererConf ←ᵣ readOrdererConfig;
  if negb (ExpirationCheck (ordererCapabilities ordererConf)) then rd_ret tt
  else
    signedData ←ᵣ lift (Done (EnvelopeAsSignedData message));
    match ExpiresAt (sd_Identity signedData) with
    | None => rd_ret tt
    | Some expirationTime =>
      if now <? expirationTime then rd_ret tt else rd_fail "identity expired"
    end.

Definition ConsensusState (oc : OrdererConf) : Z := ct_State (orp_ConsensusType (orc_protos oc)).
Definition ConsensusTypeOf (oc : OrdererConf) : string := ct_Type (orp_ConsensusType (orc_protos oc)).
Definition ConsensusMetadataOf (oc : OrdererConf) : bytes :=
  ct_Metadata (orp_ConsensusType (orc_protos oc)).

(** [SigFilter] *)
Definition SigFilter (normalPolicyName maintenancePolicyName : string) : Rule := λ message,
  ordererConf ←ᵣ readOrdererConfig;
  signedData ←ᵣ lift (Done (EnvelopeAsSignedData message));
  let policyName := if ConsensusState ordererConf =? STATE_MAINTENANCE
                    then maintenancePolicyName else normalPolicyName in
  b ←ᵣ peek;
  '(policy, found) ←ᵣ lift (p ← GetPolicy policyName (policyManager b); ok p);
  if negb found then rd_fail "could not find policy" else
  err ←ᵣ lift (e ← EvaluateSignedData policy [signedData]; ok e);
  match err with
  | Some _ => lift (Done (Err (Wrap ErrPermissionDenied "policy evaluation failed")))
  | None => rd_ret tt
  end.

(** [RuleSet.Apply] *)
Fixpoint ApplyRules (rules : list Rule) (message : Envelope) : reading Bundle unit :=
  match rules with
  | [] => rd_ret tt
  | rule :: rules => _ ←ᵣ rule message; ApplyRules rules message
  end.

(** [CreateStandardChannelFilters] *)
Definition CreateStandardChannelFilters (now : time) : list Rule :=
  [EmptyRejectRule; MaxBytesRule] ++
  (if NoExpirationChecks then [] else [expirationRejectRule now]) ++
  [SigFilter ChannelWriters ChannelOrdererWriters].

(** ** The channel's own operations *)

(** [ChainSupport.ProposeConfigUpdate] *)
Definition ChainSupport_ProposeConfigUpdate (configtx : option Envelope)
    : reading Bundle ConfigEnvelope :=
  b ←ᵣ peek;
  env ←ᵣ lift (ProposeConfigUpdate (configtxManager b) configtx);
  b ←ᵣ peek;
  bundle ←ᵣ lift (newBundle (vi_channelID (configtxManager b)) (ce_Config env));
  _ ←ᵣ lift (Done (checkResources bundle));
  b ←ᵣ peek;
  _ ←ᵣ lift (ValidateNew b bundle);
  b ←ᵣ peek;
  match Bundle_OrdererConfig b with
  | None => rd_panic "old config is missing orderer group"
  | Some oldOrdererConfig =>
    match Bundle_OrdererConfig bundle with
    | None => rd_fail "new config is missing orderer group"
    | Some newOrdererConfig =>
      _ ←ᵣ lift (Done (ValidateConsensusMetadata (ConsensusMetadataOf oldOrdererConfig)
                         (ConsensusMetadataOf newOrdererConfig) false));
      rd_ret env
    end
  end.

(** [ChainSupport.VerifyBlockSignature] *)
Definition VerifyBlockSignature (sd : list SignedData) (envelope : option ConfigEnvelope)
    : reading Bundle unit :=
  b ←ᵣ peek;
  policyMgr ←ᵣ match envelope with
               | None => rd_ret (policyManager b)
               | Some envelope =>
                 b ←ᵣ peek;
                 bundle ←ᵣ lift (newBundle (vi_channelID (configtxManager b)) (ce_Config envelope));
                 rd_ret (policyManager bundle)
               end;
  '(policy, found) ←ᵣ lift (p ← GetPolicy BlockValidation policyMgr; ok p);
  if negb found then rd_fail "policy wasn't found" else
  err ←ᵣ lift (e ← EvaluateSignedData policy sd; ok e);
  match err with
  | Some e => lift (Done (Err (Wrap e "block verification failed")))
  | None => rd_ret tt
  end.

(** [protoutil.CreateSignedEnvelope] with a fresh nonce. *)
Definition CreateSignedEnvelope (txType : Z) (channelID : string) (data : bytes)
    : reading Bundle Envelope := λ _ n,
  creator ←? Done (or_err "Serialize" (Serialize sgn));
  let hdr := mkHeader (Some (marshal (mkChannelHeader txType channelID "")))
               (marshal (mkSignatureHeader creator (rand n))) in
  let paylBytes := marshal (mkPayload (Some hdr) data) in
  sig ←? Done (or_err "Sign" (SignBytes sgn paylBytes));
  ok (mkEnvelope paylBytes sig, n).

(** ** Maintenance mode: [maintenancefilter.go] *)

Definition permittedTargetConsensusTypes : list string := ["etcdraft"; "solo"; "kafka"].

Definition ensureConsensusTypeChangeOnly (lastUpdate : option Envelope) : fallible unit :=
  configUpdateEnv ←? EnvelopeToConfigUpdate lastUpdate;
  configUpdate ←? Done (UnmarshalConfigUpdate (cue_ConfigUpdate configUpdateEnv));
  match WriteSet configUpdate with
  | None => Panic "nil pointer dereference: WriteSet"
  | Some ws =>
    if decide (size (Groups ws) = 0%nat) then fail "config update contains no changes"
    else if decide (0 < size (Values ws))%nat then fail "config update contains changes to values in group"
    else if decide (1 < size (Groups ws))%nat
    then fail "config update contains changes to more than one group"
    else
      match Groups ws !! OrdererGroupKey with
      | None => fail "update does not contain the Orderer group"
      | Some ordGroup =>
        if decide (0 < size (Groups ordGroup))%nat
        then fail "config update contains changes to groups within the Orderer group"
        else match Values ordGroup !! ConsensusTypeKey with
        | None => fail "config update does not contain the ConsensusType value"
        | Some _ =>
          if decide (1 < size (Values ordGroup))%nat
          then fail "config update contain more then just the ConsensusType value"
          else ok tt
        end
      end
  end.

(** The part of [MaintenanceFilter.inspect] on the current and the next orderer
    configuration. *)
Definition inspectTransition (configEnvelope : ConfigEnvelope) (oc noc : OrdererConf) : fallible unit :=
  if negb (OrdererConsensusTypeMigration (ordererCapabilities oc)) then
    if negb (ConsensusState noc =? STATE_NORMAL)
    then fail "next config attempted to change ConsensusType.State, but capability is disabled"
    else if decide (ConsensusTypeOf oc = ConsensusTypeOf noc) then ok tt
    else fail "next config attempted to change ConsensusType.Type, but capability is disabled"
  else
    _ ←? (if ConsensusState oc =? ConsensusState noc then ok tt
          else
            _ ←? ensureConsensusTypeChangeOnly (LastUpdate configEnvelope);
            if decide (ConsensusTypeOf oc = ConsensusTypeOf noc) then
              if decide (ConsensusMetadataOf noc = ConsensusMetadataOf oc) then ok tt
              else fail "attempted to change ConsensusType.Metadata, but ConsensusType.State is changing"
            else fail "attempted to change ConsensusType.Type, but ConsensusType.State is changing");
    if decide (ConsensusTypeOf oc = ConsensusTypeOf noc) then ok tt
    else if ConsensusState oc =? STATE_NORMAL
    then fail "current config ConsensusType.State is not in maintenance mode"
    else if ConsensusState noc =? STATE_NORMAL
    then fail "next config ConsensusType.State is not in maintenance mode"
    else if negb (bool_decide (ConsensusTypeOf noc ∈ permittedTargetConsensusTypes))
    then fail "transition not supported"
    else if bool_decide (ConsensusTypeOf noc = "etcdraft") && negb (isRaftMetadata (ConsensusMetadataOf noc))
    then fail "failed to unmarshal etcdraft metadata configuration"
    else ok tt.

(** [MaintenanceFilter.inspect] *)
Definition inspect (configEnvelope : ConfigEnvelope) (oc : OrdererConf) : reading Bundle unit :=
  match LastUpdate configEnvelope with
  | None => rd_fail "updated config does not include a config update"
  | Some _ =>
    b ←ᵣ peek;
    bundle ←ᵣ lift (newBundle (vi_channelID (configtxManager b)) (ce_Config configEnvelope));
    match Bundle_OrdererConfig bundle with
    | None => rd_fail "next config is missing orderer group"
    | Some noc => lift (inspectTransition configEnvelope oc noc)
    end
  end.

(** [MaintenanceFilter.Apply] *)
Definition MaintenanceFilter : Rule := λ message,
  ordererConf ←ᵣ readOrdererConfig;
  '(_, configEnvelope) ←ᵣ lift (Done (UnmarshalEnvelopeOfType (A:=ConfigEnvelope) message HeaderType_CONFIG));
  inspect configEnvelope ordererConf.

(** ** Standard channels: [standardchannel.go] *)

Definition ClassifyMsg (chdr : ChannelHeader) : Classification :=
  if ch_Type chdr =? HeaderType_CONFIG_UPDATE then ConfigUpdateMsg
  else if ch_Type chdr =? HeaderType_ORDERER_TRANSACTION then ConfigMsg
  else if ch_Type chdr =? HeaderType_CONFIG then ConfigMsg
  else NormalMsg.

(** [support.Sequence()] and [support.ChannelID()]. *)
Definition readSequence : reading Bundle Z := b ←ᵣ peek; rd_ret (vi_sequence (configtxManager b)).
Definition readChannelID : reading Bundle string := b ←ᵣ peek; rd_ret (vi_channelID (configtxManager b)).

Definition Standard_ProcessNormalMsg (filters : list Rule) (env : Envelope) : reading Bundle Z :=
  b ←ᵣ peek;
  match Bundle_OrdererConfig b with
  | None => rd_panic "Missing orderer config"
  | Some oc =>
    if OrdererConsensusTypeMigration (ordererCapabilities oc) && negb (ConsensusState oc =? STATE_NORMAL)
    then lift (Done (Err (Wrap ErrMaintenanceMode "normal transactions are rejected")))
    else
      configSeq ←ᵣ readSequence;
      _ ←ᵣ ApplyRules filters env;
      rd_ret configSeq
  end.

(** The filters dereference the envelope first. *)
Definition applyFilters (filters : list Rule) (env : option Envelope) : reading Bundle Envelope :=
  match env with
  | None => rd_panic "nil pointer dereference: message.Payload"
  | Some env => _ ←ᵣ ApplyRules filters env; rd_ret env
  end.

Definition Standard_ProcessConfigUpdateMsg (filters : list Rule) (env : option Envelope)
    : reading Bundle (Envelope * Z) :=
  seq ←ᵣ readSequence;
  env ←ᵣ applyFilters filters env;
  configEnvelope ←ᵣ ChainSupport_ProposeConfigUpdate (Some env);
  channelID ←ᵣ readChannelID;
  config ←ᵣ CreateSignedEnvelope HeaderType_CONFIG channelID (marshal configEnvelope);
  _ ←ᵣ ApplyRules filters config;
  _ ←ᵣ MaintenanceFilter config;
  rd_ret (config, seq).

Definition Standard_ProcessConfigMsg (filters : list Rule) (env : Envelope)
    : reading Bundle (Envelope * Z) :=
  '(_, configEnvelope) ←ᵣ lift (Done (UnmarshalEnvelopeOfType (A:=ConfigEnvelope) env HeaderType_CONFIG));
  Standard_ProcessConfigUpdateMsg filters (LastUpdate configEnvelope).

(** ** Templates of new channels: [systemchannel.go] *)

Fixpoint zeroVersions (cg : ConfigGroup) : ConfigGroup :=
  let 'mkConfigGroup _ groups values policies modPolicy := cg in
  mkConfigGroup 0 (zeroVersions <$> groups)
    ((λ v, mkConfigValue 0 (cv_Value v) (cv_ModPolicy v)) <$> values)
    ((λ p, mkConfigPolicy 0 (cp_Policy p) (cp_ModPolicy p)) <$> policies) modPolicy.

(** The request for a new channel: its ID, the write set, the application group
    and the name of the consortium. *)
Definition creationRequest (envConfigUpdate : Envelope)
    : res (string * ConfigGroup * ConfigGroup * string) :=
  payload ← or_err "payload unmarshaling error" (unmarshal (A:=Payload) (env_Payload envConfigUpdate));
  configUpdateEnv ← or_err "config update envelope unmarshaling error"
    (unmarshal (A:=ConfigUpdateEnvelope) (pl_Data payload));
  hdr ← or_err "config update header was missing" (pl_Header payload);
  channelHeader ← or_err "channel header was malformed"
    (unmarshal (A:=ChannelHeader) (nb (h_ChannelHeader hdr)));
  configUpdate ← UnmarshalConfigUpdate (cue_ConfigUpdate configUpdateEnv);
  if decide (cu_ChannelId configUpdate = ch_ChannelId channelHeader) then
    writeSet ← or_err "Config update has an empty writeset" (WriteSet configUpdate);
    app ← or_err "Config update has missing application group" (Groups writeSet !! ApplicationGroupKey);
    if negb (cg_Version app =? 1)
    then Err (Errorf "Config update for channel creation does not set application group version to 1")
    else
      value ← or_err "Consortium config value missing" (Values writeSet !! ConsortiumKey);
      name ← or_err "Error reading unmarshaling consortium name" (dec_Consortium (cv_Value value));
      Ok (ch_ChannelId channelHeader, writeSet, app, name)
  else Err (Errorf "mismatched channel IDs").

(** The policy that governs the application group of a new channel. *)
Definition creationPolicyKey (oc : option OrdererConf) (app : ConfigGroup) : string :=
  match oc with
  | Some oc =>
    if UseChannelCreationPolicyAsAdmins (ordererCapabilities oc) && negb (bool_decide (Policies app = ∅))
    then match Policies app !! AdminsPolicyKey with
         | Some policy => if cp_Version policy =? 0 then ChannelCreationPolicyKey else AdminsPolicyKey
         | None => AdminsPolicyKey
         end
    else ChannelCreationPolicyKey
  | None => ChannelCreationPolicyKey
  end.

(** The members of a new channel: those of the request, each with its definition
    in the consortium, or none when the consortium is empty. *)
Definition templateMembers (members requested : gmap string ConfigGroup)
    : fallible (gmap string ConfigGroup) :=
  if decide (size members = 0%nat) then ok ∅
  else if decide (size requested = 0%nat)
  then fail "Proposed configuration has no application group members, but consortium contains members"
  else range (λ orgName _ groups,
    match members !! orgName with
    | None => fail "Attempted to include member which is not in the consortium"
    | Some consortiumGroup => ok (<[orgName := consortiumGroup]> groups)
    end) requested ∅.

(** The template: the channel group of the system channel with the new
    application group and consortium. *)
Definition templateGroup (oc : option OrdererConf) (system orderer application : ConfigGroup)
    (name : string) : ConfigGroup :=
  let groups := <[ApplicationGroupKey := application]> {[ OrdererGroupKey := orderer ]} in
  let values := <[ConsortiumKey := mkConfigValue 0 (enc_Consortium name) AdminsPolicyKey]> (Values system) in
  match oc with
  | Some oc =>
    if PredictableChannelTemplate (ordererCapabilities oc)
    then zeroVersions (mkConfigGroup 0 groups values (Policies system) (cg_ModPolicy system))
    else mkConfigGroup 0 groups values (Policies system) ""
  | None => mkConfigGroup 0 groups values (Policies system) ""
  end.

(** [DefaultTemplator.NewChannelConfig] *)
Definition NewChannelTemplate (envConfigUpdate : Envelope) : reading Bundle Bundle :=
  '(channelID, writeSet, app, name) ←ᵣ lift (Done (creationRequest envConfigUpdate));
  b ←ᵣ peek;
  match Bundle_ConsortiumsConfig b with
  | None => rd_fail "The ordering system channel does not appear to resources creating channels"
  | Some consortiums =>
    match consortiums !! name with
    | None => rd_fail "Unknown consortium name"
    | Some consortium =>
      b ←ᵣ peek;
      let policyKey := creationPolicyKey (Bundle_OrdererConfig b) app in
      b ←ᵣ peek;
      match ChannelGroup (vi_configProto (configtxManager b)) with
      | None => rd_panic "nil pointer dereference: ChannelGroup"
      | Some system =>
        match Groups system !! ConsortiumsGroupKey ≫= λ g, Groups g !! name with
        | None => rd_panic "nil pointer dereference: Groups"
        | Some consortiumGroup =>
          members ←ᵣ lift (templateMembers (Groups consortiumGroup) (Groups app));
          b ←ᵣ peek;
          match Groups system !! OrdererGroupKey with
          | None => rd_panic "nil pointer dereference: Orderer group"
          | Some orderer =>
            let application := mkConfigGroup 0 members ∅
              {[ policyKey := mkConfigPolicy 0 (Some (csc_ChannelCreationPolicy consortium)) policyKey ]}
              policyKey in
            lift (newBundle channelID
              (Some (mkConfig 0 (Some (templateGroup (Bundle_OrdererConfig b) system orderer application name)))))
          end
        end
      end
    end
  end.

(** ** The system channel: [systemchannelfilter.go], [systemchannel.go] *)

(** The number of channels of the registrar. *)
Context (channelsCount : Z).

Definition authorizeAndInspect (configTx : Envelope) : reading Bundle unit :=
  '(_, configEnvelope) ←ᵣ lift (Done (UnmarshalEnvelopeOfType (A:=ConfigEnvelope) configTx HeaderType_CONFIG));
  match LastUpdate configEnvelope with
  | None => rd_fail "updated config does not include a config update"
  | Some lastUpdate =>
    template ←ᵣ NewChannelTemplate lastUpdate;
    newChannelConfigEnv ←ᵣ lift (ProposeConfigUpdate (configtxManager template) (Some lastUpdate));
    if decide (newChannelConfigEnv = configEnvelope) then
      bundle ←ᵣ lift (newBundle (vi_channelID (configtxManager template)) (ce_Config newChannelConfigEnv));
      _ ←ᵣ lift (ValidateNew template bundle);
      match Bundle_OrdererConfig bundle with
      | None => rd_fail "config is missing orderer group"
      | Some oc =>
        b ←ᵣ peek;
        match Bundle_OrdererConfig b with
        | None => rd_panic "old config is missing orderer group"
        | Some oldOrdererConfig =>
          _ ←ᵣ lift (Done (ValidateConsensusMetadata (ConsensusMetadataOf oldOrdererConfig)
                             (ConsensusMetadataOf oc) true));
          _ ←ᵣ lift (Done (Supported OrdererHasCapability (orp_Capabilities (orc_protos oc))));
          lift (Done (Supported ChannelHasCapability (chp_Capabilities (chc_protos (channelConfig bundle)))))
        end
      end
    else rd_fail "config proposed by the channel creation request did not match"
  end.

(** [SystemChainFilter.Apply] *)
Definition SystemChainFilter : Rule := λ env,
  msgData ←ᵣ lift (Done (or_err "bad payload" (unmarshal (A:=Payload) (env_Payload env))));
  hdr ←ᵣ lift (Done (or_err "missing payload header" (pl_Header msgData)));
  chdr ←ᵣ lift (Done (or_err "bad channel header" (unmarshal (A:=ChannelHeader) (nb (h_ChannelHeader hdr)))));
  if negb (ch_Type chdr =? HeaderType_ORDERER_TRANSACTION) then rd_ret tt
  else
    ordererConfig ←ᵣ readOrdererConfig;
    let maxChannels := orp_MaxCount (orc_protos ordererConfig) in
    if (maxChannels >? 0) && (u64 channelsCount >? maxChannels)
    then rd_fail "channel creation would exceed maximimum number of channels"
    else if negb (ConsensusState ordererConfig =? STATE_NORMAL)
    then lift (Done (Err (Wrap ErrMaintenanceMode "channel creation is not permitted")))
    else
      configTx ←ᵣ lift (Done (or_err "payload data error unmarshaling to envelope"
                          (unmarshal (A:=Envelope) (pl_Data msgData))));
      authorizeAndInspect configTx.

(** [CreateSystemChannelFilters] *)
Definition CreateSystemChannelFilters (now : time) : list Rule :=
  [EmptyRejectRule; MaxBytesRule] ++
  (if NoExpirationChecks then [] else [expirationRejectRule now]) ++
  [SigFilter ChannelWriters ChannelOrdererWriters; SystemChainFilter].

(** [SystemChannel.ProcessNormalMsg] *)
Definition System_ProcessNormalMsg (filters : list Rule) (msg : Envelope) : reading Bundle Z :=
  channelID ←ᵣ lift (Done (ChannelIDOf msg));
  own ←ᵣ readChannelID;
  if decide (channelID = own) then Standard_ProcessNormalMsg filters msg
  else lift (Done (Err ErrChannelDoesNotExist)).

(** [SystemChannel.ProcessConfigUpdateMsg]. The sequence number is read last. *)
Definition System_ProcessConfigUpdateMsg (filters : list Rule) (env : option Envelope)
    : reading Bundle (Envelope * Z) :=
  match env with
  | None => rd_panic "nil pointer dereference: env.Payload"
  | Some envConfigUpdate =>
    channelID ←ᵣ lift (Done (ChannelIDOf envConfigUpdate));
    own ←ᵣ readChannelID;
    if decide (channelID = own) then Standard_ProcessConfigUpdateMsg filters (Some envConfigUpdate)
    else
      template ←ᵣ NewChannelTemplate envConfigUpdate;
      newChannelConfigEnv ←ᵣ lift (ProposeConfigUpdate (configtxManager template) (Some envConfigUpdate));
      newChannelEnvConfig ←ᵣ CreateSignedEnvelope HeaderType_CONFIG channelID (marshal newChannelConfigEnv);
      own ←ᵣ readChannelID;
      wrapped ←ᵣ CreateSignedEnvelope HeaderType_ORDERER_TRANSACTION own (marshal newChannelEnvConfig);
      _ ←ᵣ ApplyRules filters wrapped;
      seq ←ᵣ readSequence;
      rd_ret (wrapped, seq)
  end.

(** [SystemChannel.ProcessConfigMsg] *)
Definition System_ProcessConfigMsg (filters : list Rule) (env : Envelope)
    : reading Bundle (Envelope * Z) :=
  payload ←ᵣ lift (Done (UnmarshalPayload (env_Payload env)));
  hdr ←ᵣ lift (Done (or_err "Abort processing config msg because no head was set" (pl_Header payload)));
  raw ←ᵣ lift (Done (or_err "Abort processing config msg because no channel header was set" (h_ChannelHeader hdr)));
  chdr ←ᵣ lift (Done (UnmarshalChannelHeader raw));
  if ch_Type chdr =? HeaderType_CONFIG then
    configEnvelope ←ᵣ lift (Done (or_err "unmarshal" (unmarshal (A:=ConfigEnvelope) (pl_Data payload))));
    Standard_ProcessConfigUpdateMsg filters (LastUpdate configEnvelope)
  else if ch_Type chdr =? HeaderType_ORDERER_TRANSACTION then
    env ←ᵣ lift (Done (or_err "payload data unmarshalling error" (unmarshal (A:=Envelope) (pl_Data payload))));
    '(_, configEnvelope) ←ᵣ lift (Done (UnmarshalEnvelopeOfType (A:=ConfigEnvelope) env HeaderType_CONFIG));
    System_ProcessConfigUpdateMsg filters (LastUpdate configEnvelope)
  else rd_fail "Panic processing config msg due to unexpected envelope type".
End msgprocessor.
