(* ===== verification/MsgProcessorProps.v ===== *)
(** * Properties of message processing

    [ProcessNormalMsg_exact]: the messages a channel accepts.
    [batch_bounds]: the batches of accepted messages respect the limits of the
    configuration. [accepted_config_commits]: a configuration update a channel
    accepted can be committed, unless the configuration moved on in between. *)

From Stdlib Require Import Ascii String.
From stdpp Require Import gmap strings list.
From S2P Require Import Prelude Protos ConfigProtos GoLib BlockCutter Support Blocks BlockWriter BlockWriterProps Capabilities Cauthdsl PolicyManager ConfigTx ConfigTree ConfigTxProps ConfigTxAuth ChannelConfig ChannelConfigProps MsgProcessor.

(** [proto.Marshal] of a payload keeps it, up to a header that encodes to nothing. *)
Definition payload_canonical (p : Payload) : Prop :=
  ∀ hdr, pl_Header p = Some hdr → nb_canonical (h_ChannelHeader hdr).

(** ** Writing a config transaction *)

Section signed.
Context {Bundle ConfigEnvelope : Type} `{!Resources Bundle ConfigEnvelope}.
Context `{!Codec Envelope, !Codec Payload, !Codec ChannelHeader, !Codec ConfigEnvelope}.
Context `{!CodecOk Envelope (λ _, True), !CodecOk Payload payload_canonical}.
Context `{!CodecOk ChannelHeader (λ _, True)}.
Context (canonical : ConfigEnvelope → Prop) `{!CodecOk ConfigEnvelope canonical}.
(** A header with a type encodes to something. *)
Context (header_encoded : ∀ h : ChannelHeader, ch_Type h ≠ 0 → marshal h ≠ []).

(** The payload of a config transaction. *)
Definition configPayload (channelID : string) (shdr : bytes) (ce : ConfigEnvelope) : bytes :=
  marshal (mkPayload (Some (mkHeader (Some (marshal (mkChannelHeader HeaderType_CONFIG channelID "")))
    shdr)) (marshal ce)).

Lemma prepareConfig_signed block md (b nb : Bundle) oc noc channelID ce shdr sig :
  blk_Data block = Some [marshal (mkEnvelope (configPayload channelID shdr ce) sig)] →
  bundle_Validate ce b = Ok tt → CreateBundle channelID ce = Ok nb →
  bundle_OrdererConfig b = Some oc → bundle_OrdererConfig nb = Some noc → canonical ce →
  ∃ md', prepareConfig block md b = Done (SetBundle nb, md').
Proof.
  intros Hd Hv Hb Ho Hn Hcan. unfold prepareConfig, ExtractEnvelope. rewrite Hd. simpl.
  unfold GetEnvelopeFromBlock. rewrite unmarshal_marshal by done. simpl.
  unfold UnmarshalPayload, configPayload. rewrite unmarshal_marshal.
  2:{ intros hdr [= <-]. unfold nb_canonical. simpl. intros [= E]. by eapply header_encoded in E. }
  simpl. unfold UnmarshalChannelHeader. rewrite unmarshal_marshal by done. simpl.
  rewrite unmarshal_marshal by done. simpl. rewrite Hv, Hb. simpl. rewrite Hn. simpl. rewrite Ho. simpl. eauto.
Qed.
End signed.

Section props.
Context `{!ValueCodecs} `{!Codec SignaturePolicyEnvelope, !Codec ImplicitMetaDefinition}.
Context {MSP : Type} (msp_Setup : Z → MSPConfig → res MSP) (GetIdentifier : MSP → string).
Context (msp_NewMSPManager : list MSP → res IdentityDeserializer).
Context (ParseDuration : string → option duration).
Context `{!Codec Envelope, !Codec Payload, !Codec ChannelHeader, !Codec SignatureHeader}.
Context `{!Codec ConfigUpdate, !Codec ConfigUpdateEnvelope, !Codec ConfigEnvelope}.
Context `{!Codec SerializedIdentity}.
Context (pem_Decode : bytes → option bytes) (NotAfter : bytes → option time).
Context (NoExpirationChecks : bool).

Abbreviation newBundle := (NewBundle msp_Setup GetIdentifier msp_NewMSPManager ParseDuration).
Abbreviation standardFilters := (CreateStandardChannelFilters pem_Decode NotAfter NoExpirationChecks).
Abbreviation sequenceOf b := (vi_sequence (configtxManager b)).

#[local] Instance channel_resources' : Resources Bundle ConfigEnvelope :=
  bundle_resources msp_Setup GetIdentifier msp_NewMSPManager ParseDuration.

(** ** Accepted messages *)

(** What the filters of a standard channel ask of a message, under one bundle. *)
Record admissible (now : time) (b : Bundle) (oc : OrdererConf) (env : Envelope) : Prop := {
  adm_payload : env_Payload env ≠ [];
  adm_size : messageByteSize env <= AbsoluteMaxBytes (orp_BatchSize (orc_protos oc));
  adm_alive sd t : NoExpirationChecks = false → ExpirationCheck (ordererCapabilities oc) = true →
    EnvelopeAsSignedData env = Ok sd →
    ExpiresAt pem_Decode NotAfter (sd_Identity sd) = Some t → now < t;
  adm_signed : ∃ sd policy, EnvelopeAsSignedData env = Ok sd ∧
    GetPolicy (if ConsensusState oc =? STATE_MAINTENANCE then ChannelOrdererWriters else ChannelWriters)
      (policyManager b) = Done (policy, true) ∧
    EvaluateSignedData policy [sd] = Done None
}.

Lemma EmptyRejectRule_ok env (cur : nat → Bundle) n n' :
  EmptyRejectRule env cur n = Done (Ok (tt, n')) ↔ env_Payload env ≠ [] ∧ n' = n.
Proof.
  unfold EmptyRejectRule. destruct (env_Payload env); [by split; [|intros [? _]]|].
  unfold rd_ret, ok. split; [by intros [= <-]|by intros [_ ->]].
Qed.

Lemma MaxBytesRule_ok env b oc n n' :
  Bundle_OrdererConfig b = Some oc →
  MaxBytesRule env (λ _, b) n = Done (Ok (tt, n')) ↔
  messageByteSize env <= AbsoluteMaxBytes (orp_BatchSize (orc_protos oc)) ∧ n' = S n.
Proof.
  intros Hoc. unfold MaxBytesRule, readOrdererConfig, rd_bind, peek, rd_ret. simpl. rewrite Hoc. simpl.
  destruct (_ >? _) eqn:E; [apply Z.gtb_lt in E|rewrite Z.gtb_ltb, Z.ltb_ge in E].
  - split; [done|lia].
  - unfold ok. split; [intros [= <-]; lia|intros [_ ->]; done].
Qed.

Lemma expirationRejectRule_ok now env b oc n n' :
  Bundle_OrdererConfig b = Some oc →
  expirationRejectRule pem_Decode NotAfter now env (λ _, b) n = Done (Ok (tt, n')) ↔
  (ExpirationCheck (ordererCapabilities oc) = true → ∃ sd, EnvelopeAsSignedData env = Ok sd ∧
     ∀ t, ExpiresAt pem_Decode NotAfter (sd_Identity sd) = Some t → now < t) ∧ n' = S n.
Proof.
  intros Hoc. unfold expirationRejectRule, readOrdererConfig, rd_bind, peek, rd_ret, lift.
  simpl. rewrite Hoc. simpl.
  destruct (ExpirationCheck _); simpl; [|unfold ok; split; [by intros [= <-]|by intros [_ ->]]].
  destruct (EnvelopeAsSignedData env) as [sd|]; simpl; [|split; [done|intros [H' _]; by destruct H' as (? & ? & _)]].
  destruct (ExpiresAt _ _ _) as [t|] eqn:Et; simpl; unfold ok.
  - destruct (now <? t) eqn:E; [apply Z.ltb_lt in E|apply Z.ltb_ge in E]; simpl.
    + split; [intros [= <-]|by intros [_ ->]]. split; [|done]. intros _. exists sd. split; [done|]. congruence.
    + split; [done|]. intros [Ht _]. destruct Ht as (sd' & [= <-] & Ht); [done|]. specialize (Ht t Et). lia.
  - split; [intros [= <-]|by intros [_ ->]]. split; [|done]. intros _. exists sd. split; [done|]. congruence.
Qed.

Lemma SigFilter_ok normal maintenance env b oc n n' :
  Bundle_OrdererConfig b = Some oc →
  SigFilter normal maintenance env (λ _, b) n = Done (Ok (tt, n')) ↔
  (∃ sd policy, EnvelopeAsSignedData env = Ok sd ∧
    GetPolicy (if ConsensusState oc =? STATE_MAINTENANCE then maintenance else normal) (policyManager b)
      = Done (policy, true) ∧ EvaluateSignedData policy [sd] = Done None) ∧ n' = S (S n).
Proof.
  clear ParseDuration. intros Hoc. unfold SigFilter, readOrdererConfig, rd_bind, peek, rd_ret, lift. simpl. rewrite Hoc. simpl.
  destruct (EnvelopeAsSignedData env) as [sd|]; simpl; [|naive_solver].
  destruct (GetPolicy _ _) as [[policy found]|]; simpl; [|naive_solver].
  destruct found; simpl; [|naive_solver].
  destruct (EvaluateSignedData policy [sd]) as [[e|]|] eqn:E; simpl; unfold ok.
  - split; [done|]. intros [(? & ? & ? & ? & ?) _]. simplify_eq. congruence.
  - split; [intros [= <-]; eauto 10|intros [_ ->]; done].
  - split; [done|]. intros [(? & ? & ? & ? & ?) _]. simplify_eq. congruence.
Qed.

Lemma ApplyRules_cons rule rules env (cur : nat → Bundle) n n' :
  ApplyRules (rule :: rules) env cur n = Done (Ok (tt, n')) ↔
  ∃ n1, rule env cur n = Done (Ok (tt, n1)) ∧ ApplyRules rules env cur n1 = Done (Ok (tt, n')).
Proof.
  simpl. rewrite rd_bind_ok. split; [intros ([] & n1 & ? & ?); eauto|intros (n1 & ? & ?); eauto].
Qed.

Lemma ApplyRules_nil env (cur : nat → Bundle) n n' :
  ApplyRules [] env cur n = Done (Ok (tt, n')) ↔ n' = n.
Proof. simpl. unfold rd_ret, ok. split; [by intros [= <-]|by intros ->]. Qed.

(** Under one bundle the filters of a standard channel accept the admissible
    messages. *)
Lemma standardFilters_ok now env b oc n :
  Bundle_OrdererConfig b = Some oc →
  (∃ n', ApplyRules (standardFilters now) env (λ _, b) n = Done (Ok (tt, n'))) ↔ admissible now b oc env.
Proof.
  intros Hoc. unfold CreateStandardChannelFilters. split.
  - intros [n' Ha]. cbn [app] in Ha.
    apply ApplyRules_cons in Ha as (n1 & [H1 ->]%EmptyRejectRule_ok & Ha).
    apply ApplyRules_cons in Ha as (n2 & [H2 ->]%(MaxBytesRule_ok _ _ _ _ _ Hoc) & Ha).
    destruct NoExpirationChecks eqn:E; cbn [app] in Ha.
    + apply ApplyRules_cons in Ha as (n3 & [H3 ->]%(SigFilter_ok _ _ _ _ _ _ _ Hoc) & _).
      split; [done..|congruence|done].
    + apply ApplyRules_cons in Ha as (n3 & [H3 ->]%(expirationRejectRule_ok _ _ _ _ _ _ Hoc) & Ha).
      apply ApplyRules_cons in Ha as (n4 & [H4 ->]%(SigFilter_ok _ _ _ _ _ _ _ Hoc) & _).
      split; [done..| |done]. intros sd t _ Hx Hsd Ht. destruct (H3 Hx) as (sd' & Hsd' & Hlt).
      rewrite Hsd in Hsd'. injection Hsd' as <-. by apply Hlt.
  - intros [H1 H2 H3 H4].
    destruct NoExpirationChecks eqn:E; eexists; cbn [app];
      (apply ApplyRules_cons; eexists; split; [by apply EmptyRejectRule_ok|]);
      (apply ApplyRules_cons; eexists; split; [by apply (MaxBytesRule_ok _ _ oc)|]).
    + apply ApplyRules_cons. eexists. split; [by apply (SigFilter_ok _ _ _ _ oc)|]. by apply ApplyRules_nil.
    + apply ApplyRules_cons. eexists. split; [apply (expirationRejectRule_ok _ _ _ oc); [done|]; split; [|done]|].
      { intros Hx. destruct H4 as (sd & policy & Hsd & _). exists sd. split; [done|]. intros t. by apply H3. }
      apply ApplyRules_cons. eexists. split; [by apply (SigFilter_ok _ _ _ _ oc)|]. by apply ApplyRules_nil.
Qed.

Lemma accepted_admissible now env b n seq n' :
  Standard_ProcessNormalMsg (standardFilters now) env (λ _, b) n = Done (Ok (seq, n')) →
  ∃ oc, Bundle_OrdererConfig b = Some oc ∧
    (OrdererConsensusTypeMigration (ordererCapabilities oc) = true → ConsensusState oc = STATE_NORMAL) ∧
    admissible now b oc env ∧ seq = sequenceOf b.
Proof.
  unfold Standard_ProcessNormalMsg. intros (? & ? & [= <- <-] & Hp)%rd_bind_ok.
  destruct (Bundle_OrdererConfig b) as [oc|] eqn:Hoc; [|done]. exists oc. split; [done|].
  destruct (_ && _) eqn:Em; [done|].
  apply rd_bind_ok in Hp as (? & ? & [= <- <-] & ([] & n1 & Hf & [= <- <-])%rd_bind_ok).
  split_and!; [|eapply standardFilters_ok; eauto|done].
  intros Hm. rewrite Hm in Em. simpl in Em. by apply negb_false_iff, Z.eqb_eq in Em.
Qed.

(** The normal messages a channel accepts under a configuration. A message
    is accepted, with the sequence number of the configuration, exactly when the
    channel is not in maintenance mode (with the migration capability), the
    message has a payload, is no larger than [AbsoluteMaxBytes], its creator's
    certificate has not expired (when that is checked), and its signature
    satisfies [/Channel/Writers]. *)
Theorem ProcessNormalMsg_exact now env b n seq :
  (∃ n', Standard_ProcessNormalMsg (standardFilters now) env (λ _, b) n = Done (Ok (seq, n'))) ↔
  ∃ oc, Bundle_OrdererConfig b = Some oc ∧
    (OrdererConsensusTypeMigration (ordererCapabilities oc) = true → ConsensusState oc = STATE_NORMAL) ∧
    admissible now b oc env ∧ seq = sequenceOf b.
Proof.
  split; [intros [n' Hp]; by eapply accepted_admissible|].
  intros (oc & Hoc & Hm & Hadm & ->). unfold Standard_ProcessNormalMsg.
  destruct (proj2 (standardFilters_ok now env b oc (S (S n)) Hoc) Hadm) as [n' Hn']. exists n'.
  apply rd_bind_ok. eexists _, _. split; [done|]. rewrite Hoc.
  rewrite (proj2 (andb_false_iff _ _)).
  - apply rd_bind_ok. eexists _, _. split; [done|]. apply rd_bind_ok. by eexists _, _.
  - destruct (OrdererConsensusTypeMigration _) eqn:E; [right|by left]. by rewrite Hm.
Qed.

(** ** The batches of accepted messages *)

(** C23. The limits of an accepted configuration hold for what the orderer
    cuts. Under the batch size of a bundle (with [PreferredMaxBytes] below 2^31),
    messages the channel accepts come out of the block cutter in order, in
    batches of at least one and at most [MaxMessageCount] messages and at most
    [AbsoluteMaxBytes] bytes, and so does what is left pending; and the batch
    timeout is positive. *)
Theorem batch_bounds channelID config b oc now t (msgs : list Envelope) :
  (∀ v bs, dec_BatchSize v = Some bs → batchSize_u32 bs) →
  newBundle channelID config = Done (Ok b) → Bundle_OrdererConfig b = Some oc →
  PreferredMaxBytes (orp_BatchSize (orc_protos oc)) < 2 ^ 31 →
  Forall (λ env, ∃ seq n',
    Standard_ProcessNormalMsg (standardFilters now) env (λ _, b) 0%nat = Done (Ok (seq, n'))) msgs →
  0 < orc_batchTimeout oc ∧
  ∃ bs r', OrderedAll (Some (orp_BatchSize (orc_protos oc))) t msgs NewReceiverImpl = Done (bs, r') ∧
    concat bs ++ pendingBatch r' = msgs ∧
    Forall (λ batch, 1 <= Z.of_nat (length batch) <= MaxMessageCount (orp_BatchSize (orc_protos oc)) ∧
      batchBytes batch <= AbsoluteMaxBytes (orp_BatchSize (orc_protos oc)))
      (bs ++ nonempty (pendingBatch r')).
Proof.
  intros Hu Hb Hoc Hp Hmsgs.
  destruct (bundle_section_bounds _ _ _ _ Hu _ _ _ _ Hb Hoc) as [Hc Hpref Habs Ht _ _].
  split; [done|]. set (cfg := orp_BatchSize _) in *.
  assert (cfg_ok cfg) as Hcfg by (split; unfold is_u32; lia).
  destruct (OrderedAll_run cfg t msgs NewReceiverImpl) as (bs & r' & Hr & _ & Hcat & Hbs & Hpend & _);
    [done|auto with hcs|by left|].
  exists bs, r'. split_and!; [done|done|].
  assert (∀ m, m ∈ msgs → messageSizeBytes m <= AbsoluteMaxBytes cfg) as Hsize.
  { intros m Hm. eapply Forall_forall in Hmsgs as (seq & n' & Ha); [|done].
    apply accepted_admissible in Ha as (oc' & Hoc' & _ & Hadm & _).
    rewrite Hoc in Hoc'. injection Hoc' as <-. apply Hadm. }
  apply Forall_app. split.
  - apply Forall_forall. intros batch Hin. eapply Forall_forall in Hbs as (Hne & Hlen & Hsz); [|done].
    split; [destruct batch; [done|]; simpl in *; lia|].
    destruct Hsz as [?|(m & -> & Hm)]; [lia|]. simpl. rewrite Z.add_0_r. apply Hsize.
    change msgs with (pendingBatch NewReceiverImpl ++ msgs). rewrite <- Hcat. apply elem_of_app. left. apply list_elem_of_In, in_concat.
    exists [m]. split; [by apply list_elem_of_In|by left].
  - destruct Hpend as [->|[Hsz Hlen]]; [constructor|].
    destruct (pendingBatch r') as [|m p] eqn:E; [constructor|]. simpl.
    apply Forall_singleton. simpl in *. lia.
Qed.

(** ** Committing accepted configurations *)

Context (sgn : SignerSerializer) (rand : nat → bytes).
Context (ValidateConsensusMetadata : bytes → bytes → bool → res unit) (isRaftMetadata : bytes → bool).

Abbreviation ProposeConfig := (ChainSupport_ProposeConfigUpdate msp_Setup GetIdentifier
  msp_NewMSPManager ParseDuration ValidateConsensusMetadata).

(** The bundle [b] is the one current from the [n]th to the [N]th read. *)
Definition stable (cur : nat → Bundle) (b : Bundle) (n N : nat) : Prop :=
  ∀ k, (n <= k <= N)%nat → cur k = b.

Lemma stable_sub cur b n N n1 N1 :
  (n <= n1)%nat → (N1 <= N)%nat → stable cur b n N → stable cur b n1 N1.
Proof. intros ?? Hs k ?. apply Hs. lia. Qed.

Lemma forward_ApplyRules (rules : list (Envelope → reading Bundle unit)) env :
  Forall (λ rule, ∀ env, forward (rule env)) rules → forward (ApplyRules rules env).
Proof. induction 1; simpl; auto with reading. Qed.

Lemma forward_readOrdererConfig : forward readOrdererConfig.
Proof. apply forward_bind; [auto with reading|]. intros b. case_match; auto with reading. Qed.
#[local] Hint Resolve forward_readOrdererConfig : reading.

Lemma forward_standardFilters now : Forall (λ rule, ∀ env, forward (rule env)) (standardFilters now).
Proof.
  unfold CreateStandardChannelFilters. cbn [app].
  constructor; [|constructor; [|apply Forall_app; split; [|apply Forall_singleton]]].
  - intros env. unfold EmptyRejectRule. case_match; auto with reading.
  - intros env. apply forward_bind; [auto with reading|]. intros oc. case_match; auto with reading.
  - destruct NoExpirationChecks; [constructor|]. apply Forall_singleton. intros env.
    apply forward_bind; [auto with reading|]. intros oc. case_match; [auto with reading|].
    apply forward_bind; [auto with reading|]. intros sd. repeat case_match; auto with reading.
  - intros env. apply forward_bind; [auto with reading|]. intros oc.
    apply forward_bind; [auto with reading|]. intros sd.
    apply forward_bind; [auto with reading|]. intros b.
    apply forward_bind; [auto with reading|]. intros [policy found]. case_match; [auto with reading|].
    apply forward_bind; [auto with reading|]. intros [e|]; auto with reading.
Qed.

Lemma forward_CreateSignedEnvelope ty id data : forward (CreateSignedEnvelope sgn rand ty id data).
Proof. intros cur n env n' He. unfold CreateSignedEnvelope in He. by try_inv. Qed.

Lemma forward_ProposeConfig tx : forward (ProposeConfig tx).
Proof.
  unfold ChainSupport_ProposeConfigUpdate.
  repeat (apply forward_bind; [auto with reading|intros ?]).
  repeat case_match; auto with reading.
Qed.

Lemma forward_MaintenanceFilter env :
  forward (MaintenanceFilter msp_Setup GetIdentifier msp_NewMSPManager ParseDuration isRaftMetadata env).
Proof.
  apply forward_bind; [auto with reading|]. intros oc. apply forward_bind; [auto with reading|].
  intros [chdr ce]. unfold inspect. case_match; [|auto with reading].
  repeat (apply forward_bind; [auto with reading|intros ?]). case_match; auto with reading.
Qed.

(** Proposing an update while the bundle does not change. *)
Lemma ProposeConfig_stable tx cur b n env n' :
  ProposeConfig tx cur n = Done (Ok (env, n')) → stable cur b n n' →
  ∃ nb oc noc, ProposeConfigUpdate (configtxManager b) tx = Done (Ok env) ∧
    newBundle (vi_channelID (configtxManager b)) (ce_Config env) = Done (Ok nb) ∧
    checkResources nb = Ok tt ∧ ValidateNew b nb = Done (Ok tt) ∧
    Bundle_OrdererConfig b = Some oc ∧ Bundle_OrdererConfig nb = Some noc.
Proof.
  unfold ChainSupport_ProposeConfigUpdate. intros Hp Hs.
  apply rd_bind_ok in Hp as (b0 & n1 & [= <- <-] & (env0 & n2 & [Hp -> ]%lift_ok & Hr)%rd_bind_ok).
  apply rd_bind_ok in Hr as (b1 & n1 & [= <- <-] & (nb & n2 & [Hb ->]%lift_ok & Hr)%rd_bind_ok).
  apply rd_bind_ok in Hr as ([] & n2 & [[= Hc] ->]%lift_ok & Hr).
  apply rd_bind_ok in Hr as (b2 & n1 & [= <- <-] & ([] & n2 & [Hv ->]%lift_ok & Hr)%rd_bind_ok).
  apply rd_bind_ok in Hr as (b3 & n1 & [= <- <-] & Hr).
  destruct (Bundle_OrdererConfig (cur _)) as [oc|] eqn:Ho; [|done].
  destruct (Bundle_OrdererConfig nb) as [noc|] eqn:Hn; [|done].
  apply rd_bind_ok in Hr as ([] & n2 & [_ ->]%lift_ok & [= <- <-]).
  rewrite !Hs in * by lia. by exists nb, oc, noc.
Qed.

Abbreviation ProcessConfigUpdate := (Standard_ProcessConfigUpdateMsg msp_Setup GetIdentifier
  msp_NewMSPManager ParseDuration sgn rand ValidateConsensusMetadata isRaftMetadata).

(** A config transaction a channel made from an update while its bundle did not
    change. *)
Lemma ProcessConfigUpdate_stable rules env cur b n config seq n' :
  Forall (λ rule, ∀ env, forward (rule env)) rules →
  ProcessConfigUpdate rules env cur n = Done (Ok ((config, seq), n')) → stable cur b n n' →
  seq = sequenceOf b ∧ ∃ ce nb oc noc shdr sig,
    ProposeConfigUpdate (configtxManager b) env = Done (Ok ce) ∧
    newBundle (vi_channelID (configtxManager b)) (ce_Config ce) = Done (Ok nb) ∧
    checkResources nb = Ok tt ∧ Bundle_OrdererConfig b = Some oc ∧ Bundle_OrdererConfig nb = Some noc ∧
    config = mkEnvelope (configPayload (vi_channelID (configtxManager b)) shdr ce) sig.
Proof.
  intros Hrules Hp Hs. unfold Standard_ProcessConfigUpdateMsg in Hp.
  apply rd_bind_ok in Hp as (q & n1 & [= <- <-] & (e & n2 & He & Hp)%rd_bind_ok).
  destruct env as [env|]; [|done].
  apply rd_bind_ok in He as ([] & n3 & Hf & [= <- <-]).
  apply rd_bind_ok in Hp as (ce & n4 & Hce & (id & n5 & [= <- <-] & (cfg & n6 & Hcfg & Hp)%rd_bind_ok)%rd_bind_ok).
  apply rd_bind_ok in Hp as ([] & n7 & Hf' & ([] & n8 & Hm & [= <- <- <-])%rd_bind_ok).
  apply (forward_ApplyRules _ _ Hrules) in Hf, Hf'. apply forward_MaintenanceFilter in Hm.
  pose proof (forward_CreateSignedEnvelope _ _ _ _ _ _ _ Hcfg) as Hn6.
  pose proof (forward_ProposeConfig _ _ _ _ _ Hce) as Hn4.
  rewrite (Hs n) by lia. split; [done|].
  destruct (ProposeConfig_stable _ _ b _ _ _ Hce) as (nb & oc & noc & ? & ? & ? & ? & ? & ?).
  { eapply stable_sub; [..|done]; lia. }
  unfold CreateSignedEnvelope in Hcfg. rewrite (Hs n4) in Hcfg by lia.
  try_inv. eexists ce, nb, oc, noc, _, _. by split_and!.
Qed.

Section commit.
Context `{!Codec Metadata, !Codec OrdererBlockMetadata, !Codec LastConfig}.
Context `{!CodecOk Envelope (λ _, True), !CodecOk Payload payload_canonical}.
Context `{!CodecOk ChannelHeader (λ _, True)}.
Context (canonical : ConfigEnvelope → Prop) `{!CodecOk ConfigEnvelope canonical}.
Context (header_encoded : ∀ h : ChannelHeader, ch_Type h ≠ 0 → marshal h ≠ []).
Context (sha256 : bytes → bytes) (nonce : nat → bytes).

(** C15. A configuration update that a channel accepted takes effect when its
    block is written, unless the configuration moved on first. While sequence
    numbers never go back and identify bundles, a config transaction processed
    at sequence number [seq] and written while [seq] is still current is never
    refused by [WriteConfigBlock], which would stop the orderer: the new bundle
    is that of the transaction, one sequence number further, and the block
    becomes the last block. *)
Theorem accepted_config_commits cur n N now env config seq n' block md c c0 :
  (∀ i j, (i <= j)%nat → sequenceOf (cur i) <= sequenceOf (cur j)) →
  (∀ i j, sequenceOf (cur i) = sequenceOf (cur j) → cur i = cur j) →
  ProcessConfigUpdate (standardFilters now) env cur n = Done (Ok ((config, seq), n')) →
  (n' <= N)%nat → sequenceOf (cur N) = seq →
  blk_Data block = Some [marshal config] →
  (∀ ce, ProposeConfigUpdate (configtxManager (cur N)) env = Done (Ok ce) → canonical ce) →
  bundle c = cur N → acquire sha256 sgn nonce c = Done c0 →
  ∃ c' ce, WriteConfigBlock sha256 sgn nonce block md c = Done c' ∧
    ProposeConfigUpdate (configtxManager (cur N)) env = Done (Ok ce) ∧
    newBundle (vi_channelID (configtxManager (cur N))) (ce_Config ce) = Done (Ok (bundle c')) ∧
    sequenceOf (bundle c') = u64 (seq + 1) ∧ lastBlock (bw c') = block.
Proof.
  intros Hmono Hid Hp HN Hseq Hd Hcan Hb Hacq.
  assert (stable cur (cur N) n N) as Hst.
  { assert (seq = sequenceOf (cur n)) as Hq.
    { unfold Standard_ProcessConfigUpdateMsg in Hp.
      apply rd_bind_ok in Hp as (q & n1 & [= <- <-] & Hp). by rd_inv. }
    intros k Hk. apply Hid. pose proof (Hmono n k). pose proof (Hmono k N). lia. }
  destruct (ProcessConfigUpdate_stable _ _ _ (cur N) _ _ _ _ (forward_standardFilters now) Hp)
    as (_ & ce & nb & oc & noc & shdr & sig & Hce & Hnb & Hchk & Ho & Hn & ->).
  { eapply stable_sub; [..|done]; lia. }
  destruct (Propose_Validate _ _ _ Hce) as [_ Hv].
  assert (bundle_Validate ce (cur N) = Ok tt) as Hval.
  { change (settled (Validate (configtxManager (cur N)) (Some ce)) = Ok tt). by rewrite Hv. }
  assert (CreateBundle (vi_channelID (configtxManager (cur N))) ce = Ok nb) as Hcreate.
  { change (settled (newBundle (vi_channelID (configtxManager (cur N))) (ce_Config ce)) = Ok nb). by rewrite Hnb. }
  destruct (prepareConfig_signed canonical header_encoded block md (cur N) nb (ordererView oc) (ordererView noc)
    _ _ _ _ Hd Hval Hcreate) as [md' Hprep].
  { change (ordererView <$> Bundle_OrdererConfig (cur N) = Some (ordererView oc)). by rewrite Ho. }
  { change (ordererView <$> Bundle_OrdererConfig nb = Some (ordererView noc)). by rewrite Hn. }
  { by apply Hcan. }
  destruct (finishCommit_frame _ _ _ _ _ Hacq) as (Hb0 & _ & _ & Hfree).
  eexists _, ce. unfold WriteConfigBlock. rewrite Hb, Hprep. cbn [mbind outcome_bind]. rewrite Hacq.
  cbn [mbind outcome_bind]. unfold Update. rewrite Hchk. cbn [is_ok mbind outcome_bind].
  unfold WriteBlock, acquire. rewrite finishCommit_free by done. cbn [mbind outcome_bind].
  split_and!; [done..| |done]. simpl.
  rewrite <- Hseq. by eapply (bundle_resources_ok msp_Setup GetIdentifier msp_NewMSPManager ParseDuration).
Qed.
End commit.
End props.
