(* ===== verification/Maintenance.v ===== *)
(** * Consensus-type migration

    [migration_safe]: what can happen to the consensus type along a sequence of
    configurations that the maintenance filter accepted one after the other.
    [maintenance_entry_policies]: the filter's test that only the consensus type
    changes does not look at policies. *)

From Stdlib Require Import Ascii String.
From stdpp Require Import gmap strings list.
From S2P Require Import Prelude Protos ConfigProtos GoLib BlockCutter Support Blocks Capabilities ConfigTx ChannelConfig MsgProcessor.

Section maintenance.
Context `{!Codec Payload, !Codec ChannelHeader, !Codec ConfigUpdate, !Codec ConfigUpdateEnvelope}.
Context (isRaftMetadata : bytes → bool).

(** The configuration [noc] may follow [oc]. *)
Definition follows (oc noc : OrdererConf) : Prop :=
  ∃ ce, inspectTransition isRaftMetadata ce oc noc = Done (Ok tt).

(** What one accepted step keeps. *)
Lemma follows_spec oc noc :
  follows oc noc →
  (ConsensusState oc ≠ ConsensusState noc →
    ConsensusTypeOf oc = ConsensusTypeOf noc ∧
    (OrdererConsensusTypeMigration (ordererCapabilities oc) = true → ConsensusMetadataOf oc = ConsensusMetadataOf noc)) ∧
  (ConsensusTypeOf oc ≠ ConsensusTypeOf noc →
    OrdererConsensusTypeMigration (ordererCapabilities oc) = true ∧
    ConsensusState oc = ConsensusState noc ∧ ConsensusState oc ≠ STATE_NORMAL ∧
    ConsensusTypeOf noc ∈ permittedTargetConsensusTypes).
Proof.
  intros [ce Hi]. unfold inspectTransition in Hi.
  destruct (OrdererConsensusTypeMigration _); cbn [negb] in Hi.
  - apply try_bind_ok in Hi as ([] & Hs & Ht).
    destruct (ConsensusState oc =? ConsensusState noc) eqn:Es.
    + apply Z.eqb_eq in Es. split; [done|]. intros Hne. rewrite decide_False in Ht by done.
      repeat (split_if; [done|]). zbool. repeat split; auto.
    + apply try_bind_ok in Hs as ([] & _ & Hs). case_decide as Hty; [|done]. case_decide as Hmd; [|done].
      split; [done|]. congruence.
  - split_if; [done|]. case_decide; [|done]. done.
Qed.

(** Configurations accepted one after the other, the first one last. *)
Inductive history : OrdererConf → list OrdererConf → Prop :=
  | history_start oc : history oc [oc]
  | history_step oc noc l : history oc (noc :: l) → ∀ oc', follows noc oc' → history oc (oc' :: noc :: l).

(** C32. Along configurations that the maintenance filter accepted one after
    the other, the consensus type of a channel stays as it was at the start,
    unless one of the configurations is in maintenance mode and the new type is
    one of the permitted targets. So a channel is only ever of type [hcs] if it
    was from the start. *)
Theorem migration_safe oc noc l :
  history oc (noc :: l) →
  (ConsensusTypeOf noc = ConsensusTypeOf oc ∨
   (Exists (λ c, ConsensusState c ≠ STATE_NORMAL) (noc :: l) ∧
    ConsensusTypeOf noc ∈ permittedTargetConsensusTypes)) ∧
  (ConsensusTypeOf noc = "hcs" → Forall (λ c, ConsensusTypeOf c = "hcs") (noc :: l)).
Proof.
  intros Hh. remember (noc :: l) as l0 eqn:E. revert noc l E.
  induction Hh as [oc|oc c l0 Hh IH c' Hf]; intros noc l [= <- <-].
  { split; [by left|]. intros Ht. by constructor. }
  destruct (IH c l0 eq_refl) as [Htype Hhcs]. destruct (follows_spec _ _ Hf) as [_ Hchange].
  destruct (decide (ConsensusTypeOf c = ConsensusTypeOf c')) as [Heq|Hne].
  - split.
    + destruct Htype as [Ht|[Hex Hin]]; [left; congruence|right]. rewrite <- Heq. split; [by right|done].
    + intros Ht. constructor; [done|]. apply Hhcs. congruence.
  - destruct (Hchange Hne) as (_ & Hst & Hn & Hin). split.
    + right. split; [|done]. left. congruence.
    + intros Ht. rewrite Ht in Hin. exfalso. revert Hin. unfold permittedTargetConsensusTypes. set_solver.
Qed.

(** The write set touches no value but the consensus type, and no group but the
    orderer group, with nothing below it. *)
Definition onlyConsensusType (ws : ConfigGroup) : Prop :=
  Values ws = ∅ ∧ (∀ k, is_Some (Groups ws !! k) → k = OrdererGroupKey) ∧
  ∃ og, Groups ws !! OrdererGroupKey = Some og ∧ Groups og = ∅ ∧
    is_Some (Values og !! ConsensusTypeKey) ∧ ∀ k, is_Some (Values og !! k) → k = ConsensusTypeKey.

(** A map of at most one entry. *)
Lemma size_one {A} (m : gmap string A) k j :
  ¬ (1 < size m)%nat → is_Some (m !! k) → is_Some (m !! j) → j = k.
Proof.
  intros Hs [x Hk] [y Hj]. destruct (decide (j = k)) as [|Hne]; [done|]. destruct Hs.
  rewrite <- (insert_delete_id m k x Hk), map_size_insert_None by apply lookup_delete_eq.
  rewrite <- (insert_delete_id (delete k m) j y), map_size_insert_None by (apply lookup_delete_eq || by rewrite lookup_delete_ne).
  lia.
Qed.

(** The test that entering or leaving maintenance mode changes nothing
    else looks only at groups and values: it passes exactly when the write set
    contains the orderer group alone, with the consensus type as its only value
    and no sub-groups, whatever policies the write set changes at the channel
    and orderer level. *)
Theorem maintenance_entry_policies tx cue cu ws :
  EnvelopeToConfigUpdate tx = Done (Ok cue) → UnmarshalConfigUpdate (cue_ConfigUpdate cue) = Ok cu →
  WriteSet cu = Some ws →
  (ensureConsensusTypeChangeOnly tx = Done (Ok tt) ↔ onlyConsensusType ws).
Proof.
  intros Hc Hu Hw. unfold ensureConsensusTypeChangeOnly. rewrite Hc. simpl. rewrite Hu. simpl. rewrite Hw.
  unfold onlyConsensusType. split.
  - case_decide as H0; [done|]. case_decide as H1; [done|]. case_decide as H2; [done|].
    destruct (Groups ws !! OrdererGroupKey) as [og|] eqn:Hog; [|done].
    case_decide as H3; [done|]. destruct (Values og !! ConsensusTypeKey) as [v|] eqn:Hv; [|done].
    case_decide as H4; [done|]. intros _. split; [apply map_size_empty_inv; lia|]. split.
    + intros k Hk. apply (size_one (Groups ws) OrdererGroupKey k H2); [by eexists|done].
    + exists og. split; [done|]. split; [apply map_size_empty_inv; lia|]. rewrite Hv. split; [by eexists|].
      intros k Hk. apply (size_one (Values og) ConsensusTypeKey k H4); [by eexists|done].
  - intros (Hv & Hg & og & Hog & Hsub & [v Hct] & Hvs).
    assert (Groups ws = {[ OrdererGroupKey := og ]}) as ->.
    { apply map_eq. intros k. destruct (decide (k = OrdererGroupKey)) as [->|Hk].
      - by rewrite lookup_singleton_eq.
      - rewrite lookup_singleton_ne by done. apply eq_None_not_Some. naive_solver. }
    assert (Values og = {[ ConsensusTypeKey := v ]}) as Hvo.
    { apply map_eq. intros k. destruct (decide (k = ConsensusTypeKey)) as [->|Hk].
      - by rewrite lookup_singleton_eq.
      - rewrite lookup_singleton_ne by done. apply eq_None_not_Some. naive_solver. }
    rewrite Hv, map_size_singleton, map_size_empty, lookup_singleton_eq, Hsub, map_size_empty, Hvo,
      lookup_singleton_eq, map_size_singleton.
    by repeat (rewrite decide_False by lia).
Qed.
End maintenance.
