(* ===== verification/ChannelCreation.v ===== *)
(** * Creation of channels

    [channel_creation_authorized]: the system channel accepts a request for a new
    channel only when its signers satisfy the creation policy of the consortium
    it names, and its members are members of that consortium. *)

From Stdlib Require Import Ascii String.
From stdpp Require Import gmap strings list.
From S2P Require Import Prelude Protos ConfigProtos GoLib BlockCutter Support Blocks BlockWriter Capabilities Cauthdsl PolicyManager PolicyProps ConfigTx ConfigTree ConfigTxProps ConfigTxAuth ChannelConfig MsgProcessor.

Lemma creationPolicyKey_cases oc app :
  creationPolicyKey oc app = AdminsPolicyKey ∨ creationPolicyKey oc app = ChannelCreationPolicyKey.
Proof. unfold creationPolicyKey. repeat case_match; auto. Qed.

Lemma zeroVersions_eq cg :
  zeroVersions cg = mkConfigGroup 0 (zeroVersions <$> Groups cg)
    ((λ v, mkConfigValue 0 (cv_Value v) (cv_ModPolicy v)) <$> Values cg)
    ((λ p, mkConfigPolicy 0 (cp_Policy p) (cp_ModPolicy p)) <$> Policies cg) (cg_ModPolicy cg).
Proof. by destruct cg. Qed.

(** The requested members are those of the consortium, unless it has none. *)
Lemma templateMembers_ok members requested groups :
  templateMembers members requested = Done (Ok groups) →
  (members = ∅ ∧ groups = ∅) ∨
  (requested ≠ ∅ ∧ ∀ org, groups !! org = (_ ← requested !! org; members !! org) ∧
    (is_Some (requested !! org) → is_Some (members !! org))).
Proof.
  unfold templateMembers. case_decide as Hm; [intros [= <-]; left; split; [by apply map_size_empty_inv|done]|].
  case_decide as Hr; [done|]. intros Hg. right. split; [by intros ->|]. revert Hg.
  apply (range_ind _ _ _ (λ req groups, ∀ org, groups !! org = (_ ← req !! org; members !! org) ∧
    (is_Some (req !! org) → is_Some (members !! org)))).
  - intros org. rewrite !lookup_empty. split; [done|]. by intros [].
  - intros k v m' b b' Hk _ IH Hb org. destruct (members !! k) as [cg|] eqn:Hc; [|done]. injection Hb as <-.
    destruct (decide (org = k)) as [->|Hne].
    + rewrite !lookup_insert_eq. simpl. rewrite Hc. eauto.
    + rewrite !lookup_insert_ne by done. apply IH.
Qed.

(** The application group of a template: governed by one policy, with these members. *)
Definition applicationGroup (key : string) (policy : PolicyMessage) (members : gmap string ConfigGroup) : ConfigGroup :=
  mkConfigGroup 0 members ∅ {[ key := mkConfigPolicy 0 (Some policy) key ]} key.

Definition governed (key : string) (policy : PolicyMessage) (members : gmap string ConfigGroup)
    (g : ConfigGroup) : Prop :=
  cg_Version g = 0 ∧ cg_ModPolicy g = key ∧
  Policies g !! key = Some (mkConfigPolicy 0 (Some policy) key) ∧
  (Groups g = members ∨ Groups g = zeroVersions <$> members).

(** The requested organisations, as the consortium defines them. *)
Definition requestedMembers (requested consortium members : gmap string ConfigGroup) : Prop :=
  ∀ org, members !! org = (_ ← requested !! org; consortium !! org).

Section creation.
Context `{!ValueCodecs} `{!Codec SignaturePolicyEnvelope, !Codec ImplicitMetaDefinition}.
Context {MSP : Type} (msp_Setup : Z → MSPConfig → res MSP) (GetIdentifier : MSP → string).
Context (msp_NewMSPManager : list MSP → res IdentityDeserializer).
Context (ParseDuration : string → option duration).
Context `{!Codec Envelope, !Codec Payload, !Codec ChannelHeader, !Codec SignatureHeader}.
Context `{!Codec ConfigUpdate, !Codec ConfigUpdateEnvelope, !Codec ConfigEnvelope}.

Abbreviation newBundle := (NewBundle msp_Setup GetIdentifier msp_NewMSPManager ParseDuration).
Abbreviation newTemplate := (NewChannelTemplate msp_Setup GetIdentifier msp_NewMSPManager ParseDuration).

(** The managers of a group do not depend on the versions in it. *)
Lemma NewManagerImpl_zero providers path g :
  NewManagerImpl providers path (zeroVersions g) = NewManagerImpl providers path g.
Proof.
  revert path. induction g as [g IH] using ConfigGroup_tree_ind. intros path. rewrite zeroVersions_eq.
  destruct g as [v gs vs ps mp]. cbn -[range]. destruct (providers !! _); [done|].
  rewrite range_fmap, (range_ext _ (λ k g managers,
    m ←? NewManagerImpl providers (path +:+ PathSeparator +:+ k) g; ok (<[k := m]> managers)) gs).
  - destruct (range _ gs ∅) as [[ms|]|]; [|done..]. cbn -[range]. by rewrite range_fmap.
  - intros k h b Hk. by rewrite (IH k h Hk).
Qed.

Lemma templateGroup_application oc system orderer key policy members name :
  ∃ g, Groups (templateGroup oc system orderer (applicationGroup key policy members) name)
    !! ApplicationGroupKey = Some g ∧ governed key policy members g.
Proof.
  set (app := applicationGroup key policy members).
  assert (governed key policy members app) as Happ.
  { split_and!; [done|done|apply lookup_singleton_eq|by left]. }
  assert (governed key policy members (zeroVersions app)) as Hzero.
  { rewrite zeroVersions_eq. split_and!; simpl; [done|done|by rewrite lookup_fmap, lookup_singleton_eq|by right]. }
  unfold templateGroup. destruct oc as [oc|]; [destruct (PredictableChannelTemplate _)|].
  - rewrite zeroVersions_eq. simpl. rewrite lookup_fmap, lookup_insert_eq. simpl. eauto.
  - simpl. rewrite lookup_insert_eq. eauto.
  - simpl. rewrite lookup_insert_eq. eauto.
Qed.

(** The signers of [sds] satisfy a creation policy over the organisations
    [orgs]: the policy is built on one manager per organisation, made of its
    definition, and accepts; an implicit meta policy accepts because enough
    organisations' sub-policies do. *)
Definition satisfied (deserializer : IdentityDeserializer) (orgs : gmap string ConfigGroup)
    (key : string) (policy : PolicyMessage) (sds : list SignedData) : Prop :=
  ∃ managers pol,
    (∀ org, option_Forall2 (λ g m, NewManagerImpl (policyProviderMap deserializer)
        (String.concat PathSeparator [RootGroupKey; ApplicationGroupKey; org]) g = Done (Ok m))
      (orgs !! org) (managers !! org)) ∧
    newPolicy (policyProviderMap deserializer) managers (mkConfigPolicy 0 (Some policy) key) = Done (Ok pol) ∧
    EvaluateSignedData pol sds = Done None ∧
    (pol_Type policy = Policy_IMPLICIT_META → ∃ definition subs,
      unmarshal (pol_Value policy) = Some definition ∧
      Forall2 (λ m sub, ∃ found, GetPolicy (SubPolicy definition) m = Done (sub, found))
        (map_to_list managers).*2 subs ∧
      thresholdOf (Rule definition) (Z.of_nat (size orgs)) <= accepted (λ sub, EvaluateSignedData sub sds) subs).

(** What a template was made of: the consortium of the first read, the members
    of the third. *)
Lemma newTemplate_inv env (cur : nat → Bundle) n template n' :
  newTemplate env cur n = Done (Ok (template, n')) →
  ∃ id ws app name consortiums consortium system g orderer members key,
    creationRequest env = Ok (id, ws, app, name) ∧
    Bundle_ConsortiumsConfig (cur n) = Some consortiums ∧ consortiums !! name = Some consortium ∧
    ChannelGroup (vi_configProto (configtxManager (cur (S (S n))))) = Some system ∧
    Groups system !! ConsortiumsGroupKey ≫= (λ g, Groups g !! name) = Some g ∧
    Groups system !! OrdererGroupKey = Some orderer ∧
    templateMembers (Groups g) (Groups app) = Done (Ok members) ∧
    key = creationPolicyKey (Bundle_OrdererConfig (cur (S n))) app ∧
    newBundle id (Some (mkConfig 0 (Some (templateGroup (Bundle_OrdererConfig (cur (S (S (S n))))) system orderer
      (applicationGroup key (csc_ChannelCreationPolicy consortium) members) name)))) = Done (Ok template).
Proof.
  unfold NewChannelTemplate. intros Ht.
  apply rd_bind_ok in Ht as ([[[id ws] app] name] & n1 & [[= Hreq] ->]%lift_ok & Ht).
  apply rd_bind_ok in Ht as (b & n1 & [= <- <-] & Ht).
  destruct (Bundle_ConsortiumsConfig (cur n)) as [consortiums|] eqn:Hcs; [|done].
  destruct (consortiums !! name) as [consortium|] eqn:Hc; [|done].
  apply rd_bind_ok in Ht as (b & n1 & [= <- <-] & (b2 & n1 & [= <- <-] & Ht)%rd_bind_ok).
  destruct (ChannelGroup _) as [system|] eqn:Hs; [|done].
  destruct (Groups system !! ConsortiumsGroupKey ≫= _) as [g|] eqn:Hg; [|done].
  apply rd_bind_ok in Ht as (members & n1 & [Hm ->]%lift_ok & (b3 & n1 & [= <- <-] & Ht)%rd_bind_ok).
  destruct (Groups system !! OrdererGroupKey) as [orderer|] eqn:Ho; [|done].
  apply lift_ok in Ht as [Ht ->].
  by eexists id, ws, app, name, consortiums, consortium, system, g, orderer, members, _.
Qed.

Lemma templateMembers_requested members requested groups :
  templateMembers members requested = Done (Ok groups) → requestedMembers requested members groups.
Proof.
  intros [[-> ->]|[_ Hmem]]%templateMembers_ok org; [|by apply Hmem].
  rewrite !lookup_empty. by destruct (requested !! org).
Qed.

Lemma satisfied_intro deserializer orgs managers key policy pol sds :
  (∀ org, option_Forall2 (λ g m, NewManagerImpl (policyProviderMap deserializer)
      (String.concat PathSeparator [RootGroupKey; ApplicationGroupKey; org]) g = Done (Ok m))
    (orgs !! org) (managers !! org)) →
  newPolicy (policyProviderMap deserializer) managers (mkConfigPolicy 0 (Some policy) key) = Done (Ok pol) →
  EvaluateSignedData pol sds = Done None →
  satisfied deserializer orgs key policy sds.
Proof.
  intros Hm Hp He. exists managers, pol. split_and!; [done..|]. intros Ht.
  assert (size orgs = size managers) as ->.
  { rewrite <- !size_dom. f_equal. apply set_eq. intros org. rewrite !elem_of_dom. specialize (Hm org).
    by destruct (orgs !! org), (managers !! org); inversion Hm. }
  unfold newPolicy in Hp. simpl in Hp. rewrite Ht in Hp. simpl in Hp.
  apply try_bind_ok in Hp as (imp & Himp & [= <-]).
  destruct (NewImplicitMetaPolicy_inv _ _ _ Himp) as (definition & Hd & Hsubs & Hth).
  exists definition, (SubPolicies imp). split_and!; [done|done|]. rewrite <- Hth. by apply implicitEvaluate_accepted.
Qed.

(** The mod policy of the application group is the one policy in it. *)
Lemma governed_authorized deserializer tg vi sds key policy members app :
  NewManagerImpl (policyProviderMap deserializer) RootGroupKey tg = Done (Ok (vi_pm vi)) →
  Groups tg !! ApplicationGroupKey = Some app → governed key policy members app →
  key = AdminsPolicyKey ∨ key = ChannelCreationPolicyKey →
  authorized vi sds (located (ElGroup app) [RootGroupKey; ApplicationGroupKey]) →
  satisfied deserializer members key policy sds.
Proof.
  intros Hpm Happ (_ & Hmod & Hpol & Hmem) Hkey (p & Hp & Hev).
  apply NewManagerImpl_inv in Hpm as (_ & Hsub & _). specialize (Hsub ApplicationGroupKey).
  destruct (pm_managers (vi_pm vi) !! ApplicationGroupKey) as [sub|] eqn:Esub;
    rewrite Happ in Hsub; inversion Hsub as [? ? Hnew|]; subst x y.
  apply NewManagerImpl_inv in Hnew as (_ & Horgs & own & Hown & Hpols). specialize (Hpols key).
  destruct (own !! key) as [pol|] eqn:Epol; rewrite Hpol in Hpols; inversion Hpols as [? ? Hnewpol|]; subst x y.
  assert (lacks "/" key ∧ key ≠ "" ∧ HasPrefix key PathSeparator = false ∧ slen key =? 0 = false)
    as (Hl & Hne & Hpre & Hlen).
  { destruct Hkey as [-> | ->]; split_and!; vm_compute; naive_solver. }
  unfold policyForItem in Hp. simpl in Hp.
  change (modPolicy (located (ElGroup app) [RootGroupKey; ApplicationGroupKey])) with (cg_ModPolicy app) in Hp.
  rewrite Hmod, Hlen, Hpre in Hp. simpl in Hp. rewrite Esub in Hp. simpl in Hp.
  rewrite GetPolicy_relative, Hown, qualified_plain, Epol in Hp by done.
  simpl in Hp. injection Hp as <-. apply (satisfied_intro _ _ (pm_managers sub) _ _ pol); [|done..].
  intros org. specialize (Horgs org). destruct Hmem as [Hmem|Hmem]; rewrite Hmem in Horgs; [done|].
  rewrite lookup_fmap in Horgs. destruct (members !! org) as [og|]; inversion Horgs as [? ? Hm|]; constructor.
  rewrite NewManagerImpl_zero in Hm. done.
Qed.

Lemma creationRequest_inv env id ws app name :
  creationRequest env = Ok (id, ws, app, name) →
  ∃ payload cue cu, unmarshal (env_Payload env) = Some payload ∧
    unmarshal (A:=ConfigUpdateEnvelope) (pl_Data payload) = Some cue ∧
    UnmarshalConfigUpdate (cue_ConfigUpdate cue) = Ok cu ∧ WriteSet cu = Some ws ∧
    Groups ws !! ApplicationGroupKey = Some app ∧ cg_Version app = 1.
Proof.
  unfold creationRequest. intros Hr. run_inv.
  case_decide; [|done]. run_inv. split_if; [done|]. zbool. run_inv. eauto 10.
Qed.

Lemma creationRequest_id env id ws app name id' :
  creationRequest env = Ok (id, ws, app, name) → ChannelIDOf env = Ok id' → id = id'.
Proof.
  unfold creationRequest, ChannelIDOf, ChannelHeaderOf. intros Hr Hi.
  apply bind_Ok in Hr as (p & Hp%or_err_Ok & Hr). apply bind_Ok in Hr as (cue & _ & Hr).
  apply bind_Ok in Hr as (hdr & Hh%or_err_Ok & (ch & Hch%or_err_Ok & (cu & _ & Hr)%bind_Ok)%bind_Ok).
  apply bind_Ok in Hi as (ch' & Hc & [= <-]). unfold wrap in Hc. unfold UnmarshalPayload in Hc.
  rewrite Hp in Hc. simpl in Hc. rewrite Hh in Hc. simpl in Hc.
  destruct (h_ChannelHeader hdr) as [raw|]; [|done]. simpl in *. unfold UnmarshalChannelHeader in Hc.
  rewrite Hch in Hc. simpl in Hc. injection Hc as <-. case_decide; [|done]. run_inv. split_if; [done|]. by run_inv.
Qed.

Lemma EnvelopeToConfigUpdate_payload env payload cue cue' :
  EnvelopeToConfigUpdate (Some env) = Done (Ok cue') → unmarshal (env_Payload env) = Some payload →
  unmarshal (pl_Data payload) = Some cue → cue' = cue.
Proof.
  unfold EnvelopeToConfigUpdate, UnmarshalEnvelopeOfType, UnmarshalPayload. intros [= He] Hp Hc.
  run_inv. case_bool_decide; [done|]. run_inv. congruence.
Qed.

(** The application group in the map of a configuration. *)
Lemma application_address g m app :
  mapConfig (Some g) RootGroupKey = Done (Ok m) → Groups g !! ApplicationGroupKey = Some app →
  m !! addressKey KGroup [RootGroupKey; ApplicationGroupKey] =
    Some (located (ElGroup app) [RootGroupKey; ApplicationGroupKey]).
Proof.
  intros (_ & _ & Hl & _)%mapConfig_spec Happ.
  rewrite Hl by (repeat constructor; vm_compute; naive_solver). simpl. by rewrite Happ.
Qed.

(** Whoever proposes a configuration on a template satisfies the creation policy. *)
Lemma template_authorized env template tg id ce ws app name key policy members appGroup :
  newBundle id (Some (mkConfig 0 (Some tg))) = Done (Ok template) →
  creationRequest env = Ok (id, ws, app, name) →
  Groups tg !! ApplicationGroupKey = Some appGroup → governed key policy members appGroup →
  key = AdminsPolicyKey ∨ key = ChannelCreationPolicyKey →
  ProposeConfigUpdate (configtxManager template) (Some env) = Done (Ok ce) →
  ∃ cue sds, EnvelopeToConfigUpdate (Some env) = Done (Ok cue) ∧
    ConfigUpdateEnvelopeAsSignedData cue = Ok sds ∧
    satisfied (mspManager (channelConfig template)) members key policy sds.
Proof.
  intros Hb Hreq Happ Hgov Hkey Hp.
  apply NewBundle_inv in Hb as (cfg & cg & [= <-] & [= <-] & _ & _ & Hpm & Hvi).
  apply NewValidatorImpl_inv in Hvi as (_ & _ & Hns & Hvipm & _ & _ & Hmap). simpl in Hmap.
  destruct (creationRequest_inv _ _ _ _ _ Hreq) as (payload & cue & cu & Hpl & Hcue & Hcu & Hws & Hwapp & Hver).
  unfold ProposeConfigUpdate in Hp.
  apply try_bind_ok in Hp as (cue' & Hcue' & (m & Ha & _)%try_bind_ok).
  assert (cue' = cue) as -> by by eapply EnvelopeToConfigUpdate_payload.
  destruct (authorizeUpdate_ok _ _ _ Ha) as (cu' & _ & wsm & _ & Hcu' & _ & Hwsm & _).
  rewrite Hcu in Hcu'. injection Hcu' as <-. pose proof Hwsm as Hwmap. rewrite Hws, Hns in Hwmap.
  pose proof (application_address _ _ _ Hwmap Hwapp) as H1.
  pose proof (application_address _ _ _ Hmap Happ) as H2.
  destruct (authorizeUpdate_changed _ _ _ _ _ _ _ _ Ha Hcu Hwsm H1 H2) as (sds & Hsds & Hauth).
  { unfold version. simpl. destruct Hgov as (-> & _). by rewrite Hver. }
  rewrite <- Hvipm in Hpm. exists cue, sds. split_and!; [done..|].
  by eapply governed_authorized.
Qed.

Context (sgn : SignerSerializer) (rand : nat → bytes).
Context (ValidateConsensusMetadata : bytes → bytes → bool → res unit) (isRaftMetadata : bytes → bool).

(** C19. The system channel turns a request for a new channel into a
    transaction only if the request's signers satisfy the [ChannelCreationPolicy]
    of the consortium the request names. The policy is the one the system channel
    defines. It is evaluated over the requested organisations as the consortium
    defines them, with the identities of the new channel's template, which is
    made of the system channel's configuration and those organisations. When it
    is an implicit meta policy, as many of these organisations as its rule asks
    for accept the signers ([satisfied]); it asks for none of no organisations.
    Unless the consortium has no members
    the new channel has members, all of them members of the consortium. *)
Theorem channel_creation_authorized rules env id cur n tx seq n' :
  System_ProcessConfigUpdateMsg msp_Setup GetIdentifier msp_NewMSPManager ParseDuration sgn rand
    ValidateConsensusMetadata isRaftMetadata rules (Some env) cur n = Done (Ok ((tx, seq), n')) →
  ChannelIDOf env = Ok id → id ≠ vi_channelID (configtxManager (cur n)) →
  ∃ ws app name consortiums consortium system g orderer members key template cue sds,
    creationRequest env = Ok (id, ws, app, name) ∧
    Bundle_ConsortiumsConfig (cur (S n)) = Some consortiums ∧ consortiums !! name = Some consortium ∧
    ChannelGroup (vi_configProto (configtxManager (cur (S (S (S n)))))) = Some system ∧
    Groups system !! ConsortiumsGroupKey ≫= (λ g, Groups g !! name) = Some g ∧
    Groups system !! OrdererGroupKey = Some orderer ∧
    requestedMembers (Groups app) (Groups g) members ∧
    (Groups g = ∅ ∨ (Groups app ≠ ∅ ∧ ∀ org, is_Some (Groups app !! org) → is_Some (Groups g !! org))) ∧
    key = creationPolicyKey (Bundle_OrdererConfig (cur (S (S n)))) app ∧
    newBundle id (Some (mkConfig 0 (Some (templateGroup (Bundle_OrdererConfig (cur (S (S (S (S n)))))) system orderer
      (applicationGroup key (csc_ChannelCreationPolicy consortium) members) name)))) = Done (Ok template) ∧
    EnvelopeToConfigUpdate (Some env) = Done (Ok cue) ∧ ConfigUpdateEnvelopeAsSignedData cue = Ok sds ∧
    satisfied (mspManager (channelConfig template)) members key (csc_ChannelCreationPolicy consortium) sds.
Proof.
  intros Hs Hid Hne. unfold System_ProcessConfigUpdateMsg in Hs.
  apply rd_bind_ok in Hs as (id' & n1 & [[= Hid'] ->]%lift_ok & (own & n1 & Hown & Hs)%rd_bind_ok).
  rewrite Hid in Hid'. injection Hid' as <-. injection Hown as <- <-.
  rewrite decide_False in Hs by done.
  apply rd_bind_ok in Hs as (template & n1 & Ht & (ce & n2 & [Hp ->]%lift_ok & _)%rd_bind_ok).
  destruct (newTemplate_inv _ _ _ _ _ Ht) as (id' & ws & app & name & consortiums & consortium & system & g &
    orderer & members & key & Hreq & Hcs & Hc & Hsys & Hg & Ho & Hm & Hkey & Hb).
  assert (id' = id) as -> by by eapply creationRequest_id.
  destruct (templateGroup_application (Bundle_OrdererConfig (cur (S (S (S (S n)))))) system orderer key
    (csc_ChannelCreationPolicy consortium) members name) as (appGroup & Happ & Hgov).
  assert (Hk : key = AdminsPolicyKey ∨ key = ChannelCreationPolicyKey) by (rewrite Hkey; apply creationPolicyKey_cases).
  destruct (template_authorized _ _ _ _ _ _ _ _ _ _ _ _ Hb Hreq Happ Hgov Hk Hp) as (cue & sds & Hcue & Hsds & Hsat).
  exists ws, app, name, consortiums, consortium, system, g, orderer, members, key, template, cue, sds.
  split_and!; try done; [by apply templateMembers_requested|].
  destruct (templateMembers_ok _ _ _ Hm) as [[? _]|[Hr Hmem]]; [by left|right].
  split; [done|]. intros org Hi. by apply Hmem.
Qed.
End creation.
