(* ===== verification/ChannelDemo.v ===== *)
(** * A channel, evaluated

    A channel with an orderer organisation and two application organisations: its
    bundle, an update of its application group signed by both organisations, and
    the theorems on bundles and message processing applied to them. *)

From Stdlib Require Import Ascii String Strings.Byte.
From stdpp Require Import gmap strings list.
From S2P Require Import Prelude Protos ConfigProtos Codecs GoLib BlockCutter Support Blocks BlockWriter BlockWriterDemo Capabilities Cauthdsl PolicyManager PolicyDemo ConfigTx ConfigTree ConfigTxProps ConfigTxAuth ConfigTxDemo ChannelConfig ChannelConfigProps MsgProcessor MsgProcessorProps Maintenance ChannelCreation.

(** ** Encodings and membership services *)

#[export] Instance chan_SignaturePolicyEnvelope : Codec SignaturePolicyEnvelope := {|
  marshal _ := [];
  unmarshal data := Some (demo_org_envelope (String.string_of_list_byte data))
|}.

#[export] Instance chan_SerializedIdentity : Codec SerializedIdentity := {|
  marshal _ := [];
  unmarshal _ := None
|}.

(** A majority of the administrators. *)
Definition chan_majority : PolicyMessage :=
  mkPolicyMessage Policy_IMPLICIT_META (marshal (mkImplicitMetaDefinition "Admins" ImplicitMetaPolicy_MAJORITY)).

#[export] Instance chan_values : ValueCodecs := {|
  dec_ConsensusType _ := Some (mkConsensusTypeMessage "hcs" [] STATE_NORMAL);
  dec_BatchSize _ := Some (mkBatchSize 3 100000 50000);
  dec_BatchTimeout _ := Some "2s";
  dec_KafkaBrokers _ := Some [];
  dec_ChannelRestrictions _ := Some 0;
  dec_Capabilities _ := Some {[ "V2_0" ]};
  dec_HashingAlgorithm _ := Some "SHA256";
  dec_BlockDataHashingStructure _ := Some (2 ^ 32 - 1);
  dec_OrdererAddresses _ := Some [];
  dec_Consortium data := Some (String.string_of_list_byte data);
  dec_MSPConfig data := Some (mkMSPConfig msp_FABRIC data);
  dec_AnchorPeers _ := Some [];
  dec_ACLs _ := Some ∅;
  dec_Policy data := Some (if decide (data = String.list_byte_of_string "majority") then chan_majority
    else mkPolicyMessage Policy_SIGNATURE data);
  enc_Consortium := String.list_byte_of_string
|}.

(** An MSP is its identifier. *)
Definition chan_Setup (version : Z) (c : MSPConfig) : res string :=
  Ok (String.string_of_list_byte (mc_Config c)).
Definition chan_Manager (msps : list string) : res IdentityDeserializer := Ok demo_deserializer.
Definition chan_ParseDuration (s : string) : option duration :=
  if decide (s = "2s") then Some (2 * 10 ^ 9) else None.

Abbreviation chan_NewBundle := (NewBundle chan_Setup id chan_Manager chan_ParseDuration).

(** ** The configuration *)

Definition chan_value (v : string) : ConfigValue := mkConfigValue 0 (String.list_byte_of_string v) "Admins".

Definition chan_org (msp : string) : ConfigGroup :=
  mkConfigGroup 0 ∅ {[ "MSP" := chan_value msp ]}
    {[ "Admins" := demo_org_policy msp; "Writers" := demo_org_policy msp ]} "Admins".

Definition chan_policies (rule : Z) : gmap string ConfigPolicy :=
  {[ "Admins" := demo_meta_policy rule "Admins";
     "Writers" := demo_meta_policy ImplicitMetaPolicy_ANY "Writers" ]}.

Definition chan_orderer : ConfigGroup :=
  mkConfigGroup 0 {[ "OrdererOrg" := chan_org "A" ]}
    {[ "ConsensusType" := chan_value ""; "BatchSize" := chan_value ""; "BatchTimeout" := chan_value "";
       "Capabilities" := chan_value "" ]} (chan_policies ImplicitMetaPolicy_ANY) "Admins".

Definition chan_orgs : gmap string ConfigGroup := {[ "Org1" := chan_org "A"; "Org2" := chan_org "B" ]}.

Definition chan_application (version : Z) (policies : gmap string ConfigPolicy) : ConfigGroup :=
  mkConfigGroup version chan_orgs ∅ policies "Admins".

Definition chan_root (app : ConfigGroup) : ConfigGroup :=
  mkConfigGroup 0 {[ "Orderer" := chan_orderer; "Application" := app ]}
    {[ "HashingAlgorithm" := chan_value ""; "BlockDataHashingStructure" := chan_value "";
       "Capabilities" := chan_value "" ]} (chan_policies ImplicitMetaPolicy_ANY) "Admins".

Definition chan_app0 : ConfigGroup := chan_application 0 (chan_policies ImplicitMetaPolicy_MAJORITY).

Definition chan_config : Config := mkConfig 4 (Some (chan_root chan_app0)).

Definition chan_bundle_or : fallible Bundle := chan_NewBundle "ch" (Some chan_config).

Lemma chan_bundle_builds : built chan_bundle_or = true.
Proof. reflexivity. Qed.

Definition chan_none : Bundle :=
  mkBundle (mkManagerImpl "" ∅ ∅)
    (mkChannelConfig (mkChannelProtos "" 0 [] "" ∅) ComputeSHA256 demo_deserializer
      (mkChannelSections None None None)) demo_vi.

Definition bundleOf (r : fallible Bundle) : Bundle := match r with Done (Ok b) => b | _ => chan_none end.

Lemma ok_inj {A} (a b : A) : @eq (fallible A) (Done (Ok a)) (Done (Ok b)) → a = b.
Proof. by intros [= ->]. Qed.

Definition chan_bundle : Bundle := bundleOf chan_bundle_or.

Lemma built_eq (r : fallible Bundle) : built r = true → r = Done (Ok (bundleOf r)).
Proof. by destruct r as [[b|]|]. Qed.

Lemma chan_built : chan_NewBundle "ch" (Some chan_config) = Done (Ok chan_bundle).
Proof. apply built_eq, chan_bundle_builds. Qed.

(** ** An update of the application group *)

Definition chan_app1 : ConfigGroup :=
  chan_application 1 (<["Endorsement" := demo_meta_policy ImplicitMetaPolicy_MAJORITY "Admins"]>
    (chan_policies ImplicitMetaPolicy_MAJORITY)).

Definition chan_update : ConfigUpdate :=
  mkConfigUpdate "ch"
    (Some (mkConfigGroup 0 {[ "Application" := chan_app0 ]} ∅ ∅ ""))
    (Some (mkConfigGroup 0 {[ "Application" := chan_app1 ]} ∅ ∅ "")).

(** The updates and their encodings. *)
#[export] Instance chan_ConfigUpdate : Codec ConfigUpdate := {|
  marshal _ := [x0c];
  unmarshal data := if decide (data = [x0c]) then Some chan_update else None
|}.

(** The update signed by both organisations, sent by a member of the first. *)
Definition chan_tx : Envelope :=
  let cue := mkConfigUpdateEnvelope (marshal chan_update) (demo_config_signature <$> ["A"; "B"]) in
  let header := mkHeader (Some (marshal (mkChannelHeader HeaderType_CONFIG_UPDATE "ch" "")))
                  (marshal (mkSignatureHeader (String.list_byte_of_string "A") [])) in
  mkEnvelope (marshal (mkPayload (Some header) (marshal cue))) [].

Definition chan_result_or : fallible ConfigEnvelope :=
  ProposeConfigUpdate (configtxManager chan_bundle) (Some chan_tx).

Lemma chan_result_builds : built chan_result_or = true.
Proof. reflexivity. Qed.

Definition chan_result : ConfigEnvelope :=
  match chan_result_or with Done (Ok ce) => ce | _ => mkConfigEnvelope None None end.

Lemma chan_proposed :
  ProposeConfigUpdate (configtxManager chan_bundle) (Some chan_tx) = Done (Ok chan_result).
Proof.
  assert (Hb := chan_result_builds). unfold chan_result, chan_result_or in *.
  by destruct (ProposeConfigUpdate _ _) as [[ce|]|].
Qed.

#[export] Instance chan_ConfigEnvelope : Codec ConfigEnvelope := {|
  marshal _ := [x0d];
  unmarshal data := if decide (data = [x0d]) then Some chan_result else None
|}.

#[export] Instance chan_ConfigEnvelope_ok : CodecOk ConfigEnvelope (λ ce, ce = chan_result).
Proof. by intros ce ->. Qed.

(** The signer of the orderer is a member of the first organisation. *)
Definition chan_signer : SignerSerializer :=
  mkSignerSerializer (Some (String.list_byte_of_string "A")) (λ _, Some [x01]).

Abbreviation chan_filters := (CreateStandardChannelFilters (λ _, None) (λ _, None) false).

Definition chan_processed : fallible (Envelope * Z * nat) :=
  Standard_ProcessConfigUpdateMsg chan_Setup id chan_Manager chan_ParseDuration chan_signer (λ _, [])
    (λ _ _ _, Ok tt) (λ _, true) (chan_filters 0) (Some chan_tx) (λ _, chan_bundle) 0%nat.

Lemma chan_processed_builds : built chan_processed = true.
Proof. reflexivity. Qed.

(** ** Committing the update *)

#[export] Instance chan_Envelope_ok : CodecOk Envelope (λ _, True) := ser_codec_ok Envelope _.
#[export] Instance chan_Payload_ok : CodecOk Payload payload_canonical := ser_codec_ok Payload _.
#[export] Instance chan_ChannelHeader_ok : CodecOk ChannelHeader (λ _, True) := ser_codec_ok ChannelHeader _.

Lemma chan_header_encoded (h : ChannelHeader) : ch_Type h ≠ 0 → marshal h ≠ [].
Proof.
  intros _ E. assert (Hr := unmarshal_marshal h I). rewrite E in Hr. discriminate Hr.
Qed.

Definition chan_genesis : Block := mkBlock (mkBlockHeader 0 [] []) (Some []) (Some (replicate 5 [])).
Definition chan_channel : channel Bundle :=
  mkChannel chan_bundle [chan_genesis] [] (mkBlockWriter 0 4 chan_genesis None).
Definition chan_block (config : Envelope) : Block :=
  mkBlock (mkBlockHeader 1 [] []) (Some [marshal config]) (Some (replicate 5 [])).

#[local] Instance chan_resources : Resources Bundle ConfigEnvelope :=
  bundle_resources chan_Setup id chan_Manager chan_ParseDuration.

(** The update is processed at sequence number 4 and its block makes the bundle
    of sequence number 5 current. *)
Lemma accepted_config_commits_witness :
  ∃ config seq n' c', chan_processed = Done (Ok (config, seq, n')) ∧
    WriteConfigBlock demo_sum chan_signer demo_nonce (chan_block config) None chan_channel = Done c' ∧
    vi_sequence (configtxManager (bundle c')) = u64 (seq + 1) ∧ lastBlock (bw c') = chan_block config.
Proof.
  assert (Hb := chan_processed_builds).
  destruct chan_processed as [[[[config seq] n']|]|] eqn:E; [|discriminate Hb..].
  unfold chan_processed in E.
  assert (vi_sequence (configtxManager chan_bundle) = seq) as Hseq.
  { symmetry. eapply ProcessConfigUpdate_stable; [apply forward_standardFilters|exact E|]. intros k _. reflexivity. }
  edestruct (accepted_config_commits chan_Setup id chan_Manager chan_ParseDuration (λ _, None) (λ _, None) false
    chan_signer (λ _, []) (λ _ _ _, Ok tt) (λ _, true) (λ ce, ce = chan_result) chan_header_encoded
    demo_sum demo_nonce (λ _, chan_bundle) 0%nat n' 0 (Some chan_tx) config seq n' (chan_block config) None
    chan_channel chan_channel) as (c' & ce & Hw & _ & _ & Hs & Hl).
  - intros i j _. apply Z.le_refl.
  - intros i j _. reflexivity.
  - exact E.
  - apply Nat.le_refl.
  - exact Hseq.
  - reflexivity.
  - intros ce Hce. symmetry. exact (ok_inj _ _ (eq_trans (eq_sym chan_proposed) Hce)).
  - reflexivity.
  - reflexivity.
  - exists config, seq, n', c'. split; [reflexivity|]. split; [exact Hw|]. split; [exact Hs|exact Hl].
Defined.

(** ** Organisations and messages *)

Definition chan_orderer_org : option OrganizationConfig :=
  oc ← ordererConfig (sections (channelConfig chan_bundle)); orc_orgs oc !! "OrdererOrg".
Definition chan_app_org : option OrganizationConfig :=
  ac ← appConfig (sections (channelConfig chan_bundle)); applicationOrgs ac !! "Org1".

Definition someMSPID (o : option OrganizationConfig) : string :=
  match o with Some org => MSPID org | None => "" end.

(** The orderer organisation and the first application organisation are one. *)
Lemma msp_ids_unambiguous_witness :
  ∃ o1 o2, chan_orderer_org = Some o1 ∧ chan_app_org = Some o2 ∧ MSPID o1 = "A" ∧ og_MSP o1 = og_MSP o2.
Proof.
  assert (someMSPID chan_orderer_org = "A") as H1 by reflexivity.
  assert (someMSPID chan_app_org = "A") as H2 by reflexivity.
  destruct chan_orderer_org as [o1|] eqn:E1; [|discriminate H1].
  destruct chan_app_org as [o2|] eqn:E2; [|discriminate H2].
  exists o1, o2. split; [reflexivity|]. split; [reflexivity|]. split; [exact H1|].
  destruct (proj1 (bind_Some _ _ _) E1) as (oc & Hoc & Ho1).
  destruct (proj1 (bind_Some _ _ _) E2) as (ac & Hac & Ho2).
  destruct (msp_ids_unambiguous chan_Setup id chan_Manager chan_ParseDuration "ch" (Some chan_config)
    chan_bundle o1 o2 chan_built) as [Hm _].
  - exact (orderer_org _ _ oc "OrdererOrg" Hoc Ho1).
  - exact (application_org _ _ ac "Org1" Hac Ho2).
  - apply Hm. exact (eq_trans H1 (eq_sym H2)).
Defined.

(** A message of a member of the first organisation. *)
Definition chan_message (data : bytes) : Envelope :=
  let header := mkHeader (Some (marshal (mkChannelHeader HeaderType_MESSAGE "ch" "")))
                  (marshal (mkSignatureHeader (String.list_byte_of_string "A") [])) in
  mkEnvelope (marshal (mkPayload (Some header) data)) [].

Definition chan_accepts (env : Envelope) : bool :=
  built (Standard_ProcessNormalMsg (chan_filters 0) env (λ _, chan_bundle) 0%nat).

Definition chan_messages : list Envelope := chan_message <$> [[x01]; [x02]; [x03]; [x04]].

Definition chan_orderer_conf : OrdererConf :=
  match Bundle_OrdererConfig chan_bundle with
  | Some oc => oc
  | None => mkOrdererConf emptyOrdererProtos ∅ 0
  end.

Lemma chan_orderer_conf_eq : Bundle_OrdererConfig chan_bundle = Some chan_orderer_conf.
Proof.
  assert (bool_decide (is_Some (Bundle_OrdererConfig chan_bundle)) = true) as Hb by reflexivity.
  unfold chan_orderer_conf. destruct (Bundle_OrdererConfig chan_bundle); [reflexivity|discriminate Hb].
Qed.

Lemma chan_accepted env : chan_accepts env = true → ∃ seq n',
  Standard_ProcessNormalMsg (chan_filters 0) env (λ _, chan_bundle) 0%nat = Done (Ok (seq, n')).
Proof.
  unfold chan_accepts. destruct (Standard_ProcessNormalMsg _ _ _ _) as [[[seq n']|]|]; [by eexists _, _|done..].
Qed.

(** Four messages, at most three to a batch. *)
Lemma batch_bounds_witness :
  0 < orc_batchTimeout chan_orderer_conf ∧
  ∃ bs r', OrderedAll (Some (orp_BatchSize (orc_protos chan_orderer_conf))) 0 chan_messages NewReceiverImpl
      = Done (bs, r') ∧
    concat bs ++ pendingBatch r' = chan_messages ∧
    Forall (λ batch, 1 <= Z.of_nat (length batch) <= MaxMessageCount (orp_BatchSize (orc_protos chan_orderer_conf)) ∧
      batchBytes batch <= AbsoluteMaxBytes (orp_BatchSize (orc_protos chan_orderer_conf)))
      (bs ++ nonempty (pendingBatch r')).
Proof.
  apply (batch_bounds chan_Setup id chan_Manager chan_ParseDuration (λ _, None) (λ _, None) false "ch"
    (Some chan_config) chan_bundle chan_orderer_conf 0 0 chan_messages).
  - intros v bs [= <-]. unfold batchSize_u32, is_u32. simpl. lia.
  - exact chan_built.
  - exact chan_orderer_conf_eq.
  - reflexivity.
  - repeat (apply Forall_cons; split; [apply chan_accepted; reflexivity|]). apply List.Forall_nil.
Defined.
