(* ===== verification/SystemDemo.v ===== *)
(** * A system channel, evaluated

    A system channel with one consortium, a request for a channel of its two
    members, a migration of the consensus type and an update that enters
    maintenance mode; the theorems on channel creation and on the maintenance
    filter applied to them. *)

From Stdlib Require Import Ascii String Strings.Byte.
From stdpp Require Import gmap strings list.
From S2P Require Import Prelude Protos ConfigProtos Codecs GoLib BlockCutter Support Blocks BlockWriter BlockWriterDemo Capabilities Cauthdsl PolicyManager PolicyDemo ConfigTx ConfigTxDemo ChannelConfig MsgProcessor Maintenance ChannelCreation ChannelDemo.

(** ** The system channel *)

(** A majority of the members of a channel may create it. *)
Definition sys_consortium : ConfigGroup :=
  mkConfigGroup 0 chan_orgs {[ "ChannelCreationPolicy" := chan_value "majority" ]} ∅ "Admins".

Definition sys_consortiums : ConfigGroup :=
  mkConfigGroup 0 {[ "Sample" := sys_consortium ]} ∅ (chan_policies ImplicitMetaPolicy_ANY) "Admins".

Definition sys_config : Config :=
  mkConfig 0 (Some (mkConfigGroup 0 {[ "Orderer" := chan_orderer; "Consortiums" := sys_consortiums ]}
    {[ "HashingAlgorithm" := chan_value ""; "BlockDataHashingStructure" := chan_value "";
       "Capabilities" := chan_value "" ]} (chan_policies ImplicitMetaPolicy_ANY) "Admins")).

Definition sys_bundle : Bundle := bundleOf (chan_NewBundle "sys" (Some sys_config)).

Lemma sys_built : built (chan_NewBundle "sys" (Some sys_config)) = true.
Proof. reflexivity. Qed.

(** ** A request for a channel *)

Definition sys_member : ConfigGroup := mkConfigGroup 0 ∅ ∅ ∅ "".

Definition sys_request_sets (version : Z) (policies : gmap string ConfigPolicy) (mod_policy : string) : ConfigGroup :=
  mkConfigGroup 0
    {[ "Application" := mkConfigGroup version {[ "Org1" := sys_member; "Org2" := sys_member ]} ∅ policies mod_policy ]}
    {[ "Consortium" := mkConfigValue 0 (String.list_byte_of_string "Sample") "" ]} ∅ "".

Definition sys_admins : ConfigPolicy :=
  mkConfigPolicy 1 (cp_Policy (demo_meta_policy ImplicitMetaPolicy_MAJORITY "Admins")) "Admins".

Definition sys_update : ConfigUpdate :=
  mkConfigUpdate "new" (Some (sys_request_sets 0 ∅ ""))
    (Some (sys_request_sets 1 {[ "Admins" := sys_admins ]} "Admins")).

#[local] Instance sys_ConfigUpdate : Codec ConfigUpdate := {|
  marshal _ := [x0c];
  unmarshal data := if decide (data = [x0c]) then Some sys_update else None
|}.

(** The request, signed by members of the given organisations. *)
Definition sys_request (orgs : list string) : Envelope :=
  let cue := mkConfigUpdateEnvelope (marshal sys_update) (demo_config_signature <$> orgs) in
  let header := mkHeader (Some (marshal (mkChannelHeader HeaderType_CONFIG_UPDATE "new" "")))
                  (marshal (mkSignatureHeader (String.list_byte_of_string "A") [])) in
  mkEnvelope (marshal (mkPayload (Some header) (marshal cue))) [].

Definition sys_template : fallible (Bundle * nat) :=
  NewChannelTemplate chan_Setup id chan_Manager chan_ParseDuration (sys_request ["A"; "B"]) (λ _, sys_bundle) 0%nat.

Definition sys_result : ConfigEnvelope :=
  match sys_template with
  | Done (Ok (template, _)) =>
    match ProposeConfigUpdate (configtxManager template) (Some (sys_request ["A"; "B"])) with
    | Done (Ok ce) => ce
    | _ => mkConfigEnvelope None None
    end
  | _ => mkConfigEnvelope None None
  end.

#[local] Instance sys_ConfigEnvelope : Codec ConfigEnvelope := {|
  marshal _ := [x0e];
  unmarshal data := if decide (data = [x0e]) then Some sys_result else None
|}.

Abbreviation sys_filters := (CreateSystemChannelFilters chan_Setup id chan_Manager chan_ParseDuration
  (λ _, None) (λ _, None) (λ _ _ _, Ok tt) false 1 0).

Definition sys_processed (orgs : list string) : fallible (Envelope * Z * nat) :=
  System_ProcessConfigUpdateMsg chan_Setup id chan_Manager chan_ParseDuration chan_signer (λ _, [])
    (λ _ _ _, Ok tt) (λ _, true) sys_filters (Some (sys_request orgs)) (λ _, sys_bundle) 0%nat.

(** Both organisations may create the channel, one of them alone may not. *)
Lemma sys_processed_builds : built (sys_processed ["A"; "B"]) = true.
Proof. reflexivity. Qed.
Lemma sys_unauthorized : built (sys_processed ["A"]) = false ∧ built (sys_processed ["B"]) = false.
Proof. split; reflexivity. Qed.
Lemma sys_majority :
  (λ cs, csc_ChannelCreationPolicy <$> cs !! "Sample") <$> Bundle_ConsortiumsConfig sys_bundle = Some (Some chan_majority).
Proof. reflexivity. Qed.

Lemma sys_current : vi_configProto (configtxManager sys_bundle) = sys_config.
Proof. reflexivity. Qed.

Lemma channel_creation_authorized_witness :
  ∃ tx seq n', sys_processed ["A"; "B"] = Done (Ok ((tx, seq), n')) ∧
  ∃ ws app consortiums consortium members key template cue sds,
    creationRequest (sys_request ["A"; "B"]) = Ok ("new", ws, app, "Sample") ∧
    Bundle_ConsortiumsConfig sys_bundle = Some consortiums ∧ consortiums !! "Sample" = Some consortium ∧
    csc_ChannelCreationPolicy consortium = chan_majority ∧
    requestedMembers (Groups app) (Groups sys_consortium) members ∧
    EnvelopeToConfigUpdate (Some (sys_request ["A"; "B"])) = Done (Ok cue) ∧
    ConfigUpdateEnvelopeAsSignedData cue = Ok sds ∧
    satisfied (mspManager (channelConfig template)) members key chan_majority sds.
Proof.
  assert (Hb := sys_processed_builds).
  destruct (sys_processed ["A"; "B"]) as [[[[tx seq] n']|]|] eqn:E; [|discriminate Hb..].
  exists tx, seq, n'. split; [reflexivity|]. unfold sys_processed in E.
  apply channel_creation_authorized with (id := "new") in E as (ws & app & name & consortiums & consortium &
    system & g & orderer & members & key & template & cue & sds & H1 & H2 & H3 & H4 & H5 & _ & H7 & _ & _ & _ & H8 & H9 & H10).
  - assert (name = "Sample") as -> by (injection H1 as _ _ <-; reflexivity).
    assert (csc_ChannelCreationPolicy consortium = chan_majority) as Hm.
    { assert (Hs := sys_majority). rewrite H2 in Hs. cbn in Hs. rewrite H3 in Hs. injection Hs as Hs. exact Hs. }
    rewrite Hm in H10.
    rewrite sys_current in H4. injection H4 as <-. cbn in H5. injection H5 as <-.
    exists ws, app, consortiums, consortium, members, key, template, cue, sds.
    exact (conj H1 (conj H2 (conj H3 (conj Hm (conj H7 (conj H8 (conj H9 H10))))))).
  - reflexivity.
  - assert (vi_channelID (configtxManager sys_bundle) = "sys") as -> by reflexivity. discriminate.
Defined.

(** ** A migration *)

Definition mig_conf (type : string) (state : Z) : OrdererConf :=
  mkOrdererConf (mkOrdererProtos (mkConsensusTypeMessage type [] state) (mkBatchSize 3 100 50) "2s" [] 0
    {[ "V2_0" ]}) ∅ (2 * 10 ^ 9).

Definition mig_type_value : ConfigValue := mkConfigValue 1 [] "Admins".

(** An update of the consensus type that changes a policy of the orderer group
    as well. *)
Definition mig_write : ConfigGroup :=
  mkConfigGroup 0
    {[ "Orderer" := mkConfigGroup 1 ∅ {[ "ConsensusType" := mig_type_value ]}
         {[ "Writers" := demo_org_policy "B" ]} "Admins" ]} ∅ ∅ "Admins".

Definition mig_update : ConfigUpdate := mkConfigUpdate "sys" None (Some mig_write).

#[local] Instance mig_ConfigUpdate : Codec ConfigUpdate := {|
  marshal _ := [x0f];
  unmarshal data := if decide (data = [x0f]) then Some mig_update else None
|}.

Definition mig_cue : ConfigUpdateEnvelope := mkConfigUpdateEnvelope (marshal mig_update) [].

Definition mig_tx : Envelope :=
  let header := mkHeader (Some (marshal (mkChannelHeader HeaderType_CONFIG_UPDATE "sys" ""))) [] in
  mkEnvelope (marshal (mkPayload (Some header) (marshal mig_cue))) [].

(** The filter lets the update through, policy and all. *)
Lemma maintenance_entry_policies_witness :
  ensureConsensusTypeChangeOnly (Some mig_tx) = Done (Ok tt) ∧
  is_Some (Groups mig_write !! "Orderer" ≫= λ g, Policies g !! "Writers").
Proof.
  split; [|by eexists].
  apply (maintenance_entry_policies (Some mig_tx) mig_cue mig_update mig_write); [reflexivity..|].
  split; [reflexivity|]. split.
  - intros k [g Hg]. destruct (decide (k = "Orderer")) as [|Hk]; [done|].
    unfold mig_write in Hg. simpl in Hg. by rewrite lookup_singleton_ne in Hg.
  - eexists. split; [reflexivity|]. split; [reflexivity|]. split; [by eexists|].
    intros k [v Hv]. destruct (decide (k = "ConsensusType")) as [|Hk]; [done|].
    simpl in Hv. by rewrite lookup_singleton_ne in Hv.
Defined.

(** From Kafka through maintenance mode to Raft. *)
Definition mig_history : list OrdererConf :=
  [mig_conf "etcdraft" STATE_NORMAL; mig_conf "etcdraft" STATE_MAINTENANCE;
   mig_conf "kafka" STATE_MAINTENANCE; mig_conf "kafka" STATE_NORMAL].

Lemma migration_safe_witness :
  history (λ _, true) (mig_conf "kafka" STATE_NORMAL) mig_history ∧
  Exists (λ c, ConsensusState c ≠ STATE_NORMAL) mig_history ∧ "etcdraft" ∈ permittedTargetConsensusTypes.
Proof.
  assert (history (λ _, true) (mig_conf "kafka" STATE_NORMAL) mig_history) as Hh.
  { repeat (apply history_step; [|exists (mkConfigEnvelope None (Some mig_tx)); reflexivity]).
    apply history_start. }
  split; [exact Hh|].
  destruct (migration_safe (λ _, true) _ _ _ Hh) as [[Ht|H] _]; [discriminate Ht|exact H].
Defined.
