(* ===== verification/Configtxlator.v ===== *)
(** * Computing configuration updates

    [internal/configtxlator/update/update.go]: the read set and write set of an
    update from an original to an updated configuration, and [nextTree], the
    configuration the update is to lead to: the content of the updated one with
    the version numbers of the original counted up where something changed. *)

From Stdlib Require Import Ascii String.
From stdpp Require Import gmap strings list.
From S2P Require Import Prelude Protos ConfigProtos GoLib Blocks Cauthdsl PolicyManager ConfigTx ConfigTree ConfigTxProps ConfigTxAuth MsgProcessor ChannelCreation.

(** ** The update of a map *)

(** The results of [computePoliciesMapUpdate], [computeValuesMapUpdate] and
    [computeGroupsMapUpdate]. *)
Record MapUpdate (E : Type) := mkMapUpdate {
  mu_readSet : gmap string E;
  mu_writeSet : gmap string E;
  mu_sameSet : gmap string E;
  mu_updatedMembers : bool
}.
Arguments mkMapUpdate {E} _ _ _ _.
Arguments mu_readSet {E} _.
Arguments mu_writeSet {E} _.
Arguments mu_sameSet {E} _.
Arguments mu_updatedMembers {E} _.

Section maps.
Context {O U E : Type}.
(** How an entry of both maps is treated: the same, or what to read and write. *)
Context (compare : O → U → E + (option E * E)) (fresh : U → E).

(** The body of the loop over the original map. *)
Definition originalEntry (updated : gmap string U) (name : string) (o : O) (r : MapUpdate E)
    : MapUpdate E :=
  match updated !! name with
  | None => mkMapUpdate (mu_readSet r) (mu_writeSet r) (mu_sameSet r) true
  | Some u =>
    match compare o u with
    | inl same =>
      mkMapUpdate (mu_readSet r) (mu_writeSet r) (<[name := same]> (mu_sameSet r)) (mu_updatedMembers r)
    | inr (read, write) =>
      mkMapUpdate (match read with Some e => <[name := e]> (mu_readSet r) | None => mu_readSet r end)
        (<[name := write]> (mu_writeSet r)) (mu_sameSet r) (mu_updatedMembers r)
    end
  end.

(** The body of the loop over the updated map. *)
Definition updatedEntry (original : gmap string O) (name : string) (u : U) (r : MapUpdate E)
    : MapUpdate E :=
  match original !! name with
  | Some _ => r
  | None => mkMapUpdate (mu_readSet r) (<[name := fresh u]> (mu_writeSet r)) (mu_sameSet r) true
  end.

Definition computeMapUpdate (original : gmap string O) (updated : gmap string U) : MapUpdate E :=
  map_fold (updatedEntry original)
    (map_fold (originalEntry updated) (mkMapUpdate ∅ ∅ ∅ false) original) updated.
End maps.

Definition comparePolicy (o u : ConfigPolicy) : ConfigPolicy + (option ConfigPolicy * ConfigPolicy) :=
  if decide (cp_ModPolicy o = cp_ModPolicy u ∧ cp_Policy o = cp_Policy u)
  then inl (mkConfigPolicy (cp_Version o) None "")
  else inr (None, mkConfigPolicy (u64 (cp_Version o + 1)) (cp_Policy u) (cp_ModPolicy u)).

Definition freshPolicy (u : ConfigPolicy) : ConfigPolicy :=
  mkConfigPolicy 0 (cp_Policy u) (cp_ModPolicy u).

Definition computePoliciesMapUpdate : gmap string ConfigPolicy → gmap string ConfigPolicy → MapUpdate ConfigPolicy :=
  computeMapUpdate comparePolicy freshPolicy.

Definition compareValue (o u : ConfigValue) : ConfigValue + (option ConfigValue * ConfigValue) :=
  if decide (cv_ModPolicy o = cv_ModPolicy u ∧ cv_Value o = cv_Value u)
  then inl (mkConfigValue (cv_Version o) [] "")
  else inr (None, mkConfigValue (u64 (cv_Version o + 1)) (cv_Value u) (cv_ModPolicy u)).

Definition freshValue (u : ConfigValue) : ConfigValue :=
  mkConfigValue 0 (cv_Value u) (cv_ModPolicy u).

Definition computeValuesMapUpdate : gmap string ConfigValue → gmap string ConfigValue → MapUpdate ConfigValue :=
  computeMapUpdate compareValue freshValue.

(** ** The update of a group *)

Definition NewConfigGroup : ConfigGroup := mkConfigGroup 0 ∅ ∅ ∅ "".

Abbreviation groupSets := (ConfigGroup * ConfigGroup * bool)%type.

(** [computeGroupsMapUpdate], given for each updated group its mod policy and the
    comparison with an original group. *)
Definition compareGroup (o : ConfigGroup) (u : string * (ConfigGroup → groupSets))
    : ConfigGroup + (option ConfigGroup * ConfigGroup) :=
  let '(groupReadSet, groupWriteSet, groupUpdated) := u.2 o in
  if groupUpdated : bool then inr (Some groupReadSet, groupWriteSet) else inl groupReadSet.

Definition freshGroup (u : string * (ConfigGroup → groupSets)) : ConfigGroup :=
  let '(_, groupWriteSet, _) := u.2 NewConfigGroup in
  mkConfigGroup 0 (Groups groupWriteSet) (Values groupWriteSet) (Policies groupWriteSet) u.1.

Definition computeGroupsMapUpdate
    : gmap string ConfigGroup → gmap string (string * (ConfigGroup → groupSets)) → MapUpdate ConfigGroup :=
  computeMapUpdate compareGroup freshGroup.

(** The end of [computeGroupUpdate], from the updates of the three maps. *)
Definition assembleGroup (policies : MapUpdate ConfigPolicy) (values : MapUpdate ConfigValue)
    (groups : MapUpdate ConfigGroup) (original : ConfigGroup) (updatedModPolicy : string) : groupSets :=
  if negb (mu_updatedMembers policies || mu_updatedMembers values || mu_updatedMembers groups
           || bool_decide (cg_ModPolicy original ≠ updatedModPolicy))
  then
    if bool_decide (mu_readSet policies = ∅ ∧ mu_writeSet policies = ∅ ∧ mu_readSet values = ∅ ∧
                    mu_writeSet values = ∅ ∧ mu_readSet groups = ∅ ∧ mu_writeSet groups = ∅)
    then (mkConfigGroup (cg_Version original) ∅ ∅ ∅ "", mkConfigGroup (cg_Version original) ∅ ∅ ∅ "", false)
    else (mkConfigGroup (cg_Version original) (mu_readSet groups) (mu_readSet values) (mu_readSet policies) "",
          mkConfigGroup (cg_Version original) (mu_writeSet groups) (mu_writeSet values) (mu_writeSet policies) "",
          true)
  else
    let read := λ E (m : MapUpdate E), mu_sameSet m ∪ mu_readSet m in
    let write := λ E (m : MapUpdate E), mu_sameSet m ∪ mu_writeSet m in
    (mkConfigGroup (cg_Version original) (read _ groups) (read _ values) (read _ policies) "",
     mkConfigGroup (u64 (cg_Version original + 1)) (write _ groups) (write _ values) (write _ policies)
       updatedModPolicy,
     true).

(** [computeGroupUpdate], with the updated group first. *)
Fixpoint groupUpdate (updated original : ConfigGroup) {struct updated} : groupSets :=
  let 'mkConfigGroup _ groups values policies modPolicy := updated in
  assembleGroup
    (computePoliciesMapUpdate (Policies original) policies)
    (computeValuesMapUpdate (Values original) values)
    (computeGroupsMapUpdate (Groups original) ((λ u, (cg_ModPolicy u, groupUpdate u)) <$> groups))
    original modPolicy.

Definition computeGroupUpdate (original updated : ConfigGroup) : groupSets := groupUpdate updated original.

Definition Compute (original updated : Config) : res ConfigUpdate :=
  match ChannelGroup original, ChannelGroup updated with
  | None, _ => Err (Errorf "no channel group included for original config")
  | _, None => Err (Errorf "no channel group included for updated config")
  | Some original, Some updated =>
    let '(readSet, writeSet, groupUpdated) := computeGroupUpdate original updated in
    if groupUpdated : bool then Ok (mkConfigUpdate "" (Some readSet) (Some writeSet))
    else Err (Errorf "no differences detected between original and updated config")
  end.

(** ** The configuration an update leads to *)

Definition nextPolicy (o : option ConfigPolicy) (u : ConfigPolicy) : ConfigPolicy :=
  match o with
  | None => freshPolicy u
  | Some o =>
    if decide (cp_ModPolicy o = cp_ModPolicy u ∧ cp_Policy o = cp_Policy u) then o
    else mkConfigPolicy (u64 (cp_Version o + 1)) (cp_Policy u) (cp_ModPolicy u)
  end.

Definition nextValue (o : option ConfigValue) (u : ConfigValue) : ConfigValue :=
  match o with
  | None => freshValue u
  | Some o =>
    if decide (cv_ModPolicy o = cv_ModPolicy u ∧ cv_Value o = cv_Value u) then o
    else mkConfigValue (u64 (cv_Version o + 1)) (cv_Value u) (cv_ModPolicy u)
  end.

(** Neither the members nor the mod policy of a group changed. *)
Definition sameShape (o u : ConfigGroup) : Prop :=
  dom (Policies o) = dom (Policies u) ∧ dom (Values o) = dom (Values u) ∧
  dom (Groups o) = dom (Groups u) ∧ cg_ModPolicy o = cg_ModPolicy u.

Definition nextVersion (o : option ConfigGroup) (u : ConfigGroup) : Z :=
  match o with
  | None => 0
  | Some o => if decide (sameShape o u) then cg_Version o else u64 (cg_Version o + 1)
  end.

Fixpoint nextTree (u : ConfigGroup) (o : option ConfigGroup) {struct u} : ConfigGroup :=
  let 'mkConfigGroup _ gs vs ps mp := u in
  mkConfigGroup (nextVersion o u)
    (map_imap (λ j next, Some (next (o ≫= λ o, Groups o !! j))) (nextTree <$> gs))
    (map_imap (λ j v, Some (nextValue (o ≫= λ o, Values o !! j) v)) vs)
    (map_imap (λ j p, Some (nextPolicy (o ≫= λ o, Policies o !! j) p)) ps) mp.

(** ** What the loops compute *)

Section lookups.
Context {O U E : Type} (compare : O → U → E + (option E * E)) (fresh : U → E).

Definition readEntry (o : option O) (u : option U) : option E :=
  match o, u with
  | Some o, Some u => match compare o u with inr (read, _) => read | inl _ => None end
  | _, _ => None
  end.

Definition writeEntry (o : option O) (u : option U) : option E :=
  match o, u with
  | Some o, Some u => match compare o u with inr (_, write) => Some write | inl _ => None end
  | None, Some u => Some (fresh u)
  | _, None => None
  end.

Definition sameEntry (o : option O) (u : option U) : option E :=
  match o, u with
  | Some o, Some u => match compare o u with inl same => Some same | inr _ => None end
  | _, _ => None
  end.

Lemma originalLoop updated original :
  let r := map_fold (originalEntry compare updated) (mkMapUpdate ∅ ∅ ∅ false) original in
  (∀ k, mu_readSet r !! k = readEntry (original !! k) (updated !! k)) ∧
  (∀ k, mu_writeSet r !! k = o ← original !! k; writeEntry (Some o) (updated !! k)) ∧
  (∀ k, mu_sameSet r !! k = sameEntry (original !! k) (updated !! k)) ∧
  (mu_updatedMembers r = false ↔ dom original ⊆ dom updated).
Proof.
  apply (map_fold_weak_ind (λ r m, (∀ k, mu_readSet r !! k = readEntry (m !! k) (updated !! k)) ∧
    (∀ k, mu_writeSet r !! k = o ← m !! k; writeEntry (Some o) (updated !! k)) ∧
    (∀ k, mu_sameSet r !! k = sameEntry (m !! k) (updated !! k)) ∧
    (mu_updatedMembers r = false ↔ dom m ⊆ dom updated))).
  { split_and!; try (intros k; by rewrite !lookup_empty). rewrite dom_empty_L. set_solver. }
  intros name o m r Hnone (Hr & Hw & Hs & Hu). unfold originalEntry. rewrite dom_insert_L.
  destruct (updated !! name) as [u|] eqn:Eu.
  - assert (name ∈ dom updated) by by apply elem_of_dom_2 in Eu.
    destruct (compare o u) as [same|[read write]] eqn:Ec; simpl; split_and!; try (intros k;
      destruct (decide (k = name)) as [->|Hk];
      [|rewrite ?(lookup_insert_ne m) by done; try destruct read; rewrite ?lookup_insert_ne by done;
        rewrite ?Hr, ?Hw, ?Hs; done];
      rewrite ?lookup_insert_eq, ?Hr, ?Hw, ?Hs, ?Hnone, ?Eu; simpl; rewrite ?Ec; try done;
      destruct read; rewrite ?lookup_insert_eq, ?Hr, ?Hnone; done);
      rewrite Hu; set_solver.
  - assert (name ∉ dom updated) by by apply not_elem_of_dom.
    simpl. split_and!; try (intros k; destruct (decide (k = name)) as [->|Hk];
      [|rewrite ?(lookup_insert_ne m) by done; rewrite ?Hr, ?Hw, ?Hs; done];
      rewrite lookup_insert_eq, ?Hr, ?Hw, ?Hs, Hnone, Eu; done).
    split; [done|]. set_solver.
Qed.

Lemma computeMapUpdate_spec original updated :
  let r := computeMapUpdate compare fresh original updated in
  (∀ k, mu_readSet r !! k = readEntry (original !! k) (updated !! k)) ∧
  (∀ k, mu_writeSet r !! k = writeEntry (original !! k) (updated !! k)) ∧
  (∀ k, mu_sameSet r !! k = sameEntry (original !! k) (updated !! k)) ∧
  (mu_updatedMembers r = false ↔ dom original = dom updated).
Proof.
  unfold computeMapUpdate.
  destruct (originalLoop updated original) as (Hr & Hw & Hs & Hu).
  set (r0 := map_fold (originalEntry _ _) _ _) in *. clearbody r0.
  cut (let r := map_fold (updatedEntry fresh original) r0 updated in
    (∀ k, mu_readSet r !! k = mu_readSet r0 !! k) ∧
    (∀ k, mu_writeSet r !! k = match original !! k with Some _ => mu_writeSet r0 !! k | None => fresh <$> updated !! k end) ∧
    (∀ k, mu_sameSet r !! k = mu_sameSet r0 !! k) ∧
    (mu_updatedMembers r = false ↔ mu_updatedMembers r0 = false ∧ dom updated ⊆ dom original)).
  { intros (Hr' & Hw' & Hs' & Hu'). split_and!.
    - intros k. by rewrite Hr', Hr.
    - intros k. rewrite Hw', Hw. destruct (original !! k), (updated !! k); done.
    - intros k. by rewrite Hs', Hs.
    - rewrite Hu', Hu. set_solver. }
  apply (map_fold_weak_ind (λ r m, (∀ k, mu_readSet r !! k = mu_readSet r0 !! k) ∧
    (∀ k, mu_writeSet r !! k = match original !! k with Some _ => mu_writeSet r0 !! k | None => fresh <$> m !! k end) ∧
    (∀ k, mu_sameSet r !! k = mu_sameSet r0 !! k) ∧
    (mu_updatedMembers r = false ↔ mu_updatedMembers r0 = false ∧ dom m ⊆ dom original))).
  { split_and!; [done| |done|rewrite dom_empty_L; set_solver].
    intros k. rewrite lookup_empty, Hw. by destruct (original !! k). }
  intros name u m r Hnone (Hr' & Hw' & Hs' & Hu'). unfold updatedEntry. rewrite dom_insert_L.
  destruct (original !! name) as [o|] eqn:Eo.
  - assert (name ∈ dom original) by by apply elem_of_dom_2 in Eo.
    split_and!; [done| |done|rewrite Hu'; set_solver].
    intros k. rewrite Hw'. destruct (decide (k = name)) as [->|Hk]; [by rewrite Eo|].
    by rewrite lookup_insert_ne.
  - assert (name ∉ dom original) by by apply not_elem_of_dom.
    simpl. split_and!; [done| |done|set_solver].
    intros k. destruct (decide (k = name)) as [->|Hk]; [by rewrite !lookup_insert_eq, Eo|].
    rewrite !lookup_insert_ne by done. apply Hw'.
Qed.
End lookups.

(** ** Members of the sets *)

Lemma Groups_nextTree u o j :
  Groups (nextTree u o) !! j = (λ u', nextTree u' (o ≫= λ o, Groups o !! j)) <$> Groups u !! j.
Proof.
  destruct u as [v gs vs ps mp]. simpl. rewrite map_lookup_imap, lookup_fmap. by destruct (gs !! j).
Qed.
Lemma Values_nextTree u o j :
  Values (nextTree u o) !! j = nextValue (o ≫= λ o, Values o !! j) <$> Values u !! j.
Proof. destruct u as [v gs vs ps mp]. simpl. rewrite map_lookup_imap. by destruct (vs !! j). Qed.
Lemma Policies_nextTree u o j :
  Policies (nextTree u o) !! j = nextPolicy (o ≫= λ o, Policies o !! j) <$> Policies u !! j.
Proof. destruct u as [v gs vs ps mp]. simpl. rewrite map_lookup_imap. by destruct (ps !! j). Qed.

Lemma dom_of_lookup {A B} (m1 : gmap string A) (m2 : gmap string B) :
  (∀ j, is_Some (m1 !! j) ↔ is_Some (m2 !! j)) → dom m1 = dom m2.
Proof. intros H. apply set_eq. intros j. rewrite !elem_of_dom. apply H. Qed.

Lemma shape_nextTree u o :
  dom (Groups (nextTree u o)) = dom (Groups u) ∧ dom (Values (nextTree u o)) = dom (Values u) ∧
  dom (Policies (nextTree u o)) = dom (Policies u) ∧ cg_ModPolicy (nextTree u o) = cg_ModPolicy u ∧
  cg_Version (nextTree u o) = nextVersion o u.
Proof.
  split_and!; try (apply dom_of_lookup; intros j);
    rewrite ?Groups_nextTree, ?Values_nextTree, ?Policies_nextTree, ?fmap_is_Some; [done..|by destruct u|by destruct u].
Qed.

(** The entries of the read set and the write set of a group, [changed] telling
    whether its shape changed. *)
Definition readMember {O U E} (compare : O → U → E + (option E * E)) (changed : bool)
    (o : option O) (u : option U) : option E :=
  match (if changed then sameEntry compare o u else None) with
  | Some e => Some e
  | None => readEntry compare o u
  end.

Definition writeMember {O U E} (compare : O → U → E + (option E * E)) (fresh : U → E) (changed : bool)
    (o : option O) (u : option U) : option E :=
  match (if changed then sameEntry compare o u else None) with
  | Some e => Some e
  | None => writeEntry compare fresh o u
  end.

Definition groupEntry (u : ConfigGroup) : string * (ConfigGroup → groupSets) := (cg_ModPolicy u, groupUpdate u).

Abbreviation changed o u := (bool_decide (¬ sameShape o u)).

(** The sets of a group. *)
Record groupSetsOf (u o R W : ConfigGroup) (upd : bool) : Prop := {
  gs_readVersion : cg_Version R = cg_Version o;
  gs_writeVersion : cg_Version W = if changed o u then u64 (cg_Version o + 1) else cg_Version o;
  gs_writeModPolicy : changed o u = true → cg_ModPolicy W = cg_ModPolicy u;
  gs_readGroups j : Groups R !! j = readMember compareGroup (changed o u) (Groups o !! j) (groupEntry <$> Groups u !! j);
  gs_readValues j : Values R !! j = readMember compareValue (changed o u) (Values o !! j) (Values u !! j);
  gs_readPolicies j : Policies R !! j = readMember comparePolicy (changed o u) (Policies o !! j) (Policies u !! j);
  gs_writeGroups j :
    Groups W !! j = writeMember compareGroup freshGroup (changed o u) (Groups o !! j) (groupEntry <$> Groups u !! j);
  gs_writeValues j : Values W !! j = writeMember compareValue freshValue (changed o u) (Values o !! j) (Values u !! j);
  gs_writePolicies j :
    Policies W !! j = writeMember comparePolicy freshPolicy (changed o u) (Policies o !! j) (Policies u !! j);
  gs_same : upd = false →
    changed o u = false ∧ Groups R = ∅ ∧ Values R = ∅ ∧ Policies R = ∅ ∧ Groups W = ∅ ∧ Values W = ∅ ∧
    Policies W = ∅ ∧ W = R;
  gs_updated : upd = true → changed o u = true ∨ Groups W ≠ ∅ ∨ Values W ≠ ∅ ∨ Policies W ≠ ∅ ∨ Groups R ≠ ∅
}.

Lemma groupUpdate_eq u o :
  groupUpdate u o =
    assembleGroup (computePoliciesMapUpdate (Policies o) (Policies u))
      (computeValuesMapUpdate (Values o) (Values u))
      (computeGroupsMapUpdate (Groups o) (groupEntry <$> Groups u)) o (cg_ModPolicy u).
Proof. by destruct u. Qed.

Lemma groupUpdate_sets u o R W upd : groupUpdate u o = (R, W, upd) → groupSetsOf u o R W upd.
Proof.
  rewrite groupUpdate_eq. unfold assembleGroup.
  destruct (computeMapUpdate_spec comparePolicy freshPolicy (Policies o) (Policies u)) as (Rp & Wp & Sp & Up).
  destruct (computeMapUpdate_spec compareValue freshValue (Values o) (Values u)) as (Rv & Wv & Sv & Uv).
  destruct (computeMapUpdate_spec compareGroup freshGroup (Groups o) (groupEntry <$> Groups u)) as (Rg & Wg & Sg & Ug).
  fold computePoliciesMapUpdate computeValuesMapUpdate computeGroupsMapUpdate in *.
  set (mp := computePoliciesMapUpdate _ _) in *. set (mv := computeValuesMapUpdate _ _) in *.
  set (mg := computeGroupsMapUpdate _ _) in *. clearbody mp mv mg.
  rewrite dom_fmap_L in Ug.
  assert (changed o u = mu_updatedMembers mp || mu_updatedMembers mv || mu_updatedMembers mg
           || bool_decide (cg_ModPolicy o ≠ cg_ModPolicy u)) as <-.
  { apply Bool.eq_iff_eq_true. rewrite !orb_true_iff, !bool_decide_eq_true. unfold sameShape.
    rewrite <- Up, <- Uv, <- Ug.
    clear. destruct (decide (cg_ModPolicy o = cg_ModPolicy u)), (mu_updatedMembers mp), (mu_updatedMembers mv), (mu_updatedMembers mg); intuition congruence. }
  destruct (changed o u) eqn:Ec; simpl.
  - intros [= <- <- <-]. split; rewrite ?Ec; simpl; try done; try (by left); intros j; unfold readMember, writeMember;
      rewrite ?lookup_union, ?Rp, ?Wp, ?Sp, ?Rv, ?Wv, ?Sv, ?Rg, ?Wg, ?Sg, ?lookup_fmap;
      (destruct (sameEntry _ _ _); [by rewrite union_Some_l|by rewrite (left_id_L None _)]).
  - match goal with |- context [if bool_decide ?P then _ else _] =>
      destruct (bool_decide P) eqn:Hempty end;
      [apply bool_decide_eq_true in Hempty|apply bool_decide_eq_false in Hempty].
    + destruct Hempty as (E1 & E2 & E3 & E4 & E5 & E6). intros [= <- <- <-].
      split; rewrite ?Ec; simpl; try done; try (by intros [=]); intros j; unfold readMember, writeMember;
        rewrite lookup_empty; [rewrite <- lookup_fmap, <- Rg, E5|rewrite <- Rv, E3|rewrite <- Rp, E1
        |rewrite <- lookup_fmap, <- Wg, E6|rewrite <- Wv, E4|rewrite <- Wp, E2]; by rewrite lookup_empty.
    + intros [= <- <- <-]. split; rewrite ?Ec; simpl; try done;
        try (intros j; unfold readMember, writeMember; rewrite ?Rp, ?Wp, ?Rv, ?Wv, ?Rg, ?Wg, ?lookup_fmap; done).
      intros _. right.
      assert (mu_readSet mp = ∅) as Ep.
      { apply map_eq. intros j. rewrite Rp, lookup_empty. unfold readEntry, comparePolicy. by repeat case_match; simplify_eq. }
      assert (mu_readSet mv = ∅) as Ev.
      { apply map_eq. intros j. rewrite Rv, lookup_empty. unfold readEntry, compareValue. by repeat case_match; simplify_eq. }
      destruct (decide (mu_writeSet mg = ∅)), (decide (mu_writeSet mv = ∅)), (decide (mu_writeSet mp = ∅)),
        (decide (mu_readSet mg = ∅)); naive_solver.
Qed.

(** ** The next tree *)

Lemma same_dom {A B} (m1 : gmap string A) (m2 : gmap string B) j :
  dom m1 = dom m2 → (m1 !! j = None ∧ m2 !! j = None) ∨ ∃ a b, m1 !! j = Some a ∧ m2 !! j = Some b.
Proof.
  intros H. pose proof (kept_lookup m1 m2 j (eq_sym H)) as Hj.
  destruct (m1 !! j) as [a|], (m2 !! j) as [b|]; naive_solver.
Qed.

Lemma compareGroup_entry o u :
  compareGroup o (groupEntry u) =
    let '(R, W, upd) := groupUpdate u o in if upd : bool then inr (Some R, W) else inl R.
Proof. done. Qed.

(** A group without changes is kept. *)
Lemma unchanged_next u o R W : groupUpdate u o = (R, W, false) → nextTree u (Some o) = o.
Proof.
  revert o R W. induction u as [u IH] using ConfigGroup_tree_ind. intros o R W Hu.
  destruct (groupUpdate_sets _ _ _ _ _ Hu) as [_ _ _ _ _ _ Wg Wv Wp Hsame _].
  destruct (Hsame eq_refl) as (Ec & _ & _ & _ & Eg & Ev & Ep & _). clear Hsame.
  rewrite Ec in Wg, Wv, Wp. assert (sameShape o u) as (Dp & Dv & Dg & Dm).
  { apply bool_decide_eq_false in Ec. by apply dec_stable. }
  destruct (shape_nextTree u (Some o)) as (_ & _ & _ & Hmp & Hver).
  simpl in Hver. rewrite decide_True in Hver by done.
  destruct o as [v gs vs ps mp]. simpl in *.
  assert (Groups (nextTree u (Some (mkConfigGroup v gs vs ps mp))) = gs) as HG.
  { apply map_eq. intros j. rewrite Groups_nextTree. simpl.
    destruct (same_dom _ _ j Dg) as [[-> ->]|(o' & u' & Ho & Hu')]; [done|].
    rewrite Ho, Hu'. simpl. f_equal. specialize (Wg j). rewrite Eg, lookup_empty, Ho, Hu' in Wg.
    simpl in Wg. unfold writeMember, writeEntry in Wg. rewrite compareGroup_entry in Wg.
    destruct (groupUpdate u' o') as [[R' W'] [|]] eqn:E; [done|]. by eapply IH. }
  assert (Values (nextTree u (Some (mkConfigGroup v gs vs ps mp))) = vs) as HV.
  { apply map_eq. intros j. rewrite Values_nextTree. simpl.
    destruct (same_dom _ _ j Dv) as [[-> ->]|(o' & u' & Ho & Hu')]; [done|].
    rewrite Ho, Hu'. simpl. f_equal. specialize (Wv j). rewrite Ev, lookup_empty, Ho, Hu' in Wv.
    unfold writeMember, writeEntry, compareValue in Wv. by case_decide. }
  assert (Policies (nextTree u (Some (mkConfigGroup v gs vs ps mp))) = ps) as HP.
  { apply map_eq. intros j. rewrite Policies_nextTree. simpl.
    destruct (same_dom _ _ j Dp) as [[-> ->]|(o' & u' & Ho & Hu')]; [done|].
    rewrite Ho, Hu'. simpl. f_equal. specialize (Wp j). rewrite Ep, lookup_empty, Ho, Hu' in Wp.
    unfold writeMember, writeEntry, comparePolicy in Wp. by case_decide. }
  destruct (nextTree u _). simpl in *. congruence.
Qed.

(** The content of the next tree is that of the updated one. *)
Lemma zeroVersions_nextTree u o : zeroVersions (nextTree u o) = zeroVersions u.
Proof.
  revert o. induction u as [u IH] using ConfigGroup_tree_ind. intros o. rewrite !zeroVersions_eq.
  destruct (shape_nextTree u o) as (_ & _ & _ & -> & _). f_equal; apply map_eq; intros j; rewrite !lookup_fmap.
  - rewrite Groups_nextTree. destruct (Groups u !! j) as [u'|] eqn:E; simpl; [|done]. f_equal. by apply (IH j).
  - rewrite Values_nextTree. destruct (Values u !! j) as [u'|] eqn:E; simpl; [|done]. f_equal.
    unfold nextValue. destruct (o ≫= _) as [o'|]; [|done]. case_decide as H; [|done]. by destruct H as [-> ->].
  - rewrite Policies_nextTree. destruct (Policies u !! j) as [u'|] eqn:E; simpl; [|done]. f_equal.
    unfold nextPolicy. destruct (o ≫= _) as [o'|]; [|done]. case_decide as H; [|done]. by destruct H as [-> ->].
Qed.

(** Everything below a new group is new. *)
Lemma fresh_versions u k q e : elementAt k q (nextTree u None) = Some e → elementVersion e = 0.
Proof.
  revert q k e. induction u as [u IH] using ConfigGroup_tree_ind. intros [|j q] k e.
  - destruct k; [|done..]. intros [= <-]. destruct u. done.
  - intros [(h & Hh & He)|[(_ & _ & v & Hv & ->)|(_ & _ & p & Hp & ->)]]%elementAt_cons.
    + rewrite Groups_nextTree in Hh. apply fmap_Some in Hh as (u' & Hu' & ->). by eapply (IH j).
    + rewrite Values_nextTree in Hv. by apply fmap_Some in Hv as (u' & _ & ->).
    + rewrite Policies_nextTree in Hp. by apply fmap_Some in Hp as (u' & _ & ->).
Qed.

Lemma writeEntry_empty {O U E} (compare : O → U → E + (option E * E)) fresh changed u :
  writeMember compare fresh changed None u = fresh <$> u.
Proof. unfold writeMember. destruct changed; by destruct u. Qed.

(** The write set of a new group is the group at version 0. *)
Lemma freshGroup_next u : freshGroup (groupEntry u) = nextTree u None.
Proof.
  induction u as [u IH] using ConfigGroup_tree_ind. unfold freshGroup. simpl.
  destruct (groupUpdate u NewConfigGroup) as [[R W] upd] eqn:Hu.
  destruct (groupUpdate_sets _ _ _ _ _ Hu) as [_ _ _ _ _ _ Wg Wv Wp _ _].
  destruct (shape_nextTree u None) as (_ & _ & _ & Hmp & Hver).
  assert (Groups W = Groups (nextTree u None)) as ->.
  { apply map_eq. intros j. rewrite Wg, Groups_nextTree. simpl. rewrite lookup_empty, writeEntry_empty.
    destruct (Groups u !! j) as [u'|] eqn:E; simpl; [|done]. f_equal. by apply (IH j). }
  assert (Values W = Values (nextTree u None)) as ->.
  { apply map_eq. intros j. rewrite Wv, Values_nextTree. simpl. by rewrite lookup_empty, writeEntry_empty. }
  assert (Policies W = Policies (nextTree u None)) as ->.
  { apply map_eq. intros j. rewrite Wp, Policies_nextTree. simpl. by rewrite lookup_empty, writeEntry_empty. }
  destruct (nextTree u None). simpl in *. by subst.
Qed.

(** ** The sets lead to the next tree *)

(** The element [o] of the original tree, what the read set and the write set have
    in its place, and the element [n] of the next tree: the read set has the
    version of the original; the update writes [n] as the next version of [o], or
    leaves [o] as it is. *)
Definition entryCorrect (o r w n : option element) : Prop :=
  (∀ x, r = Some x → ∃ e, o = Some e ∧ elementVersion x = elementVersion e) ∧
  match n with
  | None => w = None
  | Some e' =>
    (∃ y, w = Some y ∧ (∀ x, r = Some x → elementVersion x ≠ elementVersion y) ∧ kept false y e' ∧
      elementVersion e' = match o with Some e => u64 (elementVersion e + 1) | None => 0 end) ∨
    (∃ e, o = Some e ∧ kept false e e' ∧
      ∀ y, w = Some y → ∃ x, r = Some x ∧ elementVersion x = elementVersion y)
  end.

Lemma entry_none o : entryCorrect o None None None.
Proof. by split. Qed.

Lemma entry_kept o : entryCorrect o None None o.
Proof. split; [done|]. destruct o as [e|]; [|done]. right. exists e. split; [done|]. split; [apply kept_refl|done]. Qed.

Lemma entry_fresh e : elementVersion e = 0 → entryCorrect None None (Some e) (Some e).
Proof. intros He. split; [done|]. left. exists e. split; [done|]. split; [done|]. split; [apply kept_refl|done]. Qed.

Lemma entry_bumped e w : elementVersion w = u64 (elementVersion e + 1) → entryCorrect (Some e) None (Some w) (Some w).
Proof. intros He. split; [done|]. left. exists w. split; [done|]. split; [done|]. split; [apply kept_refl|done]. Qed.

Lemma entry_same e x : elementVersion x = elementVersion e → entryCorrect (Some e) (Some x) (Some x) (Some e).
Proof.
  intros Hx. split; [intros ? [= <-]; eauto|]. right. exists e. split; [done|]. split; [apply kept_refl|].
  intros ? [= <-]. eauto.
Qed.

Lemma policy_correct changed o u :
  entryCorrect (ElPolicy <$> o) (ElPolicy <$> readMember comparePolicy changed o u)
    (ElPolicy <$> writeMember comparePolicy freshPolicy changed o u) (ElPolicy <$> (nextPolicy o <$> u)).
Proof.
  unfold readMember, writeMember, sameEntry, readEntry, writeEntry, comparePolicy.
  destruct o as [o|], u as [u|]; simpl; [case_decide|..]; destruct changed; simpl;
    auto using entry_none, entry_kept, entry_fresh, entry_bumped, entry_same.
Qed.

Lemma value_correct changed o u :
  entryCorrect (ElValue <$> o) (ElValue <$> readMember compareValue changed o u)
    (ElValue <$> writeMember compareValue freshValue changed o u) (ElValue <$> (nextValue o <$> u)).
Proof.
  unfold readMember, writeMember, sameEntry, readEntry, writeEntry, compareValue.
  destruct o as [o|], u as [u|]; simpl; [case_decide|..]; destruct changed; simpl;
    auto using entry_none, entry_kept, entry_fresh, entry_bumped, entry_same.
Qed.

(** A group without members of its own. *)
Lemma elementAt_bare k q g :
  Groups g = ∅ → Values g = ∅ → Policies g = ∅ →
  elementAt k q g = match k, q with KGroup, [] => Some (ElGroup g) | _, _ => None end.
Proof.
  intros HG HV HP. destruct q as [|j q]; [done|].
  destruct (elementAt k (j :: q) g) as [e|] eqn:E; [|by destruct k].
  apply elementAt_cons in E. rewrite HG, HV, HP in E. setoid_rewrite lookup_empty in E. naive_solver.
Qed.

(** The members of a group that is compared. *)
Lemma group_correct (changed : bool) (o u : option ConfigGroup) k q :
  (∀ u', u = Some u' → ∀ o' R W upd, groupUpdate u' o' = (R, W, upd) →
    entryCorrect (elementAt k q o') (elementAt k q R) (elementAt k q W)
      (elementAt k q (nextTree u' (Some o')))) →
  entryCorrect (o ≫= elementAt k q) (readMember compareGroup changed o (groupEntry <$> u) ≫= elementAt k q)
    (writeMember compareGroup freshGroup changed o (groupEntry <$> u) ≫= elementAt k q)
    (((λ u', nextTree u' o) <$> u) ≫= elementAt k q).
Proof.
  intros IH. unfold readMember, writeMember, sameEntry, readEntry, writeEntry.
  destruct u as [u|], o as [o|]; cbn [fmap option_fmap option_map mbind option_bind];
    try (destruct changed; apply entry_none).
  - rewrite compareGroup_entry. destruct (groupUpdate u o) as [[R W] [|]] eqn:E.
    + destruct changed; exact (IH u eq_refl o R W true E).
    + rewrite (unchanged_next _ _ _ _ E).
      destruct (groupUpdate_sets _ _ _ _ _ E) as [Hv _ _ _ _ _ _ _ _ Hs _].
      destruct (Hs eq_refl) as (_ & HG & HV & HP & _).
      destruct changed; simpl; [|apply entry_kept]. rewrite (elementAt_bare k q R HG HV HP).
      destruct k, q; try apply entry_kept. apply entry_same. exact Hv.
  - assert (entryCorrect None None (elementAt k q (nextTree u None)) (elementAt k q (nextTree u None))) as H.
    { destruct (elementAt k q (nextTree u None)) as [e|] eqn:E; [|apply entry_none].
      apply entry_fresh. by eapply fresh_versions. }
    destruct changed; simpl; by rewrite freshGroup_next.
Qed.

Lemma elementAt_step k j q g :
  elementAt k (j :: q) g =
    match k, q with
    | KValue, [] => ElValue <$> Values g !! j
    | KPolicy, [] => ElPolicy <$> Policies g !! j
    | _, _ => Groups g !! j ≫= elementAt k q
    end.
Proof. by destruct k, q. Qed.

Lemma u64_succ_ne v : u64 (v + 1) ≠ v.
Proof.
  unfold u64. intros H. assert (0 <= v < 2 ^ 64) as Hv by (rewrite <- H; apply Z.mod_pos_bound; lia).
  destruct (decide (v + 1 = 2 ^ 64)) as [E|E].
  - rewrite E, Z_mod_same_full in H. lia.
  - rewrite Z.mod_small in H by lia. lia.
Qed.

Lemma groupUpdate_correct u o R W upd k q :
  groupUpdate u o = (R, W, upd) →
  entryCorrect (elementAt k q o) (elementAt k q R) (elementAt k q W) (elementAt k q (nextTree u (Some o))).
Proof.
  revert o R W upd q. induction u as [u IH] using ConfigGroup_tree_ind. intros o R W upd q Hu.
  destruct (groupUpdate_sets _ _ _ _ _ Hu) as [HvR HvW HmW Rg Rv Rp Wg Wv Wp _ _].
  destruct q as [|j q].
  - destruct k; [|apply entry_none..]. cbn [elementAt]. split; [intros ? [= <-]; eauto|].
    destruct (shape_nextTree u (Some o)) as (DG & DV & DP & Hmp & Hver). simpl in Hver.
    destruct (changed o u) eqn:Ec.
    + apply bool_decide_eq_true in Ec as Hc. rewrite decide_False in Hver by done. left.
      exists (ElGroup W). split; [done|]. split.
      { intros ? [= <-]. unfold elementVersion, version. simpl. rewrite HvR, HvW.
        intros He. by apply (u64_succ_ne (cg_Version o)). }
      split; [|done]. cbn [kept upg]. rewrite Hver, Hmp, DG, DV, DP, HvW, (HmW eq_refl).
      split_and!; [done|done|apply dom_of_lookup; intros i..].
      * rewrite Wg. unfold writeMember, sameEntry, writeEntry.
        destruct (Groups u !! i), (Groups o !! i); simpl; [|done..]. by destruct (compareGroup _ _) as [|[]].
      * rewrite Wv. unfold writeMember, sameEntry, writeEntry.
        destruct (Values u !! i), (Values o !! i); simpl; [|done..]. by destruct (compareValue _ _) as [|[]].
      * rewrite Wp. unfold writeMember, sameEntry, writeEntry.
        destruct (Policies u !! i), (Policies o !! i); simpl; [|done..]. by destruct (comparePolicy _ _) as [|[]].
    + apply bool_decide_eq_false, dec_stable in Ec as Hc. rewrite decide_True in Hver by done.
      destruct Hc as (Dp & Dv & Dg & Dm). right. exists (ElGroup o). split; [done|]. split.
      * cbn [kept upg]. rewrite Hver, Hmp, DG, DV, DP. by split_and!.
      * intros ? [= <-]. exists (ElGroup R). split; [done|]. unfold elementVersion, version. simpl. congruence.
  - rewrite !elementAt_step.
    assert (entryCorrect (Groups o !! j ≫= elementAt k q) (Groups R !! j ≫= elementAt k q)
      (Groups W !! j ≫= elementAt k q) (Groups (nextTree u (Some o)) !! j ≫= elementAt k q)) as HG.
    { rewrite Rg, Wg, Groups_nextTree. apply group_correct. intros u' Hu'. intros. by eapply (IH j). }
    assert (HV := value_correct (changed o u) (Values o !! j) (Values u !! j)).
    assert (HP := policy_correct (changed o u) (Policies o !! j) (Policies u !! j)).
    rewrite <- Rv, <- Wv in HV. rewrite <- Rp, <- Wp in HP.
    destruct k, q; try exact HG.
    + rewrite Values_nextTree. exact HV.
    + rewrite Policies_nextTree. exact HP.
Qed.
