(* ===== verification/ConfigtxlatorProps.v ===== *)
(** * Computed updates do what they are computed for

    [computed_update_exact]: proposing the update that [Compute] finds between the
    current configuration of a channel and a wanted one is accepted exactly when
    the signers may make the changes, and leads to the wanted configuration. *)

From Stdlib Require Import Ascii String.
From stdpp Require Import gmap strings list.
From S2P Require Import Prelude Protos ConfigProtos GoLib Blocks Cauthdsl PolicyManager ConfigTx ConfigTree ConfigTxProps ConfigTxAuth MsgProcessor ChannelCreation Configtxlator.

(** ** Differences *)

Lemma zeroVersions_parts o u :
  zeroVersions o = zeroVersions u →
  cg_ModPolicy o = cg_ModPolicy u ∧
  (∀ j, zeroVersions <$> Groups o !! j = zeroVersions <$> Groups u !! j) ∧
  (∀ j, freshValue <$> Values o !! j = freshValue <$> Values u !! j) ∧
  (∀ j, freshPolicy <$> Policies o !! j = freshPolicy <$> Policies u !! j).
Proof.
  rewrite !zeroVersions_eq. intros [= HG HV HP HM].
  split; [done|]. split_and!; intros j; rewrite <- !lookup_fmap; [by rewrite HG| |].
  - unfold freshValue. by rewrite HV.
  - unfold freshPolicy. by rewrite HP.
Qed.

Lemma fmap_dom {A B} (f : A → B) (m1 m2 : gmap string A) :
  (∀ j, f <$> m1 !! j = f <$> m2 !! j) → dom m1 = dom m2.
Proof.
  intros H. apply dom_of_lookup. intros j. specialize (H j).
  rewrite <- (fmap_is_Some f (m1 !! j)), <- (fmap_is_Some f (m2 !! j)). by rewrite H.
Qed.

Lemma equal_not_updated u o R W upd :
  zeroVersions o = zeroVersions u → groupUpdate u o = (R, W, upd) → upd = false.
Proof.
  revert o R W upd. induction u as [u IH] using ConfigGroup_tree_ind. intros o R W upd Hz Hu.
  apply zeroVersions_parts in Hz as (HM & HG & HV & HP).
  destruct (groupUpdate_sets _ _ _ _ _ Hu) as [_ _ _ Rg _ _ Wg Wv Wp _ Hupd].
  assert (changed o u = false) as Ec.
  { apply bool_decide_eq_false. intros H. apply H. repeat split; [| | |done];
      by eapply fmap_dom. }
  rewrite Ec in *. destruct upd; [|done]. destruct (Hupd eq_refl) as [H|H]; [done|]. exfalso.
  assert (∀ j, readMember compareGroup false (Groups o !! j) (groupEntry <$> Groups u !! j) = None ∧
    writeMember compareGroup freshGroup false (Groups o !! j) (groupEntry <$> Groups u !! j) = None) as Hg.
  { intros j. specialize (HG j). unfold readMember, writeMember, readEntry, writeEntry.
    destruct (Groups o !! j) as [o'|], (Groups u !! j) as [u'|] eqn:E; simpl in *; try done.
    rewrite compareGroup_entry. destruct (groupUpdate u' o') as [[R' W'] upd'] eqn:E'.
    by rewrite (IH j u' E o' R' W' upd') by congruence. }
  destruct H as [H|[H|[H|H]]]; apply H, map_eq; intros j; rewrite lookup_empty.
  - rewrite Wg. apply Hg.
  - rewrite Wv. specialize (HV j). unfold writeMember, writeEntry, compareValue.
    destruct (Values o !! j), (Values u !! j); simpl in *; try done. unfold freshValue in HV. by rewrite decide_True by naive_solver.
  - rewrite Wp. specialize (HP j). unfold writeMember, writeEntry, comparePolicy.
    destruct (Policies o !! j), (Policies u !! j); simpl in *; try done. unfold freshPolicy in HP. by rewrite decide_True by naive_solver.
  - rewrite Rg. apply Hg.
Qed.

(** There is an update exactly when the configurations differ in more than their
    version numbers. *)
Lemma Compute_differs original updated g u :
  ChannelGroup original = Some g → ChannelGroup updated = Some u →
  (∃ cu, Compute original updated = Ok cu) ↔ zeroVersions g ≠ zeroVersions u.
Proof.
  intros Hg Hu. unfold Compute, computeGroupUpdate. rewrite Hg, Hu.
  destruct (groupUpdate u g) as [[R W] upd] eqn:E. split.
  - intros [cu Hcu] Hz. by rewrite (equal_not_updated _ _ _ _ _ Hz E) in Hcu.
  - intros Hne. destruct upd; [by eexists|]. destruct Hne.
    rewrite <- (unchanged_next _ _ _ _ E) at 1. apply zeroVersions_nextTree.
Qed.

(** An update writes something. *)
Lemma updated_delta u o R W :
  groupUpdate u o = (R, W, true) →
  ∃ k q y, elementAt k q W = Some y ∧ ∀ x, elementAt k q R = Some x → elementVersion x ≠ elementVersion y.
Proof.
  revert o R W. induction u as [u IH] using ConfigGroup_tree_ind. intros o R W Hu.
  destruct (groupUpdate_sets _ _ _ _ _ Hu) as [HvR HvW _ Rg Rv Rp Wg Wv Wp _ Hupd].
  destruct (changed o u) eqn:Ec.
  { exists KGroup, [], (ElGroup W). split; [done|]. intros ? [= <-]. unfold elementVersion, version. simpl.
    rewrite HvR, HvW. intros He. by apply (u64_succ_ne (cg_Version o)). }
  assert (∀ j w, writeMember compareGroup freshGroup false (Groups o !! j) (groupEntry <$> Groups u !! j) = Some w →
    ∃ k q y, elementAt k q W = Some y ∧ ∀ x, elementAt k q R = Some x → elementVersion x ≠ elementVersion y) as Hg.
  { intros j w Hw. assert (Groups W !! j = Some w) as HW by by rewrite Wg. specialize (Rg j).
    unfold writeMember, writeEntry in Hw. unfold readMember, readEntry in Rg.
    destruct (Groups u !! j) as [u'|] eqn:E; [|by destruct (Groups o !! j)].
    destruct (Groups o !! j) as [o'|]; simpl in *.
    - rewrite compareGroup_entry in *. destruct (groupUpdate u' o') as [[R' W'] [|]] eqn:E'; [|done].
      injection Hw as ->. destruct (IH j u' E o' R' w E') as (k & q & y & Hy & Hx).
      exists k, (j :: q), y. rewrite elementAt_cons. split; [left; eauto|].
      intros x. rewrite elementAt_step, Rg. destruct k, q; (exact (Hx x) || done).
    - exists KGroup, [j], (ElGroup w). rewrite !elementAt_step, HW, Rg. done. }
  destruct (Hupd eq_refl) as [|[H|[H|[H|H]]]]; [done|..]; apply map_choose in H as (j & w & Hj).
  - rewrite Wg in Hj. by eapply Hg.
  - exists KValue, [j], (ElValue w). rewrite !elementAt_step, Hj, Rv. split; [done|].
    unfold readMember, readEntry, compareValue. by repeat case_match; simplify_eq.
  - exists KPolicy, [j], (ElPolicy w). rewrite !elementAt_step, Hj, Rp. split; [done|].
    unfold readMember, readEntry, comparePolicy. by repeat case_match; simplify_eq.
  - rewrite Rg in Hj. unfold readMember, readEntry in Hj.
    destruct (Groups o !! j) as [o'|] eqn:Eo, (Groups u !! j) as [u'|] eqn:Eu; simpl in *; try done.
    destruct (compareGroup o' (groupEntry u')) as [|[r' w']] eqn:Ecmp; [done|].
    apply (Hg j w'). rewrite Eo, Eu. unfold writeMember, writeEntry. simpl. by rewrite Ecmp.
Qed.

(** ** Proposing a computed update *)

Lemma kept_modPolicy y e p : kept false y e → modPolicy (located y p) = modPolicy (located e p).
Proof. destruct y, e; try done; unfold modPolicy; simpl; [by intros (_ & -> & _)|by intros ->..]. Qed.

Lemma verifyDelta_iff vi sds key value :
  verifyDelta vi sds key value = Done (Ok tt) ↔
  validateModPolicy (modPolicy value) = Ok tt ∧
  match vi_configMap vi !! key with
  | None => version value = 0
  | Some existing => version value = u64 (version existing + 1) ∧ authorized vi sds existing
  end.
Proof.
  split.
  - intros H. split; [|by apply verifyDelta_ok].
    unfold verifyDelta in H. by apply try_bind_ok in H as ([] & [= Hm] & _).
  - intros [Hm H]. unfold verifyDelta. rewrite Hm. simpl.
    destruct (vi_configMap vi !! key) as [existing|].
    + destruct H as (Hv & pol & Hp & He). rewrite Hv, Z.eqb_refl. simpl. rewrite Hp. simpl. by rewrite He.
    + by rewrite H.
Qed.

(** The next tree has the elements of the wanted one. *)
Lemma next_elements u o k q : is_Some (elementAt k q (nextTree u o)) ↔ is_Some (elementAt k q u).
Proof.
  revert o q. induction u as [u IH] using ConfigGroup_tree_ind. intros o [|j q].
  { destruct k; [|done..]. by split. }
  rewrite !elementAt_step.
  assert (is_Some (Groups (nextTree u o) !! j ≫= elementAt k q) ↔ is_Some (Groups u !! j ≫= elementAt k q)) as HG.
  { rewrite Groups_nextTree. destruct (Groups u !! j) as [u'|] eqn:E; [|done]. by apply (IH j). }
  destruct k, q; try exact HG.
  - by rewrite Values_nextTree, !fmap_is_Some.
  - by rewrite Policies_nextTree, !fmap_is_Some.
Qed.

Section propose.
Context (vi : ValidatorImpl) (g u R W : ConfigGroup) (sds : list SignedData).
Hypothesis Hold : mapConfig (Some g) (vi_namespace vi) = Done (Ok (vi_configMap vi)).
Hypothesis Hupdate : groupUpdate u g = (R, W, true).

Let ns := vi_namespace vi.
Let next := nextTree u (Some g).

Lemma current k q : noSlash q → vi_configMap vi !! addressKey k (ns :: q) = (λ e, located e (ns :: q)) <$> elementAt k q g.
Proof. apply mapConfig_spec in Hold as (_ & _ & H & _). apply H. Qed.

Lemma current_names : validID ns ∧ namesOk g.
Proof. apply mapConfig_spec in Hold as (Hns & Hn & _). done. Qed.

Lemma correct k q : entryCorrect (elementAt k q g) (elementAt k q R) (elementAt k q W) (elementAt k q next).
Proof. by eapply groupUpdate_correct. Qed.

Lemma read_names : namesOk R.
Proof.
  intros k q r Hr. destruct (correct k q) as [Hread _]. destruct (Hread r Hr) as (e & He & _).
  by eapply (proj2 current_names).
Qed.

(** The names of the write set are valid exactly when the wanted ones are. *)
Lemma write_names : namesOk W ↔ namesOk u.
Proof.
  split; intros Hn k q e He.
  - assert (is_Some (elementAt k q next)) as [e' He'] by (apply next_elements; by eexists).
    destruct (correct k q) as [_ H]. rewrite He' in H.
    destruct H as [(y & Hy & _)|(x & Hx & _)]; [by eapply Hn|by eapply (proj2 current_names)].
  - destruct (correct k q) as [_ H]. destruct (elementAt k q next) as [e'|] eqn:E; [|congruence].
    assert (is_Some (elementAt k q u)) as [x Hx] by (apply (next_elements u (Some g)); by eexists).
    by eapply Hn.
Qed.

Context (mR mW : configMap).
Hypothesis HR : mapConfig (Some R) ns = Done (Ok mR).
Hypothesis HW : mapConfig (Some W) ns = Done (Ok mW).

Lemma verify_read : verifyReadSet vi mR = Done (Ok tt).
Proof.
  destruct (range_total (λ key value (_ : unit),
    match vi_configMap vi !! key with
    | None => fail "existing config does not contain element but was in the read set"
    | Some existing =>
      if negb (version existing =? version value)
      then fail "proposed update requires that key be at another version"
      else ok tt
    end) mR tt (λ _, True)) as ([] & H & _); [done| |exact H].
  intros x c [] Hx _. destruct (mapConfig_spec _ _ _ HR) as (_ & Hn & _ & Hall).
  destruct (Hall x c Hx) as (k & q & r & Hr & -> & ->).
  rewrite current by by eapply validIDs_noSlash, Hn.
  destruct (correct k q) as [Hread _]. destruct (Hread r Hr) as (e & He & Hv). rewrite He. simpl.
  change (version (located e (ns :: q))) with (elementVersion e).
  change (version (located r (ns :: q))) with (elementVersion r). rewrite Hv, Z.eqb_refl. by eexists.
Qed.

Let delta := computeDeltaSet mR mW.

Lemma delta_lookup k q :
  noSlash q →
  delta !! addressKey k (ns :: q) =
    (λ e, located e (ns :: q)) <$>
      (y ← elementAt k q W;
       match elementAt k q R with
       | Some x => if elementVersion x =? elementVersion y then None else Some y
       | None => Some y
       end).
Proof.
  intros Hq. unfold delta. rewrite computeDeltaSet_lookup.
  destruct (mapConfig_spec _ _ _ HR) as (_ & _ & -> & _); [|done].
  destruct (mapConfig_spec _ _ _ HW) as (_ & _ & -> & _); [|done].
  destruct (elementAt k q W) as [y|]; simpl; [|done]. destruct (elementAt k q R) as [x|]; simpl; [|done].
  change (version (located x (ns :: q))) with (elementVersion x).
  change (version (located y (ns :: q))) with (elementVersion y). by destruct (_ =? _).
Qed.

(** A changed element carries a valid mod policy, and what it replaces was
    governed by a policy the signers satisfy. *)
Definition permitted : Prop := ∀ k q e',
  elementAt k q next = Some e' →
  match elementAt k q g with Some e => elementVersion e' ≠ elementVersion e | None => True end →
  validateModPolicy (modPolicy (located e' (ns :: q))) = Ok tt ∧
  ∀ e, elementAt k q g = Some e → authorized vi sds (located e (ns :: q)).

(** The element of the next tree as the update writes it, or leaves it. *)
Lemma delta_cases k q e' :
  noSlash q → elementAt k q next = Some e' →
  (∃ y, delta !! addressKey k (ns :: q) = Some (located y (ns :: q)) ∧ kept false y e' ∧
    elementVersion e' = match elementAt k q g with Some e => u64 (elementVersion e + 1) | None => 0 end) ∨
  (∃ e, delta !! addressKey k (ns :: q) = None ∧ elementAt k q g = Some e ∧ kept false e e').
Proof.
  intros Hq He'. rewrite delta_lookup by done. destruct (correct k q) as [_ H]. rewrite He' in H.
  destruct H as [(y & Hy & Hx & Hk & Hv)|(e & He & Hk & Hx)]; [left; exists y|right; exists e].
  - rewrite Hy. simpl. split; [|done]. destruct (elementAt k q R) as [x|]; [|done].
    specialize (Hx x eq_refl). by destruct (Z.eqb_spec (elementVersion x) (elementVersion y)).
  - split; [|done]. destruct (elementAt k q W) as [y|]; simpl; [|done].
    destruct (Hx y eq_refl) as (x & -> & Hxy). by rewrite Hxy, Z.eqb_refl.
Qed.

Lemma delta_next x c :
  delta !! x = Some c → ∃ k q y e', noSlash q ∧ x = addressKey k (ns :: q) ∧ c = located y (ns :: q) ∧
    elementAt k q next = Some e' ∧ kept false y e' ∧
    elementVersion e' = match elementAt k q g with Some e => u64 (elementVersion e + 1) | None => 0 end.
Proof.
  intros Hx. destruct (mapConfig_spec _ _ _ HW) as (_ & Hn & _ & Hall). pose proof Hx as Hx'.
  unfold delta in Hx. rewrite computeDeltaSet_lookup in Hx. apply bind_Some in Hx as (c' & Hc' & Hx).
  destruct (Hall x c' Hc') as (k & q & y & Hy & -> & ->).
  assert (Hq : noSlash q) by by eapply validIDs_noSlash, Hn.
  destruct (elementAt k q next) as [e'|] eqn:E.
  2: { destruct (correct k q) as [_ H]. rewrite E in H. congruence. }
  destruct (delta_cases k q e' Hq E) as [(y' & Hd & Hk & Hv)|(e & Hd & _)]; [|congruence].
  exists k, q, y', e'. rewrite Hx' in Hd. injection Hd as ->. done.
Qed.

Lemma verify_delta :
  namesOk u → (verifyDeltaSet vi delta sds = Done (Ok tt) ↔ permitted).
Proof.
  intros Hu. unfold verifyDeltaSet.
  assert (size delta ≠ 0%nat) as Hne.
  { destruct (updated_delta _ _ _ _ Hupdate) as (k & q & y & Hy & Hx). intros H0.
    apply map_size_empty_inv in H0. destruct (mapConfig_spec _ _ _ HW) as (_ & Hn & _).
    assert (delta !! addressKey k (ns :: q) = Some (located y (ns :: q))) as Hd; [|by rewrite H0, lookup_empty in Hd].
    rewrite delta_lookup by by eapply validIDs_noSlash, Hn. rewrite Hy. simpl.
    destruct (elementAt k q R) as [x|]; [|done]. specialize (Hx x eq_refl).
    by destruct (Z.eqb_spec (elementVersion x) (elementVersion y)). }
  rewrite decide_False by done. split.
  - intros Hr k q e' He' Hch.
    assert (Hq : noSlash q).
    { assert (is_Some (elementAt k q u)) as [x Hx] by (apply (next_elements u (Some g)); by eexists).
      by eapply validIDs_noSlash, Hu. }
    destruct (delta_cases k q e' Hq He') as [(y & Hd & Hk & Hv)|(e & Hd & He & Hk)].
    + destruct (range_each _ _ _ _ Hr _ _ Hd) as ([] & [] & Hb). apply verifyDelta_iff in Hb as [Hm Hb].
      rewrite (kept_modPolicy _ _ _ Hk) in Hm. split; [done|]. intros e He.
      rewrite current, He in Hb by done. by destruct Hb.
    + rewrite He in Hch. by rewrite (kept_version _ _ _ Hk) in Hch.
  - intros Hp. destruct (range_total (λ key value (_ : unit), verifyDelta vi sds key value) delta tt (λ _, True))
      as ([] & H & _); [done| |exact H].
    intros x c [] Hx _. exists tt. split; [|done].
    destruct (delta_next x c Hx) as (k & q & y & e' & Hq & -> & -> & He' & Hk & Hv).
    destruct (Hp k q e' He') as [Hm Ha].
    { destruct (elementAt k q g) as [e|]; [|done]. rewrite Hv. apply u64_succ_ne. }
    apply verifyDelta_iff. rewrite (kept_modPolicy _ _ _ Hk). split; [done|]. rewrite current by done.
    change (version (located y (ns :: q))) with (elementVersion y). rewrite <- (kept_version _ _ _ Hk), Hv.
    destruct (elementAt k q g) as [e|]; simpl; [|done]. split; [done|]. by apply Ha.
Qed.

Lemma verify_full : verifyFullProposedConfig mW (computeUpdateResult vi delta) = Done (Ok tt).
Proof.
  destruct (range_total (λ key (_ : comparable) (_ : unit),
    if decide (is_Some (computeUpdateResult vi delta !! key)) then ok tt
    else fail "writeset contained key which did not appear in proposed config") mW tt (λ _, True))
    as ([] & H & _); [done| |exact H].
  intros x c [] Hx _. exists tt. split; [|done]. rewrite decide_True; [done|].
  rewrite computeUpdateResult_lookup. destruct (delta !! x) as [v|] eqn:Ed; [by eexists|].
  destruct (mapConfig_spec _ _ _ HW) as (_ & Hn & _ & Hall).
  destruct (Hall x c Hx) as (k & q & y & Hy & -> & ->).
  assert (Hq : noSlash q) by by eapply validIDs_noSlash, Hn. rewrite current by done.
  rewrite delta_lookup, Hy in Ed by done. simpl in Ed. apply fmap_None in Ed.
  destruct (elementAt k q R) as [r|] eqn:Er; [|done].
  destruct (correct k q) as [Hread _]. destruct (Hread r Er) as (e & -> & _). by eexists.
Qed.

Lemma result_tree :
  namesOk u →
  configMapToConfig (computeUpdateResult vi delta) ns =
    Done (Ok (fixTree (computeUpdateResult vi delta) next)).
Proof.
  intros Hu. apply configMapToConfig_tree. intros k q e' He'.
  assert (is_Some (elementAt k q u)) as [x Hx] by (apply (next_elements u (Some g)); by eexists).
  assert (Hq : noSlash q) by by eapply validIDs_noSlash, Hu.
  assert (kindPrefix k +:+ (PathSeparator +:+ ns) +:+ slashes q = addressKey k (ns :: q)) as ->.
  { unfold addressKey. simpl. by rewrite !str_app_assoc. }
  rewrite computeUpdateResult_lookup.
  destruct (delta_cases k q e' Hq He') as [(y & -> & Hk & _)|(e & -> & He & Hk)].
  - by exists (located y (ns :: q)).
  - exists (located e (ns :: q)). by rewrite current, He.
Qed.
End propose.

Section computed.
Context `{!Codec Payload, !Codec ChannelHeader, !Codec SignatureHeader}.
Context `{!Codec ConfigUpdate, !Codec ConfigUpdateEnvelope}.

(** A map of configuration elements exists for valid names. *)
Lemma mapConfig_total h ns : validID ns → namesOk h → ∃ m, mapConfig (Some h) ns = Done (Ok m).
Proof. intros Hns Hh. by apply recurseConfig_total. Qed.

Lemma authorize_computed vi g u R W cue sds :
  mapConfig (Some g) (vi_namespace vi) = Done (Ok (vi_configMap vi)) → groupUpdate u g = (R, W, true) →
  UnmarshalConfigUpdate (cue_ConfigUpdate cue) = Ok (mkConfigUpdate (vi_channelID vi) (Some R) (Some W)) →
  ConfigUpdateEnvelopeAsSignedData cue = Ok sds →
  (∃ m, authorizeUpdate vi cue = Done (Ok m)) ↔ namesOk u ∧ permitted vi g u sds.
Proof.
  intros Hold Hup Hcu Hsds. unfold authorizeUpdate. rewrite Hcu. simpl. rewrite decide_True by done.
  destruct (current_names vi g Hold) as [Hns _].
  destruct (mapConfig_total R (vi_namespace vi)) as [mR HR]; [done|by eapply read_names|].
  cbn [mapConfig] in HR. rewrite HR. simpl. rewrite (verify_read vi g u R W Hold Hup mR HR). simpl.
  rewrite <- (write_names vi g u R W Hold Hup). split.
  - intros [m Hm]. apply try_bind_ok in Hm as (mW & HW & Hm).
    assert (namesOk W) as HnW by (by apply mapConfig_spec in HW as (_ & ? & _)). split; [done|].
    apply (write_names vi g u R W Hold Hup) in HnW. rewrite Hsds in Hm.
    cbn [try_bind] in Hm. apply try_bind_ok in Hm as ([] & Hd & _).
    by apply (verify_delta vi g u R W sds Hold Hup mR mW HR HW HnW).
  - intros [HnW Hp]. destruct (mapConfig_total W (vi_namespace vi)) as [mW HW]; [done|done|].
    cbn [mapConfig] in HW. rewrite HW. simpl. rewrite Hsds. simpl.
    apply (write_names vi g u R W Hold Hup) in HnW.
    rewrite (proj2 (verify_delta vi g u R W sds Hold Hup mR mW HR HW HnW) Hp). simpl.
    rewrite (verify_full vi g u R W Hold Hup mR mW HR HW). by eexists.
Qed.

Lemma authorize_result vi g u R W cue m :
  mapConfig (Some g) (vi_namespace vi) = Done (Ok (vi_configMap vi)) → groupUpdate u g = (R, W, true) →
  UnmarshalConfigUpdate (cue_ConfigUpdate cue) = Ok (mkConfigUpdate (vi_channelID vi) (Some R) (Some W)) →
  authorizeUpdate vi cue = Done (Ok m) →
  configMapToConfig m (vi_namespace vi) = Done (Ok (fixTree m (nextTree u (Some g)))).
Proof.
  intros Hold Hup Hcu Hm. unfold authorizeUpdate in Hm. rewrite Hcu in Hm. simpl in Hm.
  rewrite decide_True in Hm by done.
  apply try_bind_ok in Hm as (mR & HR & ([] & _ & (mW & HW & Hm)%try_bind_ok)%try_bind_ok).
  destruct (ConfigUpdateEnvelopeAsSignedData cue) as [sds|]; [|done].
  apply try_bind_ok in Hm as ([] & _ & ([] & _ & [= <-])%try_bind_ok).
  apply (result_tree vi g u R W Hold Hup mR mW HR HW).
  apply (write_names vi g u R W Hold Hup). by apply mapConfig_spec in HW as (_ & ? & _).
Qed.

(** C11. A computed update does what it is computed for. Take the update that
    [Compute] finds between the configuration of a channel and a wanted
    configuration, sent as a signed transaction. The channel accepts it exactly
    when the names of the wanted configuration are valid and every element that
    changes has a valid mod policy and, if it exists, a mod policy that the
    signers satisfy; and the result has the content of the wanted configuration
    (up to the upgrade of empty mod policies), unchanged elements keeping their
    version, changed ones counting one up and new ones starting at 0. *)
Theorem computed_update_exact chan original ns pm vi g updated u cu tx cue sds :
  NewValidatorImpl chan (Some original) ns pm = Done (Ok vi) → ChannelGroup original = Some g →
  ChannelGroup updated = Some u → Compute original updated = Ok cu →
  EnvelopeToConfigUpdate (Some tx) = Done (Ok cue) →
  UnmarshalConfigUpdate (cue_ConfigUpdate cue) = Ok (mkConfigUpdate chan (ReadSet cu) (WriteSet cu)) →
  ConfigUpdateEnvelopeAsSignedData cue = Ok sds →
  ((∃ ce, ProposeConfigUpdate vi (Some tx) = Done (Ok ce)) ↔ namesOk u ∧ permitted vi g u sds) ∧
  zeroVersions (nextTree u (Some g)) = zeroVersions u ∧
  ∀ ce, ProposeConfigUpdate vi (Some tx) = Done (Ok ce) → ∃ upgraded : bool,
    ce_Config ce = Some (mkConfig (u64 (cfg_Sequence original + 1))
      (Some ((if upgraded then upgradeTree else id) (nextTree u (Some g))))).
Proof.
  intros Hvi Hg Hu Hc Hcue Hcu Hsds. unfold NewValidatorImpl in Hvi. rewrite Hg in Hvi.
  apply try_bind_ok in Hvi as ([] & _ & (m & Hold & [= <-])%try_bind_ok).
  set (vi := mkValidatorImpl _ _ _ _ _ _) in *.
  unfold Compute, computeGroupUpdate in Hc. rewrite Hg, Hu in Hc.
  destruct (groupUpdate u g) as [[R W] []] eqn:Hup; [|done]. injection Hc as <-. simpl in Hcu.
  pose proof (authorize_computed vi g u R W cue sds Hold Hup Hcu Hsds) as Hauth.
  unfold ProposeConfigUpdate. rewrite Hcue. simpl. split; [|split].
  - rewrite <- Hauth. split.
    + intros (ce & (m' & Hm' & _)%try_bind_ok). by exists m'.
    + intros [m' Hm']. rewrite Hm'. simpl.
      pose proof (authorize_result vi g u R W cue m' Hold Hup Hcu Hm') as Hr. simpl in Hr.
      rewrite Hr. by eexists.
  - apply zeroVersions_nextTree.
  - intros ce (m' & Hm' & H)%try_bind_ok.
    pose proof (authorize_result vi g u R W cue m' Hold Hup Hcu Hm') as Hr. simpl in Hr.
    rewrite Hr in H. injection H as <-. exists (bool_decide (hasCapabilities m')). simpl.
    unfold fixTree. do 3 f_equal. destruct (decide (hasCapabilities m')) as [Hh|Hh].
    + by rewrite bool_decide_eq_true_2.
    + by rewrite bool_decide_eq_false_2.
Qed.
End computed.
