(* ===== verification/Broadcast.v ===== *)
(** * Broadcast

    [orderer/common/broadcast/broadcast.go] and the look-up of a message's
    channel in [orderer/common/multichannel/registrar.go]: from a client's message
    to the consensus plug-in. The channels are those of an interface,
    [BroadcastSupport]; a channel over HCS is an instance. *)

From stdpp Require Import gmap strings list.
From S2P Require Import Prelude Protos GoLib BlockCutter Support Blocks AppMsg HcsChain Capabilities ChannelConfig MsgProcessor.

(** [cb.Status] *)
Inductive Status := SUCCESS | BAD_REQUEST | FORBIDDEN | NOT_FOUND | SERVICE_UNAVAILABLE.

#[export] Instance Status_eq_dec : EqDecision Status.
Proof. solve_decision. Defined.

(** [broadcast.ChannelSupport]: the processor of a channel and its consenter. *)
Class BroadcastSupport (C : Type) := {
  bs_ProcessNormalMsg : C → Envelope → fallible Z;
  bs_ProcessConfigUpdateMsg : C → Envelope → fallible (Envelope * Z);
  bs_WaitReady : C → blocking (option error);
  bs_Order : Envelope → Z → C → outcome (option error * C);
  bs_Configure : Envelope → Z → C → outcome (option error * C)
}.

(** The registrar: the channels by ID and which of them is the system channel. *)
Record Registrar (C : Type) := mkRegistrar {
  chains : gmap string C;
  systemChannelID : option string
}.
Arguments mkRegistrar {C} _ _.
Arguments chains {C} _.
Arguments systemChannelID {C} _.

Definition ClassifyError (err : error) : Status :=
  if decide (Cause err = ErrChannelDoesNotExist) then NOT_FOUND
  else if decide (Cause err = ErrPermissionDenied) then FORBIDDEN
  else if decide (Cause err = ErrMaintenanceMode) then SERVICE_UNAVAILABLE
  else BAD_REQUEST.

Section broadcast.
Context {C : Type} `{!BroadcastSupport C}.
Context `{!Codec Payload, !Codec ChannelHeader}.

(** [BroadcastChannelSupport]: the ID of the channel that handles the message and
    whether the message is a configuration update. *)
Definition BroadcastChannelSupport (msg : Envelope) (r : Registrar C) : res (string * bool) :=
  match ChannelHeaderOf msg with
  | Err _ => Err (Errorf "could not determine channel ID")
  | Ok chdr =>
    id ← match chains r !! ch_ChannelId chdr, systemChannelID r with
         | Some _, _ => Ok (ch_ChannelId chdr)
         | None, Some sysChan => Ok sysChan
         | None, None => Err (Errorf "channel creation request not allowed because the orderer system channel is not defined")
         end;
    match ClassifyMsg chdr with
    | ConfigUpdateMsg => Ok (id, true)
    | ConfigMsg => Err (Errorf "message is of type that cannot be processed directly")
    | NormalMsg => Ok (id, false)
    end
  end.

(** Waiting for the consenter, then handing it the message. *)
Definition submit (id : string) (c : C) (r : Registrar C) (send : C → outcome (option error * C))
    : outcome (blocking (Status * Registrar C)) :=
  match bs_WaitReady c with
  | Blocks => Done Blocks
  | Returns (Some _) => Done (Returns (SERVICE_UNAVAILABLE, r))
  | Returns None =>
    '(err, c') ← send c;
    let r := mkRegistrar (<[id := c']> (chains r)) (systemChannelID r) in
    Done (Returns (match err with Some _ => SERVICE_UNAVAILABLE | None => SUCCESS end, r))
  end.

(** [Handler.ProcessMessage]: the status of the response. *)
Definition ProcessMessage (msg : Envelope) (r : Registrar C)
    : outcome (blocking (Status * Registrar C)) :=
  match BroadcastChannelSupport msg r with
  | Err _ => Done (Returns (BAD_REQUEST, r))
  | Ok (id, isConfig) =>
    c ← or_panic "nil pointer dereference: ChainSupport" (chains r !! id);
    if isConfig : bool then
      res ← bs_ProcessConfigUpdateMsg c msg;
      match res with
      | Err e => Done (Returns (ClassifyError e, r))
      | Ok (config, configSeq) => submit id c r (bs_Configure config configSeq)
      end
    else
      res ← bs_ProcessNormalMsg c msg;
      match res with
      | Err e => Done (Returns (ClassifyError e, r))
      | Ok configSeq => submit id c r (bs_Order msg configSeq)
      end
  end.

(** [Handler.Handle] on the messages of a stream: the statuses sent back. It
    stops after the first that is not a success. *)
Fixpoint Handle (msgs : list Envelope) (r : Registrar C)
    : outcome (blocking (list Status * Registrar C)) :=
  match msgs with
  | [] => Done (Returns ([], r))
  | msg :: msgs =>
    resp ← ProcessMessage msg r;
    match resp with
    | Blocks => Done Blocks
    | Returns (status, r) =>
      if decide (status = SUCCESS) then
        rest ← Handle msgs r;
        match rest with
        | Blocks => Done Blocks
        | Returns (statuses, r) => Done (Returns (status :: statuses, r))
        end
      else Done (Returns ([status], r))
    end
  end.

(** ** What a response says *)

(** What became of a message that was handed to the consenter of channel [id]. *)
Definition handed (msg : Envelope) (id : string) (c c' : C) : Prop :=
  bs_WaitReady c = Returns None ∧
  ((∃ seq, bs_ProcessNormalMsg c msg = Done (Ok seq) ∧ bs_Order msg seq c = Done (None, c')) ∨
   (∃ config seq, bs_ProcessConfigUpdateMsg c msg = Done (Ok (config, seq)) ∧
     bs_Configure config seq c = Done (None, c'))).

Lemma submit_success id c r send r' :
  submit id c r send = Done (Returns (SUCCESS, r')) →
  ∃ c', bs_WaitReady c = Returns None ∧ send c = Done (None, c') ∧
    r' = mkRegistrar (<[id := c']> (chains r)) (systemChannelID r).
Proof.
  unfold submit. destruct (bs_WaitReady c) as [[e|]|]; [done| |done].
  intros ([[e|] c'] & Hs & [= <-])%bind_Done. eauto.
Qed.

Lemma ProcessMessage_success msg r r' :
  ProcessMessage msg r = Done (Returns (SUCCESS, r')) →
  ∃ chdr id c c', ChannelHeaderOf msg = Ok chdr ∧
    (id = ch_ChannelId chdr ∨ (chains r !! ch_ChannelId chdr = None ∧ systemChannelID r = Some id)) ∧
    chains r !! id = Some c ∧ handed msg id c c' ∧
    r' = mkRegistrar (<[id := c']> (chains r)) (systemChannelID r).
Proof.
  unfold ProcessMessage, BroadcastChannelSupport.
  destruct (ChannelHeaderOf msg) as [chdr|] eqn:Hh; [|done]. simpl.
  set (idr := match chains r !! ch_ChannelId chdr with Some _ => _ | None => _ end).
  destruct idr as [id|] eqn:Hid; [|done]. unfold idr in Hid. clear idr. simpl.
  assert (id = ch_ChannelId chdr ∨ (chains r !! ch_ChannelId chdr = None ∧ systemChannelID r = Some id)) as Hcase.
  { destruct (chains r !! ch_ChannelId chdr), (systemChannelID r); simplify_eq; auto. }
  destruct (ClassifyMsg chdr); [| |done]; intros (c & Hc%or_panic_Done & Hm)%bind_Done;
    apply bind_Done in Hm as ([x|e] & Hp & Hm);
    try (by unfold ClassifyError in Hm; repeat case_decide).
  - apply submit_success in Hm as (c' & Hw & Hs & ->). exists chdr, id, c, c'.
    refine (conj eq_refl (conj Hcase (conj Hc (conj (conj Hw (or_introl _)) eq_refl)))). eauto.
  - destruct x as [config seq]. apply submit_success in Hm as (c' & Hw & Hs & ->). exists chdr, id, c, c'.
    refine (conj eq_refl (conj Hcase (conj Hc (conj (conj Hw (or_intror _)) eq_refl)))). eauto.
Qed.
End broadcast.

(** ** Channels over HCS *)

Section hcs.
Context {S : Type} `{!ConsenterSupport S}.
Context `{!Codec ApplicationMessage, !Codec ApplicationSignature, !Codec ApplicationMessageChunk}.
Context `{!Codec HcsMessage, !Codec Envelope, !Codec Payload, !Codec ChannelHeader}.
Context (sha256 : bytes → bytes) (ed25519_Verify : bytes → bytes → bytes → bool).
Context (env : environment).
(** The message processor of a channel. *)
Context (processNormal : S → Envelope → fallible Z).
Context (processConfigUpdate : S → Envelope → fallible (Envelope * Z)).

#[local] Instance hcs_channel : BroadcastSupport (node S) := {|
  bs_ProcessNormalMsg n := processNormal (support n);
  bs_ProcessConfigUpdateMsg n := processConfigUpdate (support n);
  bs_WaitReady n := WaitReady (chain n);
  bs_Order := Order sha256 ed25519_Verify env;
  bs_Configure := Configure sha256 ed25519_Verify env
|}.

Abbreviation sent := (sent sha256 ed25519_Verify env).

Lemma Order_sends e seq n n' :
  Order (S:=S) sha256 ed25519_Verify env e seq n = Done (None, n') →
  sent (newNormalMessage (marshal e) seq 0) n n'.
Proof.
  unfold Order, order. intros ([[] h] & n1 & He & Hr)%M_bind_Done.
  2:{ apply M_bind_Done in Hr as (? & ? & _ & Hr). by injection Hr. }
  apply enqueue_sends in He. apply M_bind_Done in Hr as ([] & n2 & Hh & [= <-]).
  destruct h as [h|]; [|by injection Hh as <-]. injection Hh as <-. by eapply sent_trace.
Qed.

Lemma Configure_sends e seq n n' :
  Configure (S:=S) sha256 ed25519_Verify env e seq n = Done (None, n') →
  sent (newConfigMessage (marshal e) seq 0) n n'.
Proof.
  unfold Configure, configure. intros ([[] h] & n1 & He & Hr)%M_bind_Done; [|by injection Hr].
  injection Hr as <-. by apply enqueue_sends in He.
Qed.

(** C17. A client gets the response [SUCCESS] for a message only if the message
    reached HCS: its channel (or the system channel, when there is no such
    channel) accepted it under its current configuration, and every chunk of the
    HCS message that carries it, or the config transaction made from it, with
    the sequence number of that configuration, was submitted to the topic in
    order and accepted by the HCS client. Only that channel's state changed. *)
Theorem broadcast_success_submitted msg r r' :
  ProcessMessage msg r = Done (Returns (SUCCESS, r')) →
  ∃ chdr id n n', ChannelHeaderOf msg = Ok chdr ∧
    (id = ch_ChannelId chdr ∨ (chains r !! ch_ChannelId chdr = None ∧ systemChannelID r = Some id)) ∧
    chains r !! id = Some n ∧ chains r' = <[id := n']> (chains r) ∧
    WaitReady (chain n) = Returns None ∧
    ((∃ seq, processNormal (support n) msg = Done (Ok seq) ∧
        sent (newNormalMessage (marshal msg) seq 0) n n') ∨
     (∃ config seq, processConfigUpdate (support n) msg = Done (Ok (config, seq)) ∧
        sent (newConfigMessage (marshal config) seq 0) n n')).
Proof.
  intros (chdr & id & n & n' & Hh & Hid & Hn & [Hw Hcase] & ->)%ProcessMessage_success.
  exists chdr, id, n, n'. split_and!; try done.
  destruct Hcase as [(seq & Hp & Ho)|(config & seq & Hp & Ho)]; [left|right].
  - exists seq. split; [done|]. by apply Order_sends.
  - exists config, seq. split; [done|]. by apply Configure_sends.
Qed.
End hcs.
