(* ===== verification/ClientDemo.v ===== *)
(** * A computed update and a broadcast, evaluated

    The channel of [PolicyDemo] is to get a new value in its application group: the
    update is computed, signed by both organisations and proposed. A client's message is
    broadcast to the orderer of [HcsDemo]. *)

From Stdlib Require Import Ascii String Strings.Byte.
From stdpp Require Import gmap strings list.
From S2P Require Import Prelude Protos ConfigProtos Codecs GoLib BlockCutter Support Blocks BlockWriter BlockWriterDemo ChainSupport AppMsg AppMsgDemo HcsChain HcsDemo Cauthdsl PolicyManager PolicyDemo ConfigTx ConfigTree ConfigTxProps ConfigTxAuth ConfigTxDemo MsgProcessor Configtxlator ConfigtxlatorProps Broadcast.

(** ** A computed update *)

Section update.
Definition conv_application : ConfigGroup :=
  mkConfigGroup 0 (Groups demo_application) {[ "Anchor" := demo_anchor ]} (Policies demo_application) "Admins".

Definition conv_channel : ConfigGroup :=
  mkConfigGroup 0 {[ "Application" := conv_application ]} ∅ (Policies demo_channel) "Admins".

Definition conv_updated : Config := mkConfig 0 (Some conv_channel).

Definition conv_update : ConfigUpdate :=
  match Compute demo_current conv_updated with
  | Ok cu => cu
  | Err _ => mkConfigUpdate "" None None
  end.

#[local] Instance conv_ConfigUpdate : Codec ConfigUpdate := {|
  marshal _ := [x0c];
  unmarshal data :=
    if decide (data = [x0c]) then Some (mkConfigUpdate "ch" (ReadSet conv_update) (WriteSet conv_update)) else None
|}.

Definition conv_cue : ConfigUpdateEnvelope := mkConfigUpdateEnvelope [x0c] (demo_config_signature <$> ["A"; "B"]).

Definition conv_tx : Envelope :=
  let header := mkHeader (Some (marshal (mkChannelHeader HeaderType_CONFIG_UPDATE "ch" ""))) [] in
  mkEnvelope (marshal (mkPayload (Some header) (marshal conv_cue))) [].

Definition conv_signed : list SignedData :=
  match ConfigUpdateEnvelopeAsSignedData conv_cue with Ok sds => sds | Err _ => [] end.

(** The update touches the application group and nothing else. *)
Lemma conv_write_set :
  WriteSet conv_update = Some (mkConfigGroup 0
    {[ "Application" := mkConfigGroup 1
         {[ "Org1" := mkConfigGroup 0 ∅ ∅ ∅ ""; "Org2" := mkConfigGroup 0 ∅ ∅ ∅ "" ]} {[ "Anchor" := demo_anchor ]}
         {[ "Admins" := mkConfigPolicy 0 None ""; "Odd" := mkConfigPolicy 0 None "" ]} "Admins" ]} ∅ ∅ "").
Proof. vm_compute. reflexivity. Qed.

Lemma computed_update_exact_witness :
  ∃ ce, ProposeConfigUpdate demo_vi (Some conv_tx) = Done (Ok ce) ∧
    namesOk conv_channel ∧ permitted demo_vi demo_channel conv_channel conv_signed ∧
    ∃ upgraded : bool, ce_Config ce = Some (mkConfig 5
      (Some ((if upgraded then upgradeTree else id) (nextTree conv_channel (Some demo_channel))))).
Proof.
  assert (built (ProposeConfigUpdate demo_vi (Some conv_tx)) = true) as Hb by reflexivity.
  destruct (computed_update_exact "ch" demo_current "Channel" demo_pm demo_vi demo_channel conv_updated conv_channel
    conv_update conv_tx conv_cue conv_signed) as (Hacc & _ & Hres).
  - exact demo_validator_built.
  - reflexivity.
  - reflexivity.
  - reflexivity.
  - reflexivity.
  - reflexivity.
  - reflexivity.
  - destruct (ProposeConfigUpdate demo_vi (Some conv_tx)) as [[ce|]|] eqn:E; [|discriminate Hb..].
    exists ce. split; [reflexivity|]. destruct Hacc as [Hacc _]. destruct Hacc as [Hn Hp]; [by exists ce|].
    split; [exact Hn|]. split; [exact Hp|]. exact (Hres ce eq_refl).
Defined.
End update.

(** ** A broadcast *)

Section broadcast.
Definition cast_registrar : Registrar (node demo_state) :=
  mkRegistrar {[ "ch" := demo_n x01 true ]} None.

(** A message for the channel of the given ID. *)
Definition cast_message (id : string) : Envelope :=
  mkEnvelope (marshal (mkPayload
    (Some (mkHeader (Some (marshal (mkChannelHeader HeaderType_ENDORSER_TRANSACTION id ""))) [])) [x2a])) [].

(** The network is busy on the first attempt. *)
Definition cast_env : environment :=
  mkEnvironment (λ n, 10 ^ 10 + Z.of_nat n)
    (λ n _, if (n <? 7)%nat then Some (ErrHederaPreCheckStatus StatusBusy) else None)
    (λ _, None) [x01] (λ m, x01 :: m).

Definition cast_normal (s : demo_state) (e : Envelope) : fallible Z := ok (dc_sequence (bundle (chan s))).
Definition cast_config (s : demo_state) (e : Envelope) : fallible (Envelope * Z) := fail "no updates".

#[local] Instance cast_channel : BroadcastSupport (node demo_state) :=
  hcs_channel demo_sum demo_verify cast_env cast_normal cast_config.

Definition statusOf (o : outcome (blocking (Status * Registrar (node demo_state)))) : option Status :=
  match o with Done (Returns (s, _)) => Some s | _ => None end.

Lemma cast_unknown : statusOf (ProcessMessage (cast_message "other") cast_registrar) = Some BAD_REQUEST.
Proof. reflexivity. Qed.

(** The message is submitted, although the network is busy at first. *)
Lemma broadcast_success_submitted_witness :
  ∃ r' n', ProcessMessage (cast_message "ch") cast_registrar = Done (Returns (SUCCESS, r')) ∧
    chains r' = {[ "ch" := n' ]} ∧
    sent demo_sum demo_verify cast_env (newNormalMessage (marshal (cast_message "ch")) 0 0)
      (demo_n x01 true) n'.
Proof.
  assert (statusOf (ProcessMessage (cast_message "ch") cast_registrar) = Some SUCCESS) as Hs by reflexivity.
  destruct (ProcessMessage (cast_message "ch") cast_registrar) as [[[status r']|]|] eqn:E; [|discriminate Hs..].
  injection Hs as ->.
  destruct (broadcast_success_submitted demo_sum demo_verify cast_env cast_normal cast_config
    (cast_message "ch") cast_registrar r' E) as (chdr & id & n & n' & Hh & Hid & Hn & Hr & _ & Hc).
  assert (id = "ch") as ->.
  { injection Hh as <-. destruct Hid as [Hid|[_ [=]]]. exact Hid. }
  assert (demo_n x01 true = n) as <-.
  { apply (inj Some). exact (eq_trans (eq_sym (lookup_singleton_eq "ch" _)) Hn). }
  exists r', n'. split; [reflexivity|]. split; [exact Hr|].
  destruct Hc as [(seq & Hseq & Hsent)|(? & ? & [=] & _)].
  assert (dc_sequence (bundle (chan (support (demo_n x01 true)))) = 0) as Hz by by_conv.
  unfold cast_normal, ok in Hseq. rewrite Hz in Hseq. injection Hseq as <-. exact Hsent.
Defined.
End broadcast.
