(* ===== verification/Varint.v ===== *)
(** * Variable-length integers

    The encodings of integers in block files and database keys: protobuf varints
    and length-prefixed bytes (the vendored [protowire] package, reached through
    [proto.EncodeVarint], [proto.DecodeVarint] and [proto.Buffer]) and the
    order-preserving encoding of [common/ledger/util/util.go]. *)

From stdpp Require Import gmap strings list.
From Stdlib Require Import Strings.Byte.
From S2P Require Import Prelude Blocks.

(** ** Varints *)

(** [protowire.AppendVarint], whose cases are the unrolled loop: seven bits a byte,
    the lowest first, the top bit of a byte telling that more follow. A [uint64]
    has at most ten bytes. *)
Fixpoint varintBytes (fuel : nat) (v : Z) : bytes :=
  match fuel with
  | O => []
  | S fuel =>
    if v <? 128 then [byte_of_Z v]
    else byte_of_Z (Z.lor (Z.land v 127) 128) :: varintBytes fuel (Z.shiftr v 7)
  end.

Definition EncodeVarint (v : Z) : bytes := varintBytes 10 v.

(** [protowire.ConsumeVarint]: the value and the number of bytes read. The tenth
    byte may only be 0 or 1. [None] is a negative length, an error. *)
Fixpoint consumeVarint (more : nat) (b : bytes) : option (Z * nat) :=
  match b with
  | [] => None
  | y :: b =>
    match more with
    | O => if Z_of_byte y <? 2 then Some (Z_of_byte y, 1%nat) else None
    | S more =>
      if Z_of_byte y <? 128 then Some (Z_of_byte y, 1%nat)
      else '(v, n) ← consumeVarint more b; Some (Z_of_byte y - 128 + Z.shiftl v 7, S n)
    end
  end.

Definition ConsumeVarint (b : bytes) : option (Z * nat) := consumeVarint 9 b.

(** [proto.DecodeVarint]: (0, 0) on an error. *)
Definition DecodeVarint (b : bytes) : Z * nat := default (0, 0%nat) (ConsumeVarint b).

(** [Buffer.EncodeRawBytes] *)
Definition EncodeRawBytes (b : bytes) : bytes := EncodeVarint (blen b) ++ b.

(** [protowire.ConsumeBytes] *)
Definition ConsumeBytes (b : bytes) : option (bytes * nat) :=
  '(m, n) ← ConsumeVarint b;
  if m >? blen (drop n b) then None else Some (take (Z.to_nat m) (drop n b), (n + Z.to_nat m)%nat).

(** ** The order-preserving encoding *)

(** [binary.BigEndian.PutUint64] and [Uint64], for any number of bytes. *)
Fixpoint bigEndian (size : nat) (n : Z) : bytes :=
  match size with
  | O => []
  | S size => byte_of_Z (n / 256 ^ Z.of_nat size) :: bigEndian size n
  end.

(** The bytes from the first that is not zero. *)
Fixpoint trimZeros (b : bytes) : bytes :=
  match b with
  | [] => []
  | x :: b' => if decide (x = x00) then trimZeros b' else b
  end.

Definition EncodeOrderPreservingVarUint64 (number : Z) : bytes :=
  let trimmed := trimZeros (bigEndian 8 number) in
  byte_of_Z (blen trimmed) :: trimmed.

(** The number and how many bytes it took. *)
Definition DecodeOrderPreservingVarUint64 (b : bytes) : res (Z * nat) :=
  let '(s, numBytes) := DecodeVarint b in
  if decide (numBytes ≠ 1%nat)
  then Err (Errorf "number of consumed bytes from DecodeVarint is invalid")
  else if s >? 8 then Err (Errorf "decoded size from DecodeVarint is invalid")
  else if s >? blen b - 1 then Err (Errorf "decoded size from DecodeVarint is more than available bytes")
  else Ok (be_value (take (Z.to_nat s) (drop 1 b)), S (Z.to_nat s)).

(** [bytes.Compare], the order of the keys of the database. *)
Fixpoint bytesCompare (a b : bytes) : comparison :=
  match a, b with
  | [], [] => Eq
  | [], _ :: _ => Lt
  | _ :: _, [] => Gt
  | x :: a, y :: b =>
    match Z.compare (Z_of_byte x) (Z_of_byte y) with
    | Eq => bytesCompare a b
    | c => c
    end
  end.

(** ** Varints round trip *)

Lemma Z_of_byte_range b : 0 <= Z_of_byte b < 256.
Proof. unfold Z_of_byte. pose proof (Byte.to_N_bounded b). lia. Qed.

Lemma byte_of_Z_of_byte b : byte_of_Z (Z_of_byte b) = b.
Proof.
  unfold byte_of_Z. rewrite Z.mod_small by apply Z_of_byte_range.
  unfold Z_of_byte. rewrite N2Z.id, Byte.of_to_N. done.
Qed.

Lemma Z_of_byte_inj a b : Z_of_byte a = Z_of_byte b → a = b.
Proof. intros H. by rewrite <- (byte_of_Z_of_byte a), H, byte_of_Z_of_byte. Qed.

Lemma low_bits v : Z.lor (Z.land v 127) 128 = v mod 128 + 128.
Proof.
  change 127 with (Z.ones 7). rewrite Z.land_ones by lia. change (2 ^ 7) with 128.
  rewrite <- Z.lxor_lor, <- Z.add_nocarry_lxor; [done|..].
  all: apply Z.bits_inj'; intros n Hn; rewrite Z.land_spec, Z.bits_0.
  all: assert (Z.testbit 128 n = bool_decide (n = 7)) as ->;
    [change 128 with (2 ^ 7); rewrite Z.pow2_bits_eqb by lia; destruct (Z.eqb_spec 7 n); symmetry;
      [apply bool_decide_eq_true_2|apply bool_decide_eq_false_2]; lia|].
  all: case_bool_decide; [|by rewrite andb_false_r]; subst n.
  all: change 128 with (2 ^ 7); by rewrite Z.mod_pow2_bits_high by lia.
Qed.

Lemma varint_step v :
  128 <= v →
  Z_of_byte (byte_of_Z (Z.lor (Z.land v 127) 128)) = v mod 128 + 128 ∧ Z.shiftr v 7 = v / 128.
Proof.
  intros Hv. rewrite low_bits, Z_of_byte_of_Z, Z.shiftr_div_pow2 by lia. change (2 ^ 7) with 128.
  pose proof (Z.mod_pos_bound v 128). rewrite Z.mod_small by lia. done.
Qed.

Lemma varintBytes_S fuel v :
  varintBytes (S fuel) v =
    if v <? 128 then [byte_of_Z v]
    else byte_of_Z (Z.lor (Z.land v 127) 128) :: varintBytes fuel (Z.shiftr v 7).
Proof. done. Qed.

Lemma consume_varint more v rest :
  0 <= v < 128 ^ Z.of_nat more * 2 →
  consumeVarint more (varintBytes (S more) v ++ rest) = Some (v, length (varintBytes (S more) v)).
Proof.
  revert v. induction more as [|more IH]; intros v Hv.
  - simpl in Hv. rewrite varintBytes_S. destruct (Z.ltb_spec v 128); [|lia]. simpl.
    rewrite Z_of_byte_of_Z, Z.mod_small by lia. by destruct (Z.ltb_spec v 2); [|lia].
  - rewrite Nat2Z.inj_succ, Z.pow_succ_r in Hv by lia. rewrite varintBytes_S.
    destruct (Z.ltb_spec v 128) as [Hlt|Hge].
    + simpl. rewrite Z_of_byte_of_Z, Z.mod_small by lia. by destruct (Z.ltb_spec v 128); [|lia].
    + destruct (varint_step v Hge) as [Hb Hs]. cbn [app consumeVarint]. rewrite Hb.
      pose proof (Z.mod_pos_bound v 128). destruct (Z.ltb_spec (v mod 128 + 128) 128); [lia|].
      rewrite Hs, IH by (split; [apply Z.div_pos; lia|apply Z.div_lt_upper_bound; lia]).
      simpl. f_equal. f_equal. rewrite Z.shiftl_mul_pow2 by lia. change (2 ^ 7) with 128.
      pose proof (Z.div_mod v 128). lia.
Qed.

(** A varint that is cut short is an error. *)
Lemma consume_truncated more v k :
  0 <= v → (k < length (varintBytes (S more) v))%nat → consumeVarint more (take k (varintBytes (S more) v)) = None.
Proof.
  revert v k. induction more as [|more IH]; intros v k Hv; rewrite varintBytes_S;
    destruct (Z.ltb_spec v 128) as [Hlt|Hge]; cbn [length]; intros Hk; destruct k as [|k]; try done; try lia;
    destruct (varint_step v Hge) as [Hb Hs]; pose proof (Z.mod_pos_bound v 128); cbn [take consumeVarint]; rewrite Hb.
  - by destruct (Z.ltb_spec (v mod 128 + 128) 2); [lia|].
  - destruct (Z.ltb_spec (v mod 128 + 128) 128); [lia|].
    rewrite Hs in *. rewrite IH; [done|apply Z.div_pos; lia|lia].
Qed.

Lemma ConsumeVarint_encode v rest :
  is_u64 v → ConsumeVarint (EncodeVarint v ++ rest) = Some (v, length (EncodeVarint v)).
Proof.
  intros Hv. assert (128 ^ Z.of_nat 9 * 2 = 2 ^ 64) as E by reflexivity.
  unfold ConsumeVarint, EncodeVarint. apply (consume_varint 9). rewrite E. exact Hv.
Qed.

Lemma consumeVarint_length more b v n : consumeVarint more b = Some (v, n) → (0 < n <= length b)%nat.
Proof.
  revert b v n. induction more as [|more IH]; intros [|y b] v n; [done| |done|]; cbn [consumeVarint].
  - destruct (_ <? _); [|done]. intros [= _ <-]. simpl. lia.
  - destruct (_ <? _); [intros [= _ <-]; simpl; lia|].
    destruct (consumeVarint more b) as [[w k]|] eqn:E; [|done]. cbn [mbind option_bind].
    intros [= _ <-]. apply IH in E. simpl. lia.
Qed.

Lemma ConsumeVarint_truncated v k :
  0 <= v → (k < length (EncodeVarint v))%nat → ConsumeVarint (take k (EncodeVarint v)) = None.
Proof. unfold ConsumeVarint, EncodeVarint. apply (consume_truncated 9). Qed.

Lemma EncodeVarint_length v (k : nat) :
  0 <= v < 128 ^ Z.of_nat k → (0 < k)%nat → (k <= 10)%nat → (1 <= length (EncodeVarint v) <= k)%nat.
Proof.
  unfold EncodeVarint. cut (∀ fuel, (0 < k)%nat → (k <= fuel)%nat → ∀ v, 0 <= v < 128 ^ Z.of_nat k →
    (1 <= length (varintBytes fuel v) <= k)%nat); [intros H ? ? ?; by apply H|]. clear v.
  induction k as [|k IH]; intros fuel Hk Hf v Hv; [lia|]. destruct fuel as [|fuel]; [lia|].
  rewrite Nat2Z.inj_succ, Z.pow_succ_r in Hv by lia. rewrite varintBytes_S.
  destruct (Z.ltb_spec v 128); simpl; [lia|]. destruct (varint_step v) as [_ ->]; [done|].
  destruct k as [|k]; [simpl in Hv; lia|].
  specialize (IH fuel ltac:(lia) ltac:(lia) (v / 128)).
  assert (0 <= v / 128 < 128 ^ Z.of_nat (S k)) by (split; [apply Z.div_pos; lia|apply Z.div_lt_upper_bound; lia]).
  specialize (IH ltac:(done)). lia.
Qed.

Lemma ConsumeBytes_encode b rest :
  blen b < 2 ^ 64 → ConsumeBytes (EncodeRawBytes b ++ rest) = Some (b, length (EncodeRawBytes b)).
Proof.
  intros Hb. unfold ConsumeBytes, EncodeRawBytes. rewrite <- app_assoc.
  rewrite ConsumeVarint_encode by (unfold is_u64, blen in *; lia). simpl.
  rewrite drop_app_length. assert (blen b >? blen (b ++ rest) = false) as ->.
  { unfold blen. rewrite length_app, Z.gtb_ltb. apply Z.ltb_ge. lia. }
  unfold blen. rewrite Nat2Z.id, take_app_length, length_app. done.
Qed.

(** ** The order-preserving encoding *)

Lemma bigEndian_length k n : length (bigEndian k n) = k.
Proof. induction k as [|k IH]; simpl; [done|]. by rewrite IH. Qed.

Lemma be_value_cons x b : be_value (x :: b) = Z_of_byte x * 256 ^ blen b + be_value b.
Proof. unfold be_value at 1. simpl foldl. by rewrite be_value_from. Qed.

Lemma be_value_range b : 0 <= be_value b < 256 ^ blen b.
Proof.
  induction b as [|x b IH]; [done|]. rewrite be_value_cons. pose proof (Z_of_byte_range x).
  unfold blen in *. rewrite length_cons, Nat2Z.inj_succ, Z.pow_succ_r by lia. nia.
Qed.

Lemma be_value_bigEndian k n : 0 <= n → be_value (bigEndian k n) = n mod 256 ^ Z.of_nat k.
Proof.
  intros Hn. induction k as [|k IH]; [by rewrite Z.mod_1_r|].
  cbn [bigEndian]. rewrite be_value_cons, IH, Z_of_byte_of_Z. unfold blen. rewrite bigEndian_length.
  rewrite Nat2Z.inj_succ, Z.pow_succ_r by lia. set (p := 256 ^ Z.of_nat k).
  assert (0 < p) by (apply Z.pow_pos_nonneg; lia).
  rewrite (Z.mul_comm 256 p), Z.rem_mul_r by lia. lia.
Qed.

Lemma be_value_trim b : be_value (trimZeros b) = be_value b.
Proof.
  induction b as [|x b IH]; [done|]. cbn [trimZeros]. case_decide as E; [|done]. subst x.
  rewrite IH, be_value_cons. by change (Z_of_byte x00) with 0.
Qed.

Lemma trim_length b : (length (trimZeros b) <= length b)%nat.
Proof. induction b as [|x b IH]; [done|]. cbn [trimZeros]. case_decide; simpl; lia. Qed.

(** A number without leading zeros has as many bytes as it needs. *)
Lemma trim_bounds b :
  trimZeros b = [] ∨ 256 ^ (blen (trimZeros b) - 1) <= be_value b < 256 ^ blen (trimZeros b).
Proof.
  induction b as [|x b IH]; [by left|]. cbn [trimZeros]. case_decide as E.
  - subst x. destruct IH as [->|IH]; [by left|]. right. rewrite be_value_cons.
    change (Z_of_byte x00) with 0. by rewrite Z.mul_0_l.
  - right. pose proof (be_value_range (x :: b)) as Hr. split; [|apply Hr].
    rewrite be_value_cons. unfold blen. rewrite length_cons, Nat2Z.inj_succ, Z.sub_1_r, Z.pred_succ.
    pose proof (be_value_range b). pose proof (Z_of_byte_range x).
    assert (Z_of_byte x ≠ 0) by (intros Hx; apply E, Z_of_byte_inj; by rewrite Hx).
    unfold blen in *. nia.
Qed.

Lemma trimmed_number n :
  is_u64 n →
  let t := trimZeros (bigEndian 8 n) in
  be_value t = n ∧ (length t <= 8)%nat ∧ (t = [] ∧ n = 0 ∨ 256 ^ (blen t - 1) <= n < 256 ^ blen t).
Proof.
  intros Hn t. assert (be_value (bigEndian 8 n) = n) as Hv.
  { rewrite be_value_bigEndian by apply Hn. apply Z.mod_small. exact Hn. }
  split; [|split].
  - unfold t. by rewrite be_value_trim.
  - unfold t. pose proof (trim_length (bigEndian 8 n)) as H. by rewrite bigEndian_length in H.
  - pose proof (trim_bounds (bigEndian 8 n)) as Hb. fold t in Hb. rewrite Hv in Hb.
    destruct Hb as [Ht|Hb]; [left|by right]. split; [done|]. rewrite <- Hv, <- be_value_trim. fold t. by rewrite Ht.
Qed.

Lemma ConsumeVarint_small b : Z_of_byte b < 128 → ∀ rest, ConsumeVarint (b :: rest) = Some (Z_of_byte b, 1%nat).
Proof. intros H rest. unfold ConsumeVarint. cbn [consumeVarint]. by rewrite (proj2 (Z.ltb_lt _ _) H). Qed.

Lemma DecodeOrderPreserving_encode n rest :
  is_u64 n →
  DecodeOrderPreservingVarUint64 (EncodeOrderPreservingVarUint64 n ++ rest)
    = Ok (n, length (EncodeOrderPreservingVarUint64 n)).
Proof.
  intros Hn. destruct (trimmed_number n Hn) as (Hv & Hl & _).
  unfold DecodeOrderPreservingVarUint64, DecodeVarint, EncodeOrderPreservingVarUint64.
  set (t := trimZeros (bigEndian 8 n)) in *. clearbody t.
  assert (Z_of_byte (byte_of_Z (blen t)) = blen t) as Hb.
  { rewrite Z_of_byte_of_Z. apply Z.mod_small. unfold blen. lia. }
  cbn [app]. rewrite ConsumeVarint_small by (rewrite Hb; unfold blen; lia). rewrite Hb. cbn [from_option id].
  rewrite decide_False by naive_solver.
  assert (blen t >? 8 = false) as -> by (rewrite Z.gtb_ltb; apply Z.ltb_ge; unfold blen; lia).
  assert (blen t >? blen (byte_of_Z (blen t) :: t ++ rest) - 1 = false) as ->.
  { rewrite Z.gtb_ltb. apply Z.ltb_ge. unfold blen. rewrite length_cons, length_app. lia. }
  rewrite skipn_cons, drop_0. unfold blen. rewrite Nat2Z.id, take_app_length, Hv. done.
Qed.

(** Encodings of the same length compare as numbers. *)
Lemma bytesCompare_value a b ra rb :
  length a = length b →
  bytesCompare (a ++ ra) (b ++ rb) =
    match Z.compare (be_value a) (be_value b) with Eq => bytesCompare ra rb | c => c end.
Proof.
  revert b. induction a as [|x a IH]; intros [|y b] Hl; try done.
  injection Hl as Hl. cbn [app bytesCompare]. rewrite IH by done. rewrite !be_value_cons.
  pose proof (be_value_range a) as Ha. pose proof (be_value_range b) as Hb. unfold blen in *. rewrite Hl in *.
  destruct (Z.compare_spec (Z_of_byte x) (Z_of_byte y)) as [->|H|H].
  - by rewrite Z.add_compare_mono_l.
  - assert (Z_of_byte x * 256 ^ Z.of_nat (length b) + be_value a
      < Z_of_byte y * 256 ^ Z.of_nat (length b) + be_value b) as Hlt by nia.
    by apply Z.compare_lt_iff in Hlt as ->.
  - assert (Z_of_byte y * 256 ^ Z.of_nat (length b) + be_value b
      < Z_of_byte x * 256 ^ Z.of_nat (length b) + be_value a) as Hlt by nia.
    by apply Z.compare_gt_iff in Hlt as ->.
Qed.

(** Keys that start with encoded numbers are ordered by them. *)
Lemma OrderPreserving_compare n m rn rm :
  is_u64 n → is_u64 m →
  bytesCompare (EncodeOrderPreservingVarUint64 n ++ rn) (EncodeOrderPreservingVarUint64 m ++ rm) =
    match Z.compare n m with Eq => bytesCompare rn rm | c => c end.
Proof.
  intros Hn Hm. destruct (trimmed_number n Hn) as (Hvn & Hln & Hbn).
  destruct (trimmed_number m Hm) as (Hvm & Hlm & Hbm).
  unfold EncodeOrderPreservingVarUint64.
  set (t := trimZeros (bigEndian 8 n)) in *. set (s := trimZeros (bigEndian 8 m)) in *. clearbody t s.
  cbn [app bytesCompare]. rewrite !Z_of_byte_of_Z, !Z.mod_small by (unfold blen; lia).
  destruct (Z.compare_spec (blen t) (blen s)) as [He|Hlt|Hgt].
  - rewrite bytesCompare_value by (unfold blen in He; lia). by rewrite Hvn, Hvm.
  - assert (n < m) as H; [|by apply Z.compare_lt_iff in H as ->].
    destruct Hbm as [[-> _]|Hbm]; [unfold blen in Hlt; simpl in Hlt; lia|].
    assert (256 ^ blen t <= 256 ^ (blen s - 1)) by (apply Z.pow_le_mono_r; lia).
    destruct Hbn as [[-> ->]|Hbn]; [|lia]. assert (0 < 256 ^ (blen s - 1)); [|lia].
    apply Z.pow_pos_nonneg; unfold blen in *; simpl in *; lia.
  - assert (m < n) as H; [|by apply Z.compare_gt_iff in H as ->].
    destruct Hbn as [[-> _]|Hbn]; [unfold blen in Hgt; simpl in Hgt; lia|].
    assert (256 ^ blen s <= 256 ^ (blen t - 1)) by (apply Z.pow_le_mono_r; lia).
    destruct Hbm as [[-> ->]|Hbm]; [|lia]. assert (0 < 256 ^ (blen t - 1)); [|lia].
    apply Z.pow_pos_nonneg; unfold blen in *; simpl in *; lia.
Qed.

(** The order-preserving encoding of [uint64]s: decoding gives back the
    number and the length of its encoding, whatever follows, and the bytewise
    order of encodings is the order of the numbers. *)
Theorem order_preserving_varint n m rest :
  is_u64 n → is_u64 m →
  DecodeOrderPreservingVarUint64 (EncodeOrderPreservingVarUint64 n ++ rest)
    = Ok (n, length (EncodeOrderPreservingVarUint64 n)) ∧
  bytesCompare (EncodeOrderPreservingVarUint64 n) (EncodeOrderPreservingVarUint64 m) = Z.compare n m.
Proof.
  intros Hn Hm. split; [by apply DecodeOrderPreserving_encode|].
  rewrite <- (app_nil_r (EncodeOrderPreservingVarUint64 n)), <- (app_nil_r (EncodeOrderPreservingVarUint64 m)).
  rewrite OrderPreserving_compare by done. by destruct (n ?= m).
Qed.

Lemma order_preserving_varint_witness :
  DecodeOrderPreservingVarUint64 (EncodeOrderPreservingVarUint64 258 ++ [x07]) = Ok (258, 3%nat) ∧
  bytesCompare (EncodeOrderPreservingVarUint64 258) (EncodeOrderPreservingVarUint64 255) = Gt.
Proof. apply (order_preserving_varint 258 255 [x07]); unfold is_u64; lia. Defined.
