(* ===== verification/BlockSerialization.v ===== *)
(** * Serialisation of blocks

    [common/ledger/blkstorage/block_serialization.go] and [protobuf_util.go]: a
    block as the bytes that block files hold, and the places of its transactions
    in them. [serialize_roundtrip]: what is read back is the block that was
    written, and the recorded places are those of the transactions. *)

From stdpp Require Import gmap strings list.
From Stdlib Require Import Strings.Byte.
From S2P Require Import Prelude Protos GoLib Blocks Varint.

(** A place in a file or in a block. *)
Record locPointer := mkLocPointer { lp_offset : Z; lp_bytesLength : Z }.

Record txindexInfo := mkTxindexInfo { ti_txID : string; ti_loc : locPointer }.

Record serializedBlockInfo := mkSerializedBlockInfo {
  sbi_blockHeader : BlockHeader;
  sbi_txOffsets : list txindexInfo;
  sbi_metadata : list bytes
}.

(** [protowire.SizeVarint], with [bits.Len64]. *)
Definition Len64 (v : Z) : Z := if v =? 0 then 0 else Z.log2 v + 1.
Definition SizeVarint (v : Z) : Z := (9 * Len64 v + 64) / 64.

(** ** The reading buffer: the unread bytes and the position *)

Record buffer := mkBuffer { buf_unread : bytes; buf_position : Z }.

Definition newBuffer (b : bytes) : buffer := mkBuffer b 0.

Definition buffer_DecodeVarint (b : buffer) : res (Z * buffer) :=
  match ConsumeVarint (buf_unread b) with
  | None => Err (Errorf "error decoding varint with proto.Buffer")
  | Some (val, n) => Ok (val, mkBuffer (drop n (buf_unread b)) (buf_position b + SizeVarint val))
  end.

Definition buffer_DecodeRawBytes (b : buffer) : res (bytes * buffer) :=
  match ConsumeBytes (buf_unread b) with
  | None => Err (Errorf "error decoding raw bytes with proto.Buffer")
  | Some (val, n) =>
    Ok (val, mkBuffer (drop n (buf_unread b)) (buf_position b + (SizeVarint (blen val) + blen val)))
  end.

Section serialization.
Context `{!Codec Envelope, !Codec Payload, !Codec ChannelHeader, !Codec SignatureHeader}.
Context (sha256 : bytes → bytes).

(** [protoutil.ComputeTxID] *)
Definition ComputeTxID (nonce creator : bytes) : string := EncodeToString (sha256 (nonce ++ creator)).

(** [protoutil.GetOrComputeTxIDFromEnvelope] *)
Definition GetOrComputeTxIDFromEnvelope (txEnvelopBytes : bytes) : res string :=
  txEnvelope ← wrap "error getting txID from envelope" (UnmarshalEnvelope txEnvelopBytes);
  txPayload ← wrap "error getting txID from payload" (UnmarshalPayload (env_Payload txEnvelope));
  header ← or_err "error getting txID from header: payload header is nil" (pl_Header txPayload);
  chdr ← wrap "error getting txID from channel header" (UnmarshalChannelHeader (nb (h_ChannelHeader header)));
  if decide (ch_TxId chdr ≠ "") then Ok (ch_TxId chdr)
  else
    sighdr ← or_err "error getting nonce and creator for computing txID"
      (unmarshal (A:=SignatureHeader) (h_SignatureHeader header));
    Ok (ComputeTxID (sh_Nonce sighdr) (sh_Creator sighdr)).

(** The ID of a transaction, empty when it is malformed. *)
Definition txIDOf (tx : bytes) : string :=
  match GetOrComputeTxIDFromEnvelope tx with Ok id => id | Err _ => "" end.

(** ** Writing *)

Definition rawItems (items : list bytes) : bytes := concat (EncodeRawBytes <$> items).

Definition addHeaderBytes (blockHeader : BlockHeader) (buf : bytes) : bytes :=
  buf ++ EncodeVarint (hdr_Number blockHeader) ++ EncodeRawBytes (hdr_DataHash blockHeader)
      ++ EncodeRawBytes (hdr_PreviousHash blockHeader).

(** The loop over the transactions, with the bytes written so far. *)
Fixpoint addTransactions (txs : list bytes) (buf : bytes) : bytes * list txindexInfo :=
  match txs with
  | [] => (buf, [])
  | tx :: txs =>
    let offset := blen buf in
    let buf := buf ++ EncodeRawBytes tx in
    let info := mkTxindexInfo (txIDOf tx) (mkLocPointer offset (blen buf - offset)) in
    let '(buf, infos) := addTransactions txs buf in
    (buf, info :: infos)
  end.

Definition addDataBytesAndConstructTxIndexInfo (blockData : option (list bytes)) (buf : bytes)
    : outcome (bytes * list txindexInfo) :=
  data ← or_panic "nil pointer dereference: blockData.Data" blockData;
  Done (addTransactions data (buf ++ EncodeVarint (Z.of_nat (length data)))).

(** The number of items is guarded against missing metadata, the loop over the
    items is not. *)
Definition addMetadataBytes (blockMetadata : option (list bytes)) (buf : bytes) : outcome bytes :=
  let numItems := match blockMetadata with Some metadata => Z.of_nat (length metadata) | None => 0 end in
  let buf := buf ++ EncodeVarint numItems in
  metadata ← or_panic "nil pointer dereference: blockMetadata.Metadata" blockMetadata;
  Done (buf ++ rawItems metadata).

Definition serializeBlock (block : Block) : outcome (bytes * serializedBlockInfo) :=
  let buf := addHeaderBytes (blk_Header block) [] in
  '(buf, txOffsets) ← addDataBytesAndConstructTxIndexInfo (blk_Data block) buf;
  buf ← addMetadataBytes (blk_Metadata block) buf;
  Done (buf, mkSerializedBlockInfo (blk_Header block) txOffsets (default [] (blk_Metadata block))).

(** ** Reading *)

Definition extractHeader (b : buffer) : res (BlockHeader * buffer) :=
  '(number, b) ← wrap "error decoding the block number" (buffer_DecodeVarint b);
  '(dataHash, b) ← wrap "error decoding the data hash" (buffer_DecodeRawBytes b);
  '(previousHash, b) ← wrap "error decoding the previous hash" (buffer_DecodeRawBytes b);
  Ok (mkBlockHeader number previousHash dataHash, b).

(** The loop over [numItems] transactions. Every item takes a byte or more, so as
    much fuel as there are bytes is enough ([extractTransactions_fuel],
    [extractItems_fuel]). *)
Fixpoint extractTransactions (fuel : nat) (numItems : Z) (b : buffer)
    : res (list bytes * list txindexInfo * buffer) :=
  if numItems <=? 0 then Ok ([], [], b)
  else match fuel with
  | O => Err (Errorf "out of fuel")
  | S fuel =>
    let txOffset := buf_position b in
    '(tx, b) ← wrap "error decoding the transaction envelope" (buffer_DecodeRawBytes b);
    let info := mkTxindexInfo (txIDOf tx) (mkLocPointer txOffset (buf_position b - txOffset)) in
    '(txs, infos, b) ← extractTransactions fuel (numItems - 1) b;
    Ok (tx :: txs, info :: infos, b)
  end.

Definition extractData (b : buffer) : res (list bytes * list txindexInfo * buffer) :=
  '(numItems, b) ← wrap "error decoding the length of block data" (buffer_DecodeVarint b);
  extractTransactions (S (length (buf_unread b))) numItems b.

Fixpoint extractItems (fuel : nat) (numItems : Z) (b : buffer) : res (list bytes * buffer) :=
  if numItems <=? 0 then Ok ([], b)
  else match fuel with
  | O => Err (Errorf "out of fuel")
  | S fuel =>
    '(item, b) ← wrap "error decoding the block metadata" (buffer_DecodeRawBytes b);
    '(items, b) ← extractItems fuel (numItems - 1) b;
    Ok (item :: items, b)
  end.

Definition extractMetadata (b : buffer) : res (list bytes * buffer) :=
  '(numItems, b) ← wrap "error decoding the length of block metadata" (buffer_DecodeVarint b);
  extractItems (S (length (buf_unread b))) numItems b.

Definition deserializeBlock (serializedBlockBytes : bytes) : res Block :=
  let b := newBuffer serializedBlockBytes in
  '(header, b) ← extractHeader b;
  '(data, _, b) ← extractData b;
  '(metadata, _) ← extractMetadata b;
  Ok (mkBlock header (Some data) (Some metadata)).

Definition extractSerializedBlockInfo (serializedBlockBytes : bytes) : res serializedBlockInfo :=
  let b := newBuffer serializedBlockBytes in
  '(header, b) ← extractHeader b;
  '(_, txOffsets, b) ← extractData b;
  '(metadata, _) ← extractMetadata b;
  Ok (mkSerializedBlockInfo header txOffsets metadata).

(** ** The size of a varint *)

Lemma length_varint fuel v (k : nat) :
  0 <= v < 128 ^ Z.of_nat (S k) → (k = 0%nat ∨ 128 ^ Z.of_nat k <= v) → (k < fuel)%nat →
  length (varintBytes fuel v) = S k.
Proof.
  revert v k. induction fuel as [|fuel IH]; intros v k Hv Hk Hf; [lia|]. rewrite varintBytes_S.
  rewrite Nat2Z.inj_succ, Z.pow_succ_r in Hv by lia.
  destruct (Z.ltb_spec v 128) as [Hlt|Hge].
  - destruct k as [|k]; [done|]. destruct Hk as [|Hk]; [done|].
    rewrite Nat2Z.inj_succ, Z.pow_succ_r in Hk by lia. assert (0 < 128 ^ Z.of_nat k) by (apply Z.pow_pos_nonneg; lia). lia.
  - destruct (varint_step v Hge) as [_ ->]. cbn [length]. f_equal.
    destruct k as [|k]; [simpl in Hv; lia|]. apply IH; [| |lia].
    + split; [apply Z.div_pos; lia|apply Z.div_lt_upper_bound; lia].
    + destruct Hk as [|Hk]; [done|]. rewrite Nat2Z.inj_succ, Z.pow_succ_r in Hk by lia.
      right. apply Z.div_le_lower_bound; lia.
Qed.

(** The seven-bit groups of numbers of up to 64 bits. *)
Lemma size_groups (bits : Z) : 1 <= bits <= 64 → (9 * bits + 64) / 64 = 1 + (bits - 1) / 7.
Proof.
  intros Hb. assert (∃ n : nat, bits = Z.of_nat n) as [n ->] by (exists (Z.to_nat bits); lia).
  assert (Forall (λ n, (9 * Z.of_nat n + 64) / 64 = 1 + (Z.of_nat n - 1) / 7) (seq 1 64)) as HF.
  { apply (bool_decide_unpack _). reflexivity. }
  eapply Forall_forall in HF; [exact HF|]. apply elem_of_seq. lia.
Qed.

Lemma SizeVarint_length v : is_u64 v → SizeVarint v = blen (EncodeVarint v).
Proof.
  intros Hv. unfold SizeVarint, Len64, EncodeVarint, blen. destruct (Z.eqb_spec v 0) as [->|Hne]; [done|].
  assert (0 < v) as Hpos by (unfold is_u64 in Hv; lia).
  assert (0 <= Z.log2 v < 64) as Hl.
  { split; [apply Z.log2_nonneg|]. apply Z.log2_lt_pow2; [done|apply Hv]. }
  rewrite size_groups by lia. rewrite Z.add_simpl_r.
  rewrite (length_varint 10 v (Z.to_nat (Z.log2 v / 7))).
  - rewrite Nat2Z.inj_succ, Z2Nat.id by (apply Z.div_pos; lia). lia.
  - split; [lia|]. rewrite Nat2Z.inj_succ, Z2Nat.id by (apply Z.div_pos; lia).
    change 128 with (2 ^ 7). rewrite <- Z.pow_mul_r by (pose proof (Z.div_pos (Z.log2 v) 7); lia).
    destruct (Z.log2_spec v Hpos) as [_ Hs]. eapply Z.lt_le_trans; [exact Hs|].
    apply Z.pow_le_mono_r; [lia|]. pose proof (Z.div_mod (Z.log2 v) 7). pose proof (Z.mod_pos_bound (Z.log2 v) 7). lia.
  - destruct (decide (Z.to_nat (Z.log2 v / 7) = 0%nat)); [by left|right].
    rewrite Z2Nat.id by (apply Z.div_pos; lia). change 128 with (2 ^ 7).
    rewrite <- Z.pow_mul_r by (pose proof (Z.div_pos (Z.log2 v) 7); lia).
    destruct (Z.log2_spec v Hpos) as [Hs _]. etrans; [|exact Hs]. apply Z.pow_le_mono_r; [lia|].
    pose proof (Z.div_mod (Z.log2 v) 7). pose proof (Z.mod_pos_bound (Z.log2 v) 7). lia.
  - assert (Z.log2 v / 7 < 10) by (apply Z.div_lt_upper_bound; lia). lia.
Qed.
(** ** Reading what was written *)

Lemma blen_app (a b : bytes) : blen (a ++ b) = blen a + blen b.
Proof. unfold blen. rewrite length_app. lia. Qed.

Lemma buffer_DecodeVarint_encode v rest pos :
  is_u64 v →
  buffer_DecodeVarint (mkBuffer (EncodeVarint v ++ rest) pos) =
    Ok (v, mkBuffer rest (pos + blen (EncodeVarint v))).
Proof.
  intros Hv. unfold buffer_DecodeVarint. cbn [buf_unread buf_position].
  rewrite ConsumeVarint_encode by done. rewrite drop_app_length, SizeVarint_length by exact Hv. reflexivity.
Qed.

Lemma buffer_DecodeRawBytes_encode b rest pos :
  is_u64 (blen b) →
  buffer_DecodeRawBytes (mkBuffer (EncodeRawBytes b ++ rest) pos) =
    Ok (b, mkBuffer rest (pos + blen (EncodeRawBytes b))).
Proof.
  intros Hv. unfold buffer_DecodeRawBytes. cbn [buf_unread buf_position].
  rewrite ConsumeBytes_encode by apply Hv. rewrite drop_app_length, SizeVarint_length by exact Hv.
  unfold EncodeRawBytes. rewrite blen_app. reflexivity.
Qed.

(** The places of transactions written from a position on. *)
Fixpoint infosAt (pos : Z) (txs : list bytes) : list txindexInfo :=
  match txs with
  | [] => []
  | tx :: txs =>
    mkTxindexInfo (txIDOf tx) (mkLocPointer pos (blen (EncodeRawBytes tx)))
      :: infosAt (pos + blen (EncodeRawBytes tx)) txs
  end.

Lemma rawItems_cons b bs : rawItems (b :: bs) = EncodeRawBytes b ++ rawItems bs.
Proof. done. Qed.

Lemma addTransactions_spec txs buf :
  addTransactions txs buf = (buf ++ rawItems txs, infosAt (blen buf) txs).
Proof.
  revert buf. induction txs as [|tx txs IH]; intros buf; [by rewrite app_nil_r|].
  cbn [addTransactions infosAt]. rewrite IH, rawItems_cons, (assoc_L (++)), blen_app.
  by rewrite Z.add_simpl_l.
Qed.

Lemma EncodeRawBytes_pos b : (0 < length (EncodeRawBytes b))%nat.
Proof.
  unfold EncodeRawBytes, EncodeVarint. rewrite length_app, varintBytes_S.
  destruct (blen b <? 128); cbn [length]; lia.
Qed.

Lemma rawItems_length bs : (length bs <= length (rawItems bs))%nat.
Proof.
  induction bs as [|b bs IH]; [done|]. rewrite rawItems_cons, length_app.
  pose proof (EncodeRawBytes_pos b). simpl. lia.
Qed.

Lemma extractTransactions_encode txs fuel rest pos :
  Forall (λ b, is_u64 (blen b)) txs → (length txs <= fuel)%nat →
  extractTransactions fuel (Z.of_nat (length txs)) (mkBuffer (rawItems txs ++ rest) pos) =
    Ok (txs, infosAt pos txs, mkBuffer rest (pos + blen (rawItems txs))).
Proof.
  intros Hs. revert fuel pos. induction Hs as [|tx txs Htx _ IH]; intros fuel pos Hf.
  { destruct fuel; cbn; by rewrite Z.add_0_r. }
  destruct fuel as [|fuel]; [simpl in Hf; lia|]. cbn [extractTransactions length].
  destruct (Z.leb_spec (Z.of_nat (S (length txs))) 0); [lia|].
  rewrite rawItems_cons, <- (assoc_L (++)), buffer_DecodeRawBytes_encode by done. cbn [wrap mbind res_bind buf_position].
  replace (Z.of_nat (S (length txs)) - 1) with (Z.of_nat (length txs)) by lia.
  rewrite IH by (simpl in Hf; lia). cbn [mbind res_bind infosAt].
  by rewrite Z.add_simpl_l, blen_app, Z.add_assoc.
Qed.

Lemma extractItems_encode items fuel rest pos :
  Forall (λ b, is_u64 (blen b)) items → (length items <= fuel)%nat →
  extractItems fuel (Z.of_nat (length items)) (mkBuffer (rawItems items ++ rest) pos) =
    Ok (items, mkBuffer rest (pos + blen (rawItems items))).
Proof.
  intros Hs. revert fuel pos. induction Hs as [|item items Hi _ IH]; intros fuel pos Hf.
  { destruct fuel; cbn; by rewrite Z.add_0_r. }
  destruct fuel as [|fuel]; [simpl in Hf; lia|]. cbn [extractItems length].
  destruct (Z.leb_spec (Z.of_nat (S (length items))) 0); [lia|].
  rewrite rawItems_cons, <- (assoc_L (++)), buffer_DecodeRawBytes_encode by done. cbn [wrap mbind res_bind].
  replace (Z.of_nat (S (length items)) - 1) with (Z.of_nat (length items)) by lia.
  rewrite IH by (simpl in Hf; lia). cbn [mbind res_bind].
  by rewrite blen_app, Z.add_assoc.
Qed.
(** The bytes of a block with its parts present. *)
Definition blockBytes (h : BlockHeader) (data metadata : list bytes) : bytes :=
  addHeaderBytes h [] ++ EncodeVarint (Z.of_nat (length data)) ++ rawItems data
    ++ EncodeVarint (Z.of_nat (length metadata)) ++ rawItems metadata.

(** Where the transactions start. *)
Definition dataStart (h : BlockHeader) (data : list bytes) : Z :=
  blen (addHeaderBytes h [] ++ EncodeVarint (Z.of_nat (length data))).

Lemma serializeBlock_Done block bs info :
  serializeBlock block = Done (bs, info) ↔
    ∃ data metadata, blk_Data block = Some data ∧ blk_Metadata block = Some metadata ∧
      bs = blockBytes (blk_Header block) data metadata ∧
      info = mkSerializedBlockInfo (blk_Header block) (infosAt (dataStart (blk_Header block) data) data) metadata.
Proof.
  unfold serializeBlock, addDataBytesAndConstructTxIndexInfo, addMetadataBytes, blockBytes.
  destruct (blk_Data block) as [data|]; [|split; [done|naive_solver]]. cbn [or_panic mbind outcome_bind].
  rewrite addTransactions_spec. destruct (blk_Metadata block) as [metadata|]; [|split; [done|naive_solver]].
  cbn [or_panic mbind outcome_bind]. rewrite <- !(assoc_L (++)). split.
  - intros [= <- <-]. by exists data, metadata.
  - by intros (? & ? & [= <-] & [= <-] & -> & ->).
Qed.

Lemma small_part (a b c : bytes) : is_u64 (blen (a ++ b ++ c)) → is_u64 (blen b).
Proof. unfold is_u64, blen. rewrite !length_app. lia. Qed.

Lemma rawItems_small items : is_u64 (blen (rawItems items)) → Forall (λ b, is_u64 (blen b)) items.
Proof.
  induction items as [|i items IH]; [done|]. rewrite rawItems_cons. unfold EncodeRawBytes.
  intros H. constructor; [|apply IH]; unfold is_u64, blen in *; rewrite !length_app in H; lia.
Qed.

(** A block whose bytes fit in memory. *)
Lemma blockBytes_small h data metadata :
  is_u64 (blen (blockBytes h data metadata)) →
  is_u64 (blen (hdr_DataHash h)) ∧ is_u64 (blen (hdr_PreviousHash h)) ∧
  Forall (λ b, is_u64 (blen b)) data ∧ Forall (λ b, is_u64 (blen b)) metadata ∧
  is_u64 (Z.of_nat (length data)) ∧ is_u64 (Z.of_nat (length metadata)).
Proof.
  unfold blockBytes, addHeaderBytes, EncodeRawBytes at 1 2. intros H.
  pose proof (rawItems_length data). pose proof (rawItems_length metadata).
  split_and!; [| |apply rawItems_small..| |]; unfold is_u64, blen in *; rewrite !length_app in H; lia.
Qed.

Lemma extractHeader_encode h rest :
  is_u64 (hdr_Number h) → is_u64 (blen (hdr_DataHash h)) → is_u64 (blen (hdr_PreviousHash h)) →
  extractHeader (newBuffer (addHeaderBytes h [] ++ rest)) = Ok (h, mkBuffer rest (blen (addHeaderBytes h []))).
Proof.
  intros Hn Hd Hp. unfold extractHeader, newBuffer, addHeaderBytes. rewrite app_nil_l, <- !(assoc_L (++)).
  rewrite buffer_DecodeVarint_encode by done. cbn [wrap mbind res_bind].
  rewrite buffer_DecodeRawBytes_encode by done. cbn [wrap mbind res_bind].
  rewrite buffer_DecodeRawBytes_encode by done. cbn [wrap mbind res_bind].
  rewrite !blen_app, !Z.add_assoc. by destruct h.
Qed.

Lemma extractData_encode data rest pos :
  Forall (λ b, is_u64 (blen b)) data → is_u64 (Z.of_nat (length data)) →
  extractData (mkBuffer (EncodeVarint (Z.of_nat (length data)) ++ rawItems data ++ rest) pos) =
    let start := pos + blen (EncodeVarint (Z.of_nat (length data))) in
    Ok (data, infosAt start data, mkBuffer rest (start + blen (rawItems data))).
Proof.
  intros Hd Hn. unfold extractData. rewrite buffer_DecodeVarint_encode by done. cbn [wrap mbind res_bind buf_unread].
  apply extractTransactions_encode; [done|]. rewrite length_app. pose proof (rawItems_length data). lia.
Qed.

Lemma extractMetadata_encode metadata pos :
  Forall (λ b, is_u64 (blen b)) metadata → is_u64 (Z.of_nat (length metadata)) →
  ∃ b, extractMetadata (mkBuffer (EncodeVarint (Z.of_nat (length metadata)) ++ rawItems metadata) pos) = Ok (metadata, b).
Proof.
  intros Hd Hn. unfold extractMetadata. rewrite buffer_DecodeVarint_encode by done. cbn [wrap mbind res_bind buf_unread].
  rewrite <- (app_nil_r (rawItems metadata)). rewrite extractItems_encode; [by eexists|done|].
  rewrite app_nil_r. pose proof (rawItems_length metadata). lia.
Qed.

Lemma infosAt_lookup pos txs i tx :
  txs !! i = Some tx →
  infosAt pos txs !! i =
    Some (mkTxindexInfo (txIDOf tx) (mkLocPointer (pos + blen (rawItems (take i txs))) (blen (EncodeRawBytes tx)))).
Proof.
  revert pos i. induction txs as [|t txs IH]; intros pos [|i] H; try done; simpl in H.
  - inversion H; subst. cbn [infosAt lookup take]. by rewrite Z.add_0_r.
  - cbn [infosAt take]. rewrite rawItems_cons, blen_app, Z.add_assoc. by apply IH.
Qed.

(** What a place names in bytes. *)
Definition readAt (bs : bytes) (loc : locPointer) : bytes :=
  take (Z.to_nat (lp_bytesLength loc)) (drop (Z.to_nat (lp_offset loc)) bs).

Lemma readAt_app (a b c : bytes) : readAt (a ++ b ++ c) (mkLocPointer (blen a) (blen b)) = b.
Proof. unfold readAt, blen. cbn [lp_offset lp_bytesLength]. by rewrite !Nat2Z.id, drop_app_length, take_app_length. Qed.

(** The bytes of a block around a transaction. *)
Lemma blockBytes_split h data metadata i tx :
  data !! i = Some tx →
  ∃ pre post, blockBytes h data metadata = pre ++ EncodeRawBytes tx ++ post ∧
    blen pre = dataStart h data + blen (rawItems (take i data)).
Proof.
  intros Hi. exists ((addHeaderBytes h [] ++ EncodeVarint (Z.of_nat (length data))) ++ rawItems (take i data)),
    (rawItems (drop (S i) data) ++ EncodeVarint (Z.of_nat (length metadata)) ++ rawItems metadata).
  split; [|by unfold dataStart; rewrite <- blen_app]. unfold blockBytes.
  rewrite <- !(assoc_L (++)). do 2 f_equal. rewrite !(assoc_L (++)). do 2 f_equal.
  rewrite <- (take_drop_middle data i tx Hi) at 1. unfold rawItems. by rewrite fmap_app, concat_app, <- (assoc_L (++)).
Qed.

Lemma blockBytes_tx h data metadata i tx :
  data !! i = Some tx →
  readAt (blockBytes h data metadata)
    (mkLocPointer (dataStart h data + blen (rawItems (take i data))) (blen (EncodeRawBytes tx))) = EncodeRawBytes tx.
Proof.
  intros Hi. destruct (blockBytes_split h data metadata i tx Hi) as (pre & post & -> & <-). apply readAt_app.
Qed.

Lemma serialize_deserialize block bs info :
  serializeBlock block = Done (bs, info) → is_u64 (hdr_Number (blk_Header block)) → is_u64 (blen bs) →
  deserializeBlock bs = Ok block ∧ extractSerializedBlockInfo bs = Ok info.
Proof.
  intros (data & metadata & Hd & Hm & -> & ->)%serializeBlock_Done Hn Hs.
  destruct (blockBytes_small _ _ _ Hs) as (H1 & H2 & H3 & H4 & H5 & H6).
  unfold deserializeBlock, extractSerializedBlockInfo, blockBytes.
  rewrite extractHeader_encode by done. cbn [mbind res_bind]. rewrite extractData_encode by done. cbn [mbind res_bind].
  match goal with |- context [extractMetadata (mkBuffer _ ?p)] =>
    destruct (extractMetadata_encode metadata p H4 H6) as [b ->] end.
  cbn [mbind res_bind]. unfold dataStart. rewrite blen_app. split; [|done].
  destruct block as [h d m]. simpl in *. by subst.
Qed.

(** C39. Blocks survive their way to the disk. Serialising a block panics exactly
    when its data or metadata is missing. Otherwise reading the bytes gives the block
    back, and both the writer and the reader find the same places: the place of the
    i-th transaction holds exactly the encoding of that transaction, with its ID. *)
Theorem serialize_roundtrip block :
  is_u64 (hdr_Number (blk_Header block)) →
  match serializeBlock block with
  | Panic _ => blk_Data block = None ∨ blk_Metadata block = None
  | Done (bs, info) =>
    is_u64 (blen bs) →
    deserializeBlock bs = Ok block ∧ extractSerializedBlockInfo bs = Ok info ∧
    sbi_blockHeader info = blk_Header block ∧ Some (sbi_metadata info) = blk_Metadata block ∧
    ∃ data, blk_Data block = Some data ∧ length (sbi_txOffsets info) = length data ∧
      ∀ i tx, data !! i = Some tx →
        ∃ ti, sbi_txOffsets info !! i = Some ti ∧ ti_txID ti = txIDOf tx ∧ readAt bs (ti_loc ti) = EncodeRawBytes tx
  end.
Proof.
  intros Hn. destruct (serializeBlock block) as [[bs info]|m] eqn:E.
  - intros Hs. destruct (serialize_deserialize _ _ _ E Hn Hs) as [H1 H2]. split; [done|]. split; [done|].
    apply serializeBlock_Done in E as (data & metadata & Hd & Hm & -> & ->). split; [done|]. split; [by rewrite Hm|].
    exists data. split; [done|]. split.
    + cbn [sbi_txOffsets]. generalize (dataStart (blk_Header block) data). clear.
      induction data as [|d data IH]; intros p; [done|]. cbn [infosAt length]. by rewrite IH.
    + intros i tx Hi. eexists. split; [by apply infosAt_lookup|]. split; [done|]. by apply blockBytes_tx.
  - destruct (blk_Data block) as [d|] eqn:Hd; [|by left]. destruct (blk_Metadata block) as [md|] eqn:Hm; [|by right].
    assert (∃ p, serializeBlock block = Done p) as [p Hp]; [|congruence].
    eexists (_, _). apply serializeBlock_Done. eauto 10.
Qed.

(** The fuel of the loops is enough: more of it changes nothing. *)
Lemma DecodeRawBytes_shorter b v b' :
  buffer_DecodeRawBytes b = Ok (v, b') → (length (buf_unread b') < length (buf_unread b))%nat.
Proof.
  unfold buffer_DecodeRawBytes, ConsumeBytes. destruct b as [u p]. cbn [buf_unread buf_position].
  destruct u as [|x u]; [done|]. intros H. destruct (ConsumeVarint (x :: u)) as [[m n]|] eqn:E; [|done].
  pose proof (consumeVarint_length _ _ _ _ E).
  cbn [mbind option_bind] in H. destruct (_ >? _); [done|]. inversion H; subst. cbn [buf_unread].
  rewrite length_drop. cbn [length]. lia.
Qed.

Lemma extractTransactions_fuel fuel fuel' n b :
  (length (buf_unread b) < fuel)%nat → (length (buf_unread b) < fuel')%nat →
  extractTransactions fuel n b = extractTransactions fuel' n b.
Proof.
  revert fuel' n b. induction fuel as [|fuel IH]; intros [|fuel'] n b H1 H2; try lia.
  cbn [extractTransactions]. destruct (n <=? 0); [done|].
  destruct (buffer_DecodeRawBytes b) as [[v b']|] eqn:E; [|done]. apply DecodeRawBytes_shorter in E.
  cbn [wrap mbind res_bind]. by rewrite (IH fuel') by lia.
Qed.

Lemma extractItems_fuel fuel fuel' n b :
  (length (buf_unread b) < fuel)%nat → (length (buf_unread b) < fuel')%nat →
  extractItems fuel n b = extractItems fuel' n b.
Proof.
  revert fuel' n b. induction fuel as [|fuel IH]; intros [|fuel'] n b H1 H2; try lia.
  cbn [extractItems]. destruct (n <=? 0); [done|].
  destruct (buffer_DecodeRawBytes b) as [[v b']|] eqn:E; [|done]. apply DecodeRawBytes_shorter in E.
  cbn [wrap mbind res_bind]. by rewrite (IH fuel') by lia.
Qed.
End serialization.
