(* ===== verification/Disk.v ===== *)
(** * Files and databases that fail

    What the block store is written on: append-only files and an ordered
    key-value database ([common/ledger/util/leveldbhelper] over goleveldb). Every
    write meets a fault of a given list: it succeeds, fails with an error, or the
    machine goes down in the middle of it. Writes reach the disk in order, and a
    write followed by a sync has reached it. A failed write to the database has no
    effect, directory entries are durable, and reads do not fail. *)

From stdpp Require Import gmap strings list.
From S2P Require Import Prelude.

(** ** The database *)

(** [leveldbhelper.UpdateBatch]: the value of a key, [None] for a deletion. *)
Abbreviation UpdateBatch := (gmap bytes (option bytes)).

Definition NewUpdateBatch : UpdateBatch := ∅.
Definition batch_Put (key value : bytes) (batch : UpdateBatch) : UpdateBatch := <[key := Some value]> batch.
Definition batch_Delete (key : bytes) (batch : UpdateBatch) : UpdateBatch := <[key := None]> batch.

Definition applyBatch (m : gmap bytes bytes) (batch : UpdateBatch) : gmap bytes bytes :=
  merge (λ change old, match change with Some v => v | None => old end) batch m.

(** What has reached the disk, and the batches written since. *)
Record database := mkDatabase {
  db_durable : gmap bytes bytes;
  db_volatile : list UpdateBatch
}.

(** What a reader sees. *)
Definition db_view (db : database) : gmap bytes bytes := foldl applyBatch (db_durable db) (db_volatile db).

Definition db_write (batch : UpdateBatch) (db : database) : database :=
  {| db with db_volatile := db_volatile db ++ [batch] |}.

Definition db_sync (db : database) : database := mkDatabase (db_view db) [].

(** ** Files *)

(** The contents, of which the first [f_synced] bytes are known to be on the disk. *)
Record file := mkFile { f_bytes : bytes; f_synced : nat }.

(** What happens to a write, with how much of it takes effect before it fails. *)
Inductive fault :=
  | Fine
  | Fails (n : nat)
  | Crashes (n : nat).

(** The directory of a ledger: the block files by number, the file with the
    snapshot the ledger was started from, and the ledger's part of the database; and
    the file with the height before a rollback or reset. *)
Record disk := mkDisk {
  d_files : gmap Z file;
  d_bootstrap : option bytes;
  d_db : database;
  d_preReset : option string
}.

(** ** Programs over a disk *)

Inductive ending (A : Type) :=
  | Returned (a : A)
  | Panicked (why : string)
  | Crashed.
Arguments Returned {A} a.
Arguments Panicked {A} why.
Arguments Crashed {A}.

(** A run on a disk with the faults its writes meet. *)
Definition io (A : Type) : Type := disk → list fault → ending A * disk * list fault.

#[export] Instance io_ret : MRet io := λ A a d fs, (Returned a, d, fs).
#[export] Instance io_bind : MBind io := λ A B f m d fs,
  match m d fs with
  | (Returned a, d, fs) => f a d fs
  | (Panicked w, d, fs) => (Panicked w, d, fs)
  | (Crashed, d, fs) => (Crashed, d, fs)
  end.

(** Calls that return an error: the caller returns it. *)
Definition io_try {A B} (m : io (res A)) (f : A → io (res B)) : io (res B) :=
  r ← m; match r with Ok a => f a | Err e => mret (Err e) end.

Notation "x ←! m ; k" := (io_try m (λ x, k))
  (at level 20, m at level 100, k at level 200, right associativity).

Definition io_panic {A} (why : string) : io A := λ d fs, (Panicked why, d, fs).

(** The caller panics on an error. *)
Definition must {A} (why : string) (m : io (res A)) : io A :=
  r ← m; match r with Ok a => mret a | Err _ => io_panic why end.

(** Reading the disk. *)
Definition reads {A} (f : disk → A) : io A := λ d fs, (Returned (f d), d, fs).

Definition io_outcome {A} (o : outcome A) : io A :=
  match o with Done a => mret a | Panic w => io_panic w end.

(** ** Writes *)

(** A write, with its effect when it fails and when the machine goes down. It
    succeeds when there are no more faults in the list. *)
Definition attempt (e : error) (full : disk → disk) (failed crashed : nat → disk → disk) : io (res unit) :=
  λ d fs, match fs with
  | [] => (Returned (Ok tt), full d, [])
  | Fine :: fs => (Returned (Ok tt), full d, fs)
  | Fails n :: fs => (Returned (Err e), failed n d, fs)
  | Crashes n :: fs => (Crashed, crashed n d, fs)
  end.

Definition setFile (f : Z) (x : file) (d : disk) : disk := {| d with d_files := <[f := x]> (d_files d) |}.

Definition noEffect (n : nat) (d : disk) : disk := d.

(** A write that takes effect as a whole. *)
Definition atomic (e : error) (full : disk → disk) : io (res unit) :=
  attempt e full noEffect (λ n d, match n with O => d | _ => full d end).

(** [os.OpenFile] with [O_CREATE]. *)
Definition createFile (f : Z) (d : disk) : disk :=
  match d_files d !! f with Some _ => d | None => setFile f (mkFile [] 0) d end.

Definition os_Create (f : Z) : io (res unit) := atomic (Errorf "open") (createFile f).

(** [File.Write] on a file opened with [O_APPEND]: an error leaves a part of the
    bytes written. *)
Definition appendFile (f : Z) (b : bytes) (d : disk) : disk :=
  match d_files d !! f with
  | Some x => setFile f (mkFile (f_bytes x ++ b) (f_synced x)) d
  | None => d
  end.

Definition os_Write (f : Z) (b : bytes) : io (res unit) :=
  attempt (Errorf "write") (appendFile f b) (λ n, appendFile f (take n b)) (λ n, appendFile f (take n b)).

(** [File.Sync] *)
Definition syncFile (f : Z) (d : disk) : disk :=
  match d_files d !! f with
  | Some x => setFile f (mkFile (f_bytes x) (length (f_bytes x))) d
  | None => d
  end.

Definition os_Sync (f : Z) : io (res unit) := atomic (Errorf "sync") (syncFile f).

(** [File.Truncate] to a size not above that of the file. *)
Definition truncateTo (f : Z) (size : nat) (d : disk) : disk :=
  match d_files d !! f with
  | Some x => setFile f (mkFile (take size (f_bytes x)) (f_synced x `min` size)) d
  | None => d
  end.

Definition os_Truncate (f : Z) (size : nat) : io (res unit) := atomic (Errorf "truncate") (truncateTo f size).

(** [os.Remove] *)
Definition deleteFile (f : Z) (d : disk) : disk := {| d with d_files := delete f (d_files d) |}.

Definition os_Remove (f : Z) : io (res unit) :=
  x ← reads (λ d, d_files d !! f);
  match x with
  | Some _ => atomic (Errorf "remove") (deleteFile f)
  | None => mret (Err (Errorf "no such file"))
  end.

(** [ioutil.WriteFile] of the file with the height, taken to be atomic. *)
Definition writePreReset (s : string) (d : disk) : disk := {| d with d_preReset := Some s |}.

(** [File.Stat] of an open file, which can fail. *)
Definition fileSize (f : Z) (d : disk) : Z :=
  match d_files d !! f with Some x => blen (f_bytes x) | None => 0 end.

Definition os_Stat (f : Z) : io (res Z) :=
  io_try (atomic (Errorf "stat") (λ d, d)) (λ _, reads (λ d, Ok (fileSize f d))).

(** [DBHandle.Get], [Put] and [WriteBatch]. An empty batch is not written. *)
Definition db_Get (key : bytes) (d : disk) : option bytes := db_view (d_db d) !! key.

Definition writeDB (batch : UpdateBatch) (sync : bool) (d : disk) : disk :=
  let db := db_write batch (d_db d) in
  {| d with d_db := if sync then db_sync db else db |}.

Definition db_WriteBatch (batch : UpdateBatch) (sync : bool) : io (res unit) :=
  if decide (batch = ∅) then mret (Ok tt)
  else atomic (Errorf "error writing batch to leveldb") (writeDB batch sync).

Definition db_Delete (key : bytes) (sync : bool) : io (res unit) :=
  atomic (Errorf "error deleting leveldb key") (writeDB {[ key := None ]} sync).

Definition db_Put (key value : bytes) (sync : bool) : io (res unit) :=
  atomic (Errorf "error writing leveldb key") (writeDB {[ key := Some value ]} sync).

(** ** Power loss

    What is found on the disk afterwards: of every file what was synced and some
    prefix of the rest, of the database the durable part and some of the later
    batches, in order. *)
Inductive survives : file → file → Prop :=
  | survives_prefix x n :
    (f_synced x <= n)%nat → (n <= length (f_bytes x))%nat → survives x (mkFile (take n (f_bytes x)) n).

Record power_loss (d d' : disk) : Prop := {
  pl_files f : option_Forall2 survives (d_files d !! f) (d_files d' !! f);
  pl_bootstrap : d_bootstrap d' = d_bootstrap d;
  pl_preReset : d_preReset d' = d_preReset d;
  pl_db : ∃ n, d_db d' = mkDatabase (foldl applyBatch (db_durable (d_db d)) (take n (db_volatile (d_db d)))) []
}.

(** Everything written is on the disk. *)
Record quiet (d : disk) : Prop := {
  quiet_files f x : d_files d !! f = Some x → f_synced x = length (f_bytes x);
  quiet_db : db_volatile (d_db d) = []
}.

Lemma power_loss_quiet d d' : power_loss d d' → quiet d'.
Proof.
  intros [Hf _ _ [n Hdb]]. split; [|by rewrite Hdb].
  intros f x Hx. specialize (Hf f). rewrite Hx in Hf. inversion Hf as [? ? Hs|]; subst.
  inversion Hs; subst. simpl. rewrite length_take. lia.
Qed.

Lemma quiet_power_loss d d' : quiet d → power_loss d d' → d' = d.
Proof.
  intros [Hf Hdb] [Hf' Hb Hp [n Hdb']]. destruct d as [fs bs db ps], d' as [fs' bs' db' ps']. simpl in *. f_equal; [|done| |done].
  - apply map_eq. intros f. specialize (Hf' f). inversion Hf' as [x x' Hs E E'|E E']; [|done].
    inversion Hs as [? k Hk Hl]; subst. rewrite (Hf f x) in * by done.
    assert (k = length (f_bytes x)) as -> by lia. rewrite firstn_all. destruct x as [b s].
    specialize (Hf f (mkFile b s) (eq_sym E)). simpl in *. by subst.
  - rewrite Hdb', Hdb, take_nil. simpl. destruct db. simpl in *. by subst.
Qed.

Lemma applyBatch_lookup m batch k :
  applyBatch m batch !! k = match batch !! k with Some v => v | None => m !! k end.
Proof. unfold applyBatch. rewrite lookup_merge. by destruct (batch !! k), (m !! k). Qed.

Lemma db_view_write batch db : db_view (db_write batch db) = applyBatch (db_view db) batch.
Proof. unfold db_view, db_write. simpl. by rewrite foldl_app. Qed.

Lemma db_view_sync db : db_view (db_sync db) = db_view db.
Proof. done. Qed.

(** ** Reasoning about programs over a disk *)

(** Which faults a run meets: none, loss of power, or errors as well. *)
Inductive weather := Calm | Outages | Any.

Definition not_error (f : fault) : Prop := match f with Fails _ => False | _ => True end.

Definition allowed (w : weather) (fs : list fault) : Prop :=
  match w with
  | Calm => fs = []
  | Outages => Forall not_error fs
  | Any => True
  end.

(** [wp w C m Q d]: run from [d] under the faults of [w], the program [m] returns in
    [Q]; if the machine goes down or the program panics, the disk is in [C]. Without
    faults it returns. *)
Definition wp {A} (w : weather) (C : disk → Prop) (m : io A) (Q : A → disk → Prop) (d : disk) : Prop :=
  ∀ fs, allowed w fs →
  match m d fs with
  | (Returned a, d', fs') => allowed w fs' ∧ Q a d'
  | (_, d', _) => w ≠ Calm ∧ C d'
  end.

Section wp.
Context (w : weather) (C : disk → Prop).
Implicit Types (d : disk).

Lemma wp_ret {A} (a : A) (Q : A → disk → Prop) d : Q a d → wp w C (mret a) Q d.
Proof. intros H fs Hfs. by split. Qed.

Lemma wp_reads {A} (f : disk → A) (Q : A → disk → Prop) d : Q (f d) d → wp w C (reads f) Q d.
Proof. intros H fs Hfs. by split. Qed.

Lemma wp_bind {A B} (m : io A) (f : A → io B) (Q : B → disk → Prop) d :
  wp w C m (λ a d, wp w C (f a) Q d) d → wp w C (m ≫= f) Q d.
Proof.
  intros H fs Hfs. specialize (H fs Hfs). unfold mbind, io_bind.
  destruct (m d fs) as [[[a|p|] d'] fs']; [|done|done]. destruct H as [Hfs' H]. by apply H.
Qed.

Lemma wp_mono {A} (m : io A) (Q Q' : A → disk → Prop) d :
  wp w C m Q d → (∀ a d', Q a d' → Q' a d') → wp w C m Q' d.
Proof.
  intros H HQ fs Hfs. specialize (H fs Hfs). destruct (m d fs) as [[[a|p|] d'] fs']; [|done|done].
  destruct H. split; auto.
Qed.

Lemma wp_try {A B} (m : io (res A)) (f : A → io (res B)) (Q : res B → disk → Prop) d :
  wp w C m (λ r d, match r with Ok a => wp w C (f a) Q d | Err e => Q (Err e) d end) d →
  wp w C (io_try m f) Q d.
Proof.
  intros H. apply wp_bind. eapply wp_mono; [exact H|]. intros [a|e] d' Hq; [done|by apply wp_ret].
Qed.

Lemma wp_must {A} why (m : io (res A)) (Q : A → disk → Prop) d :
  wp w C m (λ r d, match r with Ok a => Q a d | Err _ => w ≠ Calm ∧ C d end) d → wp w C (must why m) Q d.
Proof.
  intros H. apply wp_bind. eapply wp_mono; [exact H|]. intros [a|e] d' Hq; [by apply wp_ret|].
  intros fs _. exact Hq.
Qed.

Lemma wp_outcome {A} (o : outcome A) a (Q : A → disk → Prop) d : o = Done a → Q a d → wp w C (io_outcome o) Q d.
Proof. intros -> H. by apply wp_ret. Qed.

(** A write either succeeds, or fails or is cut short when there are faults. *)
Lemma wp_attempt e full failed crashed (Q : res unit → disk → Prop) d :
  Q (Ok tt) (full d) → (w = Any → ∀ n, Q (Err e) (failed n d)) → (w ≠ Calm → ∀ n, C (crashed n d)) →
  wp w C (attempt e full failed crashed) Q d.
Proof.
  intros H1 H2 H3 fs Hfs. unfold attempt.
  destruct fs as [|[|n|n] fs]; [by split|..]; destruct w; cbn [allowed] in *; try done; split; try done; auto.
  - by inversion Hfs.
  - by inversion Hfs.
  - by inversion Hfs.
Qed.

Lemma wp_atomic e full (Q : res unit → disk → Prop) d :
  Q (Ok tt) (full d) → (w = Any → Q (Err e) d) → (w ≠ Calm → C d ∧ C (full d)) →
  wp w C (atomic e full) Q d.
Proof.
  intros H1 H2 H3. apply wp_attempt; [done|intros; by apply H2|]. intros Hw n. destruct (H3 Hw). by destruct n.
Qed.
End wp.
