(* ===== verification/LevelDB.v ===== *)
(** * Databases of ledgers in one LevelDB

    [common/ledger/util/leveldbhelper]: the order of keys and range scans, and
    [DBHandle], which keeps the data of many ledgers in one database by prefixing
    the keys. [handle_private] shows that a handle is a private ordered map. *)

From stdpp Require Import gmap strings list sorting.
From Stdlib Require Import Strings.Byte.
From S2P Require Import Prelude Varint Disk.

(** ** The order of keys *)

Lemma bytesCompare_refl a : bytesCompare a a = Eq.
Proof. induction a as [|x a IH]; [done|]. simpl. by rewrite Z.compare_refl. Qed.

Lemma bytesCompare_antisym a b : bytesCompare b a = CompOpp (bytesCompare a b).
Proof.
  revert b. induction a as [|x a IH]; intros [|y b]; try done. simpl.
  rewrite Z.compare_antisym. by destruct (Z_of_byte x ?= Z_of_byte y); simpl.
Qed.

Lemma bytesCompare_eq a b : bytesCompare a b = Eq ↔ a = b.
Proof.
  split; [|intros ->; apply bytesCompare_refl].
  revert b. induction a as [|x a IH]; intros [|y b]; try done. simpl.
  destruct (Z.compare_spec (Z_of_byte x) (Z_of_byte y)) as [E| |]; [|done|done].
  intros H. f_equal; [by apply Z_of_byte_inj|by apply IH].
Qed.

Lemma bytesCompare_trans a b c : bytesCompare a b = Lt → bytesCompare b c = Lt → bytesCompare a c = Lt.
Proof.
  revert b c. induction a as [|x a IH]; intros [|y b] [|z c]; try done. simpl.
  destruct (Z.compare_spec (Z_of_byte x) (Z_of_byte y)) as [E|L|G];
    destruct (Z.compare_spec (Z_of_byte y) (Z_of_byte z)) as [E'|L'|G']; try done.
  - rewrite E, E', Z.compare_refl. apply IH.
  - intros _ _. rewrite E. by apply Z.compare_lt_iff in L' as ->.
  - intros _ _. rewrite <- E'. by apply Z.compare_lt_iff in L as ->.
  - intros _ _. assert (Z_of_byte x < Z_of_byte z) as H by lia. by apply Z.compare_lt_iff in H as ->.
Qed.

Lemma bytesCompare_prefix p a b : bytesCompare (p ++ a) (p ++ b) = bytesCompare a b.
Proof. induction p as [|x p IH]; [done|]. simpl. by rewrite Z.compare_refl. Qed.

Definition bytes_lt (a b : bytes) : Prop := bytesCompare a b = Lt.
Definition bytes_le (a b : bytes) : Prop := bytesCompare a b ≠ Gt.

#[export] Instance bytes_lt_dec a b : Decision (bytes_lt a b).
Proof. unfold bytes_lt. solve_decision. Defined.
#[export] Instance bytes_le_dec a b : Decision (bytes_le a b).
Proof. unfold bytes_le. solve_decision. Defined.

Lemma bytes_le_alt a b : bytes_le a b ↔ a = b ∨ bytes_lt a b.
Proof.
  unfold bytes_le, bytes_lt. rewrite <- bytesCompare_eq. destruct (bytesCompare a b); naive_solver.
Qed.

Lemma bytes_lt_not_le a b : bytes_lt a b ↔ ¬ bytes_le b a.
Proof. unfold bytes_lt, bytes_le. rewrite (bytesCompare_antisym a b). destruct (bytesCompare a b); naive_solver. Qed.

#[export] Instance bytes_lt_trans : Transitive bytes_lt.
Proof. intros a b c. apply bytesCompare_trans. Qed.

#[export] Instance bytes_lt_irrefl : Irreflexive bytes_lt.
Proof. intros a. unfold complement, bytes_lt. by rewrite bytesCompare_refl. Qed.

#[export] Instance bytes_le_preorder : PreOrder bytes_le.
Proof.
  split; [intros a; apply bytes_le_alt; by left|].
  intros a b c [->|H1]%bytes_le_alt [->|H2]%bytes_le_alt; apply bytes_le_alt; [by left|by right|by right|].
  right. by trans b.
Qed.

#[export] Instance bytes_le_total : Total bytes_le.
Proof. intros a b. destruct (decide (bytes_le a b)) as [|H]; [by left|right]. apply bytes_lt_not_le in H. apply bytes_le_alt. by right. Qed.

#[export] Instance bytes_le_antisymm : AntiSymm (=) bytes_le.
Proof. intros a b H1 [|H2%bytes_lt_not_le]%bytes_le_alt; [done|done]. Qed.

(** ** Range scans *)

(** The keys from [startKey] on and, if there is a limit, below it. *)
Definition inRange (startKey : bytes) (endKey : option bytes) (k : bytes) : Prop :=
  bytes_le startKey k ∧ match endKey with Some e => bytes_lt k e | None => True end.

#[export] Instance inRange_dec s e k : Decision (inRange s e k).
Proof. unfold inRange. destruct e; solve_decision. Defined.

Definition key_le {V} (x y : bytes * V) : Prop := bytes_le x.1 y.1.

#[export] Instance key_le_dec {V} (x y : bytes * V) : Decision (key_le x y).
Proof. unfold key_le. solve_decision. Defined.
#[export] Instance key_le_trans {V} : Transitive (key_le (V := V)).
Proof. intros x y z. unfold key_le. apply transitivity. Qed.
#[export] Instance key_le_total {V} : Total (key_le (V := V)).
Proof. intros x y. apply (total bytes_le). Qed.

(** [NewIterator] on a range: the entries in the order of their keys. *)
Definition scan {V} (startKey : bytes) (endKey : option bytes) (m : gmap bytes V) : list (bytes * V) :=
  merge_sort key_le (filter (λ kv, inRange startKey endKey kv.1) (map_to_list m)).

Lemma scan_elem {V} (s : bytes) (e : option bytes) (m : gmap bytes V) k v : (k, v) ∈ scan s e m ↔ m !! k = Some v ∧ inRange s e k.
Proof.
  unfold scan. rewrite merge_sort_Permutation, list_elem_of_filter, elem_of_map_to_list. simpl. tauto.
Qed.

Lemma scan_sorted {V} (s : bytes) (e : option bytes) (m : gmap bytes V) : StronglySorted key_le (scan s e m).
Proof. apply Sorted_StronglySorted; [apply _|]. apply Sorted_merge_sort, _. Qed.

Lemma scan_NoDup {V} (s : bytes) (e : option bytes) (m : gmap bytes V) : NoDup (scan s e m).*1.
Proof.
  unfold scan. rewrite merge_sort_Permutation.
  pose proof (NoDup_fst_map_to_list m) as H. revert H. generalize (map_to_list m). intros l.
  induction l as [|[k v] l IH]; [done|]. intros [Hk Hl]%NoDup_cons. rewrite filter_cons.
  case_decide; [|auto]. simpl. apply NoDup_cons. split; [|auto].
  contradict Hk. apply list_elem_of_fmap in Hk as ([k' v'] & -> & Hk). apply list_elem_of_filter in Hk as [_ Hk].
  apply list_elem_of_fmap. by exists (k', v').
Qed.

(** Sorted lists with the same entries, one per key, are the same. *)
Lemma sorted_unique {V} (l1 l2 : list (bytes * V)) :
  StronglySorted key_le l1 → StronglySorted key_le l2 → NoDup l1.*1 → NoDup l2.*1 →
  (∀ x, x ∈ l1 ↔ x ∈ l2) → l1 = l2.
Proof.
  revert l2. induction l1 as [|x l1 IH]; intros [|y l2] S1 S2 N1 N2 H.
  - done.
  - exfalso. specialize (H y). set_solver.
  - exfalso. specialize (H x). set_solver.
  - inversion S1 as [|? ? S1' F1]; inversion S2 as [|? ? S2' F2]; subst.
    simpl in N1, N2. apply NoDup_cons in N1 as [N1 N1'], N2 as [N2 N2'].
    assert (x = y) as ->.
    { assert (x ∈ y :: l2) as Hx by (apply H; left). assert (y ∈ x :: l1) as Hy by (apply H; left).
      apply elem_of_cons in Hx as [|Hx]; [done|]. apply elem_of_cons in Hy as [|Hy]; [done|].
      rewrite Forall_forall in F1, F2. specialize (F1 y Hy). specialize (F2 x Hx).
      assert (x.1 = y.1) as E by (by apply (anti_symm bytes_le)).
      exfalso. apply N1. rewrite E. apply list_elem_of_fmap. by exists y. }
    f_equal. apply IH; [done..|]. intros z. specialize (H z). rewrite !elem_of_cons in H.
    split; intros Hz.
    + assert (z = y ∨ z ∈ l2) as [->|] by tauto; [|done]. exfalso. apply N1, list_elem_of_fmap. by exists y.
    + assert (z = y ∨ z ∈ l1) as [->|] by tauto; [|done]. exfalso. apply N2, list_elem_of_fmap. by exists y.
Qed.

(** ** Handles *)

Definition constructLevelKey (dbName : string) (key : bytes) : bytes :=
  (String.list_byte_of_string dbName ++ [x00]) ++ key.

(** [bytes.SplitN(levelKey, dbNameKeySep, 2)[1]] *)
Fixpoint retrieveAppKey (levelKey : bytes) : outcome bytes :=
  match levelKey with
  | [] => Panic "index out of range"
  | b :: rest => if decide (b = x00) then Done rest else retrieveAppKey rest
  end.

Definition DBHandle_Get (dbName : string) (key : bytes) (raw : gmap bytes bytes) : option bytes :=
  raw !! constructLevelKey dbName key.

Definition DBHandle_Put (dbName : string) (key value : bytes) (raw : gmap bytes bytes) : gmap bytes bytes :=
  <[constructLevelKey dbName key := value]> raw.

Definition DBHandle_Delete (dbName : string) (key : bytes) (raw : gmap bytes bytes) : gmap bytes bytes :=
  delete (constructLevelKey dbName key) raw.

Definition levelBatch (dbName : string) (batch : UpdateBatch) : UpdateBatch :=
  list_to_map ((λ kv, (constructLevelKey dbName kv.1, kv.2)) <$> map_to_list batch).

Definition DBHandle_WriteBatch (dbName : string) (batch : UpdateBatch) (raw : gmap bytes bytes) : gmap bytes bytes :=
  if decide (batch = ∅) then raw else applyBatch raw (levelBatch dbName batch).

(** Without an end key the last byte of the prefix, the separator, becomes 1. *)
Definition DBHandle_GetIterator (dbName : string) (startKey : bytes) (endKey : option bytes)
    (raw : gmap bytes bytes) : list (bytes * bytes) :=
  let sKey := constructLevelKey dbName startKey in
  let eKey := match endKey with
              | Some e => constructLevelKey dbName e
              | None => String.list_byte_of_string dbName ++ [x01]
              end in
  scan sKey (Some eKey) raw.

(** What the iterator shows: [Iterator.Key] removes the prefix. *)
Definition Iterator_entries (l : list (bytes * bytes)) : outcome (list (bytes * bytes)) :=
  mapM (λ kv, k ← retrieveAppKey kv.1; Done (k, kv.2)) l.

Definition maxBatchSize : Z := 1000000.

(** The batches of deletions [DeleteAll] writes, each when it is large enough. *)
Fixpoint deleteBatches (keys : list bytes) (batchSize : Z) (batch : UpdateBatch) : list UpdateBatch :=
  match keys with
  | [] => if decide (batch = ∅) then [] else [batch]
  | k :: keys =>
    let batchSize := batchSize + blen k in
    let batch := batch_Delete k batch in
    if batchSize >=? maxBatchSize then batch :: deleteBatches keys 0 ∅ else deleteBatches keys batchSize batch
  end.

Definition DBHandle_DeleteAll (dbName : string) (raw : gmap bytes bytes) : gmap bytes bytes :=
  foldl applyBatch raw (deleteBatches (DBHandle_GetIterator dbName [] None raw).*1 0 ∅).

(** ** Handles are private *)

(** Names of ledgers have no zero byte. *)
Definition zeroFree (dbName : string) : Prop := Forall (λ b, b ≠ x00) (String.list_byte_of_string dbName).

Definition represents (dbName : string) (raw m : gmap bytes bytes) : Prop :=
  ∀ k, raw !! constructLevelKey dbName k = m !! k.

Lemma split_unique (p q k l : bytes) :
  Forall (λ b, b ≠ x00) p → Forall (λ b, b ≠ x00) q → (p ++ [x00]) ++ k = (q ++ [x00]) ++ l → p = q ∧ k = l.
Proof.
  revert q. induction p as [|x p IH]; intros [|y q] Hp Hq E; simpl in E.
  - by injection E.
  - injection E as <- _. by inversion Hq.
  - injection E as -> _. by inversion Hp.
  - injection E as -> E. inversion Hp; inversion Hq; subst. destruct (IH q) as [-> ->]; done.
Qed.

Lemma list_byte_of_string_inj s t : String.list_byte_of_string s = String.list_byte_of_string t → s = t.
Proof. intros E%(f_equal String.string_of_list_byte). by rewrite !String.string_of_list_byte_of_string in E. Qed.

Lemma levelKey_inj n1 n2 k1 k2 :
  zeroFree n1 → zeroFree n2 → constructLevelKey n1 k1 = constructLevelKey n2 k2 → n1 = n2 ∧ k1 = k2.
Proof.
  intros H1 H2 E. destruct (split_unique _ _ _ _ H1 H2 E) as [E1 E2].
  split; [by apply list_byte_of_string_inj|done].
Qed.

#[export] Instance constructLevelKey_inj n : Inj (=) (=) (constructLevelKey n).
Proof. intros k l E. unfold constructLevelKey in E. by apply app_inv_head in E. Qed.

Lemma levelBatch_lookup n batch k : levelBatch n batch !! constructLevelKey n k = batch !! k.
Proof.
  unfold levelBatch. destruct (batch !! k) as [v|] eqn:E.
  - apply elem_of_list_to_map_1.
    + rewrite <- list_fmap_compose. change (fst ∘ _) with (constructLevelKey n ∘ fst (A:=bytes) (B:=option bytes)).
      rewrite list_fmap_compose. apply NoDup_fmap_2; [apply _|apply NoDup_fst_map_to_list].
    + apply list_elem_of_fmap. exists (k, v). split; [done|]. by apply elem_of_map_to_list.
  - apply not_elem_of_list_to_map_1. intros ([k' v'] & Hk & Hin)%list_elem_of_fmap.
    apply list_elem_of_fmap in Hin as ([k2 v2] & [= -> ->] & Hin). simpl in Hk. apply (inj _) in Hk as ->.
    apply elem_of_map_to_list in Hin. congruence.
Qed.

Lemma levelBatch_other n batch k :
  (∀ k', k ≠ constructLevelKey n k') → levelBatch n batch !! k = None.
Proof.
  intros H. apply not_elem_of_list_to_map_1. intros ([k' v'] & -> & Hin)%list_elem_of_fmap.
  apply list_elem_of_fmap in Hin as ([k2 v2] & [= -> ->] & _). by apply (H k2).
Qed.

Lemma between_prefix (p s e k : bytes) :
  bytes_le (p ++ s) k → bytes_lt k (p ++ e) → ∃ k', k = p ++ k' ∧ bytes_le s k' ∧ bytes_lt k' e.
Proof.
  revert k. induction p as [|x p IH]; intros k H1 H2; [by exists k|].
  destruct k as [|y k]; [done|]. unfold bytes_le, bytes_lt in *. simpl in H1, H2.
  rewrite (Z.compare_antisym (Z_of_byte x) (Z_of_byte y)) in H2.
  destruct (Z.compare_spec (Z_of_byte x) (Z_of_byte y)) as [E| |]; [|done|done]. apply Z_of_byte_inj in E as ->.
  destruct (IH k H1 H2) as (k' & -> & ? & ?). by exists k'.
Qed.

(** The range of an iterator holds the keys of its handle only. *)
Lemma handle_range n s e k :
  inRange (constructLevelKey n s)
    (Some match e with Some e => constructLevelKey n e | None => String.list_byte_of_string n ++ [x01] end) k ↔
  ∃ k', k = constructLevelKey n k' ∧ inRange s e k'.
Proof.
  unfold inRange, constructLevelKey. destruct e as [e|].
  - split.
    + intros [H1 H2]. destruct (between_prefix _ _ _ _ H1 H2) as (k' & -> & H). by exists k'.
    + intros (k' & -> & H1 & H2). unfold bytes_le, bytes_lt in *. by rewrite !bytesCompare_prefix.
  - rewrite <- (assoc_L (++)). split.
    + intros [H1 H2]. destruct (between_prefix _ _ _ _ H1 H2) as (k' & -> & Hl & Hu).
      destruct k' as [|b k']; [done|]. unfold bytes_le, bytes_lt in Hl, Hu. simpl in Hl, Hu.
      change (Z_of_byte x00) with 0 in Hl. change (Z_of_byte x01) with 1 in Hu.
      assert (Z_of_byte b = 0) as Hb.
      { pose proof (Z_of_byte_range b). destruct (Z.compare_spec (Z_of_byte b) 1); [by destruct k'|lia|done]. }
      rewrite Hb in Hl. simpl in Hl. assert (b = x00) as -> by (by apply Z_of_byte_inj).
      exists k'. by rewrite <- (assoc_L (++)).
    + intros (k' & -> & H1 & _). rewrite <- (assoc_L (++)). unfold bytes_le, bytes_lt in *.
      rewrite !bytesCompare_prefix. done.
Qed.

Lemma retrieveAppKey_level n k : zeroFree n → retrieveAppKey (constructLevelKey n k) = Done k.
Proof.
  unfold zeroFree, constructLevelKey. induction 1 as [|x p Hx _ IH]; [done|].
  simpl. by rewrite decide_False by done.
Qed.

(** The level entries of a handle are its entries with the prefix. *)
Lemma handle_scan n s e raw m :
  represents n raw m → DBHandle_GetIterator n s e raw = prod_map (constructLevelKey n) id <$> scan s e m.
Proof.
  intros Hr. unfold DBHandle_GetIterator. apply sorted_unique.
  - apply scan_sorted.
  - pose proof (scan_sorted s e m) as Hs. induction Hs as [|[k v] l _ IH Hk]; simpl; constructor; [done|].
    apply Forall_fmap. eapply Forall_impl; [exact Hk|]. intros [k' v']. unfold key_le, bytes_le. simpl.
    unfold constructLevelKey. by rewrite bytesCompare_prefix.
  - apply scan_NoDup.
  - rewrite <- list_fmap_compose.
    change (fst ∘ _) with (constructLevelKey n ∘ fst (A:=bytes) (B:=bytes)).
    rewrite list_fmap_compose. apply NoDup_fmap_2; [apply _|apply scan_NoDup].
  - intros [k v]. rewrite scan_elem, handle_range, list_elem_of_fmap. split.
    + intros [Hk (k' & -> & Hin)]. exists (k', v). split; [done|]. apply scan_elem. split; [|done]. by rewrite <- Hr.
    + intros ([k' v'] & [= -> ->] & Hin). apply scan_elem in Hin as [Hk Hin]. split; [by rewrite Hr|]. by exists k'.
Qed.

Lemma deleteBatches_apply keys batchSize batch raw :
  foldl applyBatch raw (deleteBatches keys batchSize batch) =
    foldl (λ m k, delete k m) (applyBatch raw batch) keys.
Proof.
  assert (∀ m, applyBatch m ∅ = m) as He.
  { intros m. apply map_eq. intros i. by rewrite applyBatch_lookup, lookup_empty. }
  assert (∀ m b k, applyBatch m (batch_Delete k b) = delete k (applyBatch m b)) as Hd.
  { intros m b k. apply map_eq. intros i. rewrite applyBatch_lookup. unfold batch_Delete.
    destruct (decide (i = k)) as [->|]; [by rewrite lookup_insert_eq, lookup_delete_eq|].
    by rewrite lookup_insert_ne, lookup_delete_ne, applyBatch_lookup by done. }
  revert batchSize batch raw. induction keys as [|k keys IH]; intros batchSize batch raw; cbn [deleteBatches].
  - case_decide; [subst; by rewrite He|done].
  - destruct (_ >=? _); cbn [foldl]; rewrite IH; [by rewrite He, Hd|by rewrite Hd].
Qed.

Lemma foldl_delete_lookup (keys : list bytes) (m : gmap bytes bytes) k :
  foldl (λ m k, delete k m) m keys !! k = if decide (k ∈ keys) then None else m !! k.
Proof.
  revert m. induction keys as [|k' keys IH]; intros m; cbn [foldl].
  - by rewrite decide_False by apply not_elem_of_nil.
  - rewrite IH. destruct (decide (k ∈ keys)).
    + by rewrite decide_True by set_solver.
    + destruct (decide (k = k')) as [->|].
      * rewrite lookup_delete_eq. by rewrite decide_True by set_solver.
      * rewrite lookup_delete_ne by done. by rewrite decide_False by set_solver.
Qed.

Lemma DeleteAll_lookup n raw k :
  DBHandle_DeleteAll n raw !! k =
    if decide (k ∈ (DBHandle_GetIterator n [] None raw).*1) then None else raw !! k.
Proof.
  unfold DBHandle_DeleteAll. rewrite deleteBatches_apply, foldl_delete_lookup. f_equal. 
  by rewrite applyBatch_lookup, lookup_empty.
Qed.

(** C40. A handle is a private ordered map: writing, deleting and scanning through
    it are those operations on its own map, and leave what other handles see alone. *)
Theorem handle_private dbName raw m :
  zeroFree dbName → represents dbName raw m →
  (∀ batch, represents dbName (DBHandle_WriteBatch dbName batch raw) (applyBatch m batch)) ∧
  (∀ s e, Iterator_entries (DBHandle_GetIterator dbName s e raw) = Done (scan s e m)) ∧
  represents dbName (DBHandle_DeleteAll dbName raw) ∅ ∧
  ∀ other m', zeroFree other → other ≠ dbName → represents other raw m' →
    (∀ batch, represents other (DBHandle_WriteBatch dbName batch raw) m') ∧
    represents other (DBHandle_DeleteAll dbName raw) m'.
Proof.
  intros Hz Hr. split_and!.
  - intros batch k. unfold DBHandle_WriteBatch. case_decide as E.
    + subst. by rewrite applyBatch_lookup, lookup_empty.
    + by rewrite !applyBatch_lookup, levelBatch_lookup, Hr.
  - intros s e. erewrite handle_scan by done. unfold Iterator_entries.
    induction (scan s e m) as [|[k v] l IH]; [done|]. cbn [fmap list_fmap mapM].
    simpl. rewrite retrieveAppKey_level by done. simpl. by rewrite IH.
  - intros k. rewrite DeleteAll_lookup, lookup_empty. case_decide as E; [done|].
    destruct (raw !! constructLevelKey dbName k) as [v|] eqn:Hk; [|done]. exfalso. apply E.
    erewrite handle_scan by done. apply list_elem_of_fmap. exists (constructLevelKey dbName k, v). split; [done|].
    apply list_elem_of_fmap. exists (k, v). split; [done|]. apply scan_elem. rewrite <- Hr. split; [done|].
    split; [|done]. by destruct k.
  - intros other m' Hz' Hne Hr'. assert (∀ k k', constructLevelKey other k ≠ constructLevelKey dbName k') as Hd.
    { intros k k' E. by apply levelKey_inj in E as [-> _]. }
    split.
    + intros batch k. unfold DBHandle_WriteBatch. case_decide; [apply Hr'|].
      rewrite applyBatch_lookup, levelBatch_other by apply Hd. apply Hr'.
    + intros k. rewrite DeleteAll_lookup. rewrite decide_False; [apply Hr'|].
      erewrite handle_scan by done. intros ([k1 v1] & E & Hin)%list_elem_of_fmap.
      apply list_elem_of_fmap in Hin as ([k2 v2] & [= -> ->] & _). by apply (Hd k k2).
Qed.

Lemma handle_private_witness :
  let raw := DBHandle_Put "b" [x02] [x06] (DBHandle_Put "a" [x01] [x05] ∅) in
  Iterator_entries (DBHandle_GetIterator "a" [] None raw) = Done [([x01], [x05])] ∧
  represents "b" (DBHandle_DeleteAll "a" raw) {[ [x02] := [x06] ]}.
Proof.
  intros raw.
  assert (zeroFree "a" ∧ zeroFree "b") as [Ha Hb] by (split; repeat constructor; done).
  assert (represents "a" raw {[ [x01] := [x05] ]} ∧ represents "b" raw {[ [x02] := [x06] ]}) as [Hra Hrb].
  { assert (∀ (l : bytes) x y, l ≠ x → {[ x := y ]} !! l = (None : option bytes)) as Hs
      by (intros; by apply lookup_singleton_ne).
    split; intros k; unfold raw, DBHandle_Put, represents.
    - rewrite lookup_insert_ne by done. destruct (decide (k = [x01])) as [->|].
      + by rewrite lookup_insert_eq, lookup_singleton_eq.
      + rewrite lookup_insert_ne, lookup_empty, Hs; [done|done|]. intros E. apply (inj _) in E. congruence.
    - destruct (decide (k = [x02])) as [->|].
      + by rewrite lookup_insert_eq, lookup_singleton_eq.
      + rewrite lookup_insert_ne, Hs; [|done|intros E; apply (inj _) in E; congruence].
        by rewrite lookup_insert_ne, lookup_empty by done. }
  destruct (handle_private "a" raw _ Ha Hra) as (_ & Hs & _ & Ho). split.
  - by rewrite Hs.
  - by apply (Ho "b" _ Hb ltac:(done) Hrb).
Defined.
