(* ===== verification/BlockIndex.v ===== *)
(** * The index of the block store

    [common/ledger/blkstorage/blockindex.go] and [internal/pkg/txflags]: the keys of
    the index, what indexing a block writes in one batch, and the lookups. *)

From stdpp Require Import gmap strings list.
From Stdlib Require Import Strings.Byte.
From S2P Require Import Prelude Protos GoLib Blocks Varint BlockSerialization Disk LevelDB.

Inductive IndexableAttr :=
  | IndexableAttrBlockNum
  | IndexableAttrBlockHash
  | IndexableAttrTxID
  | IndexableAttrBlockNumTranNum.

#[export] Instance IndexableAttr_eq_dec : EqDecision IndexableAttr.
Proof. solve_decision. Defined.

(** A place in a block file. *)
Record fileLocPointer := mkFileLocPointer { fileSuffixNum : Z; flp_loc : locPointer }.

Record blockIdxInfo := mkBlockIdxInfo {
  idx_blockNum : Z;
  idx_blockHash : bytes;
  idx_flp : fileLocPointer;
  idx_txOffsets : list txindexInfo;
  idx_metadata : list bytes
}.

(** The message of [storage.proto]. *)
Record TxIDIndexValue := mkTxIDIndexValue {
  BlkLocation : bytes;
  TxLocation : bytes;
  TxValidationCode : Z
}.

Definition ErrNotFoundInIndex : error := Sentinel "ErrNotFoundInIndex".
Definition ErrAttrNotIndexed : error := Sentinel "attribute not indexed".
Definition errIndexSavePointKeyNotPresent : error := Sentinel "NoBlockIndexed".
Definition errNilValue : error := Sentinel "errNilValue".

(** ** Locations *)

Definition newFileLocationPointer (fileSuffixNum beginningOffset : Z) (relativeLP : locPointer) : fileLocPointer :=
  mkFileLocPointer fileSuffixNum (mkLocPointer (beginningOffset + lp_offset relativeLP) (lp_bytesLength relativeLP)).

Definition flp_marshal (flp : fileLocPointer) : bytes :=
  EncodeVarint (u64 (fileSuffixNum flp)) ++ EncodeVarint (u64 (lp_offset (flp_loc flp)))
    ++ EncodeVarint (u64 (lp_bytesLength (flp_loc flp))).

(** The fields read before an error are set. *)
Definition flp_unmarshal (b : bytes) : fileLocPointer * res unit :=
  let e := Err (Errorf "unexpected error while unmarshaling bytes into fileLocPointer") in
  match ConsumeVarint b with
  | None => (mkFileLocPointer 0 (mkLocPointer 0 0), e)
  | Some (f, n) =>
    match ConsumeVarint (drop n b) with
    | None => (mkFileLocPointer (i64 f) (mkLocPointer 0 0), e)
    | Some (o, k) =>
      match ConsumeVarint (drop k (drop n b)) with
      | None => (mkFileLocPointer (i64 f) (mkLocPointer (i64 o) 0), e)
      | Some (l, _) => (mkFileLocPointer (i64 f) (mkLocPointer (i64 o) (i64 l)), Ok tt)
      end
    end
  end.

(** ** Keys *)

Definition blockNumIdxKeyPrefix : byte := "n"%byte.
Definition blockHashIdxKeyPrefix : byte := "h"%byte.
Definition txIDIdxKeyPrefix : byte := "t"%byte.
Definition blockNumTranNumIdxKeyPrefix : byte := "a"%byte.
Definition indexSavePointKey : bytes := String.list_byte_of_string "indexCheckpointKey".

Definition constructBlockNumKey (blockNum : Z) : bytes :=
  blockNumIdxKeyPrefix :: EncodeOrderPreservingVarUint64 blockNum.

Definition constructBlockHashKey (blockHash : bytes) : bytes := blockHashIdxKeyPrefix :: blockHash.

(** The part of the key of a transaction that is its ID. *)
Definition txIDPrefix (txID : string) : bytes :=
  let id := String.list_byte_of_string txID in
  txIDIdxKeyPrefix :: EncodeOrderPreservingVarUint64 (blen id) ++ id.

Definition constructTxIDKey (txID : string) (blkNum txNum : Z) : bytes :=
  txIDPrefix txID ++ EncodeOrderPreservingVarUint64 blkNum ++ EncodeOrderPreservingVarUint64 txNum.

Definition retrieveTxID (encodedTxIDKey : bytes) : fallible string :=
  match encodedTxIDKey with
  | [] => fail "invalid txIDKey - zero-length slice"
  | b :: remainingBytes =>
    if decide (b ≠ txIDIdxKeyPrefix) then fail "invalid txIDKey - unexpected prefix" else
    '(txIDLen, n) ←? Done (wrap "invalid txIDKey" (DecodeOrderPreservingVarUint64 remainingBytes));
    let remainingBytes := drop n remainingBytes in
    if blen remainingBytes <=? i64 txIDLen then fail "invalid txIDKey, fewer bytes present"
    else if i64 txIDLen <? 0 then Panic "slice bounds out of range"
    else ok (String.string_of_list_byte (take (Z.to_nat (i64 txIDLen)) remainingBytes))
  end.

Definition constructTxIDRangeScan (txID : string) : bytes * bytes := (txIDPrefix txID, txIDPrefix txID ++ [xff]).

Definition constructBlockNumTranNumKey (blockNum txNum : Z) : bytes :=
  blockNumTranNumIdxKeyPrefix :: EncodeOrderPreservingVarUint64 blockNum ++ EncodeOrderPreservingVarUint64 txNum.

Definition encodeBlockNum (blockNum : Z) : bytes := EncodeVarint blockNum.
Definition decodeBlockNum (b : bytes) : Z := (DecodeVarint b).1.

(** [ValidationFlags.Flag]: an index out of range panics. *)
Definition Flag (flags : bytes) (txIndex : nat) : outcome Z :=
  b ← or_panic "index out of range: ValidationFlags" (flags !! txIndex); Done (Z_of_byte b).

Section index.
Context `{!Codec TxIDIndexValue}.
(** The attributes of the [IndexConfig]. *)
Context (indexItems : list IndexableAttr).

Definition isAttributeIndexed (attribute : IndexableAttr) : bool := bool_decide (attribute ∈ indexItems).

(** ** Indexing *)

Fixpoint putTxIDs (flp : fileLocPointer) (txsfltr : bytes) (blkNum : Z) (i : nat)
    (txOffsets : list txindexInfo) (batch : UpdateBatch) : outcome UpdateBatch :=
  match txOffsets with
  | [] => Done batch
  | txoffset :: txOffsets =>
    let txFlp := newFileLocationPointer (fileSuffixNum flp) (lp_offset (flp_loc flp)) (ti_loc txoffset) in
    flag ← Flag txsfltr i;
    let indexVal := mkTxIDIndexValue (flp_marshal flp) (flp_marshal txFlp) flag in
    putTxIDs flp txsfltr blkNum (S i) txOffsets
      (batch_Put (constructTxIDKey (ti_txID txoffset) blkNum (Z.of_nat i)) (marshal indexVal) batch)
  end.

Fixpoint putTranNums (flp : fileLocPointer) (blkNum : Z) (i : nat)
    (txOffsets : list txindexInfo) (batch : UpdateBatch) : UpdateBatch :=
  match txOffsets with
  | [] => batch
  | txoffset :: txOffsets =>
    let txFlp := newFileLocationPointer (fileSuffixNum flp) (lp_offset (flp_loc flp)) (ti_loc txoffset) in
    putTranNums flp blkNum (S i) txOffsets
      (batch_Put (constructBlockNumTranNumKey blkNum (Z.of_nat i)) (flp_marshal txFlp) batch)
  end.

(** The batch of a block. *)
Definition indexBatch (info : blockIdxInfo) : outcome UpdateBatch :=
  let flp := idx_flp info in
  txsfltr ← or_panic "index out of range: TRANSACTIONS_FILTER" (idx_metadata info !! BlockMetadataIndex_TRANSACTIONS_FILTER);
  let flpBytes := flp_marshal flp in
  let batch := NewUpdateBatch in
  let batch := if isAttributeIndexed IndexableAttrBlockHash
               then batch_Put (constructBlockHashKey (idx_blockHash info)) flpBytes batch else batch in
  let batch := if isAttributeIndexed IndexableAttrBlockNum
               then batch_Put (constructBlockNumKey (idx_blockNum info)) flpBytes batch else batch in
  batch ← (if isAttributeIndexed IndexableAttrTxID
           then putTxIDs flp txsfltr (idx_blockNum info) 0 (idx_txOffsets info) batch else Done batch);
  let batch := if isAttributeIndexed IndexableAttrBlockNumTranNum
               then putTranNums flp (idx_blockNum info) 0 (idx_txOffsets info) batch else batch in
  Done (batch_Put indexSavePointKey (encodeBlockNum (idx_blockNum info)) batch).

Definition indexBlock (info : blockIdxInfo) : io (res unit) :=
  if decide (indexItems = []) then mret (Ok tt)
  else batch ← io_outcome (indexBatch info); db_WriteBatch batch true.

(** ** Lookups, in what a reader of the database sees *)

Definition getLastBlockIndexed (db : gmap bytes bytes) : res Z :=
  match db !! indexSavePointKey with
  | None => Err errIndexSavePointKeyNotPresent
  | Some blockNumBytes => Ok (decodeBlockNum blockNumBytes)
  end.

Definition getBlockLocByHash (blockHash : bytes) (db : gmap bytes bytes) : res fileLocPointer :=
  if negb (isAttributeIndexed IndexableAttrBlockHash) then Err ErrAttrNotIndexed
  else match db !! constructBlockHashKey blockHash with
  | None => Err ErrNotFoundInIndex
  | Some b => Ok (flp_unmarshal b).1
  end.

Definition getBlockLocByBlockNum (blockNum : Z) (db : gmap bytes bytes) : res fileLocPointer :=
  if negb (isAttributeIndexed IndexableAttrBlockNum) then Err ErrAttrNotIndexed
  else match db !! constructBlockNumKey blockNum with
  | None => Err ErrNotFoundInIndex
  | Some b => Ok (flp_unmarshal b).1
  end.

Definition getTxIDVal (txID : string) (db : gmap bytes bytes) : res TxIDIndexValue :=
  if negb (isAttributeIndexed IndexableAttrTxID) then Err ErrAttrNotIndexed
  else
    let '(startKey, stopKey) := constructTxIDRangeScan txID in
    match scan startKey (Some stopKey) db with
    | [] => Err ErrNotFoundInIndex
    | (_, valBytes) :: _ =>
      if blen valBytes =? 0 then Err errNilValue
      else or_err "unexpected error while unmarshaling bytes into TxIDIndexValProto" (unmarshal valBytes)
    end.

Definition unmarshalLoc (b : bytes) : res fileLocPointer :=
  let '(flp, r) := flp_unmarshal b in _ ← r; Ok flp.

Definition getTxLoc (txID : string) (db : gmap bytes bytes) : res fileLocPointer :=
  v ← getTxIDVal txID db; unmarshalLoc (TxLocation v).

Definition getBlockLocByTxID (txID : string) (db : gmap bytes bytes) : res fileLocPointer :=
  v ← getTxIDVal txID db; unmarshalLoc (BlkLocation v).

Definition getTxValidationCodeByTxID (txID : string) (db : gmap bytes bytes) : res Z :=
  v ← getTxIDVal txID db; Ok (TxValidationCode v).

Definition getTXLocByBlockNumTranNum (blockNum tranNum : Z) (db : gmap bytes bytes) : res fileLocPointer :=
  if negb (isAttributeIndexed IndexableAttrBlockNumTranNum) then Err ErrAttrNotIndexed
  else match db !! constructBlockNumTranNumKey blockNum tranNum with
  | None => Err ErrNotFoundInIndex
  | Some b => Ok (flp_unmarshal b).1
  end.
End index.
