(* ===== verification/BlockStream.v ===== *)
(** * Reading block files

    [common/ledger/blkstorage/block_stream.go], [blockfile_rw.go] and
    [blockfile_helper.go]: the blocks of a file one after the other, across files,
    and what the files tell about the chain. *)

From stdpp Require Import gmap strings list.
From Stdlib Require Import Strings.Byte.
From S2P Require Import Prelude Protos GoLib Blocks Varint BlockSerialization Disk.

Definition ErrUnexpectedEndOfBlockfile : error := Sentinel "unexpected end of blockfile".

(** ** The blocks of one file *)

Record blockfileStream := mkBlockfileStream { fs_fileNum : Z; fs_currentOffset : Z }.

Record blockPlacementInfo := mkBlockPlacementInfo {
  pi_fileNum : Z;
  pi_blockStartOffset : Z;
  pi_blockBytesOffset : Z
}.

Definition fileBytesOf (f : Z) (d : disk) : bytes :=
  match d_files d !! f with Some x => f_bytes x | None => [] end.

Definition newBlockfileStream (fileNum startOffset : Z) (d : disk) : res blockfileStream :=
  match d_files d !! fileNum with
  | None => Err (Errorf "error opening block file")
  | Some _ =>
    if startOffset <? 0 then Err (Errorf "error seeking block file to startOffset")
    else Ok (mkBlockfileStream fileNum startOffset)
  end.

(** The next block with its place, [None] at the end of the file, and the stream
    after it. The length of a block is a varint of at most eight bytes, so that it
    is below [2^56] and [int64(n) + int64(length)] does not overflow. *)
Definition nextBlock (s : blockfileStream) (d : disk)
    : fallible (option (bytes * blockPlacementInfo) * blockfileStream) :=
  let content := fileBytesOf (fs_fileNum s) d in
  let off := fs_currentOffset s in
  if off =? blen content then ok (None, s) else
  let remainingBytes := blen content - off in
  let moreContentAvailable := 8 <=? remainingBytes in
  let peekBytes := if moreContentAvailable then 8 else remainingBytes in
  if peekBytes <? 0 then fail "error peeking bytes from block file" else
  let lenBytes := take (Z.to_nat peekBytes) (drop (Z.to_nat off) content) in
  let '(len, n) := DecodeVarint lenBytes in
  if decide (n = 0%nat) then
    if moreContentAvailable then Panic "Error in decoding varint bytes" else Done (Err ErrUnexpectedEndOfBlockfile)
  else
    let bytesExpected := Z.of_nat n + len in
    if bytesExpected >? remainingBytes then Done (Err ErrUnexpectedEndOfBlockfile) else
    let blockBytes := take (Z.to_nat len) (drop n (drop (Z.to_nat off) content)) in
    ok (Some (blockBytes, mkBlockPlacementInfo (fs_fileNum s) off (off + Z.of_nat n)),
        mkBlockfileStream (fs_fileNum s) (off + (Z.of_nat n + len))).

(** ** Across files *)

Record blockStream := mkBlockStream {
  bs_currentFileNum : Z;
  bs_endFileNum : Z;
  bs_currentFileStream : blockfileStream
}.

Definition newBlockStream (startFileNum startOffset endFileNum : Z) (d : disk) : res blockStream :=
  s ← newBlockfileStream startFileNum startOffset d; Ok (mkBlockStream startFileNum endFileNum s).

Definition moveToNextBlockfileStream (s : blockStream) (d : disk) : res blockStream :=
  fs ← newBlockfileStream (bs_currentFileNum s + 1) 0 d;
  Ok (mkBlockStream (bs_currentFileNum s + 1) (bs_endFileNum s) fs).

(** Every recursive call opens another file, of which there are finitely many. *)
Fixpoint nextBlockBytesAndPlacementInfo_fuel (fuel : nat) (s : blockStream) (d : disk)
    : fallible (option (bytes * blockPlacementInfo) * blockStream) :=
  '(b, fs) ←? nextBlock (bs_currentFileStream s) d;
  let s := mkBlockStream (bs_currentFileNum s) (bs_endFileNum s) fs in
  match b with
  | Some _ => ok (b, s)
  | None =>
    if (bs_currentFileNum s <? bs_endFileNum s) || (bs_endFileNum s <? 0) then
      s ←? Done (moveToNextBlockfileStream s d);
      match fuel with
      | O => fail "out of fuel"
      | S fuel => nextBlockBytesAndPlacementInfo_fuel fuel s d
      end
    else ok (None, s)
  end.

Definition nextBlockBytesAndPlacementInfo (s : blockStream) (d : disk) :=
  nextBlockBytesAndPlacementInfo_fuel (size (d_files d)) s d.

(** [blockfileReader.read]: reading past the end is an error. *)
Definition readRaw (f offset len : Z) (d : disk) : res bytes :=
  match d_files d !! f with
  | None => Err (Errorf "error opening block file reader")
  | Some x =>
    if (offset <? 0) || (blen (f_bytes x) <? offset + len) then Err (Errorf "error reading block file")
    else Ok (take (Z.to_nat len) (drop (Z.to_nat offset) (f_bytes x)))
  end.

(** ** The last complete block of a file *)

(** The loop of [scanForLastCompleteBlock]: the bytes of the last block, the offset
    after it, how many there were, and the error that ended the loop. Every block
    takes a byte or more. *)
Fixpoint scanLoop (fuel : nat) (s : blockfileStream) (lastBlockBytes : option bytes) (numBlocks : Z) (d : disk)
    : outcome (option bytes * Z * Z * option error) :=
  r ← nextBlock s d;
  match r with
  | Err e => Done (lastBlockBytes, fs_currentOffset s, numBlocks, Some e)
  | Ok (None, s) => Done (lastBlockBytes, fs_currentOffset s, numBlocks, None)
  | Ok (Some (b, _), s) =>
    match fuel with
    | O => Panic "out of fuel"
    | S fuel => scanLoop fuel s (Some b) (numBlocks + 1) d
    end
  end.

Definition scanForLastCompleteBlock (fileNum startingOffset : Z) (d : disk) : fallible (option bytes * Z * Z) :=
  s ←? Done (newBlockfileStream fileNum startingOffset d);
  '(lastBlockBytes, off, numBlocks, errRead) ← scanLoop (length (fileBytesOf fileNum d)) s None 0 d;
  match errRead with
  | None => ok (lastBlockBytes, off, numBlocks)
  | Some e => if decide (e = ErrUnexpectedEndOfBlockfile) then ok (lastBlockBytes, off, numBlocks) else Done (Err e)
  end.

(** ** What the files tell *)

Record blockfilesInfo := mkBlockfilesInfo {
  latestFileNumber : Z;
  latestFileSize : Z;
  noBlockFiles : bool;
  lastPersistedBlock : Z
}.

(** The biggest number of a block file, -1 without one. *)
Definition retrieveLastFileSuffix (d : disk) : Z := map_fold (λ f _ acc, Z.max f acc) (-1) (d_files d).

Section helper.
Context `{!Codec Envelope, !Codec Payload, !Codec ChannelHeader, !Codec SignatureHeader}.
Context (sha256 : bytes → bytes).

Definition constructBlockfilesInfo (d : disk) : fallible blockfilesInfo :=
  let lastFileNum := retrieveLastFileSuffix d in
  if lastFileNum =? -1 then ok (mkBlockfilesInfo 0 0 true 0) else
  '(lastBlockBytes, endOffsetLastBlock, numBlocksInFile) ←? scanForLastCompleteBlock lastFileNum 0 d;
  lastBlockBytes ←?
    (if (numBlocksInFile =? 0) && (lastFileNum >? 0) then
       _ ← or_panic "error retrieving file info for file number" (d_files d !! (lastFileNum - 1));
       '(lastBlockBytes, _, _) ←? scanForLastCompleteBlock (lastFileNum - 1) 0 d; ok lastBlockBytes
     else ok lastBlockBytes);
  lastBlockNumber ←?
    match lastBlockBytes with
    | None => ok 0
    | Some b => lastBlock ←? Done (deserializeBlock sha256 b); ok (hdr_Number (blk_Header lastBlock))
    end;
  ok (mkBlockfilesInfo lastFileNum endOffsetLastBlock ((lastFileNum =? 0) && (numBlocksInFile =? 0)) lastBlockNumber).

(** Without a block the bytes to parse are nil. *)
Definition retrieveFirstBlockNumFromFile (fileNum : Z) (d : disk) : fallible Z :=
  s ←? Done (newBlockfileStream fileNum 0 d);
  '(bb, _) ←? nextBlock s d;
  blockInfo ←? Done (extractSerializedBlockInfo sha256 (match bb with Some (b, _) => b | None => [] end));
  ok (hdr_Number (sbi_blockHeader blockInfo)).

(** The loop halves the files between [beginFile] and [endFile]. *)
Fixpoint binarySearchLoop (fuel : nat) (beginFile endFile blockNum : Z) (d : disk) : fallible Z :=
  if endFile =? beginFile then ok beginFile else
  match fuel with
  | O => fail "out of fuel"
  | S fuel =>
    let searchFile := beginFile + (endFile - beginFile) / 2 + 1 in
    n ←? retrieveFirstBlockNumFromFile searchFile d;
    if n =? blockNum then ok searchFile
    else if n >? blockNum then binarySearchLoop fuel beginFile (searchFile - 1) blockNum d
    else binarySearchLoop fuel searchFile endFile blockNum d
  end.

Definition binarySearchFileNumForBlock (blockNum : Z) (d : disk) : fallible Z :=
  blkfilesInfo ←? constructBlockfilesInfo d;
  binarySearchLoop (Z.to_nat (latestFileNumber blkfilesInfo)) 0 (latestFileNumber blkfilesInfo) blockNum d.
End helper.
