(* ===== verification/BlockfileMgr.v ===== *)
(** * The block store

    [common/ledger/blkstorage/blockfile_mgr.go] and [blocks_itr.go]: opening the
    store, which brings the database and the files in line after a crash, adding
    blocks, queries and iterators. *)

From stdpp Require Import gmap strings list.
From Stdlib Require Import Strings.Byte.
From S2P Require Import Prelude Protos GoLib Blocks Varint BlockSerialization Disk LevelDB BlockIndex BlockStream.

(** The message of [storage.proto]. *)
Record BootstrappingSnapshotInfo := mkBootstrappingSnapshotInfo {
  bsi_LastBlockNum : Z;
  bsi_LastBlockHash : bytes;
  bsi_PreviousBlockHash : bytes
}.

Record BlockchainInfo := mkBlockchainInfo {
  Height : Z;
  bc_CurrentBlockHash : bytes;
  bc_PreviousBlockHash : bytes
}.

(** The state of the manager; the writer is the number of the file it is open on. *)
Record blockfileMgr := mkBlockfileMgr {
  mgr_blockfilesInfo : blockfilesInfo;
  mgr_bootstrappingSnapshotInfo : option BootstrappingSnapshotInfo;
  mgr_currentFileWriter : Z;
  mgr_bcInfo : BlockchainInfo
}.

Definition blkMgrInfoKey : bytes := String.list_byte_of_string "blkMgrInfo".

(** ** The summary of the files *)

Definition info_marshal (i : blockfilesInfo) : bytes :=
  EncodeVarint (u64 (latestFileNumber i)) ++ EncodeVarint (u64 (latestFileSize i))
    ++ EncodeVarint (lastPersistedBlock i) ++ EncodeVarint (if noBlockFiles i then 1 else 0).

Definition info_unmarshal (b : bytes) : res blockfilesInfo :=
  let e := "unexpected EOF" in
  '(f, n) ← or_err e (ConsumeVarint b); let b := drop n b in
  '(s, n) ← or_err e (ConsumeVarint b); let b := drop n b in
  '(l, n) ← or_err e (ConsumeVarint b); let b := drop n b in
  '(m, _) ← or_err e (ConsumeVarint b);
  Ok (mkBlockfilesInfo (i64 f) (i64 s) (m =? 1) l).

Definition loadBlkfilesInfo (d : disk) : res (option blockfilesInfo) :=
  match db_Get blkMgrInfoKey d with
  | None => Ok None
  | Some b => i ← info_unmarshal b; Ok (Some i)
  end.

Definition saveBlkfilesInfo (i : blockfilesInfo) (sync : bool) : io (res unit) :=
  db_Put blkMgrInfoKey (info_marshal i) sync.

(** ** Writers *)

Definition newBlockfileWriter (f : Z) : io (res unit) := os_Create f.

(** The error of [File.Truncate] is dropped. *)
Definition truncateFile (f targetSize : Z) : io (res unit) :=
  size ←! os_Stat f;
  if size >? targetSize then _ ← os_Truncate f (Z.to_nat targetSize); mret (Ok tt) else mret (Ok tt).

Definition writer_append (f : Z) (b : bytes) (sync : bool) : io (res unit) :=
  _ ←! os_Write f b; if sync then os_Sync f else mret (Ok tt).

(** The directory of the ledger exists or can be made. *)
Definition CreateDirIfMissing : io (res unit) := atomic (Errorf "error creating dir") (λ d, d).

(** ** Bringing the summary in line with the files *)

Definition syncBlockfilesInfoFromFS (blkfilesInfo : blockfilesInfo) (d : disk) : outcome blockfilesInfo :=
  match d_files d !! latestFileNumber blkfilesInfo with
  | None => Done blkfilesInfo
  | Some x =>
    if blen (f_bytes x) =? latestFileSize blkfilesInfo then Done blkfilesInfo else
    r ← scanForLastCompleteBlock (latestFileNumber blkfilesInfo) (latestFileSize blkfilesInfo) d;
    match r with
    | Err _ => Panic "Could not open current file for detecting last block in the file"
    | Ok (_, endOffsetLastBlock, numBlocks) =>
      if numBlocks =? 0
      then Done (mkBlockfilesInfo (latestFileNumber blkfilesInfo) endOffsetLastBlock
                   (noBlockFiles blkfilesInfo) (lastPersistedBlock blkfilesInfo))
      else Done (mkBlockfilesInfo (latestFileNumber blkfilesInfo) endOffsetLastBlock false
                   (if noBlockFiles blkfilesInfo then u64 (numBlocks - 1)
                    else u64 (lastPersistedBlock blkfilesInfo + numBlocks)))
    end
  end.

Section manager.
Context `{!Codec Envelope, !Codec Payload, !Codec ChannelHeader, !Codec SignatureHeader}.
Context `{!Codec TxIDIndexValue, !Codec BootstrappingSnapshotInfo}.
(** SHA-256, the indexed attributes and [conf.maxBlockfileSize]. *)
Context (sha256 : bytes → bytes) (indexItems : list IndexableAttr) (maxBlockfileSize : Z).

Definition loadBootstrappingSnapshotInfo (d : disk) : res (option BootstrappingSnapshotInfo) :=
  match d_bootstrap d with
  | None => Ok None
  | Some bsiBytes => bsi ← or_err "error while unmarshalling bootstrappingSnapshotInfo" (unmarshal bsiBytes); Ok (Some bsi)
  end.

Definition firstPossibleBlockNumberInBlockFiles (mgr : blockfileMgr) : Z :=
  match mgr_bootstrappingSnapshotInfo mgr with
  | None => 0
  | Some bsi => u64 (bsi_LastBlockNum bsi + 1)
  end.

Definition bootstrappedFromSnapshot (mgr : blockfileMgr) : bool := firstPossibleBlockNumberInBlockFiles mgr >? 0.

(** ** Queries *)

Definition fetchBlockBytes (lp : fileLocPointer) (d : disk) : fallible (option bytes) :=
  s ←? Done (newBlockfileStream (fileSuffixNum lp) (lp_offset (flp_loc lp)) d);
  '(b, _) ←? nextBlock s d; ok (fst <$> b).

(** At the end of the file the bytes are nil, which parse as no bytes. *)
Definition fetchBlock (lp : fileLocPointer) (d : disk) : fallible Block :=
  blockBytes ←? fetchBlockBytes lp d; Done (deserializeBlock sha256 (nb blockBytes)).

Definition fetchTransactionEnvelope (lp : fileLocPointer) (d : disk) : res Envelope :=
  txEnvelopeBytes ← readRaw (fileSuffixNum lp) (lp_offset (flp_loc lp)) (lp_bytesLength (flp_loc lp)) d;
  GetEnvelopeFromBlock (drop (DecodeVarint txEnvelopeBytes).2 txEnvelopeBytes).

Definition view (d : disk) : gmap bytes bytes := db_view (d_db d).

Definition retrieveBlockByHash (blockHash : bytes) (d : disk) : fallible Block :=
  loc ←? Done (getBlockLocByHash indexItems blockHash (view d)); fetchBlock loc d.

Definition cannotServe : error := Errorf "cannot serve block. The ledger is bootstrapped from a snapshot".

(** [math.MaxUint64] asks for the last block. *)
Definition retrieveBlockByNumber (blockNum : Z) (mgr : blockfileMgr) (d : disk) : fallible Block :=
  let blockNum := if blockNum =? 2 ^ 64 - 1 then u64 (Height (mgr_bcInfo mgr) - 1) else blockNum in
  if blockNum <? firstPossibleBlockNumberInBlockFiles mgr then Done (Err cannotServe) else
  loc ←? Done (getBlockLocByBlockNum indexItems blockNum (view d)); fetchBlock loc d.

(** An ID known from the snapshot only is another error. *)
Definition snapshotTx {A} (r : res A) : res A :=
  match r with
  | Err e => if decide (e = errNilValue)
             then Err (Errorf "details for the TXID not available. Ledger bootstrapped from a snapshot") else Err e
  | Ok a => Ok a
  end.

Definition retrieveBlockByTxID (txID : string) (d : disk) : fallible Block :=
  loc ←? Done (snapshotTx (getBlockLocByTxID indexItems txID (view d))); fetchBlock loc d.

Definition retrieveTxValidationCodeByTxID (txID : string) (d : disk) : res Z :=
  snapshotTx (getTxValidationCodeByTxID indexItems txID (view d)).

Definition retrieveBlockHeaderByNumber (blockNum : Z) (mgr : blockfileMgr) (d : disk) : fallible BlockHeader :=
  if blockNum <? firstPossibleBlockNumberInBlockFiles mgr then Done (Err cannotServe) else
  loc ←? Done (getBlockLocByBlockNum indexItems blockNum (view d));
  blockBytes ←? fetchBlockBytes loc d;
  info ←? Done (extractSerializedBlockInfo sha256 (nb blockBytes));
  ok (sbi_blockHeader info).

Definition retrieveTransactionByID (txID : string) (d : disk) : res Envelope :=
  loc ← snapshotTx (getTxLoc indexItems txID (view d)); fetchTransactionEnvelope loc d.

Definition retrieveTransactionByBlockNumTranNum (blockNum tranNum : Z) (mgr : blockfileMgr) (d : disk) : res Envelope :=
  if blockNum <? firstPossibleBlockNumberInBlockFiles mgr then Err cannotServe else
  loc ← getTXLocByBlockNumTranNum indexItems blockNum tranNum (view d); fetchTransactionEnvelope loc d.

(** ** Bringing the index in line with the files *)

Definition shiftOffsets (by_ : Z) (txOffsets : list txindexInfo) : list txindexInfo :=
  (λ t, mkTxindexInfo (ti_txID t) (mkLocPointer (lp_offset (ti_loc t) + by_) (lp_bytesLength (ti_loc t)))) <$> txOffsets.

(** The entry of a block found in the files. *)
Definition placedIdxInfo (info : serializedBlockInfo) (p : blockPlacementInfo) : blockIdxInfo :=
  mkBlockIdxInfo (hdr_Number (sbi_blockHeader info)) (BlockHeaderHash sha256 (sbi_blockHeader info))
    (mkFileLocPointer (pi_fileNum p) (mkLocPointer (pi_blockStartOffset p) 0))
    (shiftOffsets (pi_blockBytesOffset p - pi_blockStartOffset p) (sbi_txOffsets info)) (sbi_metadata info).

(** Every turn reads a block, which takes a byte or more. *)
Fixpoint syncIndexLoop (fuel : nat) (stream : blockStream) : io (res unit) :=
  r ← reads (nextBlockBytesAndPlacementInfo stream); r ← io_outcome r;
  match r with
  | Err e => mret (Err e)
  | Ok (None, _) => mret (Ok tt)
  | Ok (Some (blockBytes, p), stream) =>
    info ←! mret (extractSerializedBlockInfo sha256 blockBytes);
    _ ←! indexBlock indexItems (placedIdxInfo info p);
    match fuel with
    | O => mret (Err (Errorf "out of fuel"))
    | S fuel => syncIndexLoop fuel stream
    end
  end.

Definition totalBytes (d : disk) : nat := map_fold (λ _ x n, (length (f_bytes x) + n)%nat) 0%nat (d_files d).

(** Where to start: after the last block that is indexed, or at the first block. *)
Definition syncIndexStart (nextIndexableBlock lastBlockIndexed firstAvailableBlkNum endFileNum : Z) (d : disk)
    : fallible blockStream :=
  if nextIndexableBlock >? firstAvailableBlkNum then
    flp ←? Done (getBlockLocByBlockNum indexItems lastBlockIndexed (view d));
    stream ←? Done (newBlockStream (fileSuffixNum flp) (lp_offset (flp_loc flp)) endFileNum d);
    '(blockBytes, stream) ←? nextBlockBytesAndPlacementInfo stream d;
    match blockBytes with
    | None => fail "block bytes should not be nil here. The indexes for the block are already present"
    | Some _ => ok stream
    end
  else Done (newBlockStream 0 0 endFileNum d).

Definition syncIndex (mgr : blockfileMgr) : io (res unit) :=
  r ← reads (λ d, getLastBlockIndexed (view d));
  let '(lastBlockIndexed, nextIndexableBlock) :=
    match r with Ok l => (l, u64 (l + 1)) | Err _ => (0, 0) end in
  if (nextIndexableBlock =? 0) && bootstrappedFromSnapshot mgr
  then mret (Err (Errorf "cannot sync index with block files. blockstore is bootstrapped from a snapshot"))
  else if noBlockFiles (mgr_blockfilesInfo mgr) then mret (Ok tt)
  else if nextIndexableBlock =? u64 (lastPersistedBlock (mgr_blockfilesInfo mgr) + 1) then mret (Ok tt)
  else
    let endFileNum := latestFileNumber (mgr_blockfilesInfo mgr) in
    r ← reads (retrieveFirstBlockNumFromFile sha256 0);
    firstAvailableBlkNum ←! io_outcome r;
    r ← reads (syncIndexStart nextIndexableBlock lastBlockIndexed firstAvailableBlkNum endFileNum);
    stream ←! io_outcome r;
    fuel ← reads totalBytes;
    syncIndexLoop fuel stream.

(** ** Opening the store *)

Definition newBlockfileMgr : io (res blockfileMgr) :=
  _ ← must "Error creating block storage root dir" CreateDirIfMissing;
  loaded ← must "Could not get block file info for current block file from db" (reads loadBlkfilesInfo);
  info ← match loaded with
         | None =>
           r ← reads (constructBlockfilesInfo sha256);
           must "Could not build blockfilesInfo info from block files" (io_outcome r)
         | Some i => r ← reads (syncBlockfilesInfoFromFS i); io_outcome r
         end;
  _ ← must "Could not save next block file info to db" (saveBlkfilesInfo info true);
  _ ← must "Could not open writer to current file" (newBlockfileWriter (latestFileNumber info));
  _ ← must "Could not truncate current file to known size in db" (truncateFile (latestFileNumber info) (latestFileSize info));
  bsi ←! reads loadBootstrappingSnapshotInfo;
  let bcInfo := match bsi with
                | Some bsi => mkBlockchainInfo (u64 (bsi_LastBlockNum bsi + 1)) (bsi_LastBlockHash bsi) (bsi_PreviousBlockHash bsi)
                | None => mkBlockchainInfo 0 [] []
                end in
  let mgr := mkBlockfileMgr info bsi (latestFileNumber info) bcInfo in
  _ ←! syncIndex mgr;
  if noBlockFiles info then mret (Ok mgr) else
  r ← reads (retrieveBlockHeaderByNumber (lastPersistedBlock info) mgr);
  lastBlockHeader ← must "Could not retrieve header of the last block form file" (io_outcome r);
  mret (Ok {| mgr with mgr_bcInfo :=
    mkBlockchainInfo (u64 (lastPersistedBlock info + 1)) (BlockHeaderHash sha256 lastBlockHeader) (hdr_PreviousHash lastBlockHeader) |}).

(** ** Adding a block *)

(** The new summary says that there are block files, whether there are or not. *)
Definition moveToNextFile (mgr : blockfileMgr) : io blockfileMgr :=
  let blkfilesInfo := mkBlockfilesInfo (latestFileNumber (mgr_blockfilesInfo mgr) + 1) 0 false
                        (lastPersistedBlock (mgr_blockfilesInfo mgr)) in
  _ ← must "Could not open writer to next file" (newBlockfileWriter (latestFileNumber blkfilesInfo));
  _ ← must "Could not save next block file info to db" (saveBlkfilesInfo blkfilesInfo true);
  mret (mkBlockfileMgr blkfilesInfo (mgr_bootstrappingSnapshotInfo mgr) (latestFileNumber blkfilesInfo) (mgr_bcInfo mgr)).

(** On an error the file is truncated to its size before. *)
Definition undoAppend {A} (mgr : blockfileMgr) (e : error) (msg : string) : io (blockfileMgr * res A) :=
  _ ← must "Could not truncate current file to known size"
        (truncateFile (mgr_currentFileWriter mgr) (latestFileSize (mgr_blockfilesInfo mgr)));
  mret (mgr, Err (Wrap e msg)).

(** After the block is in the file: the summary, the index and the manager. *)
Definition recordBlock (block : Block) (blockHash : bytes) (txOffsets : list txindexInfo)
    (currentOffset lenBytes totalBytesToAppend : Z) (mgr : blockfileMgr) : io (blockfileMgr * res unit) :=
  let current := mgr_blockfilesInfo mgr in
  let newBlkfilesInfo := mkBlockfilesInfo (latestFileNumber current) (latestFileSize current + totalBytesToAppend)
                           false (hdr_Number (blk_Header block)) in
  saved ← saveBlkfilesInfo newBlkfilesInfo false;
  match saved with
  | Err e => undoAppend mgr e "error saving blockfiles file info to db"
  | Ok _ =>
    let blockFLP := mkFileLocPointer (latestFileNumber newBlkfilesInfo) (mkLocPointer currentOffset 0) in
    indexed ← indexBlock indexItems
      (mkBlockIdxInfo (hdr_Number (blk_Header block)) blockHash blockFLP (shiftOffsets lenBytes txOffsets)
         (default [] (blk_Metadata block)));
    match indexed with
    | Err e => mret (mgr, Err e)
    | Ok _ =>
      let bcInfo := mkBlockchainInfo (u64 (Height (mgr_bcInfo mgr) + 1)) blockHash (hdr_PreviousHash (blk_Header block)) in
      mret (mkBlockfileMgr newBlkfilesInfo (mgr_bootstrappingSnapshotInfo mgr) (mgr_currentFileWriter mgr) bcInfo, Ok tt)
    end
  end.

Definition addBlock (block : Block) (mgr : blockfileMgr) : io (blockfileMgr * res unit) :=
  let bcInfo := mgr_bcInfo mgr in
  if decide (hdr_Number (blk_Header block) ≠ Height bcInfo)
  then mret (mgr, Err (Errorf "block number should have been the height"))
  else if decide (hdr_PreviousHash (blk_Header block) ≠ bc_CurrentBlockHash bcInfo)
  then mret (mgr, Err (Errorf "unexpected Previous block hash"))
  else
    '(blockBytes, info) ← io_outcome (serializeBlock sha256 block);
    let blockHash := BlockHeaderHash sha256 (blk_Header block) in
    let currentOffset := latestFileSize (mgr_blockfilesInfo mgr) in
    let blockBytesEncodedLen := EncodeVarint (blen blockBytes) in
    let totalBytesToAppend := blen blockBytes + blen blockBytesEncodedLen in
    '(mgr, currentOffset) ←
      (if currentOffset + totalBytesToAppend >? maxBlockfileSize
       then mgr ← moveToNextFile mgr; mret (mgr, 0) else mret (mgr, currentOffset));
    appended ← io_try (writer_append (mgr_currentFileWriter mgr) blockBytesEncodedLen false)
                 (λ _, writer_append (mgr_currentFileWriter mgr) blockBytes true);
    match appended with
    | Err e => undoAppend mgr e "error appending block to file"
    | Ok _ => recordBlock block blockHash (sbi_txOffsets info) currentOffset (blen blockBytesEncodedLen) totalBytesToAppend mgr
    end.
End manager.
