(* ===== verification/BlockLayout.v ===== *)
(** * Blocks in files

    What block files hold: the frames of blocks one after the other, and at the end
    of the last file possibly a part of a frame. The readers of [BlockStream] find
    exactly the complete frames. *)

From stdpp Require Import gmap strings list.
From Stdlib Require Import Strings.Byte.
From S2P Require Import Prelude Protos GoLib Blocks Varint BlockSerialization Disk BlockStream.

(** ** Frames *)

(** The serialised bytes of a block that has data and metadata. *)
Definition bytesOf (b : Block) : bytes :=
  blockBytes (blk_Header b) (default [] (blk_Data b)) (default [] (blk_Metadata b)).

Definition frame (b : Block) : bytes := EncodeVarint (blen (bytesOf b)) ++ bytesOf b.

Definition fileBytes (bl : list Block) : bytes := concat (frame <$> bl).

(** A block whose length the reader can decode. *)
Definition small (b : Block) : Prop := blen (bytesOf b) < 2 ^ 56.

(** What a crash can leave after the last complete block. *)
Definition partial (junk : bytes) : Prop := ∃ b k, small b ∧ (k < length (frame b))%nat ∧ junk = take k (frame b).

Lemma fileBytes_cons b bl : fileBytes (b :: bl) = frame b ++ fileBytes bl.
Proof. done. Qed.

Lemma fileBytes_app bl1 bl2 : fileBytes (bl1 ++ bl2) = fileBytes bl1 ++ fileBytes bl2.
Proof. unfold fileBytes. by rewrite fmap_app, concat_app. Qed.

Lemma fileBytes_snoc bl b : fileBytes (bl ++ [b]) = fileBytes bl ++ frame b.
Proof. rewrite fileBytes_app. unfold fileBytes at 2. simpl. by rewrite app_nil_r. Qed.

Lemma lenBytes_length b : small b → (1 <= length (EncodeVarint (blen (bytesOf b))) <= 8)%nat.
Proof. intros H. apply EncodeVarint_length; [|lia|lia]. unfold small in H. split; [unfold blen; lia|exact H]. Qed.

Lemma small_u64 b : small b → is_u64 (blen (bytesOf b)).
Proof.
  intros H. split; [unfold blen; lia|]. eapply Z.lt_trans; [exact H|]. apply Z.pow_lt_mono_r; lia.
Qed.

Lemma frame_length b : blen (frame b) = blen (EncodeVarint (blen (bytesOf b))) + blen (bytesOf b).
Proof. apply blen_app. Qed.

Lemma frame_pos b : small b → (0 < length (frame b))%nat.
Proof. intros H%lenBytes_length. unfold frame. rewrite length_app. lia. Qed.

Lemma partial_nil b : small b → partial [].
Proof. intros H. exists b, 0%nat. split; [done|]. split; [by apply frame_pos|done]. Qed.

Lemma partial_empty : partial [].
Proof. apply (partial_nil (mkBlock (mkBlockHeader 0 [] []) None None)). done. Qed.

(** ** One file *)

Lemma fileBytesOf_lookup f d x : d_files d !! f = Some x → fileBytesOf f d = f_bytes x.
Proof. unfold fileBytesOf. by intros ->. Qed.

Lemma nextBlock_end f d pre : fileBytesOf f d = pre →
  nextBlock (mkBlockfileStream f (blen pre)) d = ok (None, mkBlockfileStream f (blen pre)).
Proof. intros Hc. unfold nextBlock. cbn [fs_fileNum fs_currentOffset]. by rewrite Hc, Z.eqb_refl. Qed.

Lemma blen_nat (b : bytes) : Z.to_nat (blen b) = length b.
Proof. apply Nat2Z.id. Qed.

Lemma nextBlock_frame f d pre b rest :
  small b → fileBytesOf f d = pre ++ frame b ++ rest →
  nextBlock (mkBlockfileStream f (blen pre)) d =
    ok (Some (bytesOf b, mkBlockPlacementInfo f (blen pre) (blen pre + blen (EncodeVarint (blen (bytesOf b))))),
        mkBlockfileStream f (blen pre + blen (frame b))).
Proof.
  intros Hb Hc. unfold nextBlock. cbn [fs_fileNum fs_currentOffset]. rewrite Hc.
  pose proof (lenBytes_length b Hb) as Hl. pose proof (frame_pos b Hb).
  destruct (Z.eqb_spec (blen pre) (blen (pre ++ frame b ++ rest))) as [E|_].
  { unfold blen in E. rewrite !length_app in E. lia. }
  assert (blen (pre ++ frame b ++ rest) - blen pre = blen (frame b ++ rest)) as ->.
  { unfold blen. rewrite !length_app. lia. }
  set (peek := if 8 <=? blen (frame b ++ rest) then 8 else blen (frame b ++ rest)).
  assert (Z.of_nat (length (EncodeVarint (blen (bytesOf b)))) <= peek) as Hp.
  { assert (blen (frame b ++ rest) >= Z.of_nat (length (EncodeVarint (blen (bytesOf b))))).
    { unfold frame. rewrite !blen_app. unfold blen. lia. }
    unfold peek. destruct (_ <=? _); lia. }
  destruct (Z.ltb_spec peek 0); [lia|]. rewrite blen_nat, drop_app_length.
  unfold DecodeVarint. unfold frame at 1. rewrite <- (assoc_L (++)), take_app_ge by lia.
  rewrite ConsumeVarint_encode by (by apply small_u64). cbn [from_option id].
  rewrite decide_False by lia.
  assert (Z.of_nat (length (EncodeVarint (blen (bytesOf b)))) + blen (bytesOf b) = blen (frame b)) as ->
    by (rewrite frame_length; done).
  destruct (Z.gtb_spec (blen (frame b)) (blen (frame b ++ rest))) as [E|_].
  { unfold blen in E. rewrite length_app in E. lia. }
  unfold frame at 1. rewrite <- (assoc_L (++)), drop_app_length, blen_nat, take_app_length. done.
Qed.

Lemma nextBlock_partial f d pre junk :
  partial junk → junk ≠ [] → fileBytesOf f d = pre ++ junk →
  nextBlock (mkBlockfileStream f (blen pre)) d = Done (Err ErrUnexpectedEndOfBlockfile).
Proof.
  intros (b & k & Hb & Hk & ->) Hne Hc. unfold nextBlock. cbn [fs_fileNum fs_currentOffset]. rewrite Hc.
  pose proof (lenBytes_length b Hb) as Hl. set (len := EncodeVarint (blen (bytesOf b))) in *.
  assert (k ≠ 0%nat) as Hk0 by (intros ->; done).
  assert (blen (take k (frame b)) = Z.of_nat k) as Hjl by (unfold blen; rewrite length_take; lia).
  destruct (Z.eqb_spec (blen pre) (blen (pre ++ take k (frame b)))) as [E|_].
  { rewrite blen_app, Hjl in E. lia. }
  assert (blen (pre ++ take k (frame b)) - blen pre = Z.of_nat k) as -> by (rewrite blen_app, Hjl; lia).
  set (peek := if 8 <=? Z.of_nat k then 8 else Z.of_nat k).
  assert (Z.to_nat peek = k `min` 8)%nat as Hp by (unfold peek; destruct (Z.leb_spec 8 (Z.of_nat k)); lia).
  assert (peek <? 0 = false) as -> by (apply Z.ltb_ge; unfold peek; destruct (_ <=? _); lia).
  rewrite Hp, blen_nat, drop_app_length, take_take.
  replace ((k `min` 8) `min` k)%nat with (k `min` 8)%nat by lia.
  unfold DecodeVarint, frame. fold len. destruct (decide (k < length len)%nat) as [Hlt|Hge].
  - rewrite take_app_le by lia. rewrite Nat.min_l by lia.
    unfold len. rewrite ConsumeVarint_truncated by (unfold len, blen in *; lia). cbn [from_option id].
    rewrite decide_True by done. destruct (Z.leb_spec 8 (Z.of_nat k)); [lia|done].
  - rewrite take_app_ge by lia. unfold len. rewrite ConsumeVarint_encode by (by apply small_u64). cbn [from_option id].
    fold len. rewrite decide_False by lia.
    destruct (Z.gtb_spec (Z.of_nat (length len) + blen (bytesOf b)) (Z.of_nat k)) as [_|E]; [done|].
    unfold frame, blen in *. rewrite length_app in Hk. fold len in Hk. unfold len, blen in *. lia.
Qed.

(** ** The scan of a file *)

Definition scanError (junk : bytes) : option error :=
  match junk with [] => None | _ => Some ErrUnexpectedEndOfBlockfile end.

Lemma scanLoop_frames f d pre bl junk fuel lastBytes n :
  Forall small bl → partial junk → fileBytesOf f d = pre ++ fileBytes bl ++ junk → (length bl <= fuel)%nat →
  scanLoop fuel (mkBlockfileStream f (blen pre)) lastBytes n d =
    Done (match last bl with Some b => Some (bytesOf b) | None => lastBytes end,
          blen pre + blen (fileBytes bl), n + Z.of_nat (length bl), scanError junk).
Proof.
  intros Hs Hj. revert pre fuel lastBytes n. induction Hs as [|b bl Hb _ IH]; intros pre fuel lastBytes n Hc Hf.
  - cbn [fileBytes fmap list_fmap concat app] in Hc. rewrite !Z.add_0_r.
    destruct junk as [|x junk].
    + rewrite app_nil_r in Hc. destruct fuel; cbn [scanLoop]; by rewrite (nextBlock_end f d pre) by done.
    + destruct fuel; cbn [scanLoop]; by rewrite (nextBlock_partial f d pre (x :: junk)) by done.
  - rewrite fileBytes_cons, <- (assoc_L (++)) in Hc. destruct fuel as [|fuel]; [simpl in Hf; lia|]. cbn [scanLoop].
    rewrite (nextBlock_frame f d pre b _ Hb Hc). cbn [ok mbind outcome_bind].
    rewrite <- blen_app. rewrite IH.
    + rewrite fileBytes_cons, !blen_app, <- !Z.add_assoc. cbn [length]. rewrite Nat2Z.inj_succ.
      replace (1 + Z.of_nat (length bl)) with (Z.succ (Z.of_nat (length bl))) by lia.
      destruct bl as [|b' bl]; [done|]. rewrite last_cons_cons.
      destruct (last (b' :: bl)) eqn:E; [done|]. by apply last_None in E.
    + by rewrite <- (assoc_L (++)).
    + simpl in Hf. lia.
Qed.

Lemma fileBytes_count bl : Forall small bl → (length bl <= length (fileBytes bl))%nat.
Proof.
  induction 1 as [|b bl Hb _ IH]; [done|]. rewrite fileBytes_cons, length_app. pose proof (frame_pos b Hb).
  simpl. lia.
Qed.

Lemma scan_frames f d pre bl junk :
  d_files d !! f ≠ None → Forall small bl → partial junk → fileBytesOf f d = pre ++ fileBytes bl ++ junk →
  scanForLastCompleteBlock f (blen pre) d =
    ok (bytesOf <$> last bl, blen pre + blen (fileBytes bl), Z.of_nat (length bl)).
Proof.
  intros Hf Hs Hj Hc. unfold scanForLastCompleteBlock, newBlockfileStream.
  destruct (d_files d !! f) as [x|]; [|done].
  destruct (Z.ltb_spec (blen pre) 0); [unfold blen in *; lia|]. cbn [try_bind].
  rewrite (scanLoop_frames f d pre bl junk) by (try done; rewrite Hc, !length_app; pose proof (fileBytes_count bl Hs); lia).
  cbn [mbind outcome_bind]. destruct (last bl); destruct junk; cbn [scanError]; by rewrite ?decide_True by done.
Qed.

(** ** Many files *)

(** Where the blocks of files are: the file, the offset and the block. *)
Record placed := mkPlaced { pl_file : Z; pl_offset : Z; pl_block : Block }.

Fixpoint placeFile (f off : Z) (bl : list Block) : list placed :=
  match bl with
  | [] => []
  | b :: bl => mkPlaced f off b :: placeFile f (off + blen (frame b)) bl
  end.

Fixpoint place (f : Z) (lay : list (list Block)) : list placed :=
  match lay with
  | [] => []
  | bl :: lay => placeFile f 0 bl ++ place (f + 1) lay
  end.

Lemma placeFile_app f off bl1 bl2 :
  placeFile f off (bl1 ++ bl2) = placeFile f off bl1 ++ placeFile f (off + blen (fileBytes bl1)) bl2.
Proof.
  revert off. induction bl1 as [|b bl1 IH]; intros off; [by rewrite Z.add_0_r|].
  cbn [app placeFile]. by rewrite IH, fileBytes_cons, blen_app, Z.add_assoc.
Qed.

Lemma place_app f lay1 lay2 : place f (lay1 ++ lay2) = place f lay1 ++ place (f + Z.of_nat (length lay1)) lay2.
Proof.
  revert f. induction lay1 as [|bl lay1 IH]; intros f; [by rewrite Z.add_0_r|].
  cbn [app place length]. rewrite IH, <- (assoc_L (++)). do 3 f_equal. lia.
Qed.

Lemma placeFile_blocks f off bl : pl_block <$> placeFile f off bl = bl.
Proof. revert off. induction bl as [|b bl IH]; intros off; [done|]. simpl. by rewrite IH. Qed.

Lemma place_blocks f lay : pl_block <$> place f lay = concat lay.
Proof.
  revert f. induction lay as [|bl lay IH]; intros f; [done|]. simpl. by rewrite fmap_app, placeFile_blocks, IH.
Qed.

(** The files hold the blocks of [lay], the last one followed by [junk]. *)
Definition laid (lay : list (list Block)) (junk : bytes) (d : disk) : Prop :=
  ∀ i bl, lay !! i = Some bl → ∃ x, d_files d !! Z.of_nat i = Some x ∧
    f_bytes x = fileBytes bl ++ (if decide (S i = length lay) then junk else []).

Lemma laid_bytes lay junk d i bl :
  laid lay junk d → lay !! i = Some bl →
  fileBytesOf (Z.of_nat i) d = fileBytes bl ++ (if decide (S i = length lay) then junk else []).
Proof. intros Hd Hi. destruct (Hd i bl Hi) as (x & Hx & Hb). by rewrite (fileBytesOf_lookup _ _ _ Hx), Hb. Qed.

(** The position of a stream: the blocks it still has to deliver. *)
Definition streamAt (lay : list (list Block)) (s : blockStream) (rest : list placed) : Prop :=
  ∃ i bl1 bl2, lay !! i = Some (bl1 ++ bl2) ∧ bs_currentFileNum s = Z.of_nat i ∧
    bs_currentFileStream s = mkBlockfileStream (Z.of_nat i) (blen (fileBytes bl1)) ∧
    rest = placeFile (Z.of_nat i) (blen (fileBytes bl1)) bl2 ++ place (Z.of_nat (S i)) (drop (S i) lay).

Definition placement (p : placed) : blockPlacementInfo :=
  mkBlockPlacementInfo (pl_file p) (pl_offset p) (pl_offset p + blen (EncodeVarint (blen (bytesOf (pl_block p))))).

Lemma streamAt_start lay bl1 bl2 i e :
  lay !! i = Some (bl1 ++ bl2) →
  streamAt lay (mkBlockStream (Z.of_nat i) e (mkBlockfileStream (Z.of_nat i) (blen (fileBytes bl1))))
    (placeFile (Z.of_nat i) (blen (fileBytes bl1)) bl2 ++ place (Z.of_nat (S i)) (drop (S i) lay)).
Proof. intros Hi. by exists i, bl1, bl2. Qed.

Lemma next_fuel lay junk d s p rest fuel :
  Forall (Forall small) lay → laid lay junk d → streamAt lay s (p :: rest) →
  (bs_endFileNum s < 0 ∨ bs_endFileNum s = Z.of_nat (length lay) - 1) →
  (∀ i, bs_currentFileNum s = Z.of_nat i → (length lay <= fuel + i)%nat) →
  ∃ s', nextBlockBytesAndPlacementInfo_fuel fuel s d = ok (Some (bytesOf (pl_block p), placement p), s') ∧
    streamAt lay s' rest ∧ bs_endFileNum s' = bs_endFileNum s.
Proof.
  intros Hs Hd. revert s. induction fuel as [|fuel IH]; intros s (i & bl1 & bl2 & Hi & Hc & Hf & Hrest) He Hfuel.
  - specialize (Hfuel i Hc). apply lookup_lt_Some in Hi. lia.
  - pose proof (laid_bytes _ _ _ _ _ Hd Hi) as Hb. rewrite fileBytes_app, <- (assoc_L (++)) in Hb.
    cbn [nextBlockBytesAndPlacementInfo_fuel]. rewrite Hf. destruct bl2 as [|b bl2].
    + cbn [placeFile app] in Hrest. destruct (lay !! S i) as [bl|] eqn:Hn.
      2: { rewrite drop_ge in Hrest by (by apply lookup_ge_None). done. }
      pose proof (lookup_lt_Some _ _ _ Hn) as Hlt. rewrite decide_False in Hb by lia.
      rewrite (nextBlock_end (Z.of_nat i) d (fileBytes bl1)) by (by rewrite Hb, !app_nil_r).
      cbn [ok try_bind bs_currentFileNum bs_endFileNum].
      assert ((bs_currentFileNum s <? bs_endFileNum s) || (bs_endFileNum s <? 0) = true) as ->.
      { rewrite Hc. apply orb_true_iff. rewrite !Z.ltb_lt. lia. }
      unfold moveToNextBlockfileStream, newBlockfileStream. cbn [bs_currentFileNum bs_endFileNum].
      replace (bs_currentFileNum s + 1) with (Z.of_nat (S i)) by lia.
      destruct (Hd (S i) bl Hn) as (x & Hx & _). rewrite Hx. cbn [mbind res_bind try_bind Z.ltb Z.compare].
      edestruct (IH (mkBlockStream (Z.of_nat (S i)) (bs_endFileNum s) (mkBlockfileStream (Z.of_nat (S i)) 0)))
        as (s' & -> & Hs' & He').
      * rewrite Hrest. rewrite (drop_S lay bl (S i)) by done. cbn [place].
        replace (Z.of_nat (S i) + 1) with (Z.of_nat (S (S i))) by lia. by apply (streamAt_start lay [] bl (S i)).
      * done.
      * intros j [= Hj]. apply Nat2Z.inj in Hj. specialize (Hfuel i Hc). lia.
      * by exists s'.
    + cbn [placeFile app] in Hrest. injection Hrest as -> ->.
      assert (small b) as Hsb.
      { eapply Forall_lookup_1 in Hi; [|done]. rewrite Forall_app, Forall_cons in Hi. tauto. }
      rewrite (nextBlock_frame _ d (fileBytes bl1) b (fileBytes bl2 ++ if decide (S i = length lay) then junk else []))
        by (try done; by rewrite Hb, fileBytes_cons, <- (assoc_L (++))).
      cbn [ok try_bind]. eexists. split; [done|]. split; [|done].
      exists i, (bl1 ++ [b]), bl2. rewrite <- (assoc_L (++)), fileBytes_snoc, blen_app. by rewrite Hc.
Qed.

(** After the last block comes the end, or the error of a partial block. *)
Definition atEnd (junk : bytes) (r : fallible (option (bytes * blockPlacementInfo) * blockStream)) : Prop :=
  match junk with
  | [] => ∃ s, r = ok (None, s)
  | _ => r = Done (Err ErrUnexpectedEndOfBlockfile)
  end.

Lemma next_end_fuel lay junk d s fuel :
  Forall (Forall small) lay → laid lay junk d → partial junk → streamAt lay s [] →
  bs_endFileNum s = Z.of_nat (length lay) - 1 →
  (∀ i, bs_currentFileNum s = Z.of_nat i → (length lay <= fuel + i)%nat) →
  atEnd junk (nextBlockBytesAndPlacementInfo_fuel fuel s d).
Proof.
  intros Hs Hd Hj. revert s. induction fuel as [|fuel IH]; intros s (i & bl1 & bl2 & Hi & Hc & Hf & Hrest) He Hfuel.
  { specialize (Hfuel i Hc). apply lookup_lt_Some in Hi. lia. }
  pose proof (laid_bytes _ _ _ _ _ Hd Hi) as Hb. symmetry in Hrest. apply app_eq_nil in Hrest as [Hr1 Hr2].
  destruct bl2; [|done]. rewrite app_nil_r in Hb. cbn [nextBlockBytesAndPlacementInfo_fuel]. rewrite Hf.
  pose proof (lookup_lt_Some _ _ _ Hi) as Hlt.
  destruct (decide (S i = length lay)) as [Hlast|Hl].
  { destruct junk as [|x junk].
    - rewrite (nextBlock_end (Z.of_nat i) d (fileBytes bl1)) by (by rewrite Hb, app_nil_r).
      cbn [ok try_bind bs_currentFileNum bs_endFileNum]. rewrite Hc, He.
      destruct (Z.ltb_spec (Z.of_nat i) (Z.of_nat (length lay) - 1)); [lia|].
      destruct (Z.ltb_spec (Z.of_nat (length lay) - 1) 0); [lia|]. by eexists.
    - by rewrite (nextBlock_partial (Z.of_nat i) d (fileBytes bl1) (x :: junk)). }
  rewrite (nextBlock_end (Z.of_nat i) d (fileBytes bl1)) by (by rewrite Hb, app_nil_r).
  cbn [ok try_bind bs_currentFileNum bs_endFileNum]. rewrite Hc, He.
  destruct (Z.ltb_spec (Z.of_nat i) (Z.of_nat (length lay) - 1)) as [_|]; [|lia]. cbn [orb].
  destruct (lookup_lt_is_Some_2 lay (S i)) as [bl Hn]; [lia|].
  unfold moveToNextBlockfileStream, newBlockfileStream. cbn [bs_currentFileNum bs_endFileNum].
  replace (Z.of_nat i + 1) with (Z.of_nat (S i)) by lia.
  destruct (Hd (S i) bl Hn) as (x & Hx & _). rewrite Hx. cbn [mbind res_bind try_bind Z.ltb Z.compare].
  apply IH.
  - rewrite (drop_S lay bl (S i)) in Hr2 by done. cbn [place] in Hr2.
    exists (S i), [], bl. split; [done|]. split; [done|]. split; [done|].
    replace (Z.of_nat (S (S i))) with (Z.of_nat (S i) + 1) by lia. exact (eq_sym Hr2).
  - done.
  - intros j [= Hij]. apply Nat2Z.inj in Hij. specialize (Hfuel i Hc). lia.
Qed.

Lemma laid_size lay junk d : laid lay junk d → (length lay <= size (d_files d))%nat.
Proof.
  intros Hd. rewrite <- (size_dom (D:=gset Z)). 
  assert (list_to_set (Z.of_nat <$> seq 0 (length lay)) ⊆ dom (d_files d)) as Hsub.
  { intros z [n [-> Hn]]%elem_of_list_to_set%list_elem_of_fmap. apply elem_of_seq in Hn.
    destruct (lookup_lt_is_Some_2 lay n) as [bl Hbl]; [lia|]. destruct (Hd n bl Hbl) as (x & Hx & _).
    apply elem_of_dom. by eexists. }
  apply subseteq_size in Hsub. rewrite size_list_to_set, length_fmap, length_seq in Hsub; [lia|].
  apply NoDup_fmap_2; [apply _|apply NoDup_seq].
Qed.

Lemma next_block lay junk d s p rest :
  Forall (Forall small) lay → laid lay junk d → streamAt lay s (p :: rest) →
  (bs_endFileNum s < 0 ∨ bs_endFileNum s = Z.of_nat (length lay) - 1) →
  ∃ s', nextBlockBytesAndPlacementInfo s d = ok (Some (bytesOf (pl_block p), placement p), s') ∧
    streamAt lay s' rest ∧ bs_endFileNum s' = bs_endFileNum s.
Proof.
  intros Hs Hd Ha He. apply (next_fuel lay junk); [done..|]. intros i _. pose proof (laid_size _ _ _ Hd). lia.
Qed.

Lemma next_end lay junk d s :
  Forall (Forall small) lay → laid lay junk d → partial junk → streamAt lay s [] →
  bs_endFileNum s = Z.of_nat (length lay) - 1 → atEnd junk (nextBlockBytesAndPlacementInfo s d).
Proof.
  intros Hs Hd Hj Ha He. apply (next_end_fuel lay); [done..|]. intros i _. pose proof (laid_size _ _ _ Hd). lia.
Qed.

(** A stream opened at the place of a block delivers it and all that follow. *)
Lemma streamAt_place lay j p e :
  place 0 lay !! j = Some p →
  streamAt lay (mkBlockStream (pl_file p) e (mkBlockfileStream (pl_file p) (pl_offset p))) (drop j (place 0 lay)).
Proof.
  cut (∀ lay' lay0, lay = lay0 ++ lay' → ∀ j, place (Z.of_nat (length lay0)) lay' !! j = Some p →
    streamAt lay (mkBlockStream (pl_file p) e (mkBlockfileStream (pl_file p) (pl_offset p)))
      (drop j (place (Z.of_nat (length lay0)) lay'))); [intros H; by apply (H lay [])|]. clear j.
  intros lay'. induction lay' as [|bl lay' IH]; intros lay0 Hl j Hj; [done|]. cbn [place] in *.
  assert (lay !! length lay0 = Some bl) as Hbl by (by rewrite Hl, lookup_app_r, Nat.sub_diag by lia).
  assert (drop (S (length lay0)) lay = lay') as Hdrop.
  { rewrite Hl, drop_app_ge by lia. by replace (S (length lay0) - length lay0)%nat with 1%nat by lia. }
  apply lookup_app_Some in Hj as [Hj|[Hge Hj]].
  - assert (j < length (placeFile (Z.of_nat (length lay0)) 0 bl))%nat as Hlt by (by eapply lookup_lt_Some).
    rewrite drop_app_le by lia. exists (length lay0), (take j bl), (drop j bl). rewrite take_drop.
    assert (placeFile (Z.of_nat (length lay0)) 0 bl =
      placeFile (Z.of_nat (length lay0)) 0 (take j bl) ++ placeFile (Z.of_nat (length lay0)) (blen (fileBytes (take j bl))) (drop j bl)) as E.
    { rewrite <- (take_drop j bl) at 1. rewrite placeFile_app. by rewrite Z.add_0_l. }
    assert (length (placeFile (Z.of_nat (length lay0)) 0 bl) = length bl) as El
      by (by rewrite <- (placeFile_blocks (Z.of_nat (length lay0)) 0 bl) at 2; rewrite length_fmap).
    assert (length (placeFile (Z.of_nat (length lay0)) 0 (take j bl)) = j) as Ej.
    { rewrite <- (length_fmap pl_block), placeFile_blocks, length_take. lia. }
    rewrite E in Hj |- *. rewrite lookup_app_r, Ej, Nat.sub_diag in Hj by lia.
    rewrite drop_app_ge, Ej, Nat.sub_diag by lia. rewrite Hdrop.
    destruct (drop j bl) as [|b bl2]; [done|]. cbn [placeFile lookup list_lookup] in Hj. injection Hj as <-.
    cbn [pl_file pl_offset]. split_and!; [done..|]. by replace (Z.of_nat (S (length lay0))) with (Z.of_nat (length lay0) + 1) by lia.
  - rewrite drop_app_ge by lia. replace (Z.of_nat (length lay0) + 1) with (Z.of_nat (length (lay0 ++ [bl]))) in * by (rewrite length_app; simpl; lia).
    apply IH; [by rewrite <- (assoc_L (++))|done].
Qed.

Lemma place_split lay j p :
  place 0 lay !! j = Some p →
  ∃ i bl1 bl2, lay !! i = Some (bl1 ++ pl_block p :: bl2) ∧ pl_file p = Z.of_nat i ∧ pl_offset p = blen (fileBytes bl1).
Proof.
  intros Hj. destruct (streamAt_place lay j p 0 Hj) as (i & bl1 & bl2 & Hi & Hc & Hs & Hr).
  cbn [bs_currentFileNum bs_currentFileStream] in Hc, Hs. injection Hs as _ Ho.
  rewrite (drop_S _ p) in Hr by done. destruct bl2 as [|b bl2].
  - exfalso. cbn [placeFile app] in Hr. assert (∀ f l x, x ∈ place f l → f <= pl_file x) as Hf.
    { intros f l. revert f. induction l as [|bl l IH]; intros f x Hx; [set_solver|]. cbn [place] in Hx.
      apply elem_of_app in Hx as [Hx|Hx]; [|apply IH in Hx; lia].
      clear -Hx. revert Hx. generalize 0 at 1. induction bl as [|b bl IH]; intros o Hx; [set_solver|].
      cbn [placeFile] in Hx. apply elem_of_cons in Hx as [->|Hx]; [simpl; lia|by eapply IH]. }
    specialize (Hf (Z.of_nat (S i)) (drop (S i) lay) p). rewrite <- Hr in Hf. specialize (Hf ltac:(left)). lia.
  - exists i, bl1, bl2. cbn [placeFile app] in Hr. injection Hr as Hp _. rewrite Hp. cbn [pl_block pl_file pl_offset]. done.
Qed.
