(* ===== verification/BlockStore.v ===== *)
(** * What a block store holds

    The chain a disk holds, on every disk a crash can leave: [holds]. The state of an
    open store: [opened]. And what the readers of the store find there. *)

From stdpp Require Import gmap strings list.
From Stdlib Require Import Strings.Byte.
From S2P Require Import Prelude Protos GoLib Blocks Varint BlockSerialization Disk LevelDB BlockIndex BlockStream BlockfileMgr BlockLayout.

(** IDs of transactions are strings in memory. *)
Definition id_ok (txID : string) : Prop := is_u64 (blen (String.list_byte_of_string txID)).

Section store.
Context `{!Codec Envelope, !Codec Payload, !Codec ChannelHeader, !Codec SignatureHeader}.
Context `{!Codec TxIDIndexValue, !Codec BootstrappingSnapshotInfo}.
Context (sha256 : bytes → bytes) (indexItems : list IndexableAttr) (maxBlockfileSize : Z).
(** The snapshot the ledger was started from, and what the index held then. *)
Context (bsi : option BootstrappingSnapshotInfo) (db0 : gmap bytes bytes).

(** The number of the first block and the hash it refers to. *)
Definition firstNumber : Z := match bsi with Some i => bsi_LastBlockNum i + 1 | None => 0 end.
Definition firstHash : bytes := match bsi with Some i => bsi_LastBlockHash i | None => [] end.

(** ** Chains *)

(** A block the store accepts: its parts are there, with a validation flag for
    every transaction if transactions are indexed, and its size and number are in
    range. *)
Record storable (b : Block) : Prop := {
  sb_data : blk_Data b ≠ None;
  sb_flags : ∃ metadata flags, blk_Metadata b = Some metadata ∧
    metadata !! BlockMetadataIndex_TRANSACTIONS_FILTER = Some flags ∧
    (IndexableAttrTxID ∈ indexItems → (length (default [] (blk_Data b)) <= length flags)%nat);
  sb_small : small b;
  sb_number : 0 <= hdr_Number (blk_Header b) < 2 ^ 64 - 1
}.

Definition hashAfter (chain : list Block) : bytes :=
  match last chain with Some b => BlockHeaderHash sha256 (blk_Header b) | None => firstHash end.

Record chain_ok (chain : list Block) : Prop := {
  co_storable : Forall storable chain;
  co_linked i b : chain !! i = Some b →
    hdr_Number (blk_Header b) = firstNumber + Z.of_nat i ∧ hdr_PreviousHash (blk_Header b) = hashAfter (take i chain)
}.

(** ** The index *)

Definition infoOf (b : Block) : serializedBlockInfo :=
  let data := default [] (blk_Data b) in
  mkSerializedBlockInfo (blk_Header b) (infosAt sha256 (dataStart (blk_Header b) data) data) (default [] (blk_Metadata b)).

Definition idxInfoOf (p : placed) : blockIdxInfo := placedIdxInfo sha256 (infoOf (pl_block p)) (placement p).

(** What indexing a block writes. *)
Definition batchOf (p : placed) : UpdateBatch :=
  match indexBatch indexItems (idxInfoOf p) with Done b => b | Panic _ => ∅ end.

Definition indexOf (ps : list placed) : gmap bytes bytes := foldl applyBatch db0 (batchOf <$> ps).

(** ** The summary *)

Definition lastFile (lay : list (list Block)) : list Block := default [] (last lay).

(** How many blocks of the last file are among the first [n] blocks. *)
Definition inLast (lay : list (list Block)) (n : nat) : nat := (n - (length (concat lay) - length (lastFile lay)))%nat.

Definition summary (lay : list (list Block)) (n : nat) : blockfilesInfo :=
  mkBlockfilesInfo (Z.of_nat (length lay) - 1) (blen (fileBytes (take (inLast lay n) (lastFile lay))))
    (bool_decide (n = 0%nat)) (if decide (n = 0%nat) then 0 else firstNumber + Z.of_nat n - 1).

(** ** Disks *)

(** The disk holds the blocks of [lay] and after them [junk]; the summary counts [n]
    of the blocks and the index has [m]. *)
Record stored (lay : list (list Block)) (junk : bytes) (n m : nat) (d : disk) : Prop := {
  st_quiet : quiet d;
  st_boot : d_bootstrap d = marshal <$> bsi;
  st_chain : chain_ok (concat lay);
  st_shape : lay = [[]] ∨ ∃ b bl lay', lay = (b :: bl) :: lay';
  st_sizes : Forall (λ bl, blen (fileBytes bl) <= maxBlockfileSize ∨ (length bl <= 1)%nat) lay;
  st_files : laid lay junk d;
  st_junk : partial junk;
  st_others f x : d_files d !! f = Some x →
    0 <= f < Z.of_nat (length lay) ∨ f = Z.of_nat (length lay) ∧ f_bytes x = [] ∧ lay ≠ [[]];
  st_index_le : (m <= n)%nat;
  st_count_le : (n <= length (concat lay))%nat;
  st_rest : (length (concat lay) - length (lastFile lay) <= n)%nat;
  st_first : n = 0%nat → concat lay ≠ [] → bsi = None;
  st_info : view d !! blkMgrInfoKey = Some (info_marshal (summary lay n));
  st_index k : k ≠ blkMgrInfoKey → view d !! k = indexOf (take m (place 0 lay)) !! k
}.

(** A store that has not been opened yet, or for the first time only in part. *)
Record fresh (d : disk) : Prop := {
  fr_quiet : quiet d;
  fr_boot : d_bootstrap d = marshal <$> bsi;
  fr_files : d_files d = ∅;
  fr_info : view d !! blkMgrInfoKey = None ∨ view d !! blkMgrInfoKey = Some (info_marshal (summary [[]] 0));
  fr_index k : k ≠ blkMgrInfoKey → view d !! k = db0 !! k
}.

(** A store without its summary, as a rollback or reset leaves it: no file is empty,
    and the index has [m] of the blocks. *)
Record bare (lay : list (list Block)) (junk : bytes) (m : nat) (d : disk) : Prop := {
  ba_quiet : quiet d;
  ba_boot : d_bootstrap d = marshal <$> bsi;
  ba_chain : chain_ok (concat lay);
  ba_some : lay ≠ [];
  ba_nonempty : Forall (λ bl, bl ≠ []) lay;
  ba_sizes : Forall (λ bl, blen (fileBytes bl) <= maxBlockfileSize ∨ (length bl <= 1)%nat) lay;
  ba_files : laid lay junk d;
  ba_junk : partial junk;
  ba_only f x : d_files d !! f = Some x → 0 <= f < Z.of_nat (length lay);
  ba_index_le : (m <= length (concat lay))%nat;
  ba_info : view d !! blkMgrInfoKey = None;
  ba_index k : k ≠ blkMgrInfoKey → view d !! k = indexOf (take m (place 0 lay)) !! k
}.

Definition holds (chain : list Block) (d : disk) : Prop :=
  chain = [] ∧ fresh d ∨ (∃ lay junk n m, concat lay = chain ∧ stored lay junk n m d) ∨
  ∃ lay junk m, concat lay = chain ∧ bare lay junk m d.

(** Whatever a power loss leaves is one of the chains. *)
Definition recoverable (chain chain' : list Block) (d : disk) : Prop :=
  ∀ d', power_loss d d' → holds chain d' ∨ holds chain' d'.

(** ** Open stores *)

Definition bcInfoOf (chain : list Block) : BlockchainInfo :=
  mkBlockchainInfo (firstNumber + Z.of_nat (length chain)) (hashAfter chain)
    (match last chain with
     | Some b => hdr_PreviousHash (blk_Header b)
     | None => match bsi with Some i => bsi_PreviousBlockHash i | None => [] end
     end).

Definition mgrOf (lay : list (list Block)) : blockfileMgr :=
  mkBlockfileMgr (summary lay (length (concat lay))) bsi (Z.of_nat (length lay) - 1) (bcInfoOf (concat lay)).

(** An open store; [junk] is left at the end of the last file only when truncating it
    failed. *)
Definition opened (chain : list Block) (junk : bytes) (mgr : blockfileMgr) (d : disk) : Prop :=
  ∃ lay, concat lay = chain ∧ stored lay junk (length chain) (length chain) d ∧ mgr = mgrOf lay.

(** An open store whose last file may have become longer and may have been followed
    by others. *)
Definition grown (lay lay' : list (list Block)) : Prop :=
  ∃ front bl more rest, lay = front ++ [bl] ∧ lay' = front ++ (bl ++ more) :: rest.

Definition openedOver (lay : list (list Block)) (chain : list Block) (junk : bytes) (mgr : blockfileMgr) (d : disk) : Prop :=
  ∃ lay', grown lay lay' ∧ concat lay' = chain ∧ stored lay' junk (length chain) (length chain) d ∧ mgr = mgrOf lay'.

(** ** What is assumed *)

(** What a snapshot leaves, in terms the store relies on: [importTxIDsFromSnapshot]
    writes transaction IDs and the savepoint. *)
Record setup_ok : Prop := {
  so_blockNum : IndexableAttrBlockNum ∈ indexItems;
  so_max : maxBlockfileSize < 2 ^ 63;
  so_bsi i : bsi = Some i → 0 <= bsi_LastBlockNum i < 2 ^ 64 - 2 ∧ unmarshal (marshal i) = Some i;
  so_db0 k v : db0 !! k = Some v →
    (∃ i txID n, bsi = Some i ∧ k = constructTxIDKey txID (bsi_LastBlockNum i) n ∧ id_ok txID ∧ is_u64 n ∧ v = []) ∨
    k = indexSavePointKey;
  so_savepoint : db0 !! indexSavePointKey = (λ i, encodeBlockNum (bsi_LastBlockNum i)) <$> bsi
}.
End store.

#[global] Arguments st_quiet {_ _ _ _ _ _ _ _ _ _ _ _ _ _ _ _} _ : rename.
#[global] Arguments st_boot {_ _ _ _ _ _ _ _ _ _ _ _ _ _ _ _} _ : rename.
#[global] Arguments st_chain {_ _ _ _ _ _ _ _ _ _ _ _ _ _ _ _} _ : rename.
#[global] Arguments st_shape {_ _ _ _ _ _ _ _ _ _ _ _ _ _ _ _} _ : rename.
#[global] Arguments st_sizes {_ _ _ _ _ _ _ _ _ _ _ _ _ _ _ _} _ : rename.
#[global] Arguments st_files {_ _ _ _ _ _ _ _ _ _ _ _ _ _ _ _} _ : rename.
#[global] Arguments st_junk {_ _ _ _ _ _ _ _ _ _ _ _ _ _ _ _} _ : rename.
#[global] Arguments st_others {_ _ _ _ _ _ _ _ _ _ _ _ _ _ _ _} _ _ _ _ : rename.
#[global] Arguments st_index_le {_ _ _ _ _ _ _ _ _ _ _ _ _ _ _ _} _ : rename.
#[global] Arguments st_count_le {_ _ _ _ _ _ _ _ _ _ _ _ _ _ _ _} _ : rename.
#[global] Arguments st_rest {_ _ _ _ _ _ _ _ _ _ _ _ _ _ _ _} _ : rename.
#[global] Arguments st_first {_ _ _ _ _ _ _ _ _ _ _ _ _ _ _ _} _ _ _ : rename.
#[global] Arguments st_info {_ _ _ _ _ _ _ _ _ _ _ _ _ _ _ _} _ : rename.
#[global] Arguments st_index {_ _ _ _ _ _ _ _ _ _ _ _ _ _ _ _} _ _ _ : rename.
#[global] Arguments ba_quiet {_ _ _ _ _ _ _ _ _ _ _ _ _ _ _} _ : rename.
#[global] Arguments ba_boot {_ _ _ _ _ _ _ _ _ _ _ _ _ _ _} _ : rename.
#[global] Arguments ba_chain {_ _ _ _ _ _ _ _ _ _ _ _ _ _ _} _ : rename.
#[global] Arguments ba_some {_ _ _ _ _ _ _ _ _ _ _ _ _ _ _} _ : rename.
#[global] Arguments ba_nonempty {_ _ _ _ _ _ _ _ _ _ _ _ _ _ _} _ : rename.
#[global] Arguments ba_sizes {_ _ _ _ _ _ _ _ _ _ _ _ _ _ _} _ : rename.
#[global] Arguments ba_files {_ _ _ _ _ _ _ _ _ _ _ _ _ _ _} _ : rename.
#[global] Arguments ba_junk {_ _ _ _ _ _ _ _ _ _ _ _ _ _ _} _ : rename.
#[global] Arguments ba_only {_ _ _ _ _ _ _ _ _ _ _ _ _ _ _} _ : rename.
#[global] Arguments ba_index_le {_ _ _ _ _ _ _ _ _ _ _ _ _ _ _} _ : rename.
#[global] Arguments ba_info {_ _ _ _ _ _ _ _ _ _ _ _ _ _ _} _ : rename.
#[global] Arguments ba_index {_ _ _ _ _ _ _ _ _ _ _ _ _ _ _} _ : rename.
#[global] Arguments so_blockNum {_ _ _ _ _} _ : rename.
#[global] Arguments so_max {_ _ _ _ _} _ : rename.
#[global] Arguments so_bsi {_ _ _ _ _} _ _ _ : rename.
#[global] Arguments so_db0 {_ _ _ _ _} _ _ _ _ : rename.
#[global] Arguments so_savepoint {_ _ _ _ _} _ : rename.
#[global] Arguments sb_data {_ _} _ : rename.
#[global] Arguments sb_flags {_ _} _ : rename.
#[global] Arguments sb_small {_ _} _ : rename.
#[global] Arguments sb_number {_ _} _ : rename.
