(* ===== verification/BlockStoreFacts.v ===== *)
(** * Reading a block store

    What the readers of the store return on a disk that holds a chain: the bytes of
    blocks, the summary, the index entries of blocks. *)

From stdpp Require Import gmap strings list.
From Stdlib Require Import Strings.Byte.
From S2P Require Import Prelude Protos GoLib Blocks Varint BlockSerialization Disk LevelDB BlockIndex BlockStream BlockfileMgr BlockLayout BlockStore.

(** ** Integers and summaries *)

Lemma i64_small x : 0 <= x < 2 ^ 63 → i64 x = x.
Proof. intros H. unfold i64. rewrite Z.mod_small; lia. Qed.

Lemma consume_last v : is_u64 v → ConsumeVarint (EncodeVarint v) = Some (v, length (EncodeVarint v)).
Proof. intros H. rewrite <- (app_nil_r (EncodeVarint v)) at 1. by apply ConsumeVarint_encode. Qed.

(** Read the number at the start of the bytes. *)
Ltac consume H := rewrite ConsumeVarint_encode by exact H; cbn [or_err mbind res_bind]; rewrite drop_app_length.

Definition info_bounded (i : blockfilesInfo) : Prop :=
  0 <= latestFileNumber i < 2 ^ 63 ∧ 0 <= latestFileSize i < 2 ^ 63 ∧ is_u64 (lastPersistedBlock i).

Lemma u63_u64 x : 0 <= x < 2 ^ 63 → is_u64 x.
Proof. unfold is_u64. lia. Qed.

Lemma info_roundtrip i : info_bounded i → info_unmarshal (info_marshal i) = Ok i.
Proof.
  intros (Hf & Hs & Hl). destruct i as [f s b l]. cbn [latestFileNumber latestFileSize lastPersistedBlock] in *.
  unfold info_unmarshal, info_marshal. cbn [latestFileNumber latestFileSize lastPersistedBlock noBlockFiles].
  apply u63_u64 in Hf as Hf', Hs as Hs'. rewrite !u64_small by done. consume Hf'. consume Hs'. consume Hl.
  rewrite consume_last by (unfold is_u64; destruct b; lia). cbn [or_err mbind res_bind].
  rewrite !i64_small by done. by destruct b.
Qed.

Definition flp_bounded (p : fileLocPointer) : Prop :=
  0 <= fileSuffixNum p < 2 ^ 63 ∧ 0 <= lp_offset (flp_loc p) < 2 ^ 63 ∧ 0 <= lp_bytesLength (flp_loc p) < 2 ^ 63.

Lemma flp_roundtrip p : flp_bounded p → flp_unmarshal (flp_marshal p) = (p, Ok tt).
Proof.
  intros (Hf & Ho & Hl). destruct p as [f [o l]]. cbn [fileSuffixNum flp_loc lp_offset lp_bytesLength] in *.
  unfold flp_unmarshal, flp_marshal. cbn [fileSuffixNum flp_loc lp_offset lp_bytesLength].
  apply u63_u64 in Hf as Hf', Ho as Ho'. rewrite !u64_small by (apply u63_u64; assumption). consume Hf'. consume Ho'.
  rewrite consume_last by (apply u63_u64; assumption). rewrite !i64_small by assumption. reflexivity.
Qed.

(** ** Keys *)

Lemma OrderPreserving_inj n m : is_u64 n → is_u64 m →
  EncodeOrderPreservingVarUint64 n = EncodeOrderPreservingVarUint64 m → n = m.
Proof.
  intros Hn Hm E. apply Z.compare_eq. 
  pose proof (OrderPreserving_compare n m [] [] Hn Hm) as H. rewrite E, bytesCompare_refl in H.
  by destruct (n ?= m).
Qed.

Lemma blockNumKey_inj n m : is_u64 n → is_u64 m → constructBlockNumKey n = constructBlockNumKey m → n = m.
Proof. intros Hn Hm E. apply OrderPreserving_inj; [done..|]. exact (f_equal tail E). Qed.

Section facts.
Context `{!Codec Envelope, !Codec Payload, !Codec ChannelHeader, !Codec SignatureHeader}.
Context `{!Codec TxIDIndexValue, !Codec BootstrappingSnapshotInfo}.
Context (sha256 : bytes → bytes) (indexItems : list IndexableAttr) (maxBlockfileSize : Z).
Context (bsi : option BootstrappingSnapshotInfo) (db0 : gmap bytes bytes).

Abbreviation storable := (storable indexItems).
Abbreviation infoOf := (infoOf sha256).
Abbreviation idxInfoOf := (idxInfoOf sha256).
Abbreviation batchOf := (batchOf sha256 indexItems).
Abbreviation indexOf := (indexOf sha256 indexItems db0).
Abbreviation chain_ok := (chain_ok sha256 indexItems bsi).

(** ** Blocks *)

Lemma storable_serialize b : storable b → serializeBlock sha256 b = Done (bytesOf b, infoOf b).
Proof.
  intros [Hd (md & fl & Hm & _) _ _]. destruct (blk_Data b) as [data|] eqn:E; [|done].
  apply serializeBlock_Done. exists data, md. unfold bytesOf, infoOf. by rewrite E, Hm.
Qed.

Lemma storable_read b :
  storable b → deserializeBlock sha256 (bytesOf b) = Ok b ∧ extractSerializedBlockInfo sha256 (bytesOf b) = Ok (infoOf b).
Proof.
  intros H. eapply serialize_deserialize; [by apply storable_serialize| |apply small_u64, H].
  pose proof (sb_number H). unfold is_u64. lia.
Qed.

(** ** The batch of a block *)

Lemma putTxIDs_total flp flags num i infos batch :
  (i + length infos <= length flags)%nat → ∃ b, putTxIDs flp flags num i infos batch = Done b.
Proof.
  revert i batch. induction infos as [|t infos IH]; intros i batch H; [by eexists|]. cbn [putTxIDs].
  unfold Flag. destruct (lookup_lt_is_Some_2 flags i) as [x ->]; [simpl in H; lia|].
  cbn [or_panic mbind outcome_bind]. apply IH. simpl in H. lia.
Qed.

Lemma infosAt_length pos txs : length (infosAt sha256 pos txs) = length txs.
Proof. revert pos. induction txs as [|t txs IH]; intros pos; [done|]. cbn [infosAt length]. by rewrite IH. Qed.

Lemma batchOf_Done p : storable (pl_block p) → indexBatch indexItems (idxInfoOf p) = Done (batchOf p).
Proof.
  intros [_ (md & fl & Hm & Hf & Hl) _ _]. unfold batchOf.
  destruct (indexBatch indexItems (idxInfoOf p)) as [b|w] eqn:E; [done|]. exfalso. revert E.
  unfold indexBatch. cbn [idxInfoOf BlockStore.idxInfoOf placedIdxInfo idx_metadata infoOf BlockStore.infoOf sbi_metadata].
  rewrite Hm. cbn [default from_option id]. rewrite Hf. cbn [or_panic mbind outcome_bind].
  case_eq (isAttributeIndexed indexItems IndexableAttrTxID); [intros Ht%bool_decide_eq_true|done].
  match goal with |- context [putTxIDs ?a ?f ?c ?i ?l ?m] => destruct (putTxIDs_total a f c i l m) as [b ->]; [|done] end.
  unfold BlockStore.idxInfoOf, placedIdxInfo, shiftOffsets. cbn [idx_txOffsets BlockStore.infoOf sbi_txOffsets]. rewrite length_fmap, infosAt_length. by apply Hl.
Qed.

Lemma putTxIDs_other flp flags num i infos batch b k :
  putTxIDs flp flags num i infos batch = Done b → head k ≠ Some txIDIdxKeyPrefix → b !! k = batch !! k.
Proof.
  revert i batch. induction infos as [|t infos IH]; intros i batch; cbn [putTxIDs]; [by intros [= <-]|].
  intros (fl & _ & H)%bind_Done Hk. rewrite (IH _ _ H Hk). unfold batch_Put. apply lookup_insert_ne.
  intros <-. by apply Hk.
Qed.

Lemma putTranNums_other flp num i infos batch k :
  head k ≠ Some blockNumTranNumIdxKeyPrefix → putTranNums flp num i infos batch !! k = batch !! k.
Proof.
  intros Hk. revert i batch. induction infos as [|t infos IH]; intros i batch; [done|]. cbn [putTranNums].
  rewrite IH. unfold batch_Put. apply lookup_insert_ne. intros <-. by apply Hk.
Qed.

Lemma put_ne (k k' v : bytes) (b : UpdateBatch) : k ≠ k' → batch_Put k v b !! k' = b !! k'.
Proof. apply lookup_insert_ne. Qed.

Lemma put_eq (k v : bytes) (b : UpdateBatch) : batch_Put k v b !! k = Some (Some v).
Proof. apply lookup_insert_eq. Qed.

(** The place of a block. *)
Definition locOf (p : placed) : fileLocPointer := mkFileLocPointer (pl_file p) (mkLocPointer (pl_offset p) 0).

Definition numberOf (p : placed) : Z := hdr_Number (blk_Header (pl_block p)).

(** The entries of the block itself, and of the savepoint. *)
Definition blockEntries (p : placed) : UpdateBatch :=
  let batch := if isAttributeIndexed indexItems IndexableAttrBlockHash
               then batch_Put (constructBlockHashKey (BlockHeaderHash sha256 (blk_Header (pl_block p)))) (flp_marshal (locOf p)) ∅ else ∅ in
  let batch := if isAttributeIndexed indexItems IndexableAttrBlockNum
               then batch_Put (constructBlockNumKey (numberOf p)) (flp_marshal (locOf p)) batch else batch in
  batch_Put indexSavePointKey (encodeBlockNum (numberOf p)) batch.

(** The keys of transactions have first bytes of their own. *)
Lemma batchOf_entries p k :
  storable (pl_block p) → head k ≠ Some txIDIdxKeyPrefix → head k ≠ Some blockNumTranNumIdxKeyPrefix →
  batchOf p !! k = blockEntries p !! k.
Proof.
  intros Hp Ht Ha. pose proof (batchOf_Done p Hp) as Hb. revert Hb. generalize (batchOf p). intros b Hb.
  unfold indexBatch in Hb. apply bind_Done in Hb as (fl & _ & Hb). apply bind_Done in Hb as (b1 & Hb1 & Hb).
  injection Hb as <-. unfold blockEntries. destruct (decide (k = indexSavePointKey)) as [->|Hk]; [by rewrite !put_eq|].
  rewrite !put_ne by done.
  match type of Hb1 with (if _ then putTxIDs _ _ _ _ _ ?b0 else _) = _ => assert (b1 !! k = b0 !! k) as E end.
  { destruct (isAttributeIndexed indexItems IndexableAttrTxID); [by eapply putTxIDs_other|by injection Hb1 as <-]. }
  transitivity (b1 !! k); [|exact E].
  destruct (isAttributeIndexed indexItems IndexableAttrBlockNumTranNum); [by apply putTranNums_other|done].
Qed.

Lemma batchOf_info p : storable (pl_block p) → batchOf p !! blkMgrInfoKey = None.
Proof.
  intros Hp. rewrite batchOf_entries by done. unfold blockEntries. rewrite put_ne by done.
  destruct (isAttributeIndexed _ IndexableAttrBlockNum), (isAttributeIndexed _ IndexableAttrBlockHash);
    by rewrite ?put_ne by done.
Qed.

Lemma batchOf_savepoint p : storable (pl_block p) → batchOf p !! indexSavePointKey = Some (Some (encodeBlockNum (numberOf p))).
Proof. intros Hp. rewrite batchOf_entries by done. apply put_eq. Qed.

Lemma batchOf_blockNum p n :
  storable (pl_block p) → IndexableAttrBlockNum ∈ indexItems → is_u64 n →
  batchOf p !! constructBlockNumKey n = if decide (n = numberOf p) then Some (Some (flp_marshal (locOf p))) else None.
Proof.
  intros Hp Hi Hn. rewrite batchOf_entries by done. unfold blockEntries. rewrite put_ne by done.
  unfold isAttributeIndexed at 1. rewrite bool_decide_eq_true_2 by done. case_decide as E.
  - rewrite E. apply put_eq.
  - rewrite put_ne. 2: { intros Hk. apply E. symmetry. apply blockNumKey_inj; [|done..].
      pose proof (sb_number Hp). unfold numberOf, is_u64. lia. }
    destruct (isAttributeIndexed _ IndexableAttrBlockHash); by rewrite ?put_ne by done.
Qed.

(** ** The index of a chain *)

Lemma indexOf_snoc ps p : indexOf (ps ++ [p]) = applyBatch (indexOf ps) (batchOf p).
Proof. unfold BlockStore.indexOf. by rewrite fmap_app, foldl_app. Qed.

(** The numbers of placed blocks are consecutive. *)
Definition numbered (ps : list placed) : Prop :=
  ∀ i p, ps !! i = Some p → storable (pl_block p) ∧ numberOf p = firstNumber bsi + Z.of_nat i.

Lemma numbered_place lay : chain_ok (concat lay) → numbered (place 0 lay).
Proof.
  intros [Hs Hl] i p Hi. assert (concat lay !! i = Some (pl_block p)) as Hb.
  { by rewrite <- (place_blocks 0 lay), list_lookup_fmap, Hi. }
  split; [by eapply Forall_lookup_1|]. by apply Hl.
Qed.

Lemma numbered_take ps k : numbered ps → numbered (take k ps).
Proof. intros H i p Hi. apply H. by apply lookup_take_Some in Hi as [? _]. Qed.

Lemma indexOf_blockNum ps i p :
  numbered ps → IndexableAttrBlockNum ∈ indexItems → ps !! i = Some p →
  indexOf ps !! constructBlockNumKey (numberOf p) = Some (flp_marshal (locOf p)).
Proof.
  intros Hn Hi. revert i p Hn. induction ps as [|q ps IH] using rev_ind; intros i p Hn Hp; [done|].
  rewrite indexOf_snoc, applyBatch_lookup.
  assert (∀ j x, (ps ++ [q]) !! j = Some x → is_u64 (numberOf x)) as Hu.
  { intros j x Hx. destruct (Hn j x Hx) as [Hs _]. pose proof (sb_number Hs). unfold numberOf, is_u64. lia. }
  assert ((ps ++ [q]) !! length ps = Some q) as Hq by (by rewrite lookup_app_r, Nat.sub_diag by lia).
  rewrite batchOf_blockNum; [|apply (Hn _ _ Hq)|done|apply (Hu _ _ Hp)].
  case_decide as E.
  - destruct (Hn _ _ Hq) as [_ E1], (Hn _ _ Hp) as [_ E2]. assert (i = length ps) as -> by lia.
    rewrite Hq in Hp. by injection Hp as <-.
  - apply lookup_app_Some in Hp as [Hp|[Hge Hp]].
    + eapply IH; [|done]. intros j x Hx. apply Hn. by apply lookup_app_l_Some.
    + exfalso. apply E. destruct (i - length ps)%nat; [by injection Hp as ->|done].
Qed.

Lemma indexOf_savepoint ps :
  numbered ps →
  indexOf ps !! indexSavePointKey =
    match last ps with Some p => Some (encodeBlockNum (numberOf p)) | None => db0 !! indexSavePointKey end.
Proof.
  intros Hn. destruct ps as [|q ps _] using rev_ind; [done|]. rewrite last_snoc, indexOf_snoc, applyBatch_lookup.
  rewrite batchOf_savepoint; [done|]. apply (Hn (length ps)). by rewrite lookup_app_r, Nat.sub_diag by lia.
Qed.
End facts.
