(* ===== verification/BlockStoreReads.v ===== *)
(** * Reading a stored chain

    The summary after a scan, the first block, the last indexed block and the blocks
    by number, on a disk that holds a chain. *)

From stdpp Require Import gmap strings list.
From Stdlib Require Import Strings.Byte.
From S2P Require Import Prelude Protos GoLib Blocks Varint BlockSerialization Disk LevelDB BlockIndex BlockStream BlockfileMgr BlockLayout BlockStore BlockStoreFacts.

Section reads.
Context `{!Codec Envelope, !Codec Payload, !Codec ChannelHeader, !Codec SignatureHeader}.
Context `{!Codec TxIDIndexValue, !Codec BootstrappingSnapshotInfo}.
Context (sha256 : bytes → bytes) (indexItems : list IndexableAttr) (maxBlockfileSize : Z).
Context (bsi : option BootstrappingSnapshotInfo) (db0 : gmap bytes bytes).
Hypothesis Hsetup : setup_ok indexItems maxBlockfileSize bsi db0.

Abbreviation storable := (storable indexItems).
Abbreviation chain_ok := (chain_ok sha256 indexItems bsi).
Abbreviation stored := (stored sha256 indexItems maxBlockfileSize bsi db0).
Abbreviation summary := (summary bsi).
Abbreviation first := (firstNumber bsi).

(** ** Layouts *)

Lemma lay_last lay junk n m d : stored lay junk n m d → ∃ front, lay = front ++ [lastFile lay].
Proof.
  intros H. assert (lay ≠ []) as Hne by (destruct (st_shape H) as [->|(b & bl & l & ->)]; done).
  destruct lay as [|bl front _] using rev_ind; [done|]. exists front. unfold lastFile. by rewrite last_snoc.
Qed.

Lemma lastFile_lookup lay : lay ≠ [] → lay !! (length lay - 1)%nat = Some (lastFile lay).
Proof.
  intros Hne. destruct lay as [|bl front _] using rev_ind; [done|]. unfold lastFile.
  rewrite last_snoc, length_app, lookup_app_r by (simpl; lia). simpl. by replace (_ - _)%nat with 0%nat by lia.
Qed.

Lemma concat_last lay : lay ≠ [] → ∃ front, lay = front ++ [lastFile lay] ∧ concat lay = concat front ++ lastFile lay.
Proof.
  intros Hne. destruct lay as [|bl front _] using rev_ind; [done|]. exists front. unfold lastFile.
  rewrite last_snoc. cbn [default from_option id]. by rewrite concat_snoc.
Qed.

Lemma inLast_total lay : inLast lay (length (concat lay)) = length (lastFile lay).
Proof.
  unfold inLast. destruct (decide (lay = [])) as [->|Hne]; [done|].
  destruct (concat_last lay Hne) as (front & _ & ->). rewrite length_app. lia.
Qed.

Lemma chain_small lay : chain_ok (concat lay) → Forall (Forall small) lay.
Proof.
  intros [Hs _]. apply Forall_forall. intros bl Hbl. apply Forall_forall. intros b Hb.
  rewrite Forall_forall in Hs. eapply sb_small, Hs.
  apply list_elem_of_In, in_concat. exists bl. by rewrite <- !list_elem_of_In.
Qed.

Lemma first_nonneg : 0 <= first.
Proof.
  pose proof (so_bsi Hsetup) as H. unfold firstNumber. destruct bsi as [i|]; [|done].
  destruct (H i eq_refl) as [[? _] _]. lia.
Qed.

Section on_disk.
Context (lay : list (list Block)) (junk : bytes) (n m : nat) (d : disk).
Hypothesis Hst : stored lay junk n m d.
Hypothesis Hfew : Z.of_nat (size (d_files d)) < 2 ^ 62.

Lemma lay_nonempty : lay ≠ [].
Proof. destruct (st_shape Hst) as [->|(b & bl & l & ->)]; done. Qed.

Lemma few_files : (1 <= length lay)%nat ∧ Z.of_nat (length lay) < 2 ^ 62.
Proof.
  pose proof (laid_size _ _ _ (st_files Hst)). pose proof lay_nonempty.
  destruct lay; [done|]. simpl in *. lia.
Qed.

Lemma file_bound i bl : lay !! i = Some bl → blen (fileBytes bl) < 2 ^ 63.
Proof.
  intros Hi. pose proof (st_sizes Hst) as Hs. eapply Forall_lookup_1 in Hs; [|done].
  pose proof (so_max Hsetup). destruct Hs as [|Hs]; [lia|].
  pose proof (chain_small lay (st_chain Hst)) as Hsm. eapply Forall_lookup_1 in Hsm; [|done].
  destruct bl as [|b [|b' bl]]; [done| |simpl in Hs; lia]. unfold fileBytes. simpl. rewrite app_nil_r, frame_length.
  apply Forall_cons in Hsm as [Hb _]. pose proof (lenBytes_length b Hb). unfold small in Hb.
  assert (2 ^ 56 + 8 < 2 ^ 63) by lia. unfold blen in *. lia.
Qed.

Lemma number_bound (k : nat) : (0 < k)%nat → (k <= length (concat lay))%nat → 0 <= first + Z.of_nat k - 1 < 2 ^ 64 - 1.
Proof.
  intros H0 Hk. destruct (lookup_lt_is_Some_2 (concat lay) (k - 1)%nat) as [b Hb]; [lia|].
  destruct (st_chain Hst) as [Hs Hl]. destruct (Hl _ _ Hb) as [Hn _].
  eapply Forall_lookup_1 in Hs; [|done]. pose proof (sb_number Hs). lia.
Qed.

Lemma summary_bounded k : (k <= length (concat lay))%nat → info_bounded (summary lay k).
Proof.
  intros Hk. pose proof few_files. unfold info_bounded, BlockStore.summary. cbn [latestFileNumber latestFileSize lastPersistedBlock].
  split; [lia|]. split.
  - split; [unfold blen; lia|]. eapply Z.le_lt_trans; [|eapply file_bound, lastFile_lookup, lay_nonempty].
    rewrite <- (take_drop (inLast lay k) (lastFile lay)) at 2. rewrite fileBytes_app, blen_app. unfold blen. lia.
  - case_decide; [unfold is_u64; lia|]. pose proof (number_bound k). unfold is_u64. lia.
Qed.

Lemma load_summary : loadBlkfilesInfo d = Ok (Some (summary lay n)).
Proof.
  unfold loadBlkfilesInfo, db_Get. rewrite (st_info Hst : db_view (d_db d) !! _ = _).
  rewrite info_roundtrip; [done|]. apply summary_bounded. apply Hst.
Qed.

Lemma last_file_on_disk :
  ∃ x, d_files d !! (Z.of_nat (length lay) - 1) = Some x ∧ f_bytes x = fileBytes (lastFile lay) ++ junk.
Proof.
  assert (1 <= length lay)%nat by (pose proof lay_nonempty as Hne; destruct lay; [done|simpl; lia]).
  destruct (st_files Hst _ _ (lastFile_lookup lay lay_nonempty)) as (x & Hx & Hb).
  rewrite decide_True in Hb by lia. exists x. split; [|done]. rewrite <- Hx. f_equal. lia.
Qed.

Lemma last_small : Forall small (lastFile lay).
Proof. eapply Forall_lookup_1; [apply chain_small, Hst|apply lastFile_lookup, lay_nonempty]. Qed.

Lemma fileBytes_nil bl : Forall small bl → fileBytes bl = [] → bl = [].
Proof. intros Hs E. pose proof (fileBytes_count bl Hs) as H. rewrite E in H. destruct bl; [done|simpl in H; lia]. Qed.

(** The scan brings the summary in line with the files. *)
Lemma sync_summary : syncBlockfilesInfoFromFS (summary lay n) d = Done (summary lay (length (concat lay))).
Proof.
  destruct last_file_on_disk as (x & Hx & Hb). pose proof last_small as Hs.
  pose proof (st_rest Hst) as Hr. pose proof (st_count_le Hst) as Hc.
  unfold syncBlockfilesInfoFromFS.
  change (latestFileNumber (summary lay n)) with (Z.of_nat (length lay) - 1). rewrite Hx, Hb.
  change (latestFileSize (summary lay n)) with (blen (fileBytes (take (inLast lay n) (lastFile lay)))).
  set (k := inLast lay n) in *. assert (fileBytes (lastFile lay) = fileBytes (take k (lastFile lay)) ++ fileBytes (drop k (lastFile lay))) as E
    by (by rewrite <- fileBytes_app, take_drop).
  assert (length (lastFile lay) <= length (concat lay))%nat as Hll.
  { destruct (concat_last lay lay_nonempty) as (? & _ & ->). rewrite length_app. lia. }
  assert (length (drop k (lastFile lay)) = length (concat lay) - n)%nat as Hd by (rewrite length_drop; unfold k, inLast; lia).
  destruct (Z.eqb_spec (blen (fileBytes (lastFile lay) ++ junk)) (blen (fileBytes (take k (lastFile lay))))) as [Heq|_].
  - f_equal. rewrite E, !blen_app in Heq. f_equal. assert (fileBytes (drop k (lastFile lay)) = []) as E0.
    { apply nil_length_inv. unfold blen in *. lia. }
    apply fileBytes_nil in E0; [|by apply Forall_drop]. rewrite E0 in Hd. simpl in Hd. lia.
  - rewrite (scan_frames _ d (fileBytes (take k (lastFile lay))) (drop k (lastFile lay)) junk);
      [|by rewrite Hx|by apply Forall_drop|apply Hst|rewrite (fileBytesOf_lookup _ _ _ Hx), Hb, E, <- (assoc_L (++)); done].
    cbn [ok mbind outcome_bind]. rewrite <- blen_app, <- E, Hd.
    unfold BlockStore.summary. cbn [noBlockFiles lastPersistedBlock latestFileNumber]. rewrite inLast_total.
    rewrite (firstn_all (lastFile lay)).
    destruct (Z.eqb_spec (Z.of_nat (length (concat lay) - n)) 0) as [E0|E0].
    + assert (n = length (concat lay)) as -> by lia. done.
    + rewrite (bool_decide_eq_false_2 (length (concat lay) = 0%nat)) by lia.
      rewrite (decide_False (P:=length (concat lay) = 0%nat)) by lia.
      pose proof (number_bound (length (concat lay))) as Hn. f_equal. f_equal.
      destruct (decide (n = 0%nat)) as [->|Hn0].
      * rewrite bool_decide_eq_true_2 by done. assert (first = 0) as Hf.
        { unfold firstNumber. rewrite (st_first Hst); [done|done|]. intros E1. rewrite E1 in E0. done. }
        rewrite Hf in *. rewrite u64_small; unfold is_u64; lia.
      * rewrite bool_decide_eq_false_2 by done. rewrite u64_small; unfold is_u64; lia.
Qed.
(** ** The index *)

Lemma stored_numbered : numbered indexItems bsi (place 0 lay).
Proof. eapply numbered_place. apply Hst. Qed.

Lemma place_length : length (place 0 lay) = length (concat lay).
Proof. by rewrite <- (place_blocks 0 lay), length_fmap. Qed.

(** The last block of the index. *)
Lemma last_indexed :
  getLastBlockIndexed (view d) = Err errIndexSavePointKeyNotPresent ∧ m = 0%nat ∧ first = 0 ∨
  getLastBlockIndexed (view d) = Ok (first + Z.of_nat m - 1) ∧ 0 <= first + Z.of_nat m - 1 < 2 ^ 64 - 1.
Proof.
  unfold getLastBlockIndexed. rewrite (st_index Hst) by done.
  rewrite (indexOf_savepoint sha256 indexItems bsi db0 (take m (place 0 lay))) by apply numbered_take, stored_numbered.
  pose proof (st_index_le Hst) as Hmn. pose proof (st_count_le Hst) as Hnt.
  destruct (decide (m = 0%nat)) as [->|Hm].
  - rewrite take_0. cbn [last]. rewrite (so_savepoint Hsetup), Z.add_0_r.
    pose proof (so_bsi Hsetup) as Hb. unfold firstNumber. destruct bsi as [i|]; cbn [fmap option_fmap option_map]; [right|by left].
    destruct (Hb i eq_refl) as [Hi _]. rewrite Z.add_simpl_r. split; [|lia].
    unfold decodeBlockNum, encodeBlockNum, DecodeVarint. by rewrite consume_last by (unfold is_u64; lia).
  - right. destruct (lookup_lt_is_Some_2 (place 0 lay) (m - 1)%nat) as [p Hp]; [rewrite place_length; lia|].
    assert (last (take m (place 0 lay)) = Some p) as ->.
    { rewrite last_lookup, length_take, place_length. rewrite lookup_take_lt by lia.
      by replace (Nat.pred (m `min` length (concat lay))) with (m - 1)%nat by lia. }
    destruct (stored_numbered _ _ Hp) as [_ Hn]. rewrite Hn. pose proof (number_bound m ltac:(lia) ltac:(lia)).
    replace (first + Z.of_nat (m - 1)) with (first + Z.of_nat m - 1) by lia. split; [|lia].
    unfold decodeBlockNum, encodeBlockNum, DecodeVarint. by rewrite consume_last by (unfold is_u64; lia).
Qed.

(** The block to index next. *)
Lemma next_indexable :
  ∃ l, match getLastBlockIndexed (view d) with Ok l => (l, u64 (l + 1)) | Err _ => (0, 0) end = (l, first + Z.of_nat m) ∧
    ((0 < m)%nat → l = first + Z.of_nat m - 1).
Proof.
  destruct last_indexed as [(-> & -> & ->)|[-> Hb]]; [exists 0; split; [done|lia]|].
  eexists. rewrite u64_small by (unfold is_u64; lia). split; [f_equal; lia|done].
Qed.

(** ** Blocks *)

Lemma locOf_bounded i p : place 0 lay !! i = Some p → flp_bounded (locOf p).
Proof.
  intros Hi. destruct (place_split lay i p Hi) as (j & bl1 & bl2 & Hj & Hf & Ho). pose proof few_files.
  unfold flp_bounded, locOf. cbn [fileSuffixNum flp_loc lp_offset lp_bytesLength]. rewrite Hf, Ho.
  pose proof (lookup_lt_Some _ _ _ Hj). split; [lia|]. split; [|lia]. pose proof (file_bound j _ Hj) as Hb.
  rewrite fileBytes_app, blen_app in Hb. unfold blen in *. lia.
Qed.

Lemma find_block i p :
  place 0 lay !! i = Some p → (i < m)%nat → getBlockLocByBlockNum indexItems (numberOf p) (view d) = Ok (locOf p).
Proof.
  intros Hi Hm. unfold getBlockLocByBlockNum, isAttributeIndexed.
  rewrite bool_decide_eq_true_2 by apply (so_blockNum Hsetup). cbn [negb].
  rewrite (st_index Hst) by done.
  rewrite (indexOf_blockNum sha256 indexItems bsi db0 (take m (place 0 lay)) i p).
  - rewrite flp_roundtrip; [done|]. by eapply locOf_bounded.
  - apply numbered_take, stored_numbered.
  - apply (so_blockNum Hsetup).
  - by rewrite lookup_take_lt.
Qed.

Lemma fetch_bytes i p : place 0 lay !! i = Some p → fetchBlockBytes (locOf p) d = ok (Some (bytesOf (pl_block p))).
Proof.
  intros Hi. destruct (place_split lay i p Hi) as (j & bl1 & bl2 & Hj & Hf & Ho).
  destruct (st_files Hst j _ Hj) as (x & Hx & Hb).
  unfold fetchBlockBytes, newBlockfileStream, locOf. cbn [fileSuffixNum flp_loc lp_offset]. rewrite Hf, Ho, Hx.
  destruct (Z.ltb_spec (blen (fileBytes bl1)) 0); [unfold blen in *; lia|]. cbn [try_bind].
  rewrite (nextBlock_frame _ d (fileBytes bl1) (pl_block p) (fileBytes bl2 ++ if decide (S j = length lay) then junk else [])).
  - done.
  - eapply sb_small, stored_numbered. exact Hi.
  - by rewrite (fileBytesOf_lookup _ _ _ Hx), Hb, fileBytes_app, fileBytes_cons, <- !(assoc_L (++)).
Qed.

Lemma fetch_block i p : place 0 lay !! i = Some p → fetchBlock sha256 (locOf p) d = ok (pl_block p).
Proof.
  intros Hi. unfold fetchBlock. rewrite (fetch_bytes i p Hi). cbn [ok try_bind nb default from_option id].
  destruct (storable_read sha256 indexItems (pl_block p)) as [-> _]; [|done]. by eapply stored_numbered.
Qed.

(** The header of a block that is indexed. *)
Lemma find_header mgr i p :
  place 0 lay !! i = Some p → (i < m)%nat → mgr_bootstrappingSnapshotInfo mgr = bsi →
  retrieveBlockHeaderByNumber sha256 indexItems (numberOf p) mgr d = ok (blk_Header (pl_block p)).
Proof.
  intros Hi Hm Hb. unfold retrieveBlockHeaderByNumber, firstPossibleBlockNumberInBlockFiles. rewrite Hb.
  destruct (stored_numbered _ _ Hi) as [Hs Hn].
  destruct (Z.ltb_spec (numberOf p) match bsi with Some i => u64 (bsi_LastBlockNum i + 1) | None => 0 end) as [Hlt|_].
  { exfalso. revert Hlt Hn. pose proof (so_bsi Hsetup) as Hbsi. unfold firstNumber. destruct bsi as [s|].
    - destruct (Hbsi s eq_refl) as [? _]. rewrite u64_small by (unfold is_u64; lia). lia.
    - lia. }
  rewrite (find_block i p Hi Hm). cbn [try_bind]. rewrite (fetch_bytes i p Hi). cbn [ok try_bind nb default from_option id].
  destruct (storable_read sha256 indexItems (pl_block p) Hs) as [_ ->]. done.
Qed.

(** ** Where indexing starts *)

Lemma first_block :
  concat lay ≠ [] → retrieveFirstBlockNumFromFile sha256 0 d = ok first.
Proof.
  intros Hne. destruct (st_shape Hst) as [->|(b & bl & lay' & Hlay)]; [done|].
  assert (lay !! 0%nat = Some (b :: bl)) as H0 by (by rewrite Hlay).
  destruct (st_files Hst 0%nat _ H0) as (x & Hx & Hb). change (Z.of_nat 0) with 0 in Hx.
  assert (concat lay !! 0%nat = Some b) as Hc by (by rewrite Hlay).
  destruct (st_chain Hst) as [Hs Hl]. eapply Forall_lookup_1 in Hs; [|done].
  unfold retrieveFirstBlockNumFromFile, newBlockfileStream. rewrite Hx. cbn [Z.ltb Z.compare try_bind].
  change (mkBlockfileStream 0 0) with (mkBlockfileStream 0 (blen [])).
  rewrite (nextBlock_frame 0 d [] b (fileBytes bl ++ if decide (1%nat = length lay) then junk else [])).
  - cbn [ok try_bind]. destruct (storable_read sha256 indexItems b Hs) as [_ ->]. cbn [try_bind].
    destruct (Hl _ _ Hc) as [Hn _]. cbn [infoOf sbi_blockHeader]. rewrite Hn, Z.add_0_r. done.
  - eapply sb_small, Hs.
  - by rewrite (fileBytesOf_lookup _ _ _ Hx), Hb, fileBytes_cons, <- (assoc_L (++)).
Qed.

Lemma start_stream l :
  (m < length (concat lay))%nat → ((0 < m)%nat → l = first + Z.of_nat m - 1) →
  ∃ s, syncIndexStart indexItems (first + Z.of_nat m) l first (Z.of_nat (length lay) - 1) d = ok s ∧
    streamAt lay s (drop m (place 0 lay)) ∧ bs_endFileNum s = Z.of_nat (length lay) - 1.
Proof.
  intros Hm Hl. unfold syncIndexStart. pose proof few_files as Hf.
  pose proof (chain_small lay (st_chain Hst)) as Hsm.
  pose proof (st_files Hst) as Hd.
  destruct (Z.gtb_spec (first + Z.of_nat m) first) as [Hgt|Hle].
  - destruct (lookup_lt_is_Some_2 (place 0 lay) (m - 1)%nat) as [p Hp]; [rewrite place_length; lia|].
    destruct (stored_numbered _ _ Hp) as [_ Hn]. rewrite Hl by lia.
    replace (first + Z.of_nat m - 1) with (numberOf p) by lia. rewrite (find_block (m - 1) p Hp) by lia.
    cbn [try_bind]. unfold newBlockStream, newBlockfileStream, locOf. cbn [fileSuffixNum flp_loc lp_offset].
    pose proof (streamAt_place lay _ p (Z.of_nat (length lay) - 1) Hp) as Hs.
    destruct (place_split lay _ p Hp) as (j & bl1 & bl2 & Hj' & Hpf & Hpo). rewrite Hpf, Hpo in Hs |- *.
    destruct (Hd j _ Hj') as (x & -> & _). destruct (Z.ltb_spec (blen (fileBytes bl1)) 0); [unfold blen in *; lia|].
    cbn [mbind res_bind try_bind]. rewrite (drop_S _ p) in Hs by done. 
    replace (S (m - 1)) with m in Hs by lia. 
    destruct (next_block lay junk d _ p _ Hsm Hd Hs) as (s' & -> & Hs' & He'); [by right|].
    cbn [ok try_bind]. by exists s'.
  - assert (m = 0%nat) as -> by lia. rewrite drop_0. unfold newBlockStream, newBlockfileStream.
    destruct (lookup_lt_is_Some_2 lay 0%nat) as [bl Hbl]; [lia|].
    destruct (Hd 0%nat bl Hbl) as (x & Hx & _). change (Z.of_nat 0) with 0 in Hx. rewrite Hx. cbn [Z.ltb Z.compare mbind res_bind].
    eexists. split; [done|]. split; [|done]. destruct lay as [|bl' lay']; [done|]. injection Hbl as ->.
    exact (streamAt_start (bl :: lay') [] bl 0 (Z.of_nat (length (bl :: lay')) - 1) eq_refl).
Qed.
End on_disk.
End reads.

#[global] Arguments lay_nonempty {_ _ _ _ _ _ _ _ _ _ _ _ _ _ _ _} _.
#[global] Arguments few_files {_ _ _ _ _ _ _ _ _ _ _ _ _ _ _ _} _ _.
#[global] Arguments last_file_on_disk {_ _ _ _ _ _ _ _ _ _ _ _ _ _ _ _} _.
#[global] Arguments number_bound {_ _ _ _ _ _ _ _ _ _ _ _ _ _ _ _} _ _ _ _.
#[global] Arguments sync_summary {_ _ _ _ _ _ _ _ _ _ _ _ _ _ _ _} _.
#[global] Arguments stored_numbered {_ _ _ _ _ _ _ _ _ _ _ _ _ _ _ _} _.
