(* ===== verification/BlockStoreOpen.v ===== *)
(** * Opening a block store

    Opening the store on whatever a crash left completes the summary, removes a
    partial block and completes the index; a crash in the middle of it leaves the
    same chain. *)

From stdpp Require Import gmap strings list.
From Stdlib Require Import Strings.Byte.
From S2P Require Import Prelude Protos GoLib Blocks Varint BlockSerialization Disk LevelDB BlockIndex BlockStream BlockfileMgr BlockLayout BlockStore BlockStoreFacts BlockStoreReads.

Section opening.
Context `{!Codec Envelope, !Codec Payload, !Codec ChannelHeader, !Codec SignatureHeader}.
Context `{!Codec TxIDIndexValue, !Codec BootstrappingSnapshotInfo}.
Context (sha256 : bytes → bytes) (indexItems : list IndexableAttr) (maxBlockfileSize : Z).
Context (bsi : option BootstrappingSnapshotInfo) (db0 : gmap bytes bytes).
Hypothesis Hsetup : setup_ok indexItems maxBlockfileSize bsi db0.

Abbreviation chain_ok := (chain_ok sha256 indexItems bsi).
Abbreviation stored := (stored sha256 indexItems maxBlockfileSize bsi db0).
Abbreviation bare := (bare sha256 indexItems maxBlockfileSize bsi db0).
Abbreviation holds := (holds sha256 indexItems maxBlockfileSize bsi db0).
Abbreviation recoverable := (recoverable sha256 indexItems maxBlockfileSize bsi db0).
Abbreviation opened := (opened sha256 indexItems maxBlockfileSize bsi db0).
Abbreviation summary := (summary bsi).
Abbreviation batchOf := (batchOf sha256 indexItems).
Abbreviation indexOf := (indexOf sha256 indexItems db0).
Abbreviation first := (firstNumber bsi).
Abbreviation bcInfoOf := (bcInfoOf sha256 bsi).
Abbreviation mgrOf := (mgrOf sha256 bsi).

(** The numbers of files stay far below the range of [int]. *)
Definition few (d : disk) : Prop := Z.of_nat (size (d_files d)) < 2 ^ 62.

Lemma firstPossible_first mgr :
  mgr_bootstrappingSnapshotInfo mgr = bsi → firstPossibleBlockNumberInBlockFiles mgr = first.
Proof.
  intros Hb. unfold firstPossibleBlockNumberInBlockFiles, firstNumber. rewrite Hb.
  pose proof (so_bsi Hsetup) as H. destruct bsi as [i|]; [|done]. destruct (H i eq_refl) as [? _].
  apply u64_small. unfold is_u64. lia.
Qed.

(** ** Writes that keep a chain stored *)

Lemma view_write batch sync d : view (writeDB batch sync d) = applyBatch (view d) batch.
Proof. unfold view, writeDB. cbn [d_db]. destruct sync; by rewrite ?db_view_sync, db_view_write. Qed.

Lemma write_quiet batch d : quiet d → quiet (writeDB batch true d).
Proof. intros [Hf _]. split; [exact Hf|done]. Qed.

(** The database moves on. *)
Lemma stored_db lay junk n m n' m' d d' :
  stored lay junk n m d → d_files d' = d_files d → d_bootstrap d' = d_bootstrap d → quiet d' →
  view d' !! blkMgrInfoKey = Some (info_marshal (summary lay n')) →
  (∀ k, k ≠ blkMgrInfoKey → view d' !! k = indexOf (take m' (place 0 lay)) !! k) →
  (m' <= n')%nat → (n <= n')%nat → (n' <= length (concat lay))%nat → stored lay junk n' m' d'.
Proof.
  intros [] Hf Hb Hq Hi Hx Hm Hn Ht. split; try done; try lia.
  - by rewrite Hb.
  - intros i bl Hbl. by rewrite Hf; apply st_files.
  - intros f x. by rewrite Hf; apply st_others.
  - intros ->. apply st_first. lia.
Qed.

Lemma stored_summary lay junk n m n' d :
  stored lay junk n m d → (n <= n')%nat → (n' <= length (concat lay))%nat →
  stored lay junk n' m (writeDB {[ blkMgrInfoKey := Some (info_marshal (summary lay n')) ]} true d).
Proof.
  intros H Hn Ht. pose proof (st_index_le H). eapply stored_db; try done; try lia.
  - apply write_quiet, H.
  - by rewrite view_write, applyBatch_lookup, lookup_singleton_eq.
  - intros k Hk. rewrite view_write, applyBatch_lookup, lookup_singleton_ne by done. by apply H.
Qed.

Lemma place_storable lay i p : chain_ok (concat lay) → place 0 lay !! i = Some p → storable indexItems (pl_block p).
Proof. intros Hc Hp. by eapply (numbered_place sha256 indexItems bsi lay Hc). Qed.

Lemma stored_index lay junk n m p d :
  stored lay junk n m d → (m < n)%nat → place 0 lay !! m = Some p →
  stored lay junk n (S m) (writeDB (batchOf p) true d).
Proof.
  intros H Hm Hp. assert (storable indexItems (pl_block p)) as Hs by (eapply place_storable; [apply H|done]).
  eapply stored_db; try done; try lia.
  - apply write_quiet, H.
  - rewrite view_write, applyBatch_lookup, batchOf_info by done. apply H.
  - intros k Hk. rewrite view_write, (take_S_r _ _ p) by done. rewrite indexOf_snoc, !applyBatch_lookup.
    destruct (batchOf p !! k); [done|]. by apply H.
  - apply H.
Qed.

Lemma batchOf_nonempty p : storable indexItems (pl_block p) → batchOf p ≠ ∅.
Proof.
  intros Hs E. pose proof (batchOf_savepoint sha256 indexItems p Hs) as H. rewrite E, lookup_empty in H. done.
Qed.

(** The partial block at the end is cut off. *)
Lemma stored_truncate lay junk n m d :
  stored lay junk n m d →
  stored lay [] n m (truncateTo (Z.of_nat (length lay) - 1) (length (fileBytes (lastFile lay))) d).
Proof.
  intros H. pose proof H as []. destruct (last_file_on_disk H) as (x & Hx & Hb).
  assert (1 <= length lay)%nat as Hl by (pose proof (lay_nonempty H); destruct lay; [done|simpl; lia]).
  unfold truncateTo. rewrite Hx. split; try done.
  - destruct st_quiet as [Hqf Hqd]. split; [|done]. intros f y. unfold setFile. cbn [d_files].
    intros [[<- <-]|[_ Hy]]%lookup_insert_Some; [|by apply (Hqf f)]. cbn [f_bytes f_synced].
    rewrite (Hqf _ _ Hx), length_take. lia.
  - intros i bl Hbl. unfold setFile. cbn [d_files]. pose proof (lookup_lt_Some _ _ _ Hbl).
    destruct (decide (S i = length lay)) as [E|E].
    + assert (bl = lastFile lay) as ->.
      { pose proof (lastFile_lookup lay ltac:(by destruct lay)) as Hll.
        replace (length lay - 1)%nat with i in Hll by lia. congruence. }
      replace (Z.of_nat (length lay) - 1) with (Z.of_nat i) by lia. rewrite lookup_insert_eq. eexists. split; [done|].
      cbn [f_bytes]. by rewrite Hb, app_nil_r, take_app_length.
    + rewrite lookup_insert_ne by lia. destruct (st_files i bl Hbl) as (y & Hy & Hyb). exists y. split; [done|].
      by rewrite decide_False in Hyb by done.
  - apply partial_empty.
  - intros f y. unfold setFile. cbn [d_files]. intros [[<- <-]|[_ Hy]]%lookup_insert_Some; [left; lia|by apply st_others].
Qed.

Lemma stored_holds lay junk n m d : stored lay junk n m d → holds (concat lay) d.
Proof. intros H. right. left. by exists lay, junk, n, m. Qed.

Lemma quiet_recoverable chain chain' d : quiet d → holds chain d → recoverable chain chain' d.
Proof. intros Hq H d' Hd. left. by rewrite (quiet_power_loss d d' Hq Hd). Qed.

Lemma stored_recoverable lay junk n m d chain' : stored lay junk n m d → recoverable (concat lay) chain' d.
Proof. intros H. apply quiet_recoverable; [apply H|by eapply stored_holds]. Qed.
Lemma place_total (lay : list (list Block)) : length (place 0 lay) = length (concat lay).
Proof. by rewrite <- (place_blocks 0 lay), length_fmap. Qed.

(** ** Completing the index *)

Section runs.
Context (w : weather) (C : disk → Prop).

Lemma wp_indexBlock p (Q : res unit → disk → Prop) d :
  storable indexItems (pl_block p) →
  Q (Ok tt) (writeDB (batchOf p) true d) → (w = Any → ∀ e, Q (Err e) d) → (w ≠ Calm → C d ∧ C (writeDB (batchOf p) true d)) →
  wp w C (indexBlock indexItems (idxInfoOf sha256 p)) Q d.
Proof.
  intros Hs H1 H2 H3. unfold indexBlock. rewrite decide_False.
  2: { intros E. pose proof (so_blockNum Hsetup) as H. rewrite E in H. set_solver. }
  apply wp_bind. eapply wp_outcome; [by apply batchOf_Done|]. unfold db_WriteBatch.
  rewrite decide_False by (by apply batchOf_nonempty). apply wp_atomic; auto.
Qed.

Section index.
Context (lay : list (list Block)) (junk : bytes).
Abbreviation total := (length (concat lay)).
Hypothesis HC : ∀ m d, stored lay junk total m d → C d.
Hypothesis Hjunk : junk ≠ [] → w = Any.

Definition indexed_post (r : res unit) (d : disk) : Prop :=
  match r with Ok _ => stored lay junk total total d ∧ few d | Err _ => w ≠ Calm ∧ C d end.

Lemma wp_syncIndexLoop_end fuel d s :
  stored lay junk total total d → few d → streamAt lay s [] → bs_endFileNum s = Z.of_nat (length lay) - 1 →
  wp w C (syncIndexLoop sha256 indexItems fuel s) indexed_post d.
Proof.
  intros Hst Hfew Hs He.
  pose proof (next_end lay junk d s (chain_small _ _ _ lay (st_chain Hst)) (st_files Hst) (st_junk Hst) Hs He) as Hend.
  assert (nextBlockBytesAndPlacementInfo s d = Done (Err ErrUnexpectedEndOfBlockfile) ∧ junk ≠ [] ∨
    ∃ s', nextBlockBytesAndPlacementInfo s d = ok (None, s')) as [[E Hne]|[s' E]].
  { revert Hend. unfold atEnd. destruct junk; [by right|by left]. }
  all: destruct fuel; cbn [syncIndexLoop]; apply wp_bind, wp_reads; rewrite E; apply wp_bind; (eapply wp_outcome; [done|]); apply wp_ret.
  1,2: split; [by rewrite Hjunk|by eapply HC].
  all: by split.
Qed.

Lemma wp_syncIndexLoop fuel m d s :
  stored lay junk total m d → few d → streamAt lay s (drop m (place 0 lay)) →
  bs_endFileNum s = Z.of_nat (length lay) - 1 → (total - m <= fuel)%nat →
  wp w C (syncIndexLoop sha256 indexItems fuel s) indexed_post d.
Proof.
  revert m d s. induction fuel as [|fuel IH]; intros m d s Hst Hfew Hs He Hf.
  all: destruct (decide (m = total)) as [->|Hne];
    [apply wp_syncIndexLoop_end; [done|done| |done]; by rewrite drop_ge in Hs by (rewrite place_total; lia)|].
  all: pose proof (st_index_le Hst) as Hm.
  { lia. }
  pose proof (chain_small _ _ _ lay (st_chain Hst)) as Hsm. pose proof (st_files Hst) as Hd.
  destruct (drop m (place 0 lay)) as [|p rest] eqn:Hrest.
  { exfalso. apply (f_equal length) in Hrest. rewrite length_drop, place_total in Hrest. simpl in Hrest. lia. }
  cbn [syncIndexLoop]. apply wp_bind, wp_reads.
  assert (place 0 lay !! m = Some p) as Hp by (rewrite <- (Nat.add_0_r m), <- lookup_drop, Hrest; done).
  assert (m < total)%nat as Hlt by lia.
  destruct (next_block lay junk d s p rest Hsm Hd Hs) as (s' & -> & Hs' & He'); [by right|].
  apply wp_bind. eapply wp_outcome; [done|]. cbn [ok].
  assert (storable indexItems (pl_block p)) as Hsp by (eapply place_storable; [apply Hst|done]).
  destruct (storable_read sha256 indexItems _ Hsp) as [_ ->]. apply wp_try, wp_ret, wp_try.
  pose proof (stored_index _ _ _ _ _ _ Hst Hlt Hp) as Hst'. apply wp_indexBlock; [done|..].
  - eapply IH; [exact Hst'|exact Hfew| |congruence|lia]. rewrite (drop_S _ p) in Hrest by done. by injection Hrest as <-.
  - intros Hw e. split; [by rewrite Hw|by eapply HC].
  - intros _. split; by eapply HC.
Qed.

(** A file holds at least as many bytes as blocks, so the fuel is enough. *)
Lemma totalBytes_keys (ks : list Z) (files : gmap Z file) (g : Z → nat) :
  NoDup ks → (∀ k, k ∈ ks → ∃ x, files !! k = Some x ∧ (g k <= length (f_bytes x))%nat) →
  (sum_list (g <$> ks) <= map_fold (λ _ x n, (length (f_bytes x) + n)%nat) 0%nat files)%nat.
Proof.
  intros Hnd. revert files. induction Hnd as [|k ks Hk _ IH]; intros files H; [simpl; lia|].
  destruct (H k) as (x & Hx & Hg); [left|]. rewrite (map_fold_delete_L _ _ k x) by (try done; intros; lia).
  cbn [fmap list_fmap sum_list]. apply Nat.add_le_mono; [exact Hg|]. apply IH.
  intros k' Hk'. destruct (H k') as (y & Hy & Hgy); [by right|]. exists y. split; [|done].
  rewrite lookup_delete_ne; [done|]. intros <-. done.
Qed.

Lemma totalBytes_blocks m d : stored lay junk total m d → (total <= totalBytes d)%nat.
Proof.
  intros Hst. pose proof (chain_small _ _ _ lay (st_chain Hst)) as Hsm.
  unfold totalBytes. etrans; [|apply (totalBytes_keys (Z.of_nat <$> seq 0 (length lay)) _ (λ k, length (default [] (lay !! Z.to_nat k))))].
  - rewrite <- list_fmap_compose. clear -lay. 
    assert (∀ l0 : list (list Block), length (concat lay) = sum_list ((λ i, length (default [] ((l0 ++ lay) !! (Z.to_nat (Z.of_nat i))))) <$> seq (length l0) (length lay))) as H; [|rewrite (H []); done].
    induction lay as [|bl l IH]; intros l0; [done|]. cbn [concat seq length fmap list_fmap sum_list]. rewrite length_app.
    rewrite Nat2Z.id, lookup_app_r, Nat.sub_diag by lia. cbn [lookup list_lookup default from_option id]. f_equal.
    rewrite (IH (l0 ++ [bl])). rewrite <- (assoc_L (++)), length_app, Nat.add_1_r. done.
  - apply NoDup_fmap_2; [apply _|apply NoDup_seq].
  - intros k (i & -> & Hi)%list_elem_of_fmap. apply elem_of_seq in Hi. rewrite Nat2Z.id.
    destruct (lookup_lt_is_Some_2 lay i) as [bl Hbl]; [lia|]. destruct (st_files Hst i bl Hbl) as (x & Hx & Hb).
    exists x. split; [done|]. rewrite Hbl, Hb, length_app. cbn [default from_option id].
    eapply Forall_lookup_1 in Hsm; [|done]. pose proof (fileBytes_count bl Hsm). lia.
Qed.
Lemma wp_syncIndex m d mgr :
  stored lay junk total m d → few d →
  mgr_blockfilesInfo mgr = summary lay total → mgr_bootstrappingSnapshotInfo mgr = bsi →
  wp w C (syncIndex sha256 indexItems mgr) indexed_post d.
Proof.
  intros Hst Hfew Hi Hb. unfold syncIndex. apply wp_bind, wp_reads.
  destruct (next_indexable _ _ _ _ _ Hsetup _ _ _ _ _ Hst) as (l & -> & Hl).
  pose proof (first_nonneg _ _ _ _ Hsetup) as H0. pose proof (st_index_le Hst) as Hm.
  assert ((first + Z.of_nat m =? 0) && bootstrappedFromSnapshot mgr = false) as ->.
  { unfold bootstrappedFromSnapshot. rewrite firstPossible_first by done.
    destruct (Z.eqb_spec (first + Z.of_nat m) 0); [|done]. destruct (Z.gtb_spec first 0); [lia|done]. }
  rewrite Hi. cbn [BlockStore.summary noBlockFiles lastPersistedBlock latestFileNumber].
  case_bool_decide as Ht; [apply wp_ret; split; [by replace m with total in Hst by lia|done]|].
  rewrite decide_False by done. pose proof (number_bound Hst total ltac:(lia) ltac:(lia)) as Hn.
  rewrite u64_small by (unfold is_u64; lia).
  destruct (Z.eqb_spec (first + Z.of_nat m) (first + Z.of_nat total - 1 + 1)) as [E|E].
  { apply wp_ret. split; [by replace m with total in Hst by lia|done]. }
  apply wp_bind, wp_reads. rewrite (first_block _ _ _ _ _ _ _ _ _ _ Hst) by (by intros E0; rewrite E0 in Ht).
  apply wp_try. eapply wp_outcome; [done|]. apply wp_bind, wp_reads.
  destruct (start_stream _ _ _ _ _ Hsetup _ _ _ _ _ Hst Hfew l) as (s & -> & Hs & He); [lia|done|].
  apply wp_try. eapply wp_outcome; [done|]. apply wp_bind, wp_reads.
  eapply wp_syncIndexLoop; [exact Hst|done|done|done|]. pose proof (totalBytes_blocks m d Hst). lia.
Qed.
End index.

(** ** Opening *)

Definition open_post (chain : list Block) (r : res blockfileMgr) (d : disk) : Prop :=
  match r with
  | Ok mgr => ∃ junk, opened chain junk mgr d ∧ (w ≠ Any → junk = [])
  | Err _ => w ≠ Calm ∧ C d
  end.

(** Where a crash may leave the disk: wherever the chain is held. *)
Definition covers (chain : list Block) : Prop := ∀ d, quiet d → holds chain d → C d.

Lemma covers_stored lay junk n m d : covers (concat lay) → stored lay junk n m d → C d.
Proof. intros HC H. apply HC; [apply H|by eapply stored_holds]. Qed.

(** The last part: the index and what is known of the last block. *)
Definition openIndex (info : blockfilesInfo) : io (res blockfileMgr) :=
  bsi ←! reads loadBootstrappingSnapshotInfo;
  let bcInfo := match bsi with
                | Some bsi => mkBlockchainInfo (u64 (bsi_LastBlockNum bsi + 1)) (bsi_LastBlockHash bsi) (bsi_PreviousBlockHash bsi)
                | None => mkBlockchainInfo 0 [] []
                end in
  let mgr := mkBlockfileMgr info bsi (latestFileNumber info) bcInfo in
  _ ←! syncIndex sha256 indexItems mgr;
  if noBlockFiles info then mret (Ok mgr) else
  r ← reads (retrieveBlockHeaderByNumber sha256 indexItems (lastPersistedBlock info) mgr);
  lastBlockHeader ← must "Could not retrieve header of the last block form file" (io_outcome r);
  mret (Ok {| mgr with mgr_bcInfo :=
    mkBlockchainInfo (u64 (lastPersistedBlock info + 1)) (BlockHeaderHash sha256 lastBlockHeader) (hdr_PreviousHash lastBlockHeader) |}).

Lemma wp_openIndex lay junk m d :
  covers (concat lay) → stored lay junk (length (concat lay)) m d → few d →
  (junk ≠ [] → w = Any) →
  wp w C (openIndex (summary lay (length (concat lay)))) (open_post (concat lay)) d.
Proof.
  intros HC Hst Hfew Hj. unfold openIndex. apply wp_try, wp_reads.
  assert (loadBootstrappingSnapshotInfo d = Ok bsi) as ->.
  { unfold loadBootstrappingSnapshotInfo. rewrite (st_boot Hst). pose proof (so_bsi Hsetup) as Hb.
    destruct bsi as [i|]; [|done]. cbn [fmap option_fmap option_map]. by destruct (Hb i eq_refl) as [_ ->]. }
  apply wp_try. eapply wp_mono; [eapply (wp_syncIndex lay junk); [|done|exact Hst|done|done|done]|].
  { intros k d' Hd'. by eapply covers_stored. }
  intros [[]|e] d' Hp; [|exact Hp]. destruct Hp as [Hp Hfew'].
  assert (opened (concat lay) junk (mgrOf lay) d') as Ho by (by exists lay).
  assert (w ≠ Any → junk = []) as Hj' by (intros Hw; destruct junk; [done|]; by destruct Hw, Hj).
  cbn [BlockStore.summary noBlockFiles lastPersistedBlock latestFileNumber].
  case_bool_decide as Ht.
  - apply wp_ret. exists junk. split; [|done]. destruct Ho as (lay' & E & Hst' & Hm). 
    exists lay. split; [done|]. split; [done|]. unfold BlockStore.mgrOf, BlockStore.bcInfoOf. f_equal.
    apply nil_length_inv in Ht. rewrite Ht. cbn [last length]. rewrite Z.add_0_r. unfold hashAfter, firstNumber, firstHash. cbn [last].
    pose proof (so_bsi Hsetup) as Hb. destruct bsi as [i|]; [|done]. destruct (Hb i eq_refl) as [? _].
    by rewrite u64_small by (unfold is_u64; lia).
  - rewrite decide_False by done. apply wp_bind, wp_reads.
    destruct (lookup_lt_is_Some_2 (place 0 lay) (length (concat lay) - 1)%nat) as [p Hpl]; [rewrite place_total; lia|].
    destruct (stored_numbered Hp _ _ Hpl) as [_ Hn].
    replace (first + Z.of_nat (length (concat lay)) - 1) with (numberOf p) by lia.
    erewrite (find_header _ _ _ _ _ Hsetup _ _ _ _ _ Hp Hfew'); [|exact Hpl|lia|done].
    apply wp_bind, wp_must. eapply wp_outcome; [done|]. cbn [ok]. apply wp_ret.
    exists junk. split; [|done]. exists lay. split; [done|]. split; [done|]. unfold BlockStore.mgrOf, BlockStore.bcInfoOf. f_equal.
    assert (last (concat lay) = Some (pl_block p)) as Hlast.
    { rewrite last_lookup, <- (place_blocks 0 lay), list_lookup_fmap, length_fmap, place_total.
      replace (Nat.pred (length (concat lay))) with (length (concat lay) - 1)%nat by lia. by rewrite Hpl. }
    unfold hashAfter. rewrite Hlast. f_equal. pose proof (number_bound Hp (length (concat lay)) ltac:(lia) ltac:(lia)).
    rewrite u64_small by (unfold is_u64; lia). lia.
Qed.
Lemma wp_truncateFile f t (Q : res unit → disk → Prop) d :
  (fileSize f d <= t → Q (Ok tt) d) →
  (t < fileSize f d → Q (Ok tt) (truncateTo f (Z.to_nat t) d) ∧ (w = Any → Q (Ok tt) d) ∧ (w ≠ Calm → C (truncateTo f (Z.to_nat t) d))) →
  (w = Any → ∀ e, Q (Err e) d) → (w ≠ Calm → C d) →
  wp w C (truncateFile f t) Q d.
Proof.
  intros H1 H2 H3 H4. unfold truncateFile, os_Stat. apply wp_try, wp_try, wp_atomic; [|auto|auto].
  apply wp_reads. destruct (Z.gtb_spec (fileSize f d) t) as [Hgt|Hle]; [|apply wp_ret; auto].
  destruct (H2 Hgt) as (Ha & Hb & Hc). apply wp_bind, wp_atomic; [by apply wp_ret|intros; apply wp_ret; auto|auto].
Qed.

Lemma wp_openTruncate lay junk m d :
  covers (concat lay) → stored lay junk (length (concat lay)) m d → few d →
  wp w C (_ ← must "Could not truncate current file to known size in db"
                (truncateFile (Z.of_nat (length lay) - 1) (latestFileSize (summary lay (length (concat lay)))));
          openIndex (summary lay (length (concat lay)))) (open_post (concat lay)) d.
Proof.
  intros HC Hst Hfew. destruct (last_file_on_disk Hst) as (x & Hx & Hb).
  assert (fileSize (Z.of_nat (length lay) - 1) d = blen (fileBytes (lastFile lay)) + blen junk) as Hsz.
  { unfold fileSize. by rewrite Hx, Hb, blen_app. }
  cbn [BlockStore.summary latestFileSize]. rewrite inLast_total, firstn_all.
  apply wp_bind, wp_must, wp_truncateFile; rewrite ?Hsz.
  - intros Hle. apply (wp_openIndex lay junk m); [done..|]. intros Hne. destruct Hne. apply nil_length_inv. unfold blen in Hle. lia.
  - intros Hgt. rewrite blen_nat. pose proof (stored_truncate _ _ _ _ _ Hst) as Hst'. split_and!.
    + apply (wp_openIndex lay [] m); [done|done| |done]. unfold few, truncateTo, setFile. rewrite Hx. cbn [d_files].
      rewrite map_size_insert, Hx. exact Hfew.
    + intros Hw. by apply (wp_openIndex lay junk m).
    + intros _. by eapply covers_stored.
  - intros Hw e. split; [by rewrite Hw|by eapply covers_stored].
  - intros _. by eapply covers_stored.
Qed.

Lemma createFile_exists f d : d_files d !! f ≠ None → createFile f d = d.
Proof. unfold createFile. by destruct (d_files d !! f). Qed.

(** After the summary is known. *)
Lemma wp_open_from lay junk m d (d' := writeDB {[ blkMgrInfoKey := Some (info_marshal (summary lay (length (concat lay)))) ]} true d) :
  covers (concat lay) → stored lay junk (length (concat lay)) m d' → few d → C d →
  wp w C (_ ← must "Could not save next block file info to db" (saveBlkfilesInfo (summary lay (length (concat lay))) true);
          _ ← must "Could not open writer to current file" (newBlockfileWriter (latestFileNumber (summary lay (length (concat lay)))));
          _ ← must "Could not truncate current file to known size in db"
                (truncateFile (latestFileNumber (summary lay (length (concat lay)))) (latestFileSize (summary lay (length (concat lay)))));
          openIndex (summary lay (length (concat lay)))) (open_post (concat lay)) d.
Proof.
  intros HC Hst' Hfew HCd. assert (C d') as HCd' by (by eapply covers_stored).
  assert (createFile (Z.of_nat (length lay) - 1) d' = d') as Ec.
  { apply createFile_exists. destruct (last_file_on_disk Hst') as (x & Hx & _). by rewrite Hx. }
  apply wp_bind, wp_must, wp_atomic; [|by intros ->|done].
  apply wp_bind, wp_must, wp_atomic; cbn [BlockStore.summary latestFileNumber]; change (writeDB _ true d) with d'.
  - rewrite Ec. by eapply wp_openTruncate.
  - by intros ->.
  - intros _. by rewrite Ec.
Qed.

(** Opening a store that exists. *)
Lemma wp_open_stored lay junk n m d :
  covers (concat lay) → stored lay junk n m d → few d →
  wp w C (newBlockfileMgr sha256 indexItems) (open_post (concat lay)) d.
Proof.
  intros HC Hst Hfew. unfold newBlockfileMgr, CreateDirIfMissing.
  assert (C d) as HCd by (by eapply covers_stored).
  apply wp_bind, wp_must, wp_atomic; [|by intros ->|done].
  apply wp_bind, wp_must, wp_reads. rewrite (load_summary _ _ _ _ _ Hsetup _ _ _ _ _ Hst Hfew).
  apply wp_bind, wp_bind, wp_reads. rewrite (sync_summary Hst). apply wp_ret.
  apply (wp_open_from lay junk m); [done| |done|done]. apply (stored_summary lay junk n m); [done|apply Hst|lia].
Qed.

(** Opening a store without its summary. *)
Lemma bare_summary lay junk m d :
  bare lay junk m d →
  stored lay junk (length (concat lay)) m (writeDB {[ blkMgrInfoKey := Some (info_marshal (summary lay (length (concat lay)))) ]} true d).
Proof.
  intros []. split; try done.
  - by apply write_quiet.
  - right. destruct lay as [|[|b bl] lay]; [done| |by exists b, bl, lay]. by inversion ba_nonempty.
  - intros f x Hx. left. by eapply ba_only.
  - lia.
  - intros E%nil_length_inv. done.
  - by rewrite view_write, applyBatch_lookup, lookup_singleton_eq.
  - intros k Hk. rewrite view_write, applyBatch_lookup, lookup_singleton_ne by done. auto.
Qed.

Lemma bare_last_suffix lay junk m d : bare lay junk m d → retrieveLastFileSuffix d = Z.of_nat (length lay) - 1.
Proof.
  intros Hb. unfold retrieveLastFileSuffix.
  assert (∀ (files : gmap Z file) n, (∀ f x, files !! f = Some x → f <= n) → -1 <= n →
    map_fold (λ f _ acc, Z.max f acc) (-1) files <= n ∧ ∀ f x, files !! f = Some x → f <= map_fold (λ f _ acc, Z.max f acc) (-1) files) as H.
  { intros files n. induction files as [|f x files Hf IH] using map_ind; intros Hn H0; [rewrite map_fold_empty; split; [done|by intros ? ?]|].
    rewrite map_fold_insert_L by (try done; intros; lia). destruct IH as [IH1 IH2].
    { intros g y Hg. apply (Hn g y). rewrite lookup_insert_ne; [done|]. intros ->. congruence. }
    { done. }
    pose proof (Hn f x (lookup_insert_eq _ _ _)). split; [lia|].
    intros g y [[<- _]|[_ Hg]]%lookup_insert_Some; [lia|]. specialize (IH2 g y Hg). lia. }
  destruct (H (d_files d) (Z.of_nat (length lay) - 1)) as [H1 H2].
  - intros f x Hx. pose proof (ba_only Hb f x Hx). lia.
  - lia.
  - destruct (lookup_lt_is_Some_2 lay (length lay - 1)) as [bl Hbl].
    { pose proof (ba_some Hb). destruct lay; [done|simpl; lia]. }
    pose proof (lookup_lt_Some _ _ _ Hbl). destruct (ba_files Hb _ _ Hbl) as (x & Hx & _). specialize (H2 _ _ Hx). lia.
Qed.

(** The summary is a function of the files alone. *)
Lemma same_construct lay junk m d d' :
  bare lay junk m d' → d_files d = d_files d' → constructBlockfilesInfo sha256 d = ok (summary lay (length (concat lay))).
Proof.
  intros Hb Hd. assert (laid lay junk d) as HL by (unfold laid; rewrite Hd; apply (ba_files Hb)).
  unfold constructBlockfilesInfo. replace (retrieveLastFileSuffix d) with (Z.of_nat (length lay) - 1)
    by (rewrite <- (bare_last_suffix _ _ _ _ Hb); unfold retrieveLastFileSuffix; by rewrite Hd).
  pose proof (ba_some Hb) as Hne.
  destruct (Z.eqb_spec (Z.of_nat (length lay) - 1) (-1)) as [E|_]; [destruct lay; [done|simpl in E; lia]|].
  pose proof (lastFile_lookup lay Hne) as Hl. pose proof (chain_small _ _ _ lay (ba_chain Hb)) as Hsm.
  assert (Z.of_nat (length lay) - 1 = Z.of_nat (length lay - 1)) as El by (destruct lay; [done|simpl; lia]).
  destruct (HL _ _ Hl) as (x & Hx & Hbx). rewrite decide_True in Hbx by (destruct lay; [done|simpl; lia]).
  assert (lastFile lay ≠ []) as Hlf by (eapply (Forall_lookup_1 (λ bl, bl ≠ [])); [apply (ba_nonempty Hb)|exact Hl]).
  destruct (exists_last Hlf) as (front & b & Elf).
  rewrite El, (scan_frames _ d [] (lastFile lay) junk);
    [|by rewrite Hx|by eapply Forall_lookup_1|apply (ba_junk Hb)|by rewrite (fileBytesOf_lookup _ _ _ Hx)].
  cbn [ok try_bind]. destruct (Z.eqb_spec (Z.of_nat (length (lastFile lay))) 0) as [E0|_]; [destruct (lastFile lay); done|].
  cbn [andb]. rewrite Elf, last_snoc. cbn [fmap option_fmap option_map ok try_bind].
  assert (last (concat lay) = Some b) as Hlast.
  { destruct (concat_last lay Hne) as (pre & _ & ->). by rewrite Elf, (assoc_L (++)), last_snoc. }
  rewrite last_lookup in Hlast. pose proof (co_storable _ _ _ _ (ba_chain Hb)) as Hsto. destruct (co_linked _ _ _ _ (ba_chain Hb) _ _ Hlast) as [Hnum _].
  rewrite (proj1 (storable_read sha256 indexItems b (Forall_lookup_1 _ _ _ _ Hsto Hlast))). cbn [ok try_bind]. do 2 f_equal.
  pose proof (lookup_lt_Some _ _ _ Hlast). unfold BlockStore.summary. rewrite inLast_total, firstn_all, Elf, El.
  rewrite decide_False, bool_decide_eq_false_2, andb_false_r by lia. f_equal. rewrite Hnum. lia.
Qed.

Lemma bare_construct lay junk m d :
  bare lay junk m d → constructBlockfilesInfo sha256 d = ok (summary lay (length (concat lay))).
Proof. intros Hb. by eapply same_construct. Qed.

Lemma wp_open_bare lay junk m d :
  covers (concat lay) → bare lay junk m d → few d →
  wp w C (newBlockfileMgr sha256 indexItems) (open_post (concat lay)) d.
Proof.
  intros HC Hb Hfew. unfold newBlockfileMgr, CreateDirIfMissing.
  assert (C d) as HCd. { apply HC; [apply Hb|]. right. right. by exists lay, junk, m. }
  apply wp_bind, wp_must, wp_atomic; [|by intros ->|done].
  apply wp_bind, wp_must, wp_reads. unfold loadBlkfilesInfo, db_Get. pose proof (ba_info Hb) as Hi. unfold view in Hi. rewrite Hi.
  apply wp_bind, wp_bind, wp_reads. rewrite (bare_construct _ _ _ _ Hb). apply wp_must. eapply wp_outcome; [done|]. cbn [ok].
  apply (wp_open_from lay junk m); [done|by apply bare_summary|done|done].
Qed.

(** Opening a new store. *)
Lemma fresh_created d :
  fresh bsi db0 d → view d !! blkMgrInfoKey = Some (info_marshal (summary [[]] 0)) → stored [[]] [] 0 0 (createFile 0 d).
Proof.
  intros [] Hi. unfold createFile. rewrite fr_files, lookup_empty. split; try done; try (simpl; lia).
  - destruct fr_quiet as [_ Hq]. split; [|done]. intros f x. unfold setFile. cbn [d_files]. rewrite fr_files.
    intros [[_ <-]|[_ Hx]]%lookup_insert_Some; [done|]. by rewrite lookup_empty in Hx.
  - by left.
  - apply Forall_singleton. right. simpl. lia.
  - intros [|i] bl Hbl; [|done]. injection Hbl as <-. exists (mkFile [] 0). split; [|by case_decide].
    unfold setFile. cbn [d_files]. apply lookup_insert_eq.
  - apply partial_empty.
  - intros f x. unfold setFile. cbn [d_files]. rewrite fr_files.
    intros [[<- <-]|[_ Hx]]%lookup_insert_Some; [left; simpl; lia|]. by rewrite lookup_empty in Hx.
Qed.

Lemma few_created d : d_files d = ∅ → few (createFile 0 d).
Proof.
  intros E. unfold few, createFile, setFile. rewrite E, lookup_empty. cbn [d_files].
  rewrite map_size_insert, lookup_empty, map_size_empty. lia.
Qed.

Lemma fresh_saved d :
  fresh bsi db0 d → fresh bsi db0 (writeDB {[ blkMgrInfoKey := Some (info_marshal (summary [[]] 0)) ]} true d).
Proof.
  intros []. split; try done.
  - by apply write_quiet.
  - right. by rewrite view_write, applyBatch_lookup, lookup_singleton_eq.
  - intros k Hk. rewrite view_write, applyBatch_lookup, lookup_singleton_ne by done. auto.
Qed.

Lemma wp_open_fresh d :
  covers [] → fresh bsi db0 d → wp w C (newBlockfileMgr sha256 indexItems) (open_post []) d.
Proof.
  intros HC Hf. assert (∀ d, fresh bsi db0 d → C d) as HCf by (intros d0 H0; apply HC; [apply H0|by left]).
  unfold newBlockfileMgr, CreateDirIfMissing. apply wp_bind, wp_must, wp_atomic; [|intros ->; split; [done|auto]|auto].
  apply wp_bind, wp_must, wp_reads.
  pose proof (fresh_saved d Hf) as Hf'. set (d' := writeDB _ true d) in Hf'.
  assert (view d' !! blkMgrInfoKey = Some (info_marshal (summary [[]] 0))) as Hi
    by (by unfold d'; rewrite view_write, applyBatch_lookup, lookup_singleton_eq).
  pose proof (fresh_created d' Hf' Hi) as Hst.
  assert (loadBlkfilesInfo d = Ok None ∨ loadBlkfilesInfo d = Ok (Some (summary [[]] 0))) as Hload.
  { unfold loadBlkfilesInfo, db_Get. destruct (fr_info _ _ _ Hf) as [E|E]; unfold view in E; rewrite E; [by left|right].
    rewrite info_roundtrip; [done|]. change (summary [[]] 0) with (mkBlockfilesInfo 0 0 true 0).
    unfold info_bounded, is_u64. cbn [latestFileNumber latestFileSize lastPersistedBlock]. lia. }
  destruct Hload as [-> | ->].
  1: apply wp_bind, wp_bind, wp_reads; unfold constructBlockfilesInfo, retrieveLastFileSuffix;
    rewrite (fr_files _ _ _ Hf), map_fold_empty; apply wp_must, wp_ret.
  2: apply wp_bind, wp_bind, wp_reads; unfold syncBlockfilesInfoFromFS;
    rewrite (fr_files _ _ _ Hf), lookup_empty; apply wp_ret.
  all: apply wp_bind, wp_must, wp_atomic; [|intros ->; split; [done|auto]|intros _; split; [auto|by apply (HCf d')]].
  all: apply wp_bind, wp_must, wp_atomic; [|intros ->; split; [done|by apply (HCf d')]|
    intros _; split; [by apply (HCf d')|by eapply (covers_stored [[]])]].
  all: apply (wp_openTruncate [[]] [] 0); [done|exact Hst|].
  all: apply few_created, Hf'.
Qed.

Lemma wp_open chain d :
  covers chain → holds chain d → few d → wp w C (newBlockfileMgr sha256 indexItems) (open_post chain) d.
Proof.
  intros HC [[-> Hf]|[(lay & junk & n & m & <- & Hst)|(lay & junk & m & <- & Hb)]] Hfew;
    [by apply wp_open_fresh|by eapply wp_open_stored|by eapply wp_open_bare].
Qed.
End runs.
End opening.
