(* ===== verification/BlockStoreAdd.v ===== *)
(** * Adding a block

    A block that is added is on the disk before the call returns; a crash or an error
    in the middle leaves a disk from which either the old chain or the new one is
    recovered. *)

From stdpp Require Import gmap strings list.
From Stdlib Require Import Strings.Byte.
From S2P Require Import Prelude Protos GoLib Blocks Varint BlockSerialization Disk LevelDB BlockIndex BlockStream BlockfileMgr BlockLayout BlockStore BlockStoreFacts BlockStoreReads BlockStoreOpen.

Section adding.
Context `{!Codec Envelope, !Codec Payload, !Codec ChannelHeader, !Codec SignatureHeader}.
Context `{!Codec TxIDIndexValue, !Codec BootstrappingSnapshotInfo}.
Context (sha256 : bytes → bytes) (indexItems : list IndexableAttr) (maxBlockfileSize : Z).
Context (bsi : option BootstrappingSnapshotInfo) (db0 : gmap bytes bytes).
Hypothesis Hsetup : setup_ok indexItems maxBlockfileSize bsi db0.

Abbreviation chain_ok := (chain_ok sha256 indexItems bsi).
Abbreviation stored := (stored sha256 indexItems maxBlockfileSize bsi db0).
Abbreviation holds := (holds sha256 indexItems maxBlockfileSize bsi db0).
Abbreviation recoverable := (recoverable sha256 indexItems maxBlockfileSize bsi db0).
Abbreviation openedOver := (openedOver sha256 indexItems maxBlockfileSize bsi db0).
Abbreviation summary := (summary bsi).
Abbreviation batchOf := (batchOf sha256 indexItems).
Abbreviation first := (firstNumber bsi).
Abbreviation bcInfoOf := (bcInfoOf sha256 bsi).
Abbreviation hashAfter := (hashAfter sha256 bsi).

(** ** The layout with one more block *)

Definition addLast (lay : list (list Block)) (b : Block) : list (list Block) :=
  take (length lay - 1) lay ++ [lastFile lay ++ [b]].

Lemma addLast_concat lay b : lay ≠ [] → concat (addLast lay b) = concat lay ++ [b].
Proof.
  intros Hne. destruct (concat_last lay Hne) as (front & Hl & ->). unfold addLast. rewrite concat_snoc.
  rewrite Hl at 1 2. rewrite length_app, Nat.add_sub, take_app_length. by rewrite (assoc_L (++)).
Qed.

Lemma addLast_length lay b : lay ≠ [] → length (addLast lay b) = length lay.
Proof. intros Hne. unfold addLast. rewrite length_app, length_take. destruct lay; [done|]. simpl. lia. Qed.

Lemma addLast_last lay b : lastFile (addLast lay b) = lastFile lay ++ [b].
Proof. unfold addLast, lastFile. by rewrite last_snoc. Qed.

Lemma addLast_lookup lay b i bl :
  lay ≠ [] → addLast lay b !! i = Some bl →
  S i ≠ length lay ∧ lay !! i = Some bl ∨ S i = length lay ∧ bl = lastFile lay ++ [b].
Proof.
  intros Hne. assert (1 <= length lay)%nat by (destruct lay; [done|simpl; lia]). unfold addLast.
  intros [Hi|[Hge Hi]]%lookup_app_Some.
  - apply lookup_take_Some in Hi as [Hi Hlt]. left. split; [lia|done].
  - right. rewrite length_take in Hge, Hi. apply list_lookup_singleton_Some in Hi as [Hi <-]. split; [lia|done].
Qed.

(** The place of the new block. *)
Definition newPlace (lay : list (list Block)) (b : Block) : placed :=
  mkPlaced (Z.of_nat (length lay) - 1) (blen (fileBytes (lastFile lay))) b.

Lemma addLast_place lay b : lay ≠ [] → place 0 (addLast lay b) = place 0 lay ++ [newPlace lay b].
Proof.
  intros Hne. destruct (concat_last lay Hne) as (front & Hl & _). unfold addLast, newPlace.
  assert (length lay = S (length front)) as Hlen by (rewrite Hl, length_app; simpl; lia).
  rewrite Hlen. replace (S (length front) - 1)%nat with (length front) by lia.
  rewrite Hl at 1 3. rewrite take_app_length, !place_app. cbn [place].
  rewrite !app_nil_r, placeFile_app, Z.add_0_l, (assoc_L (++)). cbn [placeFile]. do 4 f_equal. lia.
Qed.

(** The chain with one more block. *)
Lemma chain_snoc chain b :
  chain_ok chain → storable indexItems b → hdr_Number (blk_Header b) = first + Z.of_nat (length chain) →
  hdr_PreviousHash (blk_Header b) = hashAfter chain → chain_ok (chain ++ [b]).
Proof.
  intros [Hs Hl] Hb Hn Hp. split; [apply Forall_app; by split; [|apply Forall_singleton]|].
  intros i x [Hi|[Hge Hi]]%lookup_app_Some.
  - destruct (Hl i x Hi) as [H1 H2]. split; [done|]. apply lookup_lt_Some in Hi. by rewrite take_app_le by lia.
  - apply list_lookup_singleton_Some in Hi as [Hi <-]. assert (i = length chain) as -> by lia.
    split; [done|]. by rewrite take_app_length.
Qed.

(** What adding a block ends in. *)
Definition add_post (w : weather) (lay : list (list Block)) (b : Block) (r : blockfileMgr * res unit) (d : disk) : Prop :=
  match r.2 with
  | Ok _ => openedOver lay (concat lay ++ [b]) [] r.1 d
  | Err _ => w ≠ Calm ∧ recoverable (concat lay) (concat lay ++ [b]) d
  end.

Lemma grown_addLast lay b : lay ≠ [] → grown lay (addLast lay b).
Proof.
  intros Hne. destruct (concat_last lay Hne) as (front & Hl & _). exists front, (lastFile lay), [b], []. split; [done|].
  unfold addLast. rewrite Hl at 1 2. by rewrite length_app, Nat.add_sub, take_app_length.
Qed.

Lemma grown_moved lay lay' : lay ≠ [] → grown (lay ++ [[]]) lay' → grown lay lay'.
Proof.
  intros Hne (front & bl & more & rest & E & ->). apply app_inj_tail in E as [<- <-].
  destruct (concat_last lay Hne) as (front & Hl & _). exists front, (lastFile lay), [], (more :: rest). split; [done|].
  rewrite Hl at 1. by rewrite app_nil_r, <- (assoc_L (++)).
Qed.

(** ** The block on its way into the file *)

Section block.
Context (lay : list (list Block)) (b : Block) (d0 : disk).
Abbreviation chain := (concat lay).
Abbreviation total := (length (concat lay)).
Abbreviation f := (Z.of_nat (length lay) - 1).
Hypothesis Hst : stored lay [] total total d0.
Hypothesis Hb : storable indexItems b.
Hypothesis Hnum : hdr_Number (blk_Header b) = first + Z.of_nat total.
Hypothesis Hprev : hdr_PreviousHash (blk_Header b) = hashAfter chain.
Hypothesis Hsize : blen (fileBytes (lastFile lay)) + blen (frame b) <= maxBlockfileSize ∨ lastFile lay = [].
Hypothesis Hfirst : chain = [] → bsi = None.

(** The file with [k] bytes of the block, of which [s] are on the disk. *)
Definition withBytes (k s : nat) : disk :=
  setFile f (mkFile (fileBytes (lastFile lay) ++ take k (frame b)) s) d0.

Lemma withBytes_files k s i bl :
  lay !! i = Some bl → S i ≠ length lay → d_files (withBytes k s) !! Z.of_nat i = d_files d0 !! Z.of_nat i.
Proof.
  intros Hi Hne. unfold withBytes, setFile. cbn [d_files]. apply lookup_insert_ne.
  apply lookup_lt_Some in Hi. lia.
Qed.

Lemma withBytes_last k s :
  d_files (withBytes k s) !! f = Some (mkFile (fileBytes (lastFile lay) ++ take k (frame b)) s).
Proof. unfold withBytes, setFile. cbn [d_files]. apply lookup_insert_eq. Qed.

Lemma lay_pos : (1 <= length lay)%nat.
Proof. pose proof (lay_nonempty Hst). destruct lay; [done|simpl; lia]. Qed.

Lemma withBytes_quiet k :
  quiet (withBytes k (length (fileBytes (lastFile lay) ++ take k (frame b)))).
Proof.
  destruct (st_quiet Hst) as [Hf Hd]. split; [|done]. intros g x. unfold withBytes, setFile. cbn [d_files].
  intros [[<- <-]|[_ Hx]]%lookup_insert_Some; [done|by eapply Hf].
Qed.

(** A part of the block is what a crash leaves. *)
Lemma stored_partial k :
  (k < length (frame b))%nat →
  stored lay (take k (frame b)) total total (withBytes k (length (fileBytes (lastFile lay) ++ take k (frame b)))).
Proof.
  intros Hk. pose proof Hst as []. pose proof lay_pos. split; try done.
  - apply withBytes_quiet.
  - intros i bl Hi. destruct (decide (S i = length lay)) as [E|E].
    + replace (Z.of_nat i) with f by lia. rewrite withBytes_last. eexists. split; [done|].
      pose proof (lastFile_lookup lay (lay_nonempty Hst)) as Hl. replace (length lay - 1)%nat with i in Hl by lia.
      cbn [f_bytes]. congruence.
    + rewrite (withBytes_files _ _ _ _ Hi E). destruct (st_files i bl Hi) as (x & Hx & Hbx). exists x. split; [done|].
      by rewrite decide_False in Hbx by done.
  - exists b, k. split; [apply Hb|done].
  - intros g x. unfold withBytes, setFile. cbn [d_files].
    intros [[<- <-]|[_ Hx]]%lookup_insert_Some; [left; lia|by apply st_others].
Qed.

(** The whole block is in the file, not yet in the summary or the index. *)
Lemma stored_whole :
  stored (addLast lay b) [] total total (withBytes (length (frame b)) (length (fileBytes (lastFile lay) ++ frame b))).
Proof.
  pose proof Hst as []. pose proof lay_pos as Hpos. pose proof (lay_nonempty Hst) as Hne.
  pose proof (withBytes_quiet (length (frame b))) as Hq. pose proof (withBytes_last (length (frame b)) (length (fileBytes (lastFile lay) ++ frame b))) as Hlast.
  rewrite firstn_all in Hq, Hlast. split; try done.
  - rewrite addLast_concat by done. by apply chain_snoc.
  - right. destruct st_shape as [->|(x & bl & lay' & ->)]; [by exists b, [], []|]. unfold addLast.
    destruct lay' as [|bl' lay']; [by exists x, (bl ++ [b]), []|]. cbn [length Nat.sub take app]. by eexists x, bl, _.
  - unfold addLast. apply Forall_app. split; [by apply Forall_take|]. apply Forall_singleton.
    destruct Hsize as [Hle | ->]; [left; by rewrite fileBytes_snoc, blen_app|right; simpl; lia].
  - intros i bl [[Hi Hbl]|[Hi ->]]%addLast_lookup; [| |done].
    + rewrite (withBytes_files _ _ _ _ Hbl Hi). destruct (st_files i bl Hbl) as (x & Hx & Hbx). exists x. split; [done|].
      rewrite addLast_length by done. by rewrite !decide_False in * by done.
    + replace (Z.of_nat i) with f by lia. rewrite Hlast. eexists. split; [done|]. cbn [f_bytes].
      rewrite fileBytes_snoc. case_decide; by rewrite app_nil_r.
  - intros g x. unfold withBytes, setFile. cbn [d_files]. rewrite addLast_length by done.
    intros [[<- <-]|[_ Hx]]%lookup_insert_Some; [left; lia|]. destruct (st_others g x Hx) as [|(? & ? & ?)]; [by left|].
    right. split; [done|]. split; [done|]. intros E. apply (f_equal (λ l, length (concat l))) in E.
    rewrite addLast_concat, length_app in E by done. simpl in E. lia.
  - rewrite addLast_concat, length_app by done. lia.
  - rewrite addLast_concat, addLast_last, !length_app by done. simpl. lia.
  - intros Hz _. apply Hfirst. by apply nil_length_inv.
  - rewrite (st_info : view (withBytes _ _) !! _ = _). f_equal. f_equal. unfold BlockStore.summary.
    rewrite addLast_length by done. f_equal. f_equal. f_equal. 
    unfold inLast. rewrite addLast_concat, addLast_last, !length_app by done. cbn [length].
    destruct (concat_last lay Hne) as (front & _ & Hc). rewrite Hc, length_app.
    rewrite !take_ge by lia. rewrite take_app_le by lia. by rewrite take_ge by lia.
  - intros k Hk. rewrite (st_index k Hk : view (withBytes _ _) !! _ = _). f_equal. f_equal.
    rewrite addLast_place by done. by rewrite take_app_le by (by rewrite place_total).
Qed.
(** Whatever part of the block has reached the disk, one of the chains is there. *)
Lemma withBytes_recoverable k s :
  (length (fileBytes (lastFile lay)) <= s)%nat → recoverable chain (chain ++ [b]) (withBytes k s).
Proof.
  intros Hs d' [Hf Hboot Hpre [n Hdb]]. pose proof Hst as []. destruct st_quiet as [Hqf Hqd].
  assert (∃ j, (j <= length (frame b))%nat ∧
    d' = withBytes j (length (fileBytes (lastFile lay) ++ take j (frame b)))) as (j & Hj & ->).
  { pose proof (Hf f) as Hlast. rewrite withBytes_last in Hlast. inversion Hlast as [? x Hx E E'|]; subst.
    inversion Hx as [? n' Hn1 Hn2 E1 E2]; subst. cbn [f_bytes f_synced] in *. rewrite length_app in Hn2.
    exists ((n' - length (fileBytes (lastFile lay))) `min` k `min` length (frame b))%nat. split; [lia|].
    destruct d' as [files boot db pre]. cbn [d_files d_bootstrap d_db d_preReset] in *. unfold withBytes, setFile.
    f_equal; [|done| |done].
    - apply map_eq. intros g. destruct (decide (g = f)) as [->|Hg].
      + rewrite <- E', lookup_insert_eq. f_equal. rewrite take_app_ge by lia. rewrite take_take.
        assert (take ((n' - length (fileBytes (lastFile lay))) `min` k `min` length (frame b)) (frame b) =
          take ((n' - length (fileBytes (lastFile lay))) `min` k) (frame b)) as ->.
        { destruct (decide ((n' - length (fileBytes (lastFile lay))) `min` k <= length (frame b)))%nat.
          - by rewrite Nat.min_l by lia.
          - rewrite Nat.min_r by lia. rewrite firstn_all, take_ge by lia. done. }
        f_equal. rewrite length_app, length_take. rewrite length_take in Hn2. lia.
      + rewrite lookup_insert_ne by done. specialize (Hf g). unfold withBytes, setFile in Hf. cbn [d_files] in Hf.
        rewrite lookup_insert_ne in Hf by done. inversion Hf as [y y' Hy Ey Ey'|Ey Ey']; [|congruence].
        inversion Hy as [? m' Hm1 Hm2]; subst. rewrite (Hqf g y) in Hm1 by done.
        assert (m' = length (f_bytes y)) as -> by lia. rewrite firstn_all. f_equal. destruct y as [yb ys]. cbn [f_bytes] in *. f_equal. symmetry. by apply (Hqf g (mkFile yb ys)).
    - rewrite Hdb. change (d_db (withBytes k s)) with (d_db d0). rewrite Hqd, take_nil. cbn [foldl].
      destruct (d_db d0) as [du vo]. cbn [db_volatile db_durable] in *. by rewrite Hqd. }
  destruct (decide (j = length (frame b))) as [->|Hne].
  - right. rewrite firstn_all. rewrite <- addLast_concat by apply (lay_nonempty Hst).
    eapply stored_holds. exact stored_whole.
  - left. eapply stored_holds. apply stored_partial. lia.
Qed.
(** ** The run of [addBlock] *)

Context (w : weather).
Abbreviation C := (recoverable chain (chain ++ [b])).
Abbreviation written := (length (fileBytes (lastFile lay))).

Lemma withBytes_start : withBytes 0 written = d0.
Proof.
  destruct (last_file_on_disk Hst) as ([bs s] & Hx & Hbx). pose proof (quiet_files _ (st_quiet Hst) _ _ Hx) as Hs.
  cbn [f_bytes f_synced] in *. unfold withBytes, setFile. cbn [take]. subst bs s. rewrite insert_id; [by destruct d0|].
  by rewrite Hx, !app_nil_r.
Qed.

Lemma append_part k c n s :
  c = take (length c) (drop k (frame b)) → (k <= length (frame b))%nat →
  appendFile f (take n c) (withBytes k s) = withBytes (k + n `min` length c) s.
Proof.
  intros Hc Hk. unfold appendFile. rewrite withBytes_last. cbn [f_bytes f_synced]. unfold withBytes, setFile.
  cbn [d_files d_bootstrap d_db]. rewrite insert_insert_eq. do 3 f_equal. rewrite <- (assoc_L (++)). f_equal.
  rewrite Hc at 1. rewrite take_take. by rewrite take_take_drop.
Qed.

Lemma append_all k c s :
  c = take (length c) (drop k (frame b)) → (k <= length (frame b))%nat →
  appendFile f c (withBytes k s) = withBytes (k + length c) s.
Proof. intros Hc Hk. rewrite <- (firstn_all c) at 1. rewrite append_part by done. by rewrite Nat.min_id. Qed.

Lemma sync_bytes k s : syncFile f (withBytes k s) = withBytes k (length (fileBytes (lastFile lay) ++ take k (frame b))).
Proof.
  unfold syncFile. rewrite withBytes_last. unfold withBytes, setFile. cbn [d_files d_bootstrap d_db f_bytes].
  by rewrite insert_insert_eq.
Qed.

Lemma truncate_bytes k s :
  (written <= s)%nat → truncateTo f written (withBytes k s) = withBytes 0 written.
Proof.
  intros Hs. unfold truncateTo. rewrite withBytes_last. unfold withBytes, setFile. cbn [d_files d_bootstrap d_db f_bytes f_synced].
  rewrite insert_insert_eq, take_app_length, Nat.min_r by lia. cbn [take]. by rewrite app_nil_r.
Qed.

Lemma wp_undoAppend k s mgr e msg :
  (written <= s)%nat → mgr_currentFileWriter mgr = f → latestFileSize (mgr_blockfilesInfo mgr) = Z.of_nat written → w = Any →
  wp w C (undoAppend mgr e msg) (add_post w lay b) (withBytes k s).
Proof.
  intros Hs Hf Hi Hw. unfold undoAppend. rewrite Hf, Hi.
  pose proof (withBytes_recoverable k s Hs) as HC. pose proof (withBytes_recoverable 0 written ltac:(lia)) as HC0.
  assert (w ≠ Calm) as Hwc by (by rewrite Hw).
  apply wp_bind, wp_must, wp_truncateFile.
  - intros _. apply wp_ret. by split.
  - intros _. rewrite Nat2Z.id, truncate_bytes by done. split_and!; [by apply wp_ret|intros _; by apply wp_ret|done].
  - intros _ _. by split.
  - done.
Qed.

Abbreviation lenBytes := (EncodeVarint (blen (bytesOf b))).

Lemma lenBytes_frame : lenBytes = take (length lenBytes) (drop 0 (frame b)).
Proof. unfold frame. rewrite drop_0. by rewrite take_app_length. Qed.

Lemma bytesOf_frame : bytesOf b = take (length (bytesOf b)) (drop (length lenBytes) (frame b)).
Proof. unfold frame. rewrite drop_app_length. by rewrite firstn_all. Qed.

Lemma frame_parts : (length lenBytes + length (bytesOf b))%nat = length (frame b).
Proof. unfold frame. by rewrite length_app. Qed.

Definition append_post (r : res unit) (d : disk) : Prop :=
  match r with
  | Ok _ => d = withBytes (length (frame b)) (length (fileBytes (lastFile lay) ++ frame b))
  | Err _ => w = Any ∧ ∃ k s, (written <= s)%nat ∧ d = withBytes k s
  end.

Lemma wp_append :
  wp w C (io_try (writer_append f lenBytes false) (λ _, writer_append f (bytesOf b) true)) append_post d0.
Proof.
  rewrite <- withBytes_start. pose proof frame_parts as Hfp.
  apply wp_try, wp_try, wp_attempt.
  - apply wp_ret. rewrite append_all by (try apply lenBytes_frame; lia). cbn [Nat.add].
    apply wp_try, wp_attempt.
    + rewrite append_all by (try apply bytesOf_frame; lia). rewrite Hfp. apply wp_atomic.
      * rewrite sync_bytes, firstn_all. done.
      * intros Hw. split; [done|]. exists (length (frame b)), written. by split.
      * intros _. rewrite sync_bytes. split; apply withBytes_recoverable; [lia|]. rewrite length_app. lia.
    + intros Hw n. rewrite append_part by (try apply bytesOf_frame; lia). split; [done|]. eexists _, written. by split.
    + intros Hw n. rewrite append_part by (try apply bytesOf_frame; lia). by apply withBytes_recoverable.
  - intros Hw n. rewrite append_part by (try apply lenBytes_frame; lia). split; [done|]. eexists _, written. by split.
  - intros Hw n. rewrite append_part by (try apply lenBytes_frame; lia). by apply withBytes_recoverable.
Qed.
(** ** Recording the block *)

Abbreviation lay' := (addLast lay b).
Abbreviation dw := (withBytes (length (frame b)) (length (fileBytes (lastFile lay) ++ frame b))).
Abbreviation newInfo := (info_marshal (summary lay' (S total))).
Abbreviation ds := (writeDB {[ blkMgrInfoKey := Some newInfo ]} false dw).

Lemma addLast_total : length (concat lay') = S total.
Proof. rewrite addLast_concat by apply (lay_nonempty Hst). rewrite length_app. simpl. lia. Qed.

Lemma new_summary :
  mkBlockfilesInfo (latestFileNumber (summary lay total)) (latestFileSize (summary lay total) + blen (frame b)) false
    (hdr_Number (blk_Header b)) = summary lay' (S total).
Proof.
  unfold BlockStore.summary. cbn [latestFileNumber latestFileSize]. rewrite addLast_length by apply (lay_nonempty Hst).
  assert (inLast lay' (S total) = length (lastFile lay')) as E by (rewrite <- addLast_total; apply inLast_total).
  rewrite E, inLast_total, !firstn_all, addLast_last, fileBytes_snoc, blen_app.
  rewrite bool_decide_eq_false_2, decide_False by done. f_equal. rewrite Hnum. lia.
Qed.

(** The summary has been written but is not known to be on the disk. *)
Lemma saved_recoverable : C ds.
Proof.
  intros d' [Hf Hboot Hpre [n Hdb]]. right. rewrite <- addLast_concat by apply (lay_nonempty Hst).
  pose proof stored_whole as Hw. pose proof (st_quiet Hw) as [Hqf Hqd].
  assert (d_files d' = d_files dw) as Efiles.
  { assert (d_files d' = d_files (mkDisk (d_files d') (d_bootstrap dw) (d_db dw) (d_preReset dw))) as -> by done.
    rewrite (quiet_power_loss dw (mkDisk (d_files d') (d_bootstrap dw) (d_db dw) (d_preReset dw)) (st_quiet Hw)); [done|].
    split; [exact Hf|done|done|]. exists 0%nat. cbn [d_db take foldl]. destruct (d_db dw) as [du vo] eqn:E.
    cbn [db_volatile db_durable] in *. by rewrite Hqd. }
  assert (db_volatile (d_db ds) = [{[ blkMgrInfoKey := Some newInfo ]}]) as Evol.
  { cbn [writeDB d_db db_write db_volatile]. by rewrite Hqd. }
  rewrite Evol in Hdb. 
  destruct n as [|n].
  - assert (view d' = view dw) as Ev by (unfold view; rewrite Hdb; unfold db_view; by rewrite Hqd).
    eapply stored_holds, (stored_db _ _ _ _ _ _ [] total total total total dw d' Hw Efiles Hboot).
    + split; [rewrite Efiles; exact Hqf|by rewrite Hdb].
    + rewrite Ev. apply Hw.
    + intros k Hk. rewrite Ev. by apply Hw.
    + done.
    + done.
    + rewrite addLast_total. lia.
  - assert (view d' = applyBatch (view dw) {[ blkMgrInfoKey := Some newInfo ]}) as Ev.
    { unfold view. rewrite Hdb. unfold db_view. rewrite Hqd. cbn [take]. by rewrite take_nil. }
    eapply stored_holds, (stored_db _ _ _ _ _ _ [] total total (S total) total dw d' Hw Efiles Hboot).
    + split; [rewrite Efiles; exact Hqf|by rewrite Hdb].
    + by rewrite Ev, applyBatch_lookup, lookup_singleton_eq.
    + intros k Hk. rewrite Ev, applyBatch_lookup, lookup_singleton_ne by done. by apply Hw.
    + lia.
    + lia.
    + by rewrite addLast_total.
Qed.

(** The index has been written: the block is recorded. *)
Lemma recorded : stored lay' [] (S total) (S total) (writeDB (batchOf (newPlace lay b)) true ds).
Proof.
  pose proof stored_whole as Hw. pose proof (lay_nonempty Hst) as Hne.
  assert (storable indexItems (pl_block (newPlace lay b))) as Hp by exact Hb.
  eapply (stored_db _ _ _ _ _ _ [] total total (S total) (S total) dw); try done; try lia.
  - split; [|done]. intros g x. apply (st_quiet Hw).
  - rewrite !view_write, !applyBatch_lookup, batchOf_info by done. by rewrite lookup_singleton_eq.
  - intros k Hk. rewrite !view_write, !applyBatch_lookup, lookup_singleton_ne by done.
    rewrite addLast_place by done. rewrite take_ge by (rewrite length_app, place_total; simpl; lia).
    rewrite indexOf_snoc, applyBatch_lookup. destruct (batchOf (newPlace lay b) !! k); [done|].
    rewrite (st_index Hw k Hk), addLast_place by done. rewrite take_app_le by (by rewrite place_total).
    by rewrite take_ge by (by rewrite place_total).
  - by rewrite addLast_total.
Qed.

Lemma wp_recordBlock :
  wp w C (recordBlock indexItems b (BlockHeaderHash sha256 (blk_Header b)) (sbi_txOffsets (infoOf sha256 b))
    (blen (fileBytes (lastFile lay))) (blen lenBytes) (blen (bytesOf b) + blen lenBytes) (mgrOf sha256 bsi lay)) (add_post w lay b) dw.
Proof.
  unfold recordBlock. cbn [BlockStore.mgrOf mgr_blockfilesInfo].
  rewrite (Z.add_comm (blen (bytesOf b))), <- frame_length, new_summary.
  pose proof saved_recoverable as HCs. pose proof stored_whole as Hw. pose proof recorded as Hr.
  assert (C dw) as HCw by (apply withBytes_recoverable; rewrite length_app; lia).
  assert (C (writeDB (batchOf (newPlace lay b)) true ds)) as HCr.
  { intros d' Hd. right. rewrite <- addLast_concat by apply (lay_nonempty Hst).
    rewrite (quiet_power_loss _ _ (st_quiet Hr) Hd). by eapply stored_holds. }
  apply wp_bind, wp_atomic; [| |done].
  2: { intros Hwa. apply wp_undoAppend; [rewrite length_app; lia|done| |done].
       cbn [BlockStore.mgrOf mgr_blockfilesInfo BlockStore.summary latestFileSize]. by rewrite inLast_total, firstn_all. }
  apply wp_bind.
  replace (mkBlockIdxInfo _ _ _ _ _) with (idxInfoOf sha256 (newPlace lay b)).
  2: { unfold idxInfoOf, placedIdxInfo, placement, newPlace. cbn [pl_block pl_file pl_offset pi_fileNum pi_blockStartOffset pi_blockBytesOffset].
       rewrite Z.add_simpl_l. cbn [BlockStore.summary latestFileNumber]. rewrite addLast_length by apply (lay_nonempty Hst). done. }
  apply (wp_indexBlock _ _ _ _ _ Hsetup); [exact Hb| | |done].
  - apply wp_ret. unfold add_post. cbn [fst snd]. exists lay'. split; [by apply grown_addLast, (lay_nonempty Hst)|].
    rewrite addLast_concat by apply (lay_nonempty Hst). split; [done|]. split; [rewrite length_app; cbn [length]; by rewrite Nat.add_1_r|].
    unfold BlockStore.mgrOf. rewrite addLast_length, addLast_concat by apply (lay_nonempty Hst). rewrite length_app. cbn [length].
    rewrite Nat.add_1_r. f_equal. unfold BlockStore.bcInfoOf. cbn [mgr_bcInfo Height].
    unfold BlockStore.hashAfter. rewrite last_snoc, length_app. f_equal.
    pose proof (sb_number Hb). cbn [length]. rewrite u64_small by (unfold is_u64; lia). lia.
  - intros Hwa e. apply wp_ret. split; [by rewrite Hwa|done].
Qed.
End block.

(** ** A new file *)

Lemma stored_created lay d :
  let d' := createFile (Z.of_nat (length lay)) d in
  stored lay [] (length (concat lay)) (length (concat lay)) d → concat lay ≠ [] →
  stored lay [] (length (concat lay)) (length (concat lay)) d' ∧
  ∃ x, d_files d' !! Z.of_nat (length lay) = Some x ∧ f_bytes x = [].
Proof.
  intros d' Hst Hne. assert (lay ≠ [[]]) as Hl by (by intros ->). unfold d', createFile.
  destruct (d_files d !! Z.of_nat (length lay)) as [x|] eqn:E.
  - split; [done|]. exists x. split; [done|]. destruct (st_others Hst _ _ E) as [|(_ & ? & _)]; [lia|done].
  - split; [|eexists; split; [apply lookup_insert_eq|done]]. pose proof Hst as []. split; try done.
    + destruct st_quiet as [Hq Hd]. split; [|done]. intros f x. unfold setFile. cbn [d_files].
      intros [[<- <-]|[_ Hx]]%lookup_insert_Some; [done|by eapply Hq].
    + intros i bl Hi. pose proof (lookup_lt_Some _ _ _ Hi). unfold setFile. cbn [d_files].
      rewrite lookup_insert_ne by lia. by apply st_files.
    + intros f x. unfold setFile. cbn [d_files]. intros [[<- <-]|[_ Hx]]%lookup_insert_Some; [by right|by apply st_others].
Qed.

Lemma concat_moved (lay : list (list Block)) : concat (lay ++ [[]]) = concat lay.
Proof. by rewrite concat_snoc, app_nil_r. Qed.

Lemma moved_summary lay :
  concat lay ≠ [] →
  mkBlockfilesInfo (latestFileNumber (summary lay (length (concat lay))) + 1) 0 false
    (lastPersistedBlock (summary lay (length (concat lay)))) = summary (lay ++ [[]]) (length (concat lay)).
Proof.
  intros Hne. assert (length (concat lay) ≠ 0%nat) by (by intros ?%nil_length_inv).
  unfold BlockStore.summary, lastFile. cbn [latestFileNumber lastPersistedBlock].
  rewrite last_snoc, length_app, bool_decide_eq_false_2, decide_False by done. cbn [default from_option id length].
  rewrite take_nil. f_equal. lia.
Qed.

Lemma stored_moved lay d x :
  stored lay [] (length (concat lay)) (length (concat lay)) d → concat lay ≠ [] →
  d_files d !! Z.of_nat (length lay) = Some x → f_bytes x = [] →
  stored (lay ++ [[]]) [] (length (concat lay)) (length (concat lay))
    (writeDB {[ blkMgrInfoKey := Some (info_marshal (summary (lay ++ [[]]) (length (concat lay)))) ]} true d).
Proof.
  intros Hst Hne Hx Hbx. pose proof Hst as []. pose proof (lay_nonempty Hst). split; rewrite ?concat_moved; try done.
  - by apply write_quiet.
  - right. destruct st_shape as [->|(b & bl & lay' & ->)]; [done|]. by exists b, bl, (lay' ++ [[]]).
  - apply Forall_app. split; [done|]. apply Forall_singleton. right. simpl. lia.
  - intros i bl [Hi|[Hge Hi]]%lookup_app_Some.
    + pose proof (lookup_lt_Some _ _ _ Hi). destruct (st_files i bl Hi) as (y & Hy & Hby). exists y. split; [done|].
      rewrite length_app. rewrite decide_False by (simpl; lia). by destruct (decide _).
    + apply list_lookup_singleton_Some in Hi as [Hi <-]. replace i with (length lay) by lia. exists x. split; [done|].
      rewrite Hbx. by case_decide.
  - intros f y Hy. rewrite length_app. cbn [length]. destruct (st_others f y Hy) as [|(-> & _)]; left; lia.
  - unfold lastFile. rewrite last_snoc. cbn [default from_option id length]. lia.
  - by rewrite view_write, applyBatch_lookup, lookup_singleton_eq.
  - intros k Hk. rewrite view_write, applyBatch_lookup, lookup_singleton_ne, place_app by done. cbn [place placeFile].
    rewrite !app_nil_r. by apply st_index.
Qed.

(** ** The whole call *)

Definition fits (chain : list Block) (b : Block) : Prop :=
  chain = [] → bsi = None ∧ blen (frame b) <= maxBlockfileSize.

Section whole.
Context (w : weather) (b : Block).

Lemma wp_appendAndRecord lay d (Q := add_post w lay b) :
  stored lay [] (length (concat lay)) (length (concat lay)) d → storable indexItems b →
  hdr_Number (blk_Header b) = first + Z.of_nat (length (concat lay)) → hdr_PreviousHash (blk_Header b) = hashAfter (concat lay) →
  (blen (fileBytes (lastFile lay)) + blen (frame b) <= maxBlockfileSize ∨ lastFile lay = []) → (concat lay = [] → bsi = None) →
  let mgr := mgrOf sha256 bsi lay in
  wp w (recoverable (concat lay) (concat lay ++ [b]))
    (appended ← io_try (writer_append (mgr_currentFileWriter mgr) (EncodeVarint (blen (bytesOf b))) false)
                  (λ _, writer_append (mgr_currentFileWriter mgr) (bytesOf b) true);
     match appended with
     | Err e => undoAppend mgr e "error appending block to file"
     | Ok _ => recordBlock indexItems b (BlockHeaderHash sha256 (blk_Header b)) (sbi_txOffsets (infoOf sha256 b))
                 (blen (fileBytes (lastFile lay))) (blen (EncodeVarint (blen (bytesOf b))))
                 (blen (bytesOf b) + blen (EncodeVarint (blen (bytesOf b)))) mgr
     end) Q d.
Proof.
  intros Hst Hb Hn Hp Hs Hf mgr. apply wp_bind. eapply wp_mono; [by eapply wp_append|].
  intros [[]|e] d' H.
  - cbn [append_post] in H. subst d'. by apply wp_recordBlock.
  - destruct H as [Hw (k & s & Hks & ->)]. apply wp_undoAppend; try done.
    cbn [mgr BlockStore.mgrOf mgr_blockfilesInfo BlockStore.summary latestFileSize]. by rewrite inLast_total, firstn_all.
Qed.

Lemma wp_addBlock lay d :
  stored lay [] (length (concat lay)) (length (concat lay)) d → storable indexItems b →
  hdr_Number (blk_Header b) = first + Z.of_nat (length (concat lay)) → hdr_PreviousHash (blk_Header b) = hashAfter (concat lay) →
  fits (concat lay) b →
  wp w (recoverable (concat lay) (concat lay ++ [b])) (addBlock sha256 indexItems maxBlockfileSize b (mgrOf sha256 bsi lay))
    (add_post w lay b) d.
Proof.
  intros Hst Hb Hn Hp Hfit. unfold addBlock.
  rewrite decide_False by (intros H; by apply H). rewrite decide_False by (intros H; by apply H).
  apply wp_bind. eapply wp_outcome; [by apply (storable_serialize sha256 indexItems)|].
  cbn [BlockStore.mgrOf mgr_blockfilesInfo BlockStore.summary latestFileSize]. rewrite inLast_total, firstn_all.
  assert (blen (bytesOf b) + blen (EncodeVarint (blen (bytesOf b))) = blen (frame b)) as E by (rewrite frame_length; lia).
  rewrite E. destruct (Z.gtb_spec (blen (fileBytes (lastFile lay)) + blen (frame b)) maxBlockfileSize) as [Hgt|Hle].
  - assert (concat lay ≠ []) as Hne.
    { intros E0. destruct (Hfit E0) as [_ Hle]. destruct (st_shape Hst) as [->|(x & bl & lay' & ->)]; [|done].
      change (blen (fileBytes (lastFile [[]]))) with 0 in Hgt. lia. }
    destruct (stored_created lay d Hst Hne) as [Hst1 (x & Hx & Hbx)]. set (d1 := createFile _ d) in *.
    pose proof (stored_moved lay d1 x Hst1 Hne Hx Hbx) as Hst2. set (d2 := writeDB _ true d1) in *.
    pose proof (stored_recoverable _ _ _ _ _ _ _ _ _ _ (concat lay ++ [b]) Hst) as HC.
    pose proof (stored_recoverable _ _ _ _ _ _ _ _ _ _ (concat lay ++ [b]) Hst1) as HC1.
    pose proof (stored_recoverable _ _ _ _ _ _ _ _ _ _ (concat lay ++ [b]) Hst2) as HC2. rewrite concat_moved in HC2.
    apply wp_bind, wp_bind. unfold moveToNextFile. cbn [BlockStore.mgrOf mgr_blockfilesInfo mgr_bootstrappingSnapshotInfo mgr_bcInfo].
    rewrite (moved_summary lay Hne). apply wp_bind, wp_must.
    replace (latestFileNumber (summary (lay ++ [[]]) (length (concat lay)))) with (Z.of_nat (length lay))
      by (cbn [BlockStore.summary latestFileNumber]; rewrite length_app; simpl; lia).
    apply wp_atomic; [|by intros ->|done]. apply wp_bind, wp_must, wp_atomic; [|by intros ->|done].
    apply wp_ret, wp_ret. rewrite <- E.
    pose proof (wp_appendAndRecord (lay ++ [[]]) d2) as H. rewrite concat_moved in H.
    unfold BlockStore.mgrOf in H. rewrite concat_moved in H.
    assert (lastFile (lay ++ [[]]) = []) as Hlf by (unfold lastFile; by rewrite last_snoc). rewrite Hlf in H.
    replace (Z.of_nat (length (lay ++ [[]])) - 1) with (Z.of_nat (length lay)) in H by (rewrite length_app; simpl; lia).
    eapply wp_mono; [apply H; try done; by right|]. intros [mgr' [u|e]] d'; unfold add_post; cbn [fst snd]; rewrite concat_moved; [|done].
    intros (lay' & Hg & Ho). exists lay'. split; [|done]. by apply grown_moved; [apply (lay_nonempty Hst)|].
  - apply wp_bind, wp_ret. rewrite <- E. apply (wp_appendAndRecord lay d); try done; [left; lia|]. intros E0. by apply Hfit.
Qed.
End whole.
End adding.
