(* ===== verification/BlockStoreProps.v ===== *)
(** * Durability of the block store

    Opening a store recovers its chain whatever a crash left; adding a block either
    makes it durable or leaves one of the two chains to be recovered; over a history of
    openings, additions, errors and power failures no acknowledged block is lost, unless
    one is added after an opening that could not truncate the last file. *)

From stdpp Require Import gmap strings list.
From S2P Require Import Prelude Protos GoLib Blocks BlockWriter BlockSerialization Disk BlockIndex BlockStream BlockfileMgr BlockLayout BlockStore BlockStoreReads BlockStoreOpen BlockStoreAdd.

(** The mildest weather that explains the faults of a run. *)
Definition weatherOf (fs : list fault) : weather :=
  match fs with
  | [] => Calm
  | _ => if forallb (λ f, match f with Fails _ => false | _ => true end) fs then Outages else Any
  end.

Lemma weatherOf_allowed fs : allowed (weatherOf fs) fs.
Proof.
  destruct fs as [|f fs]; [done|]. unfold weatherOf. destruct (forallb _ (f :: fs)) eqn:E; [|done].
  apply Is_true_true, forallb_True in E. eapply Forall_impl; [exact E|]. by intros [].
Qed.

Lemma weatherOf_Calm fs : weatherOf fs ≠ Calm → fs ≠ [].
Proof. by intros H ->. Qed.

Lemma weatherOf_errors fs : Forall not_error fs → weatherOf fs ≠ Any.
Proof.
  intros H. destruct fs as [|f fs]; [done|]. unfold weatherOf. destruct (forallb _ (f :: fs)) eqn:E; [done|].
  exfalso. apply not_true_iff_false in E. apply E. apply Is_true_true, forallb_True. eapply Forall_impl; [exact H|]. by intros [].
Qed.

Section props.
Context `{!Codec Envelope, !Codec Payload, !Codec ChannelHeader, !Codec SignatureHeader}.
Context `{!Codec TxIDIndexValue, !Codec BootstrappingSnapshotInfo}.
Context (sha256 : bytes → bytes) (indexItems : list IndexableAttr) (maxBlockfileSize : Z).
Context (bsi : option BootstrappingSnapshotInfo) (db0 : gmap bytes bytes).

Abbreviation holds := (holds sha256 indexItems maxBlockfileSize bsi db0).
Abbreviation recoverable := (recoverable sha256 indexItems maxBlockfileSize bsi db0).
Abbreviation opened := (opened sha256 indexItems maxBlockfileSize bsi db0).
Abbreviation openedOver := (openedOver sha256 indexItems maxBlockfileSize bsi db0).
Abbreviation stored := (stored sha256 indexItems maxBlockfileSize bsi db0).
Abbreviation open := (newBlockfileMgr sha256 indexItems).
Abbreviation add := (addBlock sha256 indexItems maxBlockfileSize).
Abbreviation setup_ok := (setup_ok indexItems maxBlockfileSize bsi db0).
Abbreviation fits := (fits maxBlockfileSize bsi).
Abbreviation hashAfter := (hashAfter sha256 bsi).

Lemma opened_recoverable chain chain' junk mgr d : opened chain junk mgr d → recoverable chain chain' d.
Proof. intros (lay & <- & Hst & _). by eapply stored_recoverable. Qed.

(** ** Opening *)

Lemma open_result chain d fs :
  setup_ok → holds chain d → few d →
  match open d fs with
  | (Returned (Ok mgr), d', _) => ∃ junk, opened chain junk mgr d' ∧ (Forall not_error fs → junk = [])
  | (_, d', _) => fs ≠ [] ∧ ∀ d'', power_loss d' d'' → holds chain d''
  end.
Proof.
  intros Hs Hh Hf. set (C := λ d', ∀ d'', power_loss d' d'' → holds chain d'').
  assert (wp (weatherOf fs) C open (open_post sha256 indexItems maxBlockfileSize bsi db0 (weatherOf fs) C chain) d) as H.
  { apply (wp_open _ _ _ _ _ Hs); [|done|done]. intros d' Hq Hd' d'' Hp. by rewrite (quiet_power_loss d' d'' Hq Hp). }
  specialize (H fs (weatherOf_allowed fs)). destruct (open d fs) as [[[[mgr|e]|p|] d'] fs'].
  - destruct H as [_ (junk & Ho & Hj)]. exists junk. split; [done|]. intros Hfs. by apply Hj, weatherOf_errors.
  - destruct H as [_ [Hw HC]]. split; [by apply weatherOf_Calm|done].
  - destruct H as [Hw HC]. split; [by apply weatherOf_Calm|done].
  - destruct H as [Hw HC]. split; [by apply weatherOf_Calm|done].
Qed.

Lemma open_calm chain d :
  setup_ok → holds chain d → few d → ∃ mgr d', open d [] = (Returned (Ok mgr), d', []) ∧ opened chain [] mgr d'.
Proof.
  intros Hs Hc Hfew. pose proof (open_result chain d [] Hs Hc Hfew) as H.
  destruct (open d []) as [[[[mgr|e]|p|] d'] fs'] eqn:E; try (by destruct H).
  destruct H as (junk & Ho & Hj). rewrite Hj in Ho by done.
  assert (fs' = []) as ->; [|by exists mgr, d'].
  assert (wp Calm (recoverable chain chain) open (λ _ _, True) d) as Hw.
  { eapply wp_mono; [apply (wp_open _ _ _ _ _ Hs Calm (recoverable chain chain) chain); [|done|done]|done].
    intros d1 Hq Hd1. by apply quiet_recoverable. }
  specialize (Hw [] eq_refl). rewrite E in Hw. by destruct Hw.
Qed.


(** ** Adding *)

Definition links (chain : list Block) (b : Block) : Prop :=
  hdr_Number (blk_Header b) = firstNumber bsi + Z.of_nat (length chain) ∧ hdr_PreviousHash (blk_Header b) = hashAfter chain.

Lemma add_refused chain junk mgr d b fs :
  opened chain junk mgr d → ¬ links chain b → ∃ e, add b mgr d fs = (Returned (mgr, Err e), d, fs).
Proof.
  intros (lay & <- & _ & ->) Hl. unfold addBlock. cbn [mgrOf mgr_bcInfo bcInfoOf Height bc_CurrentBlockHash].
  case_decide as Hn; [by eexists|]. case_decide as Hp; [by eexists|]. exfalso. apply Hl.
  by split.
Qed.

Lemma openedOver_opened lay chain junk mgr d : openedOver lay chain junk mgr d → opened chain junk mgr d.
Proof. intros (lay' & _ & H). by exists lay'. Qed.

Lemma add_over lay d b fs :
  setup_ok → stored lay [] (length (concat lay)) (length (concat lay)) d → storable indexItems b → fits (concat lay) b →
  match add b (mgrOf sha256 bsi lay) d fs with
  | (Returned (mgr', Ok _), d', _) => links (concat lay) b ∧ openedOver lay (concat lay ++ [b]) [] mgr' d'
  | (Returned (mgr', Err _), d', _) => ¬ links (concat lay) b ∧ mgr' = mgrOf sha256 bsi lay ∧ d' = d ∨
      fs ≠ [] ∧ recoverable (concat lay) (concat lay ++ [b]) d'
  | (_, d', _) => fs ≠ [] ∧ recoverable (concat lay) (concat lay ++ [b]) d'
  end.
Proof.
  intros Hs Hst Hb Hf. destruct (decide (links (concat lay) b)) as [[Hn Hp]|Hl].
  2: { destruct (add_refused (concat lay) [] (mgrOf sha256 bsi lay) d b fs) as [e ->]; [by exists lay|done|by left]. }
  pose proof (wp_addBlock _ _ _ _ _ Hs (weatherOf fs) b lay d Hst Hb Hn Hp Hf fs (weatherOf_allowed fs)) as H.
  destruct (add b (mgrOf sha256 bsi lay) d fs) as [[[[mgr' [u|e]]|p|] d'] fs'].
  - by destruct H as [_ H].
  - destruct H as [_ [Hw HC]]. right. split; [by apply weatherOf_Calm|done].
  - destruct H as [Hw HC]. split; [by apply weatherOf_Calm|done].
  - destruct H as [Hw HC]. split; [by apply weatherOf_Calm|done].
Qed.

Lemma add_result chain mgr d b fs :
  setup_ok → opened chain [] mgr d → storable indexItems b → fits chain b →
  match add b mgr d fs with
  | (Returned (mgr', Ok _), d', _) => links chain b ∧ opened (chain ++ [b]) [] mgr' d'
  | (Returned (mgr', Err _), d', _) => ¬ links chain b ∧ mgr' = mgr ∧ d' = d ∨ fs ≠ [] ∧ recoverable chain (chain ++ [b]) d'
  | (_, d', _) => fs ≠ [] ∧ recoverable chain (chain ++ [b]) d'
  end.
Proof.
  intros Hs (lay & <- & Hst & ->) Hb Hf. pose proof (add_over lay d b fs Hs Hst Hb Hf) as H.
  destruct (add b (mgrOf sha256 bsi lay) d fs) as [[[[mgr' [u|e]]|p|] d'] fs']; [|done..].
  destruct H as [Hl Ho]. split; [done|by eapply openedOver_opened].
Qed.

Lemma add_calm chain mgr d b :
  setup_ok → opened chain [] mgr d → storable indexItems b → fits chain b → links chain b →
  ∃ mgr' d' fs', add b mgr d [] = (Returned (mgr', Ok tt), d', fs') ∧ opened (chain ++ [b]) [] mgr' d'.
Proof.
  intros Hs Ho Hb Hf Hl. pose proof (add_result chain mgr d b [] Hs Ho Hb Hf) as H.
  destruct (add b mgr d []) as [[[[mgr' [[]|e]]|p|] d'] fs']; [|by destruct H as [[] | []]|by destruct H..].
  exists mgr', d', fs'. by destruct H.
Qed.


(** ** Histories *)

(** The last file ends where the store has it end. Opening a store sees to it by truncating
    the file, but goes on if that fails. *)
Definition trimmed (mgr : blockfileMgr) (d : disk) : Prop :=
  fileSize (latestFileNumber (mgr_blockfilesInfo mgr)) d = latestFileSize (mgr_blockfilesInfo mgr).

Lemma trimmed_iff chain junk mgr d : opened chain junk mgr d → trimmed mgr d ↔ junk = [].
Proof.
  intros (lay & <- & Hst & ->). unfold trimmed, mgrOf, fileSize. cbn [mgr_blockfilesInfo summary latestFileNumber latestFileSize].
  pose proof (lay_nonempty Hst) as Hne. destruct (last lay) as [bl|] eqn:El; [|by apply last_None in El].
  rewrite last_lookup in El. assert (length lay ≠ 0)%nat as Hl by (by intros E%nil_length_inv).
  destruct (st_files Hst _ _ El) as (x & Hx & Hb). replace (Z.of_nat (length lay) - 1) with (Z.of_nat (pred (length lay))) by lia.
  rewrite Hx, Hb, decide_True, inLast_total, firstn_all by lia. unfold lastFile. rewrite last_lookup, El. cbn [default from_option id].
  rewrite blen_app. split; [intros E; apply nil_length_inv; unfold blen in E; lia|intros ->; unfold blen; simpl; lia].
Qed.

(** The machine is down with a disk, or the store is open. *)
Inductive machine := Down (d : disk) | Up (mgr : blockfileMgr) (d : disk).

(** A step of a machine, with the blocks reported as added so far. The store is opened
    under any faults; blocks are added if its last file was truncated or did not need to be.
    An error of [addBlock] ends the process, as its callers panic on it. *)
Inductive history : machine → list Block → machine → list Block → Prop :=
  | step_open d acked fs mgr d' fs' :
    few d → open d fs = (Returned (Ok mgr), d', fs') →
    history (Down d) acked (Up mgr d') acked
  | step_open_fails d acked fs r d' fs' d'' :
    few d → open d fs = (r, d', fs') → (∀ mgr, r ≠ Returned (Ok mgr)) → power_loss d' d'' →
    history (Down d) acked (Down d'') acked
  | step_add mgr d acked b fs mgr' d' fs' :
    trimmed mgr d → storable indexItems b → (acked = [] → fits [] b) → add b mgr d fs = (Returned (mgr', Ok tt), d', fs') →
    history (Up mgr d) acked (Up mgr' d') (acked ++ [b])
  | step_add_fails mgr d acked b fs r d' fs' d'' :
    trimmed mgr d → storable indexItems b → (acked = [] → fits [] b) → add b mgr d fs = (r, d', fs') →
    (∀ mgr', r ≠ Returned (mgr', Ok tt)) → power_loss d' d'' →
    history (Up mgr d) acked (Down d'') acked
  | step_power mgr d acked d'' : power_loss d d'' → history (Up mgr d) acked (Down d'') acked.

Inductive histories : machine → list Block → machine → list Block → Prop :=
  | no_step s l : histories s l s l
  | one_more s l s' l' s'' l'' : histories s l s' l' → history s' l' s'' l'' → histories s l s'' l''.

(** What a machine holds: a chain with every acknowledged block in order. *)
Definition keeps (s : machine) (acked : list Block) : Prop :=
  ∃ chain, acked `sublist_of` chain ∧
    match s with Down d => holds chain d | Up mgr d => ∃ junk, opened chain junk mgr d end.

Lemma fits_chain chain acked b : acked `sublist_of` chain → (acked = [] → fits [] b) → fits chain b.
Proof. intros Hs Hf ->. apply sublist_nil_r in Hs. by apply Hf. Qed.

Lemma history_keeps s acked s' acked' : setup_ok → history s acked s' acked' → keeps s acked → keeps s' acked'.
Proof.
  intros Hs Hh (chain & Hsub & Hc). destruct Hh as [d l fs mgr d' fs' Hf E|d l fs r d' fs' d'' Hf E Hr Hp
    |mgr d l b fs mgr' d' fs' Ht Hb Hfit E|mgr d l b fs r d' fs' d'' Ht Hb Hfit E Hr Hp|mgr d l d'' Hp].
  - pose proof (open_result chain d fs Hs Hc Hf) as H. rewrite E in H. destruct H as (junk & Ho & _).
    exists chain. split; [done|]. by exists junk.
  - pose proof (open_result chain d fs Hs Hc Hf) as H. rewrite E in H. exists chain. split; [done|].
    destruct r as [[mgr|e]|p|]; [by destruct (Hr mgr)|..]; by apply H.
  - destruct Hc as [junk Hc]. rewrite (proj1 (trimmed_iff _ _ _ _ Hc) Ht) in Hc.
    pose proof (add_result chain mgr d b fs Hs Hc Hb (fits_chain _ _ _ Hsub Hfit)) as H. rewrite E in H.
    exists (chain ++ [b]). split; [by apply sublist_app|]. exists []. apply H.
  - destruct Hc as [junk Hc]. rewrite (proj1 (trimmed_iff _ _ _ _ Hc) Ht) in Hc.
    pose proof (add_result chain mgr d b fs Hs Hc Hb (fits_chain _ _ _ Hsub Hfit)) as H. rewrite E in H.
    assert (recoverable chain (chain ++ [b]) d') as HR.
    { destruct r as [[mgr' [[]|e]]|p|]; [by destruct (Hr mgr')| |by apply H|by apply H].
      destruct H as [(_ & _ & ->)|[_ H]]; [by eapply opened_recoverable|done]. }
    destruct (HR d'' Hp) as [H'|H']; [by exists chain|]. exists (chain ++ [b]). split; [|done].
    by apply sublist_inserts_r.
  - exists chain. split; [done|]. destruct Hc as [junk Hc]. by destruct (opened_recoverable chain chain junk mgr d Hc d'' Hp).
Qed.

End props.
