(* ===== verification/BlockStoreKeys.v ===== *)
(** * The entries of the index

    What the index of a chain holds under every kind of key, and how the keys of
    transactions are ordered. *)

From stdpp Require Import gmap strings list.
From Stdlib Require Import Strings.Byte.
From S2P Require Import Prelude Protos GoLib Blocks Varint BlockSerialization Disk LevelDB BlockIndex BlockStream BlockfileMgr BlockLayout BlockStore BlockStoreFacts.

(** ** Keys *)

Lemma OrderPreserving_prefix n m rn rm :
  is_u64 n → is_u64 m → EncodeOrderPreservingVarUint64 n ++ rn = EncodeOrderPreservingVarUint64 m ++ rm → n = m ∧ rn = rm.
Proof.
  intros Hn Hm E. pose proof (DecodeOrderPreserving_encode n rn Hn) as Dn. rewrite E, DecodeOrderPreserving_encode in Dn by done.
  injection Dn as -> _. split; [done|]. by apply app_inv_head in E.
Qed.

Lemma tranNumKey_inj n m i j :
  is_u64 n → is_u64 m → is_u64 i → is_u64 j →
  constructBlockNumTranNumKey n i = constructBlockNumTranNumKey m j → n = m ∧ i = j.
Proof.
  intros Hn Hm Hi Hj E. apply (f_equal tail) in E. cbn [constructBlockNumTranNumKey tail] in E.
  destruct (OrderPreserving_prefix n m _ _ Hn Hm E) as [-> E']. split; [done|]. by apply OrderPreserving_inj.
Qed.

Lemma txIDPrefix_split a b ra rb :
  id_ok a → id_ok b → txIDPrefix a ++ ra = txIDPrefix b ++ rb → a = b ∧ ra = rb.
Proof.
  intros Ha Hb E. apply (f_equal tail) in E. cbn [txIDPrefix app tail] in E. rewrite <- !(assoc_L (++)) in E.
  destruct (OrderPreserving_prefix _ _ _ _ Ha Hb E) as [El E'].
  assert (length (String.list_byte_of_string a) = length (String.list_byte_of_string b)) as Hl by (unfold blen in El; lia).
  destruct (app_inj_1 _ _ _ _ Hl E') as [Es Er]. split; [by apply list_byte_of_string_inj|done].
Qed.

Lemma txIDKey_inj a b n m i j :
  id_ok a → id_ok b → is_u64 n → is_u64 m → is_u64 i → is_u64 j →
  constructTxIDKey a n i = constructTxIDKey b m j → a = b ∧ n = m ∧ i = j.
Proof.
  intros Ha Hb Hn Hm Hi Hj E. destruct (txIDPrefix_split _ _ _ _ Ha Hb E) as [-> E1]. split; [done|].
  destruct (OrderPreserving_prefix n m _ _ Hn Hm E1) as [-> E2]. split; [done|]. by apply OrderPreserving_inj.
Qed.

(** The keys of one ID are ordered by block and position. *)
Lemma txIDKey_le a n m i j :
  is_u64 n → is_u64 m → is_u64 i → is_u64 j →
  bytes_le (constructTxIDKey a n i) (constructTxIDKey a m j) ↔ n < m ∨ n = m ∧ i <= j.
Proof.
  intros Hn Hm Hi Hj. unfold bytes_le, constructTxIDKey. rewrite bytesCompare_prefix, OrderPreserving_compare by done.
  pose proof (OrderPreserving_compare i j [] [] Hi Hj) as Hc. rewrite !app_nil_r in Hc. rewrite Hc.
  destruct (Z.compare_spec n m), (Z.compare_spec i j); cbn [bytesCompare]; split; intros; try done; lia.
Qed.

(** The range of an ID is exactly the keys that start with it. *)
Lemma txID_range a k :
  inRange (constructTxIDRangeScan a).1 (Some (constructTxIDRangeScan a).2) k →
  ∃ r, k = txIDPrefix a ++ r.
Proof.
  intros [H1 H2]. cbn [constructTxIDRangeScan fst snd] in H1, H2. rewrite <- (app_nil_r (txIDPrefix a)) in H1.
  destruct (between_prefix _ _ _ _ H1 H2) as (r & -> & _). by exists r.
Qed.

Lemma byte_of_Z_small x : 0 <= x < 256 → Z_of_byte (byte_of_Z x) = x.
Proof. intros H. rewrite Z_of_byte_of_Z. by apply Z.mod_small. Qed.

Lemma txIDKey_in_range a n i :
  is_u64 n → inRange (constructTxIDRangeScan a).1 (Some (constructTxIDRangeScan a).2) (constructTxIDKey a n i).
Proof.
  intros Hn. cbn [constructTxIDRangeScan fst snd]. unfold constructTxIDKey. split.
  - unfold bytes_le. rewrite <- (app_nil_r (txIDPrefix a)) at 1. rewrite bytesCompare_prefix.
    unfold EncodeOrderPreservingVarUint64. done.
  - unfold bytes_lt. rewrite bytesCompare_prefix. unfold EncodeOrderPreservingVarUint64. cbn [app bytesCompare].
    destruct (trimmed_number n Hn) as (_ & Hl & _). rewrite byte_of_Z_small by (unfold blen; lia).
    change (Z_of_byte xff) with 255. assert (blen (trimZeros (bigEndian 8 n)) < 255) as E%Z.compare_lt_iff by (unfold blen; lia).
    by rewrite E.
Qed.

(** The head of a scan is the least key. *)
Lemma scan_head (s : bytes) (e : option bytes) (m : gmap bytes bytes) k v :
  m !! k = Some v → inRange s e k → (∀ k' v', m !! k' = Some v' → inRange s e k' → bytes_le k k') →
  ∃ rest, scan s e m = (k, v) :: rest.
Proof.
  intros Hk Hr Hmin. assert ((k, v) ∈ scan s e m) as Hin by (by apply scan_elem).
  pose proof (scan_sorted s e m) as Hs. pose proof (scan_NoDup s e m) as Hnd.
  destruct (scan s e m) as [|[k0 v0] rest] eqn:E; [by apply not_elem_of_nil in Hin|].
  exists rest. f_equal. assert ((k0, v0) ∈ scan s e m) as H0 by (rewrite E; left).
  apply scan_elem in H0 as [H0 Hr0]. assert (k = k0) as ->; [|congruence].
  apply (anti_symm bytes_le); [by eapply Hmin|]. inversion Hs as [|? ? _ Hall]; subst.
  apply elem_of_cons in Hin as [[= -> ->]|Hin]; [done|]. rewrite Forall_forall in Hall. exact (Hall _ Hin).
Qed.

Lemma scan_least (s : bytes) (e : option bytes) (m : gmap bytes bytes) k v rest :
  scan s e m = (k, v) :: rest →
  m !! k = Some v ∧ inRange s e k ∧ ∀ k' v', m !! k' = Some v' → inRange s e k' → bytes_le k k'.
Proof.
  intros E. assert ((k, v) ∈ scan s e m) as Hin by (rewrite E; left). apply scan_elem in Hin as [Hk Hr].
  split; [done|]. split; [done|]. intros k' v' Hk' Hr'. assert ((k', v') ∈ scan s e m) as H' by (by apply scan_elem).
  pose proof (scan_sorted s e m) as Hs. rewrite E in Hs, H'. inversion Hs as [|? ? _ Hall]; subst.
  apply elem_of_cons in H' as [[= -> ->]|H']; [reflexivity|]. rewrite Forall_forall in Hall. exact (Hall _ H').
Qed.

Lemma scan_nil (s : bytes) (e : option bytes) (m : gmap bytes bytes) : (∀ k v, m !! k = Some v → ¬ inRange s e k) → scan s e m = [].
Proof.
  intros H. destruct (scan s e m) as [|[k v] rest] eqn:E; [done|]. exfalso.
  assert ((k, v) ∈ scan s e m) as Hin by (rewrite E; left). apply scan_elem in Hin as [Hk Hr]. by eapply H.
Qed.

Section keys.
Context `{!Codec Envelope, !Codec Payload, !Codec ChannelHeader, !Codec SignatureHeader}.
Context `{!Codec TxIDIndexValue, !Codec BootstrappingSnapshotInfo}.
Context (sha256 : bytes → bytes) (indexItems : list IndexableAttr).
Context (bsi : option BootstrappingSnapshotInfo) (db0 : gmap bytes bytes).

Abbreviation storable := (storable indexItems).
Abbreviation idxInfoOf := (idxInfoOf sha256).
Abbreviation batchOf := (batchOf sha256 indexItems).
Abbreviation indexOf := (indexOf sha256 indexItems db0).
Abbreviation first := (firstNumber bsi).

(** ** Transactions of a placed block *)

Definition txsOf (p : placed) : list bytes := default [] (blk_Data (pl_block p)).

Definition flagsOf (b : Block) : bytes := default [] (default [] (blk_Metadata b) !! BlockMetadataIndex_TRANSACTIONS_FILTER).

(** Where the [j]-th transaction is in the file. *)
Definition txLoc (p : placed) (j : nat) : fileLocPointer :=
  mkFileLocPointer (pl_file p) (mkLocPointer
    (pl_offset p + (dataStart (blk_Header (pl_block p)) (txsOf p) + blen (rawItems (take j (txsOf p)))
                    + blen (EncodeVarint (blen (bytesOf (pl_block p))))))
    (blen (EncodeRawBytes (default [] (txsOf p !! j))))).

Definition infosOf (p : placed) : list txindexInfo := idx_txOffsets (idxInfoOf p).

Lemma infosOf_lookup p j :
  infosOf p !! j = (λ tx, mkTxindexInfo (txIDOf sha256 tx)
    (mkLocPointer (lp_offset (flp_loc (txLoc p j)) - pl_offset p) (lp_bytesLength (flp_loc (txLoc p j))))) <$> (txsOf p !! j).
Proof.
  unfold infosOf, idxInfoOf, BlockStore.idxInfoOf, placedIdxInfo, placement, shiftOffsets, txLoc.
  cbn [idx_txOffsets pi_blockBytesOffset pi_blockStartOffset flp_loc lp_offset lp_bytesLength BlockStore.infoOf sbi_txOffsets].
  rewrite list_lookup_fmap. change (default [] (blk_Data (pl_block p))) with (txsOf p). destruct (txsOf p !! j) as [tx|] eqn:E.
  - rewrite (infosAt_lookup _ _ _ _ _ E). cbn [fmap option_fmap option_map ti_txID ti_loc lp_offset lp_bytesLength default from_option id].
    f_equal. f_equal. f_equal. lia.
  - apply lookup_ge_None in E. rewrite (proj2 (lookup_ge_None (infosAt _ _ _) j)); [done|]. by rewrite infosAt_length.
Qed.

Lemma infosOf_length p : length (infosOf p) = length (txsOf p).
Proof.
  unfold infosOf, BlockStore.idxInfoOf, placedIdxInfo, shiftOffsets. cbn [idx_txOffsets].
  rewrite length_fmap. cbn [BlockStore.infoOf sbi_txOffsets]. apply infosAt_length.
Qed.

Lemma newLoc p j ti :
  infosOf p !! j = Some ti →
  newFileLocationPointer (fileSuffixNum (locOf p)) (lp_offset (flp_loc (locOf p))) (ti_loc ti) = txLoc p j.
Proof.
  rewrite infosOf_lookup. intros (tx & Hj & ->)%fmap_Some. cbn [ti_loc]. unfold newFileLocationPointer, locOf.
  cbn [fileSuffixNum flp_loc lp_offset lp_bytesLength]. unfold txLoc at 3. f_equal. f_equal. unfold txLoc. cbn [flp_loc lp_offset]. lia.
Qed.
(** ** The batch under the keys of transactions *)

Lemma putTranNums_lookup flp num i infos batch n j :
  is_u64 num → is_u64 n → is_u64 (Z.of_nat j) → is_u64 (Z.of_nat (i + length infos)) →
  putTranNums flp num i infos batch !! constructBlockNumTranNumKey n (Z.of_nat j) =
    match infos !! (j - i)%nat with
    | Some ti => if decide (n = num ∧ (i <= j)%nat)
                 then Some (Some (flp_marshal (newFileLocationPointer (fileSuffixNum flp) (lp_offset (flp_loc flp)) (ti_loc ti))))
                 else batch !! constructBlockNumTranNumKey n (Z.of_nat j)
    | None => batch !! constructBlockNumTranNumKey n (Z.of_nat j)
    end.
Proof.
  intros Hnum Hn Hj. revert i batch. induction infos as [|t infos IH]; intros i batch Hi; [done|].
  cbn [putTranNums]. rewrite IH by (simpl in Hi; by replace (S i + length infos)%nat with (i + S (length infos))%nat by lia).
  assert (is_u64 (Z.of_nat i)) as Hui by (unfold is_u64 in *; simpl in Hi; lia).
  destruct (decide (n = num ∧ i = j)) as [[-> ->]|Hne].
  - rewrite Nat.sub_diag. cbn [lookup list_lookup]. rewrite (decide_True (P:=num = num ∧ (j <= j)%nat)) by done.
    replace (j - S j)%nat with 0%nat by lia. rewrite put_eq. destruct (infos !! 0%nat); [|done]. by rewrite decide_False by lia.
  - rewrite put_ne. 2: { intros E. apply tranNumKey_inj in E as [-> E]; [|done..]. apply Hne. split; [done|lia]. }
    destruct (decide (i < j)%nat) as [Hlt|Hge].
    + replace (j - i)%nat with (S (j - S i)) by lia. cbn [lookup list_lookup].
      destruct (infos !! (j - S i)%nat); [|done]. destruct (decide (n = num)); [by rewrite !decide_True by lia|by rewrite !decide_False by naive_solver].
    + replace (j - S i)%nat with 0%nat by lia. replace (j - i)%nat with 0%nat by lia. cbn [lookup list_lookup].
      rewrite (decide_False (P:=n = num ∧ (i <= j)%nat)) by (intros [-> ?]; apply Hne; split; [done|lia]).
      destruct infos as [|t' infos]; [done|]. cbn [lookup list_lookup]. by rewrite decide_False by lia.
Qed.

Lemma putTranNums_nokey flp num i infos batch n j :
  is_u64 num → is_u64 n → is_u64 j → is_u64 (Z.of_nat (i + length infos)) → n ≠ num →
  putTranNums flp num i infos batch !! constructBlockNumTranNumKey n j = batch !! constructBlockNumTranNumKey n j.
Proof.
  intros Hnum Hn Hj Hi Hne. rewrite <- (Z2Nat.id j) in Hj |- * by apply Hj. rewrite putTranNums_lookup by done.
  destruct (infos !! _); [|done]. by rewrite decide_False by naive_solver.
Qed.

(** A key that [putTxIDs] adds is that of a transaction. *)
Lemma putTxIDs_inv flp flags num i infos batch b k v :
  putTxIDs flp flags num i infos batch = Done b → b !! k = Some v →
  (∃ j ti fl, infos !! j = Some ti ∧ flags !! (i + j)%nat = Some fl ∧ k = constructTxIDKey (ti_txID ti) num (Z.of_nat (i + j)) ∧
     v = Some (marshal (mkTxIDIndexValue (flp_marshal flp)
       (flp_marshal (newFileLocationPointer (fileSuffixNum flp) (lp_offset (flp_loc flp)) (ti_loc ti))) (Z_of_byte fl)))) ∨
  batch !! k = Some v.
Proof.
  revert i batch. induction infos as [|t infos IH]; intros i batch; cbn [putTxIDs]; [intros [= <-]; by right|].
  intros (z & Hz & H)%bind_Done Hk. unfold Flag in Hz. apply bind_Done in Hz as (fl & Hfl & [= <-]).
  apply or_panic_Done in Hfl. destruct (IH _ _ H Hk) as [(j & ti & f & Hj & Hf & Hkk & Hv)|Hb].
  - left. exists (S j), ti, f. replace (i + S j)%nat with (S i + j)%nat by lia. done.
  - unfold batch_Put in Hb. apply lookup_insert_Some in Hb as [[<- <-]|[_ Hb]]; [|by right].
    left. exists 0%nat, t, fl. by rewrite Nat.add_0_r.
Qed.

(** Every transaction has its key, with the entry of one of those with the same key. *)
Lemma putTxIDs_has flp flags num i infos batch b :
  putTxIDs flp flags num i infos batch = Done b →
  ∀ j ti, infos !! j = Some ti → is_Some (b !! constructTxIDKey (ti_txID ti) num (Z.of_nat (i + j))).
Proof.
  revert i batch. induction infos as [|t infos IH]; intros i batch; cbn [putTxIDs]; [done|].
  intros (z & _ & H)%bind_Done j ti Hj. destruct j as [|j].
  - injection Hj as ->. rewrite Nat.add_0_r. clear IH.
    assert (∀ infos i batch k, putTxIDs flp flags num i infos batch = Done b → is_Some (batch !! k) → is_Some (b !! k)) as Hkeep.
    { clear. intros infos. induction infos as [|t infos IH]; intros i batch k; cbn [putTxIDs]; [by intros [= <-]|].
      intros (z & _ & H)%bind_Done Hk. eapply IH; [exact H|]. unfold batch_Put.
      destruct (decide (constructTxIDKey (ti_txID t) num (Z.of_nat i) = k)) as [<-|Hne];
        [rewrite lookup_insert_eq; by eexists|by rewrite lookup_insert_ne]. }
    eapply Hkeep; [exact H|]. rewrite put_eq. by eexists.
  - replace (i + S j)%nat with (S i + j)%nat by lia. by eapply IH.
Qed.
Definition hashOf (p : placed) : bytes := BlockHeaderHash sha256 (blk_Header (pl_block p)).

(** The entries of the block, before those of its transactions. *)
Definition entries0 (p : placed) : UpdateBatch :=
  let batch := if isAttributeIndexed indexItems IndexableAttrBlockHash
               then batch_Put (constructBlockHashKey (hashOf p)) (flp_marshal (locOf p)) ∅ else ∅ in
  if isAttributeIndexed indexItems IndexableAttrBlockNum
  then batch_Put (constructBlockNumKey (numberOf p)) (flp_marshal (locOf p)) batch else batch.

Lemma entries0_other p k : head k ≠ Some blockHashIdxKeyPrefix → head k ≠ Some blockNumIdxKeyPrefix → entries0 p !! k = None.
Proof.
  intros H1 H2. unfold entries0. destruct (isAttributeIndexed _ IndexableAttrBlockNum), (isAttributeIndexed _ IndexableAttrBlockHash);
    rewrite ?put_ne by (intros <-; done); apply lookup_empty.
Qed.

Lemma batchOf_form p :
  storable (pl_block p) →
  ∃ b1, (if isAttributeIndexed indexItems IndexableAttrTxID
         then putTxIDs (locOf p) (flagsOf (pl_block p)) (numberOf p) 0 (infosOf p) (entries0 p) = Done b1 else b1 = entries0 p) ∧
    batchOf p = batch_Put indexSavePointKey (encodeBlockNum (numberOf p))
      (if isAttributeIndexed indexItems IndexableAttrBlockNumTranNum
       then putTranNums (locOf p) (numberOf p) 0 (infosOf p) b1 else b1).
Proof.
  intros Hs. pose proof (batchOf_Done sha256 indexItems p Hs) as Hb. unfold indexBatch in Hb.
  apply bind_Done in Hb as (fl & Hfl & Hb). apply bind_Done in Hb as (b1 & Hb1 & Hb). injection Hb as Hb.
  assert (fl = flagsOf (pl_block p)) as ->.
  { apply or_panic_Done in Hfl. unfold flagsOf. cbn [BlockStore.idxInfoOf placedIdxInfo idx_metadata BlockStore.infoOf sbi_metadata] in Hfl.
    by rewrite Hfl. }
  exists b1. split; [|by rewrite <- Hb].
  destruct (isAttributeIndexed indexItems IndexableAttrTxID); [exact Hb1|]. by injection Hb1 as <-.
Qed.

Lemma number_u64 p : storable (pl_block p) → is_u64 (numberOf p).
Proof. intros H. pose proof (sb_number H). unfold numberOf, is_u64. lia. Qed.

Lemma txs_u64 p : storable (pl_block p) → is_u64 (Z.of_nat (length (txsOf p))).
Proof.
  intros H. pose proof (sb_small H) as Hs. unfold small, bytesOf, blockBytes in Hs. fold (txsOf p) in Hs.
  pose proof (rawItems_length (txsOf p)) as Hl. unfold is_u64. unfold blen in Hs. rewrite !length_app in Hs.
  change (default [] (blk_Data (pl_block p))) with (txsOf p) in Hs.
  assert (2 ^ 56 < 2 ^ 64) by (apply Z.pow_lt_mono_r; lia). lia.
Qed.

Lemma batchOf_tranNum p n j :
  storable (pl_block p) → is_u64 n → is_u64 (Z.of_nat j) →
  batchOf p !! constructBlockNumTranNumKey n (Z.of_nat j) =
    if decide (IndexableAttrBlockNumTranNum ∈ indexItems ∧ n = numberOf p)
    then (λ _, Some (flp_marshal (txLoc p j))) <$> (txsOf p !! j) else None.
Proof.
  intros Hs Hn Hj. destruct (batchOf_form p Hs) as (b1 & Hb1 & ->). rewrite put_ne by done.
  assert (b1 !! constructBlockNumTranNumKey n (Z.of_nat j) = None) as Hnone.
  { destruct (isAttributeIndexed indexItems IndexableAttrTxID).
    - rewrite (putTxIDs_other _ _ _ _ _ _ _ _ Hb1) by done. by apply entries0_other.
    - subst b1. by apply entries0_other. }
  unfold isAttributeIndexed. destruct (decide (IndexableAttrBlockNumTranNum ∈ indexItems)) as [Hin|Hin].
  2: { rewrite bool_decide_eq_false_2, decide_False by naive_solver. done. }
  rewrite bool_decide_eq_true_2 by done. rewrite putTranNums_lookup, Nat.sub_0_r, Hnone;
    [|by apply number_u64|done|done|rewrite infosOf_length; by apply txs_u64].
  destruct (infosOf p !! j) as [ti|] eqn:E.
  - pose proof E as E'. rewrite infosOf_lookup in E'. apply fmap_Some in E' as (tx & Htx & _). rewrite Htx, (newLoc p j ti E).
    destruct (decide (n = numberOf p)); [by rewrite !decide_True by (done || lia)|by rewrite !decide_False by naive_solver].
  - rewrite infosOf_lookup in E. apply fmap_None in E. rewrite E. by case_decide.
Qed.

Lemma batchOf_hash p h :
  storable (pl_block p) →
  batchOf p !! constructBlockHashKey h =
    if decide (IndexableAttrBlockHash ∈ indexItems ∧ h = hashOf p) then Some (Some (flp_marshal (locOf p))) else None.
Proof.
  intros Hs. rewrite batchOf_entries by done. unfold blockEntries. rewrite put_ne by done. unfold isAttributeIndexed.
  assert (∀ (c : bool) (b : UpdateBatch), (if c then batch_Put (constructBlockNumKey (numberOf p)) (flp_marshal (locOf p)) b else b)
    !! constructBlockHashKey h = b !! constructBlockHashKey h) as ->.
  { intros [] b; [by rewrite put_ne|done]. }
  destruct (decide (IndexableAttrBlockHash ∈ indexItems)) as [Hin|Hin].
  - rewrite bool_decide_eq_true_2 by done. destruct (decide (h = hashOf p)) as [->|Hne].
    + rewrite decide_True by done. apply put_eq.
    + rewrite decide_False by naive_solver. rewrite put_ne; [done|]. intros E. apply Hne. exact (eq_sym (f_equal tail E)).
  - rewrite bool_decide_eq_false_2, decide_False by naive_solver. done.
Qed.

Lemma batchOf_txID_inv p k v :
  storable (pl_block p) → head k = Some txIDIdxKeyPrefix → batchOf p !! k = Some v →
  ∃ j tx fl, txsOf p !! j = Some tx ∧ flagsOf (pl_block p) !! j = Some fl ∧
    k = constructTxIDKey (txIDOf sha256 tx) (numberOf p) (Z.of_nat j) ∧
    v = Some (marshal (mkTxIDIndexValue (flp_marshal (locOf p)) (flp_marshal (txLoc p j)) (Z_of_byte fl))).
Proof.
  intros Hs Hk Hv. destruct (batchOf_form p Hs) as (b1 & Hb1 & Hb). rewrite Hb in Hv. clear Hb.
  rewrite put_ne in Hv by (by intros <-).
  assert (b1 !! k = Some v) as Hv1.
  { destruct (isAttributeIndexed indexItems IndexableAttrBlockNumTranNum); [|done].
    rewrite putTranNums_other in Hv; [done|]. by rewrite Hk. }
  assert (entries0 p !! k = None) as H0 by (apply entries0_other; by rewrite Hk).
  destruct (isAttributeIndexed indexItems IndexableAttrTxID); [|subst; congruence].
  destruct (putTxIDs_inv _ _ _ _ _ _ _ _ _ Hb1 Hv1) as [(j & ti & fl & Hj & Hf & -> & ->)|]; [|congruence].
  pose proof Hj as Hj'. rewrite infosOf_lookup in Hj'. apply fmap_Some in Hj' as (tx & Htx & Hti).
  exists j, tx, fl. rewrite (newLoc p j ti Hj). rewrite Hti. done.
Qed.

Lemma batchOf_txID_has p j tx :
  storable (pl_block p) → IndexableAttrTxID ∈ indexItems → txsOf p !! j = Some tx →
  is_Some (batchOf p !! constructTxIDKey (txIDOf sha256 tx) (numberOf p) (Z.of_nat j)).
Proof.
  intros Hs Hin Htx. destruct (batchOf_form p Hs) as (b1 & Hb1 & ->). rewrite put_ne by done.
  unfold isAttributeIndexed in Hb1 at 1. rewrite bool_decide_eq_true_2 in Hb1 by done.
  assert (∃ ti, infosOf p !! j = Some ti ∧ ti_txID ti = txIDOf sha256 tx) as (ti & Hti & <-)
    by (rewrite infosOf_lookup, Htx; by eexists).
  destruct (isAttributeIndexed indexItems IndexableAttrBlockNumTranNum); [rewrite putTranNums_other by done|];
    exact (putTxIDs_has _ _ _ _ _ _ _ Hb1 j ti Hti).
Qed.

(** ** The index of a chain *)

Lemma indexOf_Some ps k v :
  indexOf ps !! k = Some v → db0 !! k = Some v ∨ ∃ i p, ps !! i = Some p ∧ batchOf p !! k = Some (Some v).
Proof.
  induction ps as [|p ps IH] using rev_ind; [by left|]. rewrite indexOf_snoc, applyBatch_lookup.
  destruct (batchOf p !! k) as [x|] eqn:E.
  - intros ->. right. exists (length ps), p. by rewrite lookup_app_r, Nat.sub_diag by lia.
  - intros [H|(i & q & Hi & Hq)]%IH; [by left|right]. exists i, q. split; [by apply lookup_app_l_Some|done].
Qed.

(** A key that belongs to one block number. *)
Lemma indexOf_key ps k n :
  numbered indexItems bsi ps → (∀ p, p ∈ ps → storable (pl_block p) → numberOf p ≠ n → batchOf p !! k = None) →
  indexOf ps !! k =
    match (if n <? first then None else ps !! Z.to_nat (n - first)) with
    | Some p => match batchOf p !! k with Some v => v | None => db0 !! k end
    | None => db0 !! k
    end.
Proof.
  intros Hn Hk. induction ps as [|q ps IH] using rev_ind; [by destruct (n <? first)|].
  rewrite indexOf_snoc, applyBatch_lookup. assert ((ps ++ [q]) !! length ps = Some q) as Hq by (by rewrite lookup_app_r, Nat.sub_diag by lia).
  destruct (Hn _ _ Hq) as [Hsq Hnq]. rewrite IH.
  2: { intros i p Hp. apply Hn. by apply lookup_app_l_Some. }
  2: { intros p Hp. apply Hk. set_solver. }
  assert (q ∈ ps ++ [q]) as Hin by set_solver.
  destruct (Z.ltb_spec n first) as [Hlt|Hge]; [by rewrite Hk by (done || lia)|].
  destruct (decide (n = numberOf q)) as [E|E].
  - replace (Z.to_nat (n - first)) with (length ps) by lia. rewrite Hq.
    by rewrite (proj2 (lookup_ge_None ps (length ps))) by lia.
  - rewrite (Hk q Hin Hsq) by done. destruct (decide (Z.to_nat (n - first) < length ps)%nat).
    + by rewrite lookup_app_l by done.
    + rewrite !(proj2 (lookup_ge_None _ _)); [done|rewrite length_app; simpl; lia|lia].
Qed.
End keys.
