(* ===== verification/BlockStoreQueries.v ===== *)
(** * Queries of an open block store

    The queries of an open store answer from its chain: blocks by number and by hash,
    transactions by position and by ID. *)

From stdpp Require Import gmap strings list.
From Stdlib Require Import Strings.Byte.
From S2P Require Import Prelude Protos GoLib Blocks Varint BlockSerialization Disk LevelDB BlockIndex BlockStream BlockfileMgr BlockLayout BlockStore BlockStoreFacts BlockStoreReads BlockStoreOpen BlockStoreKeys.

Lemma filter_map {A B} (f : A → B) (P : B → Prop) `{!∀ x, Decision (P x)} (l : list A) :
  filter P (f <$> l) = f <$> filter (λ x, P (f x)) l.
Proof.
  induction l as [|x l IH]; [done|]. rewrite fmap_cons, !filter_cons.
  by destruct (decide (P (f x))); cbn [fmap list_fmap]; rewrite IH.
Qed.

Section queries.
Context `{!Codec Envelope, !Codec Payload, !Codec ChannelHeader, !Codec SignatureHeader}.
Context `{!Codec TxIDIndexValue, !Codec BootstrappingSnapshotInfo}.
Context (sha256 : bytes → bytes) (indexItems : list IndexableAttr) (maxBlockfileSize : Z).
Context (bsi : option BootstrappingSnapshotInfo) (db0 : gmap bytes bytes).

Abbreviation stored := (stored sha256 indexItems maxBlockfileSize bsi db0).
Abbreviation opened := (opened sha256 indexItems maxBlockfileSize bsi db0).
Abbreviation setup_ok := (setup_ok indexItems maxBlockfileSize bsi db0).
Abbreviation indexOf := (indexOf sha256 indexItems db0).
Abbreviation batchOf := (batchOf sha256 indexItems).
Abbreviation first := (firstNumber bsi).
Abbreviation txIDOf := (txIDOf sha256).

(** The snapshot left nothing under the keys of blocks and positions. *)
Lemma db0_other k : setup_ok → head k ≠ Some txIDIdxKeyPrefix → k ≠ indexSavePointKey → db0 !! k = None.
Proof.
  intros Hs Ht Hk. destruct (db0 !! k) as [v|] eqn:E; [|done]. exfalso.
  destruct (so_db0 Hs k v E) as [(i & id & n & _ & -> & _)|]; done.
Qed.

Section on_disk.
Context (Hsetup : setup_ok).
Context (lay : list (list Block)) (junk : bytes) (d : disk).
Abbreviation total := (length (concat lay)).
Hypothesis Hst : stored lay junk total total d.
Hypothesis Hfew : few d.
Abbreviation ps := (place 0 lay).

Lemma view_index k : k ≠ blkMgrInfoKey → view d !! k = indexOf ps !! k.
Proof. intros Hk. rewrite (st_index Hst k Hk). by rewrite take_ge by (by rewrite place_total). Qed.

Lemma chain_place i : concat lay !! i = pl_block <$> ps !! i.
Proof. by rewrite <- (place_blocks 0 lay), list_lookup_fmap. Qed.

(** ** Blocks by number *)

Lemma loc_by_number n :
  is_u64 n →
  getBlockLocByBlockNum indexItems n (view d) =
    match (if n <? first then None else ps !! Z.to_nat (n - first)) with
    | Some p => Ok (locOf p)
    | None => Err ErrNotFoundInIndex
    end.
Proof.
  intros Hn. destruct (if n <? first then None else ps !! Z.to_nat (n - first)) as [p|] eqn:E.
  - destruct (Z.ltb_spec n first); [done|]. pose proof (stored_numbered Hst _ _ E) as [_ Hp].
    replace n with (numberOf p) by lia. eapply (find_block _ _ _ _ _ Hsetup _ _ _ _ _ Hst Hfew); [exact E|].
    apply lookup_lt_Some in E. by rewrite place_total in E.
  - unfold getBlockLocByBlockNum, isAttributeIndexed. rewrite bool_decide_eq_true_2 by apply (so_blockNum Hsetup). cbn [negb].
    rewrite view_index by done. rewrite (indexOf_key sha256 indexItems bsi db0 ps _ n (stored_numbered Hst)), E.
    + by rewrite db0_other.
    + intros p _ Hp Hne. rewrite batchOf_blockNum; [by rewrite decide_False by done|done|apply (so_blockNum Hsetup)|done].
Qed.
End on_disk.

(** The block with a number. *)
Definition blockAt (chain : list Block) (n : Z) : option Block :=
  if n <? first then None else chain !! Z.to_nat (n - first).

Lemma fetch_by_number lay junk d n :
  setup_ok → stored lay junk (length (concat lay)) (length (concat lay)) d → few d → is_u64 n →
  (loc ←? Done (getBlockLocByBlockNum indexItems n (view d)); fetchBlock sha256 loc d) =
    match blockAt (concat lay) n with Some b => ok b | None => Done (Err ErrNotFoundInIndex) end.
Proof.
  intros Hs Hst Hf Hn. rewrite (loc_by_number Hs lay junk d Hst Hf n Hn). unfold blockAt. rewrite chain_place.
  destruct (n <? first); [done|]. destruct (place 0 lay !! Z.to_nat (n - first)) as [p|] eqn:E; [|done].
  cbn [try_bind fmap option_fmap option_map]. by eapply (fetch_block _ _ _ _ _ _ _ _ _ _ Hst).
Qed.

(** Queries by number answer from the chain: the block with the number, the
    last block for the largest [uint64], an error for a number below the first block
    of a ledger started from a snapshot, and otherwise "not found". *)
Theorem query_by_number chain junk mgr d n :
  setup_ok → opened chain junk mgr d → few d → is_u64 n →
  retrieveBlockByNumber sha256 indexItems n mgr d =
    (if n =? 2 ^ 64 - 1 then
       match last chain with
       | Some b => ok b
       | None => Done (Err (if bool_decide (first = 0) then ErrNotFoundInIndex else cannotServe))
       end
     else if n <? first then Done (Err cannotServe)
     else match blockAt chain n with Some b => ok b | None => Done (Err ErrNotFoundInIndex) end).
Proof.
  intros Hs (lay & <- & Hst & ->) Hf Hn. unfold retrieveBlockByNumber.
  rewrite (firstPossible_first _ _ _ _ Hs) by done. cbn [mgrOf mgr_bcInfo bcInfoOf Height].
  pose proof (first_nonneg _ _ _ _ Hs) as H0. destruct (Z.eqb_spec n (2 ^ 64 - 1)) as [->|Hne].
  - destruct (last (concat lay)) as [b|] eqn:E.
    + rewrite last_lookup in E. pose proof (lookup_lt_Some _ _ _ E) as Hlt.
      pose proof (number_bound Hst (length (concat lay)) ltac:(lia) ltac:(lia)) as Hb.
      rewrite u64_small by (unfold is_u64; lia). destruct (Z.ltb_spec (first + Z.of_nat (length (concat lay)) - 1) first); [lia|].
      rewrite (fetch_by_number lay junk d) by (try done; unfold is_u64; lia). unfold blockAt.
      destruct (Z.ltb_spec (first + Z.of_nat (length (concat lay)) - 1) first); [lia|].
      replace (Z.to_nat _) with (Nat.pred (length (concat lay))) by lia. by rewrite E.
    + apply last_None in E. rewrite E. cbn [length]. rewrite Z.add_0_r. case_bool_decide as Ef.
      * rewrite Ef. change (u64 (0 - 1)) with (2 ^ 64 - 1). destruct (Z.ltb_spec (2 ^ 64 - 1) 0); [lia|].
        rewrite (fetch_by_number lay junk d) by done. unfold blockAt. rewrite E. by destruct (_ <? _).
      * assert (first < 2 ^ 64) as Hub.
        { unfold firstNumber. pose proof (so_bsi Hs) as Hb. destruct bsi as [i|]; [|lia]. destruct (Hb i eq_refl). lia. }
        rewrite u64_small by (unfold is_u64; lia). by destruct (Z.ltb_spec (first - 1) first); [|lia].
  - destruct (Z.ltb_spec n first) as [Hlt|Hge]; [done|]. by apply (fetch_by_number lay junk d).
Qed.
(** ** Blocks by hash *)

Definition hasHash (h : bytes) (b : Block) : Prop := BlockHeaderHash sha256 (blk_Header b) = h.

#[global] Instance hasHash_dec h b : Decision (hasHash h b).
Proof. unfold hasHash. apply _. Defined.

Lemma indexOf_hash qs h :
  setup_ok → IndexableAttrBlockHash ∈ indexItems → (∀ p, p ∈ qs → storable indexItems (pl_block p)) →
  indexOf qs !! constructBlockHashKey h = (λ p, flp_marshal (locOf p)) <$> last (filter (λ p, hasHash h (pl_block p)) qs).
Proof.
  intros Hs Hin. induction qs as [|q qs IH] using rev_ind; intros Hq; [by apply db0_other|].
  rewrite indexOf_snoc, applyBatch_lookup, filter_app, batchOf_hash by (apply Hq; set_solver).
  rewrite filter_cons, filter_nil. destruct (decide (h = hashOf sha256 q)) as [->|Hne].
  - rewrite decide_True by done. rewrite decide_True by done. by rewrite last_snoc.
  - rewrite decide_False by naive_solver. rewrite decide_False by (intros E; by apply Hne).
    rewrite app_nil_r. apply IH. set_solver.
Qed.

(** ** Transactions *)

Section transactions.
Context (Hsetup : setup_ok).
Context (lay : list (list Block)) (junk : bytes) (d : disk).
Hypothesis Hst : stored lay junk (length (concat lay)) (length (concat lay)) d.
Hypothesis Hfew : few d.
Abbreviation ps := (place 0 lay).

(** The file around a transaction. *)
Lemma file_split i p j tx :
  ps !! i = Some p → txsOf p !! j = Some tx →
  ∃ f x pre post, pl_file p = Z.of_nat f ∧ d_files d !! pl_file p = Some x ∧ f_bytes x = pre ++ EncodeRawBytes tx ++ post ∧
    lp_offset (flp_loc (txLoc p j)) = blen pre ∧ lp_bytesLength (flp_loc (txLoc p j)) = blen (EncodeRawBytes tx) ∧
    (f < length lay)%nat ∧ blen (pre ++ EncodeRawBytes tx) < 2 ^ 63.
Proof.
  intros Hi Hj. destruct (place_split lay i p Hi) as (f & bl1 & bl2 & Hf & Hpf & Hpo).
  destruct (st_files Hst f _ Hf) as (x & Hx & Hb).
  destruct (blockBytes_split (blk_Header (pl_block p)) (txsOf p) (default [] (blk_Metadata (pl_block p))) j tx Hj) as (pre & post & Hbb & Hpre).
  change (blockBytes _ _ _) with (bytesOf (pl_block p)) in Hbb.
  pose proof (file_bound _ _ _ _ _ Hsetup _ _ _ _ _ Hst f _ Hf) as Hbound.
  exists f, x, (fileBytes bl1 ++ EncodeVarint (blen (bytesOf (pl_block p))) ++ pre),
    (post ++ fileBytes bl2 ++ if decide (S f = length lay) then junk else []).
  split; [done|]. split; [by rewrite Hpf|]. split; [|split; [|split; [|split]]].
  - rewrite Hb, fileBytes_app, fileBytes_cons. unfold frame. rewrite Hbb at 2. by rewrite <- !(assoc_L (++)).
  - unfold txLoc. cbn [flp_loc lp_offset]. rewrite !blen_app, Hpo, <- Hpre. lia.
  - unfold txLoc. cbn [flp_loc lp_bytesLength]. by rewrite Hj.
  - by eapply lookup_lt_Some.
  - rewrite fileBytes_app, fileBytes_cons in Hbound. unfold frame in Hbound. rewrite Hbb in Hbound at 2.
    rewrite !blen_app in *. unfold blen in *. lia.
Qed.

Lemma txLoc_bounded i p j tx : ps !! i = Some p → txsOf p !! j = Some tx → flp_bounded (txLoc p j).
Proof.
  intros Hi Hj. destruct (file_split i p j tx Hi Hj) as (f & x & pre & post & Hf & _ & _ & Ho & Hl & Hlt & Hb).
  pose proof (few_files Hst Hfew). unfold flp_bounded. rewrite Ho, Hl. change (fileSuffixNum (txLoc p j)) with (pl_file p).
  rewrite Hf. rewrite blen_app in Hb. unfold blen in *. lia.
Qed.

Lemma fetch_tx i p j tx :
  ps !! i = Some p → txsOf p !! j = Some tx → fetchTransactionEnvelope (txLoc p j) d = GetEnvelopeFromBlock tx.
Proof.
  intros Hi Hj. destruct (file_split i p j tx Hi Hj) as (f & x & pre & post & Hf & Hx & Hb & Ho & Hl & _ & Hbound).
  unfold fetchTransactionEnvelope, readRaw. change (fileSuffixNum (txLoc p j)) with (pl_file p). rewrite Hx, Ho, Hl, Hb.
  destruct (Z.ltb_spec (blen pre) 0); [unfold blen in *; lia|]. cbn [orb].
  destruct (Z.ltb_spec (blen (pre ++ EncodeRawBytes tx ++ post)) (blen pre + blen (EncodeRawBytes tx))) as [Hlt|_].
  { rewrite !blen_app in Hlt. unfold blen in Hlt. lia. }
  rewrite !blen_nat, drop_app_length, take_app_length. cbn [mbind res_bind]. f_equal.
  unfold EncodeRawBytes at 1, DecodeVarint. unfold EncodeRawBytes.
  rewrite ConsumeVarint_encode; [apply drop_app_length|]. unfold EncodeRawBytes in Hbound. rewrite !blen_app in Hbound.
  unfold is_u64. split; [unfold blen; lia|]. unfold blen in *. lia.
Qed.

(** The entry of a position. *)
Lemma loc_by_position n j :
  IndexableAttrBlockNumTranNum ∈ indexItems → is_u64 n → is_u64 (Z.of_nat j) →
  getTXLocByBlockNumTranNum indexItems n (Z.of_nat j) (view d) =
    match (if n <? first then None else ps !! Z.to_nat (n - first)) with
    | Some p => match txsOf p !! j with Some _ => Ok (txLoc p j) | None => Err ErrNotFoundInIndex end
    | None => Err ErrNotFoundInIndex
    end.
Proof.
  intros Hin Hn Hj. unfold getTXLocByBlockNumTranNum, isAttributeIndexed. rewrite bool_decide_eq_true_2 by done. cbn [negb].
  rewrite (view_index lay junk d Hst) by done.
  rewrite (indexOf_key sha256 indexItems bsi db0 ps _ n (stored_numbered Hst)).
  2: { intros p _ Hp Hne. rewrite batchOf_tranNum by done. by rewrite decide_False by naive_solver. }
  rewrite (db0_other _ Hsetup) by done. destruct (Z.ltb_spec n first) as [|Hge]; [done|].
  destruct (ps !! Z.to_nat (n - first)) as [p|] eqn:E; [|done]. destruct (stored_numbered Hst _ _ E) as [Hs Hp].
  rewrite batchOf_tranNum by done. rewrite decide_True by (split; [done|lia]).
  destruct (txsOf p !! j) as [tx|] eqn:Ej; [|done]. cbn [fmap option_fmap option_map].
  rewrite flp_roundtrip; [done|]. by eapply txLoc_bounded.
Qed.
End transactions.

Definition dataOf (b : Block) : list bytes := default [] (blk_Data b).

(** Queries by hash and by position answer from the chain. By hash: the last
    block whose header has the hash. By block number and position: the envelope of
    that transaction. *)
Theorem query_by_hash_and_position chain junk mgr d h n (j : nat) :
  setup_ok → opened chain junk mgr d → few d →
  IndexableAttrBlockHash ∈ indexItems → IndexableAttrBlockNumTranNum ∈ indexItems → is_u64 n → is_u64 (Z.of_nat j) →
  retrieveBlockByHash sha256 indexItems h d =
    match last (filter (hasHash h) chain) with Some b => ok b | None => Done (Err ErrNotFoundInIndex) end ∧
  retrieveTransactionByBlockNumTranNum indexItems n (Z.of_nat j) mgr d =
    (if n <? first then Err cannotServe else
     match blockAt chain n ≫= λ b, dataOf b !! j with
     | Some tx => GetEnvelopeFromBlock tx
     | None => Err ErrNotFoundInIndex
     end).
Proof.
  intros Hs (lay & <- & Hst & ->) Hf Hh Hp Hn Hj. split.
  - unfold retrieveBlockByHash, getBlockLocByHash, isAttributeIndexed. rewrite bool_decide_eq_true_2 by done. cbn [negb].
    rewrite (view_index lay junk d Hst) by done. rewrite indexOf_hash; [|done|done|].
    2: { intros p (i & Hi)%list_elem_of_lookup. apply (stored_numbered Hst _ _ Hi). }
    rewrite <- (place_blocks 0 lay), filter_map, fmap_last.
    destruct (last (filter _ (place 0 lay))) as [p|] eqn:E; cbn [fmap option_fmap option_map]; [|done].
    apply last_Some_elem_of, list_elem_of_filter in E as [_ (i & Hi)%list_elem_of_lookup].
    rewrite flp_roundtrip by (by eapply (locOf_bounded _ _ _ _ _ Hs _ _ _ _ _ Hst)). cbn [fst try_bind].
    by eapply (fetch_block _ _ _ _ _ _ _ _ _ _ Hst).
  - unfold retrieveTransactionByBlockNumTranNum. rewrite (firstPossible_first _ _ _ _ Hs) by done.
    destruct (n <? first) eqn:Hlt; [done|].
    rewrite (loc_by_position Hs lay junk d Hst Hf n j Hp Hn Hj). unfold blockAt. rewrite Hlt, chain_place.
    destruct (place 0 lay !! Z.to_nat (n - first)) as [p|] eqn:E; [|done]. cbn [fmap option_fmap option_map mbind option_bind].
    change (dataOf (pl_block p)) with (txsOf p). destruct (txsOf p !! j) as [tx|] eqn:Ej; [|done].
    cbn [mbind res_bind]. by eapply (fetch_tx Hs lay junk d Hst).
Qed.
End queries.
