(* ===== verification/BlockStoreTxIDs.v ===== *)
(** * Queries by transaction ID

    An ID may occur more than once in a chain, and its transaction may be older than
    the snapshot the ledger was started from. The index answers for the first
    occurrence. *)

From stdpp Require Import gmap strings list.
From Stdlib Require Import Strings.Byte.
From S2P Require Import Prelude Protos GoLib Blocks Varint BlockSerialization Disk LevelDB BlockIndex BlockStream BlockfileMgr BlockLayout BlockStore BlockStoreFacts BlockStoreReads BlockStoreOpen BlockStoreKeys BlockStoreQueries.

Lemma flp_marshal_nonempty p : flp_marshal p ≠ [].
Proof. unfold flp_marshal, EncodeVarint. intros E. apply app_eq_nil in E as [E _]. rewrite varintBytes_S in E. by destruct (_ <? 128). Qed.

Section txids.
Context `{!Codec Envelope, !Codec Payload, !Codec ChannelHeader, !Codec SignatureHeader}.
Context `{!Codec TxIDIndexValue, !Codec BootstrappingSnapshotInfo}.
Context (sha256 : bytes → bytes) (indexItems : list IndexableAttr) (maxBlockfileSize : Z).
Context (bsi : option BootstrappingSnapshotInfo) (db0 : gmap bytes bytes).

Abbreviation stored := (stored sha256 indexItems maxBlockfileSize bsi db0).
Abbreviation opened := (opened sha256 indexItems maxBlockfileSize bsi db0).
Abbreviation setup_ok := (setup_ok indexItems maxBlockfileSize bsi db0).
Abbreviation indexOf := (indexOf sha256 indexItems db0).
Abbreviation batchOf := (batchOf sha256 indexItems).
Abbreviation first := (firstNumber bsi).
Abbreviation txIDOf := (txIDOf sha256).

(** ** First occurrences *)

(** The block and the position of the first transaction with the ID. *)
Fixpoint findTx (txID : string) (chain : list Block) : option (Block * nat) :=
  match chain with
  | [] => None
  | b :: chain =>
    match list_find (λ tx, txIDOf tx = txID) (dataOf b) with
    | Some (j, _) => Some (b, j)
    | None => findTx txID chain
    end
  end.

Lemma findTx_Some txID chain b j :
  findTx txID chain = Some (b, j) →
  ∃ i tx, chain !! i = Some b ∧ dataOf b !! j = Some tx ∧ txIDOf tx = txID ∧
    ∀ i' b' j' tx', chain !! i' = Some b' → dataOf b' !! j' = Some tx' → txIDOf tx' = txID →
      (i < i')%nat ∨ i = i' ∧ (j <= j')%nat.
Proof.
  induction chain as [|b0 chain IH]; [done|]. cbn [findTx].
  destruct (list_find _ (dataOf b0)) as [[j0 tx0]|] eqn:E.
  - intros [= -> ->]. apply list_find_Some in E as (Hj & Htx & Hmin). exists 0%nat, tx0. split_and!; [done..|].
    intros [|i'] b' j' tx' Hi' Hj' Htx'; [|left; lia]. injection Hi' as ->. right. split; [done|].
    destruct (decide (j <= j')%nat); [done|]. exfalso. eapply (Hmin j' tx'); [done|lia|done].
  - intros (i & tx & Hi & Hj & Htx & Hmin)%IH. exists (S i), tx. split_and!; [done..|].
    intros [|i'] b' j' tx' Hi' Hj' Htx'.
    + exfalso. injection Hi' as ->. apply list_find_None in E. rewrite Forall_lookup in E. exact (E _ _ Hj' Htx').
    + destruct (Hmin i' b' j' tx' Hi' Hj' Htx') as [|[-> ?]]; [left; lia|right; split; [done|lia]].
Qed.

Lemma findTx_None txID chain i b j tx :
  findTx txID chain = None → chain !! i = Some b → dataOf b !! j = Some tx → txIDOf tx ≠ txID.
Proof.
  revert i. induction chain as [|b0 chain IH]; [done|]. intros i. cbn [findTx].
  destruct (list_find _ (dataOf b0)) as [[j0 tx0]|] eqn:E; [done|]. intros Hn Hi Hj.
  destruct i as [|i]; [|by eapply IH]. injection Hi as ->.
  apply list_find_None in E. rewrite Forall_lookup in E. exact (E _ _ Hj).
Qed.

(** The transaction was in the ledger when the snapshot was taken. *)
Definition inSnapshot (txID : string) : Prop :=
  ∃ i n, bsi = Some i ∧ is_u64 n ∧ is_Some (db0 !! constructTxIDKey txID (bsi_LastBlockNum i) n).

Section on_disk.
Context (Hsetup : setup_ok) (Htxid : IndexableAttrTxID ∈ indexItems).
Context (lay : list (list Block)) (junk : bytes) (d : disk).
Abbreviation total := (length (concat lay)).
Hypothesis Hst : stored lay junk total total d.
Hypothesis Hfew : few d.
Hypothesis Hids : ∀ b tx, b ∈ concat lay → tx ∈ dataOf b → id_ok (txIDOf tx).
Context (txID : string) (Hid : id_ok txID).
Abbreviation ps := (place 0 lay).
Abbreviation range := (inRange (constructTxIDRangeScan txID).1 (Some (constructTxIDRangeScan txID).2)).

(** ** The keys in the range of an ID *)

Lemma placed_in_chain i p : ps !! i = Some p → concat lay !! i = Some (pl_block p).
Proof. intros Hi. by rewrite chain_place, Hi. Qed.

Lemma tx_bounds i p j tx :
  ps !! i = Some p → txsOf p !! j = Some tx →
  storable indexItems (pl_block p) ∧ is_u64 (numberOf p) ∧ is_u64 (Z.of_nat j) ∧ id_ok (txIDOf tx).
Proof.
  intros Hi Hj. destruct (stored_numbered Hst _ _ Hi) as [Hs _]. pose proof (txs_u64 _ _ Hs) as Hl.
  pose proof (lookup_lt_Some _ _ _ Hj). split; [done|]. split; [by eapply number_u64|]. split; [unfold is_u64 in *; lia|].
  apply (Hids (pl_block p)); [|by eapply list_elem_of_lookup_2]. eapply list_elem_of_lookup_2. by apply placed_in_chain.
Qed.

Lemma range_key k v :
  view d !! k = Some v → range k →
  (∃ i n, bsi = Some i ∧ k = constructTxIDKey txID (bsi_LastBlockNum i) n ∧ is_u64 n ∧ v = [] ∧ is_Some (db0 !! k)) ∨
  (∃ i p j tx fl, ps !! i = Some p ∧ txsOf p !! j = Some tx ∧ txIDOf tx = txID ∧ flagsOf (pl_block p) !! j = Some fl ∧
     k = constructTxIDKey txID (numberOf p) (Z.of_nat j) ∧
     v = marshal (mkTxIDIndexValue (flp_marshal (locOf p)) (flp_marshal (txLoc p j)) (Z_of_byte fl))).
Proof.
  intros Hv Hr. destruct (txID_range _ _ Hr) as (r & Hk). assert (head k = Some txIDIdxKeyPrefix) as Hh by (by rewrite Hk).
  assert (k ≠ blkMgrInfoKey) as Hne by (by intros ->).
  rewrite (view_index _ _ _ _ _ lay junk d Hst) in Hv by done. apply indexOf_Some in Hv as [H0|(i & p & Hi & Hb)].
  - left. destruct (so_db0 Hsetup k v H0) as [(i & id & n & Hi & -> & Hok & Hn & ->)| ->]; [|done].
    destruct (txIDPrefix_split _ _ _ _ Hok Hid Hk) as [-> _]. by exists i, n.
  - right. destruct (stored_numbered Hst _ _ Hi) as [Hs _].
    destruct (batchOf_txID_inv _ _ p k (Some v) Hs Hh Hb) as (j & tx & fl & Hj & Hf & Hke & [= ->]).
    destruct (tx_bounds i p j tx Hi Hj) as (_ & _ & _ & Hok). rewrite Hke in Hk. destruct (txIDPrefix_split _ _ _ _ Hok Hid Hk) as [<- _]. by exists i, p, j, tx, fl.
Qed.

(** Other blocks do not touch the keys of a block. *)
Lemma foreign_key n j :
  is_u64 n → is_u64 j → ∀ q, q ∈ ps → storable indexItems (pl_block q) → numberOf q ≠ n → batchOf q !! constructTxIDKey txID n j = None.
Proof.
  intros Hn Hj q (i & Hq)%list_elem_of_lookup Hsq Hne. destruct (batchOf q !! _) as [v|] eqn:E; [|done]. exfalso.
  destruct (batchOf_txID_inv _ _ q (constructTxIDKey txID n j) v Hsq eq_refl E) as (j' & tx & fl & Hj' & _ & Hke & _).
  destruct (tx_bounds i q j' tx Hq Hj') as (_ & ? & ? & ?). by apply txIDKey_inj in Hke as (_ & ? & _).
Qed.

Lemma index_has i p j tx :
  ps !! i = Some p → txsOf p !! j = Some tx → txIDOf tx = txID →
  ∃ fl, flagsOf (pl_block p) !! j = Some fl ∧
    view d !! constructTxIDKey txID (numberOf p) (Z.of_nat j) =
      Some (marshal (mkTxIDIndexValue (flp_marshal (locOf p)) (flp_marshal (txLoc p j)) (Z_of_byte fl))).
Proof.
  intros Hi Hj Htx. destruct (tx_bounds i p j tx Hi Hj) as (Hs & Hn & Hu & _). destruct (stored_numbered Hst _ _ Hi) as [_ Hnum].
  destruct (batchOf_txID_has sha256 indexItems p j tx Hs Htxid Hj) as [v Hb]. rewrite Htx in Hb.
  destruct (batchOf_txID_inv _ _ p (constructTxIDKey txID (numberOf p) (Z.of_nat j)) v Hs eq_refl Hb) as (j' & tx' & fl & Hj' & Hf & Hke & ->).
  assert (j' = j) as ->.
  { destruct (tx_bounds i p j' tx' Hi Hj') as (_ & ? & ? & ?). apply txIDKey_inj in Hke as (_ & _ & ?); [lia|done..]. }
  exists fl. split; [done|]. rewrite (view_index _ _ _ _ _ lay junk d Hst) by done.
  rewrite (indexOf_key sha256 indexItems bsi db0 ps _ (numberOf p) (stored_numbered Hst) (foreign_key _ _ Hn Hu)).
  destruct (Z.ltb_spec (numberOf p) first); [lia|]. replace (Z.to_nat _) with i by lia. by rewrite Hi, Hb.
Qed.

Lemma index_keeps_snapshot i n v :
  bsi = Some i → is_u64 n → db0 !! constructTxIDKey txID (bsi_LastBlockNum i) n = Some v →
  view d !! constructTxIDKey txID (bsi_LastBlockNum i) n = Some v.
Proof.
  intros Hi Hn H0. assert (is_u64 (bsi_LastBlockNum i)) as Hl by (destruct (so_bsi Hsetup i Hi); unfold is_u64; lia).
  rewrite (view_index _ _ _ _ _ lay junk d Hst) by done.
  rewrite (indexOf_key sha256 indexItems bsi db0 ps _ _ (stored_numbered Hst) (foreign_key _ _ Hl Hn)).
  destruct (Z.ltb_spec (bsi_LastBlockNum i) first); [done|]. unfold firstNumber in *. rewrite Hi in *. lia.
Qed.

(** ** The entry of an ID *)

Hypothesis Hval : ∀ v : TxIDIndexValue, BlkLocation v ≠ [] → marshal v ≠ [] ∧ unmarshal (marshal v) = Some v.

Abbreviation entries := (scan (constructTxIDRangeScan txID).1 (Some (constructTxIDRangeScan txID).2) (view d)).

Lemma txval_snapshot : inSnapshot txID → getTxIDVal indexItems txID (view d) = Err errNilValue.
Proof.
  intros (i & n & Hi & Hn & [v0 H0]). unfold getTxIDVal, isAttributeIndexed. rewrite bool_decide_eq_true_2 by done.
  assert (is_u64 (bsi_LastBlockNum i)) as Hl by (destruct (so_bsi Hsetup i Hi); unfold is_u64; lia).
  pose proof (index_keeps_snapshot i n v0 Hi Hn H0) as Hv. pose proof (txIDKey_in_range txID _ n Hl) as Hr.
  assert (entries ≠ []) as Hne.
  { intros E. assert ((constructTxIDKey txID (bsi_LastBlockNum i) n, v0) ∈ entries) as Hin by (by apply scan_elem).
    rewrite E in Hin. by apply not_elem_of_nil in Hin. }
  change (constructTxIDRangeScan txID) with ((constructTxIDRangeScan txID).1, (constructTxIDRangeScan txID).2). cbn [negb].
  destruct entries as [|[k v] rest] eqn:E; [done|]. destruct (scan_least _ _ _ _ _ _ E) as (Hk & Hkr & Hmin).
  destruct (range_key k v Hk Hkr) as [(_ & _ & _ & _ & _ & -> & _)|(i' & p & j & tx & fl & Hp & Hj & _ & _ & -> & _)]; [done|].
  exfalso. specialize (Hmin _ _ Hv Hr). destruct (tx_bounds i' p j tx Hp Hj) as (_ & ? & ? & _).
  apply txIDKey_le in Hmin; [|done..]. destruct (stored_numbered Hst _ _ Hp) as [_ Hnum].
  unfold firstNumber in Hnum. rewrite Hi in Hnum. lia.
Qed.

Lemma txval_none : ¬ inSnapshot txID → findTx txID (concat lay) = None → getTxIDVal indexItems txID (view d) = Err ErrNotFoundInIndex.
Proof.
  intros Hno Hf. unfold getTxIDVal, isAttributeIndexed. rewrite bool_decide_eq_true_2 by done.
  change (constructTxIDRangeScan txID) with ((constructTxIDRangeScan txID).1, (constructTxIDRangeScan txID).2). cbn [negb].
  rewrite scan_nil; [done|]. intros k v Hk Hr.
  destruct (range_key k v Hk Hr) as [(i & n & Hi & -> & Hn & _ & H0)|(i & p & j & tx & fl & Hp & Hj & Htx & _)].
  - apply Hno. by exists i, n.
  - exact (findTx_None _ _ _ _ _ _ Hf (placed_in_chain _ _ Hp) Hj Htx).
Qed.

Lemma txval_found b j :
  ¬ inSnapshot txID → findTx txID (concat lay) = Some (b, j) →
  ∃ i p tx fl, ps !! i = Some p ∧ pl_block p = b ∧ txsOf p !! j = Some tx ∧ flagsOf b !! j = Some fl ∧
    getTxIDVal indexItems txID (view d) = Ok (mkTxIDIndexValue (flp_marshal (locOf p)) (flp_marshal (txLoc p j)) (Z_of_byte fl)).
Proof.
  intros Hno Hf. destruct (findTx_Some _ _ _ _ Hf) as (i & tx & Hi & Hj & Htx & Hmin).
  rewrite chain_place in Hi. apply fmap_Some in Hi as (p & Hp & ->). destruct (tx_bounds i p j tx Hp Hj) as (_ & Hn & Hu & _).
  destruct (index_has i p j tx Hp Hj Htx) as (fl & Hfl & Hv). exists i, p, tx, fl. split_and!; [done..|].
  unfold getTxIDVal, isAttributeIndexed. rewrite bool_decide_eq_true_2 by done.
  change (constructTxIDRangeScan txID) with ((constructTxIDRangeScan txID).1, (constructTxIDRangeScan txID).2). cbn [negb].
  destruct (scan_head _ _ _ _ _ Hv (txIDKey_in_range txID _ _ Hn)) as (rest & ->).
  { intros k' v' Hk' Hr'. destruct (range_key k' v' Hk' Hr') as [(i' & n & Hi' & -> & Hn' & _ & H0)|(i' & p' & j' & tx' & fl' & Hp' & Hj' & Htx' & _ & -> & _)].
    - exfalso. apply Hno. by exists i', n.
    - destruct (tx_bounds i' p' j' tx' Hp' Hj') as (_ & ? & ? & _). apply txIDKey_le; [done..|].
      destruct (stored_numbered Hst _ _ Hp) as [_ ?], (stored_numbered Hst _ _ Hp') as [_ ?].
      destruct (Hmin i' (pl_block p') j' tx' (placed_in_chain _ _ Hp') Hj' Htx'); lia. }
  destruct (Hval (mkTxIDIndexValue (flp_marshal (locOf p)) (flp_marshal (txLoc p j)) (Z_of_byte fl))) as [Hne Hrt]; [apply flp_marshal_nonempty|].
  destruct (Z.eqb_spec (blen (marshal (mkTxIDIndexValue (flp_marshal (locOf p)) (flp_marshal (txLoc p j)) (Z_of_byte fl)))) 0) as [E|_].
  - exfalso. apply Hne. apply nil_length_inv. unfold blen in E. lia.
  - by rewrite Hrt.
Qed.
End on_disk.

Definition errOldTx : error := Errorf "details for the TXID not available. Ledger bootstrapped from a snapshot".

(** C29. Queries by transaction ID answer for its first occurrence in the chain: its
    block, its envelope and its validation code. For a transaction of the snapshot
    they say so, and otherwise it is "not found". *)
Theorem query_by_txID chain junk mgr d txID :
  setup_ok → opened chain junk mgr d → few d → IndexableAttrTxID ∈ indexItems →
  id_ok txID → (∀ b tx, b ∈ chain → tx ∈ dataOf b → id_ok (txIDOf tx)) →
  (∀ v : TxIDIndexValue, BlkLocation v ≠ [] → marshal v ≠ [] ∧ unmarshal (marshal v) = Some v) →
  let answers blk env code :=
    retrieveBlockByTxID sha256 indexItems txID d = blk ∧ retrieveTransactionByID indexItems txID d = env ∧
    retrieveTxValidationCodeByTxID indexItems txID d = code in
  (inSnapshot txID → answers (Done (Err errOldTx)) (Err errOldTx) (Err errOldTx)) ∧
  (¬ inSnapshot txID →
    match findTx txID chain with
    | Some (b, j) => answers (ok b) (GetEnvelopeFromBlock (default [] (dataOf b !! j))) (Ok (Z_of_byte (default x00 (flagsOf b !! j))))
    | None => answers (Done (Err ErrNotFoundInIndex)) (Err ErrNotFoundInIndex) (Err ErrNotFoundInIndex)
    end).
Proof.
  intros Hs (lay & <- & Hst & ->) Hf Hin Hid Hids Hval answers.
  unfold answers, retrieveBlockByTxID, retrieveTransactionByID, retrieveTxValidationCodeByTxID, getBlockLocByTxID, getTxLoc, getTxValidationCodeByTxID.
  split.
  - intros Hsn. by rewrite (txval_snapshot Hs Hin lay junk d Hst Hids txID Hid Hsn).
  - intros Hno. destruct (findTx txID (concat lay)) as [[b j]|] eqn:E.
    2: by rewrite (txval_none Hs Hin lay junk d Hst Hids txID Hid Hno E).
    destruct (txval_found Hs Hin lay junk d Hst Hids txID Hid Hval b j Hno E) as (i & p & tx & fl & Hp & <- & Hj & Hfl & ->).
    change (dataOf (pl_block p)) with (txsOf p). rewrite Hj, Hfl. cbn [mbind res_bind BlkLocation TxLocation TxValidationCode].
    unfold unmarshalLoc. rewrite !flp_roundtrip.
    + cbn [mbind res_bind snapshotTx try_bind]. split; [by eapply (fetch_block _ _ _ _ _ _ _ _ _ _ Hst)|]. split; [|done].
      by eapply (fetch_tx _ _ _ _ _ Hs lay junk d Hst).
    + by eapply (txLoc_bounded _ _ _ _ _ Hs lay junk d Hst Hf).
    + by eapply (locOf_bounded _ _ _ _ _ Hs _ _ _ _ _ Hst).
Qed.
End txids.
