(* ===== verification/BlockItr.v ===== *)
(** * Iterators over blocks

    [common/ledger/blkstorage/blocks_itr.go] and [retrieveBlocks]: an iterator reads
    the block files while blocks are being added, and waits when it has read the last
    one. [iterator_exact]: it delivers the blocks in order without a gap, and waits
    exactly when there is none. *)

From stdpp Require Import gmap strings list.
From S2P Require Import Prelude Protos GoLib Blocks BlockSerialization Disk BlockIndex BlockStream BlockfileMgr BlockLayout BlockStore BlockStoreFacts BlockStoreReads BlockStoreOpen BlockStoreAdd BlockStoreProps BlockStoreQueries.

Record blocksItr := mkBlocksItr {
  maxBlockNumAvailable : Z;
  blockNumToRetrieve : Z;
  itr_stream : option blockStream;
  closeMarker : bool
}.

Section iterator.
Context `{!Codec Envelope, !Codec Payload, !Codec ChannelHeader, !Codec SignatureHeader}.
Context `{!Codec TxIDIndexValue, !Codec BootstrappingSnapshotInfo}.
Context (sha256 : bytes → bytes) (indexItems : list IndexableAttr) (maxBlockfileSize : Z).

Definition newBlockItr (mgr : blockfileMgr) (startBlockNum : Z) : blocksItr :=
  mkBlocksItr (lastPersistedBlock (mgr_blockfilesInfo mgr)) startBlockNum None false.

Definition retrieveBlocks (startNum : Z) (mgr : blockfileMgr) : res blocksItr :=
  if startNum <? firstPossibleBlockNumberInBlockFiles mgr then Err cannotServe else Ok (newBlockItr mgr startNum).

(** The last block, or [None] while the caller waits: the test is repeated whenever
    the manager or the close marker changes. *)
Definition waitForBlock (blockNum : Z) (closed : bool) (mgr : blockfileMgr) : option Z :=
  let last := lastPersistedBlock (mgr_blockfilesInfo mgr) in
  if (last <? blockNum) && negb closed then None else Some last.

Definition initStream (itr : blocksItr) (d : disk) : res blockStream :=
  lp ← getBlockLocByBlockNum indexItems (blockNumToRetrieve itr) (view d);
  newBlockStream (fileSuffixNum lp) (lp_offset (flp_loc lp)) (-1) d.

(** [None] while the caller waits. A closed iterator returns [nil]. *)
Definition Next (itr : blocksItr) (mgr : blockfileMgr) (d : disk) : option (fallible (option Block * blocksItr)) :=
  max ← (if maxBlockNumAvailable itr <? blockNumToRetrieve itr
         then waitForBlock (blockNumToRetrieve itr) (closeMarker itr) mgr else Some (maxBlockNumAvailable itr));
  Some (
    if closeMarker itr
    then ok (None, mkBlocksItr max (blockNumToRetrieve itr) (itr_stream itr) true)
    else
      stream ←? match itr_stream itr with Some s => ok s | None => Done (initStream itr d) end;
      '(next, stream) ←? nextBlockBytesAndPlacementInfo stream d;
      block ←? Done (deserializeBlock sha256 (match next with Some (b, _) => b | None => [] end));
      ok (Some block, mkBlocksItr max (u64 (blockNumToRetrieve itr + 1)) (Some stream) (closeMarker itr))).

Definition Close (itr : blocksItr) : blocksItr :=
  mkBlocksItr (maxBlockNumAvailable itr) (blockNumToRetrieve itr) (itr_stream itr) true.

(** ** Streams over growing files *)

Lemma place_grown lay lay' :
  grown lay lay' → ∃ front bl more rest, lay = front ++ [bl] ∧ lay' = front ++ (bl ++ more) :: rest ∧
    place 0 lay' = place 0 lay ++ placeFile (Z.of_nat (length front)) (blen (fileBytes bl)) more
                     ++ place (Z.of_nat (length front) + 1) rest.
Proof.
  intros (front & bl & more & rest & -> & ->). exists front, bl, more, rest. split; [done|]. split; [done|].
  rewrite !place_app. cbn [place]. rewrite placeFile_app, !Z.add_0_l, app_nil_r. by rewrite <- !(assoc_L (++)).
Qed.

Lemma streamAt_grow lay lay' s n :
  grown lay lay' → (n <= length (place 0 lay))%nat → streamAt lay s (drop n (place 0 lay)) → streamAt lay' s (drop n (place 0 lay')).
Proof.
  intros Hg Hn (i & bl1 & bl2 & Hi & Hc & Hf & Hr). destruct (place_grown _ _ Hg) as (front & bl & more & rest & -> & -> & ->).
  rewrite drop_app_le, Hr by done. apply lookup_app_Some in Hi as [Hi|[Hge Hi]].
  - pose proof (lookup_lt_Some _ _ _ Hi). exists i, bl1, bl2. split; [by apply lookup_app_l_Some|]. split; [done|]. split; [done|].
    rewrite !drop_app_le, !place_app by lia. cbn [place].
    replace (Z.of_nat (S i) + Z.of_nat (length (drop (S i) front))) with (Z.of_nat (length front)) by (rewrite length_drop; lia).
    rewrite placeFile_app, Z.add_0_l, app_nil_r. by rewrite <- !(assoc_L (++)).
  - apply list_lookup_singleton_Some in Hi as [Hi ->]. assert (i = length front) as -> by lia.
    exists (length front), bl1, (bl2 ++ more). split; [by rewrite lookup_app_r, Nat.sub_diag, (assoc_L (++)) by lia|].
    split; [done|]. split; [done|]. rewrite !drop_app_ge by lia. replace (S (length front) - length front)%nat with 1%nat by lia.
    cbn [drop place]. rewrite app_nil_r, placeFile_app, fileBytes_app, blen_app, <- (assoc_L (++)).
    by replace (Z.of_nat (S (length front))) with (Z.of_nat (length front) + 1) by lia.
Qed.

(** ** Reading while blocks are added *)

Context (bsi : option BootstrappingSnapshotInfo) (db0 : gmap bytes bytes).
Abbreviation stored := (stored sha256 indexItems maxBlockfileSize bsi db0).
Abbreviation opened := (opened sha256 indexItems maxBlockfileSize bsi db0).
Abbreviation setup_ok := (setup_ok indexItems maxBlockfileSize bsi db0).
Abbreviation first := (firstNumber bsi).
Abbreviation mgrOf := (mgrOf sha256 bsi).
Abbreviation add := (addBlock sha256 indexItems maxBlockfileSize).

(** The open store and the iterator. *)
Definition system : Type := blockfileMgr * disk * blocksItr.

(** A block is read or a block is added. *)
Inductive reading : system → list Block → system → list Block → Prop :=
  | step_next mgr d itr out b itr' :
    Next itr mgr d = Some (ok (Some b, itr')) → reading (mgr, d, itr) out (mgr, d, itr') (out ++ [b])
  | step_grow mgr d itr out b fs mgr' d' fs' :
    storable indexItems b → (lastPersistedBlock (mgr_blockfilesInfo mgr) = 0 → fits maxBlockfileSize bsi [] b) →
    add b mgr d fs = (Returned (mgr', Ok tt), d', fs') → few d' → reading (mgr, d, itr) out (mgr', d', itr) out.

Inductive readings : system → list Block → system → list Block → Prop :=
  | readings_nil s out : readings s out s out
  | readings_snoc s out s1 out1 s2 out2 : readings s out s1 out1 → reading s1 out1 s2 out2 → readings s out s2 out2.

(** The iterator over [lay] delivers the block at position [n] next. *)
Record itrAt (lay : list (list Block)) (itr : blocksItr) (n : nat) : Prop := {
  ia_next : blockNumToRetrieve itr = first + Z.of_nat n;
  ia_u64 : is_u64 (blockNumToRetrieve itr);
  ia_max : maxBlockNumAvailable itr <= lastPersistedBlock (summary bsi lay (length (concat lay)));
  ia_some : concat lay = [] → 0 < first + Z.of_nat n;
  ia_open : closeMarker itr = false;
  ia_stream : match itr_stream itr with
    | None => True
    | Some s => bs_endFileNum s = -1 ∧ (n <= length (concat lay))%nat ∧ streamAt lay s (drop n (place 0 lay))
    end
}.

Section at_rest.
Context (Hs : setup_ok) (lay : list (list Block)) (d : disk).
Hypothesis Hst : stored lay [] (length (concat lay)) (length (concat lay)) d.
Hypothesis Hf : few d.

Lemma last_number n :
  (concat lay = [] → 0 < first + Z.of_nat n) →
  (lastPersistedBlock (summary bsi lay (length (concat lay))) < first + Z.of_nat n ↔ (length (concat lay) <= n)%nat).
Proof.
  intros H0. cbn [summary lastPersistedBlock]. case_decide as E; [|lia]. specialize (H0 (nil_length_inv _ E)).
  rewrite E. split; intros; lia.
Qed.

Lemma stream_ready itr n p :
  itrAt lay itr n → place 0 lay !! n = Some p →
  ∃ s, match itr_stream itr with Some s => ok s | None => Done (initStream itr d) end = ok s ∧ bs_endFileNum s = -1 ∧
    streamAt lay s (drop n (place 0 lay)).
Proof.
  intros [Hn Hu _ _ _ Hstr] Hp. destruct (itr_stream itr) as [s|]; [exists s; tauto|].
  unfold initStream. rewrite Hn in *. rewrite (loc_by_number sha256 indexItems maxBlockfileSize bsi db0 Hs lay [] d Hst Hf) by done.
  pose proof (first_nonneg _ _ _ _ Hs). destruct (Z.ltb_spec (first + Z.of_nat n) first); [lia|].
  replace (Z.to_nat (first + Z.of_nat n - first)) with n by lia. rewrite Hp. cbn [mbind res_bind].
  unfold newBlockStream, newBlockfileStream. change (fileSuffixNum (locOf p)) with (pl_file p).
  change (lp_offset (flp_loc (locOf p))) with (pl_offset p). destruct (place_split lay n p Hp) as (i & bl1 & bl2 & Hi & Hpf & Hpo).
  destruct (st_files Hst i _ Hi) as (x & Hx & _). rewrite Hpf, Hx. destruct (Z.ltb_spec (pl_offset p) 0); [rewrite Hpo in *; unfold blen in *; lia|].
  cbn [mbind res_bind]. eexists. split; [done|]. split; [done|]. rewrite <- Hpf. by apply streamAt_place.
Qed.

(** A call of [Next]. *)
Lemma next_at itr n :
  itrAt lay itr n →
  match concat lay !! n with
  | Some b => ∃ itr', Next itr (mgrOf lay) d = Some (ok (Some b, itr')) ∧ itrAt lay itr' (S n)
  | None => Next itr (mgrOf lay) d = None
  end.
Proof.
  intros Hi. pose proof Hi as [Hn Hu Hm H0 Hc _]. pose proof (last_number n H0) as Hl. unfold Next, waitForBlock. rewrite Hc, Hn.
  cbn [BlockStore.mgrOf mgr_blockfilesInfo negb]. rewrite andb_true_r.
  set (last := lastPersistedBlock (summary bsi lay (length (concat lay)))) in *. rewrite chain_place.
  destruct (place 0 lay !! n) as [p|] eqn:Hp; cbn [fmap option_fmap option_map].
  2: { apply lookup_ge_None in Hp. rewrite place_total in Hp. destruct (Z.ltb_spec (maxBlockNumAvailable itr) (first + Z.of_nat n)); [|lia].
       by destruct (Z.ltb_spec last (first + Z.of_nat n)); [|lia]. }
  pose proof (lookup_lt_Some _ _ _ Hp) as Hlt. rewrite place_total in Hlt.
  destruct (Z.ltb_spec last (first + Z.of_nat n)); [lia|].
  destruct (stream_ready itr n p Hi Hp) as (s & -> & He & Hs'). rewrite (drop_S _ p) in Hs' by done.
  destruct (next_block lay [] d s p (drop (S n) (place 0 lay))) as (s' & Hnext & Hs1 & He1); [by apply (chain_small sha256 indexItems bsi), Hst|apply Hst|done|left; lia|].
  destruct (stored_numbered Hst _ _ Hp) as [Hsp Hnum]. pose proof (sb_number Hsp) as Hb. unfold numberOf in Hnum.
  assert (∃ max, (if maxBlockNumAvailable itr <? first + Z.of_nat n then Some last else Some (maxBlockNumAvailable itr)) = Some max ∧ max <= last)
    as (max & -> & Hmax) by (destruct (_ <? _); eexists; split; done || lia).
  cbn [mbind option_bind ok try_bind]. rewrite Hnext. cbn [ok try_bind]. rewrite (proj1 (storable_read sha256 indexItems _ Hsp)).
  cbn [try_bind]. eexists. split; [done|]. rewrite u64_small by (unfold is_u64; lia).
  split; cbn [blockNumToRetrieve maxBlockNumAvailable closeMarker itr_stream]; try done; try (unfold is_u64; lia).
  rewrite He1. split; [done|]. split; [lia|done].
Qed.
End at_rest.

Lemma itrAt_grow lay lay' itr n :
  setup_ok → grown lay lay' → (length (concat lay) <= length (concat lay'))%nat → itrAt lay itr n → itrAt lay' itr n.
Proof.
  intros Hs Hg Hlen [Hn Hu Hm H0 Hc Hstr]. pose proof (first_nonneg _ _ _ _ Hs). split; try done.
  - etransitivity; [exact Hm|]. cbn [summary lastPersistedBlock]. repeat case_decide; lia.
  - intros E. apply H0. apply nil_length_inv. rewrite E in Hlen. cbn [length] in Hlen. lia.
  - destruct (itr_stream itr) as [s|]; [|done]. destruct Hstr as (He & Hle & Ha). split; [done|]. split; [lia|].
    apply (streamAt_grow lay); [done|by rewrite place_total|done].
Qed.

(** What holds after every step. *)
Definition readingOk (start : Z) (chain0 : list Block) (s : system) (out : list Block) : Prop :=
  let '(mgr, d, itr) := s in
  ∃ lay, stored lay [] (length (concat lay)) (length (concat lay)) d ∧ mgr = mgrOf lay ∧ few d ∧
    chain0 `prefix_of` concat lay ∧ itrAt lay itr (Z.to_nat (start - first) + length out) ∧
    out = take (length out) (drop (Z.to_nat (start - first)) (concat lay)).

Lemma reading_ok start chain0 s out s' out' :
  setup_ok → reading s out s' out' → readingOk start chain0 s out → readingOk start chain0 s' out'.
Proof.
  intros Hs Hr. destruct Hr as [mgr d itr out b itr' E|mgr d itr out b fs mgr' d' fs' Hb Hfit E Hf'];
    intros (lay & Hst & -> & Hf & Hp & Hi & Hout).
  - exists lay. split; [done|]. split; [done|]. split; [done|]. split; [done|].
    pose proof (next_at Hs lay d Hst Hf itr _ Hi) as H. rewrite E in H.
    destruct (concat lay !! (Z.to_nat (start - first) + length out)%nat) as [b'|] eqn:Eb; [|done].
    destruct H as (itr1 & [= -> ->] & Hi'). rewrite length_app. cbn [length].
    split; [by replace (Z.to_nat (start - first) + (length out + 1))%nat with (S (Z.to_nat (start - first) + length out)) by lia|].
    rewrite Nat.add_1_r, (take_S_r _ _ b') by (by rewrite lookup_drop). by rewrite <- Hout.
  - assert (fits maxBlockfileSize bsi (concat lay) b) as Hfits.
    { intros E0. apply Hfit; [|done]. cbn [BlockStore.mgrOf mgr_blockfilesInfo summary lastPersistedBlock]. by rewrite E0. }
    pose proof (add_over sha256 indexItems maxBlockfileSize bsi db0 lay d b fs Hs Hst Hb Hfits) as H. rewrite E in H.
    destruct H as [_ (lay' & Hg & Hc & Hst' & ->)]. rewrite <- Hc in Hst'. exists lay'. split; [done|]. split; [done|]. split; [done|].
    rewrite Hc. split; [by apply prefix_app_r|]. split; [eapply itrAt_grow; try done; rewrite Hc, length_app; lia|].
    apply (f_equal length) in Hout as Hl. rewrite length_take, length_drop in Hl.
    destruct (decide (Z.to_nat (start - first) <= length (concat lay))%nat) as [Hle|].
    + rewrite drop_app_le, take_app_le; [done|rewrite length_drop; lia|done].
    + assert (length out = 0%nat) as ->%nil_length_inv by lia. done.
Qed.

(** C31. Iterators. An iterator from a block number delivers the blocks from that
    number in order and without a gap, however calls of [Next] and additions of blocks
    alternate; it returns a block whenever there is one, waits exactly when there is
    none, and never fails. After [Close] it returns nothing. The store must not be
    empty when the iteration starts at block 0. *)
Theorem iterator_exact chain mgr d start itr s out :
  setup_ok → opened chain [] mgr d → few d → is_u64 start → chain ≠ [] ∨ 0 < start →
  retrieveBlocks start mgr = Ok itr → readings (mgr, d, itr) [] s out →
  let '(mgr', d', itr') := s in
  ∃ chain', opened chain' [] mgr' d' ∧ chain `prefix_of` chain' ∧
    let rest := drop (Z.to_nat (start - first)) chain' in
    out = take (length out) rest ∧
    match rest !! length out with
    | Some b => ∃ itr'', Next itr' mgr' d' = Some (ok (Some b, itr''))
    | None => Next itr' mgr' d' = None
    end ∧
    ∃ itr'', Next (Close itr') mgr' d' = Some (ok (None, itr'')).
Proof.
  intros Hs (lay & <- & Hst & ->) Hf Hu Hne Hr Hrs. unfold retrieveBlocks in Hr. rewrite (firstPossible_first _ _ _ _ Hs) in Hr by done.
  destruct (Z.ltb_spec start first); [done|]. injection Hr as <-.
  assert (readingOk start (concat lay) s out) as Hok.
  { remember (mgrOf lay, d, newBlockItr (mgrOf lay) start) as s0 eqn:E0. remember ([] : list Block) as o0 eqn:Eo.
    induction Hrs as [s1 o1|s1 o1 s2 o2 s3 o3 _ IH Hstep]; [|eapply reading_ok; [done|exact Hstep|by apply IH]]. subst.
    exists lay. split_and!; try done. cbn [length]. rewrite Nat.add_0_r.
    split; cbn [newBlockItr blockNumToRetrieve maxBlockNumAvailable closeMarker itr_stream]; rewrite ?Z2Nat.id by lia; try done; try lia. intros E. destruct Hne as [Hne|]; [by rewrite E in Hne|lia]. }
  destruct s as [[mgr' d'] itr']. destruct Hok as (lay' & Hst' & -> & Hf' & Hp & Hi & Hout).
  exists (concat lay'). split; [by exists lay'|]. split; [done|]. split; [done|]. rewrite lookup_drop. split.
  - pose proof (next_at Hs lay' d' Hst' Hf' itr' _ Hi) as Hn.
    destruct (concat lay' !! (Z.to_nat (start - first) + length out)%nat); [|done]. destruct Hn as (itr'' & -> & _). by exists itr''.
  - unfold Next, Close, waitForBlock. cbn [maxBlockNumAvailable blockNumToRetrieve closeMarker negb]. rewrite andb_false_r.
    destruct (_ <? _); by eexists.
Qed.
End iterator.
