(* ===== verification/BlockRollback.v ===== *)
(** * Rollback and reset of the block store

    [common/ledger/blkstorage/rollback.go] and [reset.go]: removing the blocks after a
    given one, or all but the first, from the index and the files of a store that is
    not open. The height before is kept in a file. *)

From stdpp Require Import gmap strings list pretty.
From S2P Require Import Prelude Protos GoLib Blocks BlockSerialization Disk BlockIndex BlockStream BlockfileMgr.

Section rollback.
Context `{!Codec Envelope, !Codec Payload, !Codec ChannelHeader, !Codec SignatureHeader}.
Context `{!Codec TxIDIndexValue, !Codec BootstrappingSnapshotInfo}.
Context (sha256 : bytes → bytes) (indexItems : list IndexableAttr).

(** ** The height before *)

(** [recordHeightIfGreaterThanPreviousRecording] *)
Definition recordHeight : io (res unit) :=
  info ← reads (constructBlockfilesInfo sha256); blkfilesInfo ←! io_outcome info;
  file ← reads d_preReset;
  previous ←! mret (match file with
                    | None => Ok 0
                    | Some s => match ParseUint64 s with Some h => Ok h | None => Err (Errorf "invalid syntax") end
                    end);
  let currentHt := u64 (lastPersistedBlock blkfilesInfo + 1) in
  if currentHt >? previous then atomic (Errorf "open") (writePreReset (pretty currentHt)) else mret (Ok tt).

(** One entry of [LoadPreResetHeight], and of [ClearPreResetHeight]. *)
Definition loadPreResetHeight (d : disk) : res (option Z) :=
  match d_preReset d with
  | None => Ok None
  | Some s => match ParseUint64 s with Some h => Ok (Some h) | None => Err (Errorf "invalid syntax") end
  end.

Definition clearPreResetHeight : io (res unit) :=
  file ← reads d_preReset;
  match file with
  | None => mret (Ok tt)
  | Some _ => atomic (Errorf "remove") (λ d, {| d with d_preReset := None |})
  end.

(** ** The index *)

(** The keys [addIndexEntriesToBeDeleted] deletes, in order. *)
Definition entryKeys (blockInfo : serializedBlockInfo) : list bytes :=
  let num := hdr_Number (sbi_blockHeader blockInfo) in
  (if isAttributeIndexed indexItems IndexableAttrBlockHash
   then [constructBlockHashKey (BlockHeaderHash sha256 (sbi_blockHeader blockInfo))] else []) ++
  (if isAttributeIndexed indexItems IndexableAttrBlockNum then [constructBlockNumKey num] else []) ++
  (if isAttributeIndexed indexItems IndexableAttrBlockNumTranNum
   then imap (λ txIndex _, constructBlockNumTranNumKey num (Z.of_nat txIndex)) (sbi_txOffsets blockInfo) else []) ++
  (if isAttributeIndexed indexItems IndexableAttrTxID
   then imap (λ i txOffset, constructTxIDKey (ti_txID txOffset) num (Z.of_nat i)) (sbi_txOffsets blockInfo) else []).

Definition addIndexEntriesToBeDeleted (blockInfo : serializedBlockInfo) (batch : UpdateBatch) : UpdateBatch :=
  foldl (λ batch key, batch_Delete key batch) batch (entryKeys blockInfo).

Fixpoint collectDeletes (numberOfBlocksToRetrieve : nat) (stream : blockStream) (batch : UpdateBatch) (d : disk)
    : fallible UpdateBatch :=
  match numberOfBlocksToRetrieve with
  | O => ok batch
  | S n =>
    '(next, stream) ←? nextBlockBytesAndPlacementInfo stream d;
    blockInfo ←? Done (extractSerializedBlockInfo sha256 (match next with Some (b, _) => b | None => [] end));
    collectDeletes n stream (addIndexEntriesToBeDeleted blockInfo batch) d
  end.

Definition deleteIndexEntriesRange (startBlkNum endBlkNum : Z) : io (res unit) :=
  batch ← reads (λ d,
    lp ←? Done (getBlockLocByBlockNum indexItems startBlkNum (view d));
    stream ←? Done (newBlockStream (fileSuffixNum lp) (lp_offset (flp_loc lp)) (-1) d);
    collectDeletes (Z.to_nat (u64 (endBlkNum - startBlkNum + 1))) stream NewUpdateBatch d);
  batch ←! io_outcome batch;
  db_WriteBatch (batch_Put indexSavePointKey (encodeBlockNum (u64 (startBlkNum - 1))) batch) true.

Definition batchLimit : Z := 10.

(** Every turn removes a block or more. *)
Fixpoint rollbackLoop (fuel : nat) (targetBlockNum endBlk : Z) : io (res unit) :=
  let start := u64 (targetBlockNum + 1) in
  if endBlk >=? start then
    let start := if u64 (endBlk - start) >=? batchLimit then u64 (endBlk - batchLimit + 1) else start in
    _ ←! deleteIndexEntriesRange start endBlk;
    match fuel with
    | O => mret (Err (Errorf "out of fuel"))
    | S fuel => rollbackLoop fuel targetBlockNum (u64 (start - 1))
    end
  else mret (Ok tt).

Definition rollbackBlockIndex (targetBlockNum : Z) : io (res unit) :=
  r ← reads (λ d, getLastBlockIndexed (view d));
  match r with
  | Err e => mret (if decide (e = errIndexSavePointKeyNotPresent) then Ok tt else Err e)
  | Ok lastBlockNumber => rollbackLoop (Z.to_nat lastBlockNumber) targetBlockNum lastBlockNumber
  end.

(** ** The files *)

(** Removes the [n] files up to and with [last]. *)
Fixpoint removeFiles (n : nat) (last : Z) : io (res unit) :=
  match n with
  | O => mret (Ok tt)
  | S n => _ ←! os_Remove last; removeFiles n (last - 1)
  end.

(** Every turn reads a block, which takes a byte or more. *)
Fixpoint endOffsetLoop (fuel : nat) (stream : blockfileStream) (blockNum : Z) (d : disk) : fallible Z :=
  '(next, stream) ←? nextBlock stream d;
  blockInfo ←? Done (extractSerializedBlockInfo sha256 (match next with Some (b, _) => b | None => [] end));
  if hdr_Number (sbi_blockHeader blockInfo) =? blockNum then ok (fs_currentOffset stream)
  else match fuel with
  | O => fail "out of fuel"
  | S fuel => endOffsetLoop fuel stream blockNum d
  end.

Definition calculateEndOffSet (targetBlkFileNum blockNum : Z) (d : disk) : fallible Z :=
  stream ←? Done (newBlockfileStream targetBlkFileNum 0 d);
  endOffsetLoop (length (fileBytesOf targetBlkFileNum d)) stream blockNum d.

Definition rollbackBlockFiles (targetBlockNum : Z) : io (res unit) :=
  _ ←! db_Delete blkMgrInfoKey true;
  r ← reads (binarySearchFileNumForBlock sha256 targetBlockNum); targetFileNum ←! io_outcome r;
  lastFileNum ← reads retrieveLastFileSuffix;
  _ ←! removeFiles (Z.to_nat (lastFileNum - targetFileNum)) lastFileNum;
  r ← reads (calculateEndOffSet targetFileNum targetBlockNum); endOffset ←! io_outcome r;
  os_Truncate targetFileNum (Z.to_nat endOffset).

Definition Rollback (targetBlockNum : Z) : io (res unit) :=
  _ ←! recordHeight;
  _ ←! rollbackBlockIndex targetBlockNum;
  rollbackBlockFiles targetBlockNum.

Definition validateTargetBlkNum (targetBlockNum : Z) (d : disk) : fallible unit :=
  blkfilesInfo ←? constructBlockfilesInfo sha256 d;
  if lastPersistedBlock blkfilesInfo <=? targetBlockNum
  then fail "target block number should be less than the biggest block number" else ok tt.

(** ** Reset *)

(** The data hash of a decoded header is never nil. *)
Definition assertIsGenesisBlock (blockBytes : bytes) : res unit :=
  block ← deserializeBlock sha256 blockBytes;
  if hdr_Number (blk_Header block) =? 0 then Ok tt else Err (Errorf "The supplied bytes are not of genesis block").

(** The end of the first block. The backup of the block is not part of the store. *)
Definition retrieveGenesisBlkOffset (d : disk) : fallible Z :=
  stream ←? Done (newBlockfileStream 0 0 d);
  '(next, stream) ←? nextBlock stream d;
  _ ←? Done (assertIsGenesisBlock (match next with Some (b, _) => b | None => [] end));
  ok (fs_currentOffset stream).

Definition resetToGenesisBlk : io (res unit) :=
  lastFileNum ← reads retrieveLastFileSuffix;
  if lastFileNum <? 0 then mret (Ok tt) else
  r ← reads retrieveGenesisBlkOffset; genesisBlkEndOffset ←! io_outcome r;
  _ ←! atomic (Errorf "open") (λ d, d);
  _ ←! removeFiles (Z.to_nat lastFileNum) lastFileNum;
  os_Truncate 0 (Z.to_nat genesisBlkEndOffset).

(** [os.RemoveAll] of the directory of the database. *)
Definition dropIndex (d : disk) : disk := {| d with d_db := mkDatabase ∅ [] |}.

(** [ResetBlockStore] for the directory of one ledger. *)
Definition resetLedger : io (res unit) := _ ←! recordHeight; resetToGenesisBlk.

Definition ResetBlockStore : io (res unit) := _ ←! atomic (Errorf "unlink") dropIndex; resetLedger.
End rollback.
