(* ===== verification/BlockRollbackProps.v ===== *)
(** * Correctness of rollback and reset

    [rollback_safe]: a rollback removes exactly the blocks after the target; whenever it
    is cut short the store still holds a chain that goes at least to the target.
    [reset_safe]: the same for a reset, with the first block as the target. The first part
    is on the index that a rollback leaves. *)

From stdpp Require Import gmap strings list pretty.
From S2P Require Import Prelude Protos GoLib Blocks Varint BlockSerialization Disk BlockIndex BlockStream BlockfileMgr BlockLayout BlockStore BlockStoreFacts BlockStoreReads BlockStoreOpen BlockStoreAdd BlockStoreProps BlockStoreKeys BlockStoreQueries BlockItr BlockRollback.

(** ** The index after a rollback *)

Section index.
Context `{!Codec Envelope, !Codec Payload, !Codec ChannelHeader, !Codec SignatureHeader}.
Context `{!Codec TxIDIndexValue, !Codec BootstrappingSnapshotInfo}.
Context (sha256 : bytes → bytes) (indexItems : list IndexableAttr) (maxBlockfileSize : Z).
Context (bsi : option BootstrappingSnapshotInfo) (db0 : gmap bytes bytes).

Abbreviation setup_ok := (setup_ok indexItems maxBlockfileSize bsi db0).
Abbreviation storable := (storable indexItems).
Abbreviation batchOf := (batchOf sha256 indexItems).
Abbreviation indexOf := (indexOf sha256 indexItems db0).
Abbreviation infosOf := (infosOf sha256).
Abbreviation hashOf := (hashOf sha256).
Abbreviation first := (firstNumber bsi).
Abbreviation txIDOf := (txIDOf sha256).

Definition keysOf (p : placed) : list bytes := entryKeys sha256 indexItems (infoOf sha256 (pl_block p)).

(** ** The keys of a block *)

Lemma keysOf_spec p k :
  k ∈ keysOf p ↔
    IndexableAttrBlockHash ∈ indexItems ∧ k = constructBlockHashKey (hashOf p) ∨
    IndexableAttrBlockNum ∈ indexItems ∧ k = constructBlockNumKey (numberOf p) ∨
    (IndexableAttrBlockNumTranNum ∈ indexItems ∧ ∃ j, (j < length (txsOf p))%nat ∧ k = constructBlockNumTranNumKey (numberOf p) (Z.of_nat j)) ∨
    (IndexableAttrTxID ∈ indexItems ∧ ∃ j tx, txsOf p !! j = Some tx ∧ k = constructTxIDKey (txIDOf tx) (numberOf p) (Z.of_nat j)).
Proof.
  assert (∀ (P : Prop) `{!Decision P} (l : list bytes), k ∈ (if bool_decide P then l else []) ↔ P ∧ k ∈ l) as Hif.
  { intros P HP l. case_bool_decide; set_solver. }
  unfold keysOf, entryKeys, isAttributeIndexed. rewrite !elem_of_app, !Hif, !list_elem_of_singleton.
  cbn [infoOf sbi_txOffsets sbi_blockHeader]. change (default [] (blk_Data (pl_block p))) with (txsOf p).
  assert (∀ (f : nat → txindexInfo → bytes), k ∈ imap f (infosAt sha256 (dataStart (blk_Header (pl_block p)) (txsOf p)) (txsOf p)) ↔
    ∃ j tx ti, txsOf p !! j = Some tx ∧ ti_txID ti = txIDOf tx ∧ infosAt sha256 (dataStart (blk_Header (pl_block p)) (txsOf p)) (txsOf p) !! j = Some ti ∧ k = f j ti) as Him.
  { intros f. rewrite elem_of_lookup_imap. split.
    - intros (j & ti & -> & Hj). pose proof (lookup_lt_Some _ _ _ Hj) as Hlt. rewrite infosAt_length in Hlt.
      apply lookup_lt_is_Some in Hlt as [tx Htx]. exists j, tx, ti. split; [done|]. split; [|done].
      rewrite (infosAt_lookup _ _ _ _ _ Htx) in Hj. by injection Hj as <-.
    - intros (j & tx & ti & _ & _ & Hj & ->). by exists j, ti. }
  rewrite !Him. do 2 (apply or_iff_compat_l). apply Morphisms_Prop.or_iff_morphism; apply Morphisms_Prop.and_iff_morphism; try done.
  - split.
    + intros (j & tx & ti & Htx & _ & _ & ->). exists j. split; [by eapply lookup_lt_Some|done].
    + intros (j & Hlt & ->). apply lookup_lt_is_Some in Hlt as [tx Htx]. 
      pose proof (infosAt_lookup sha256 (dataStart (blk_Header (pl_block p)) (txsOf p)) _ _ _ Htx) as Hl.
      exists j, tx. eexists. split; [done|]. split; [|split; [exact Hl|done]]. done.
  - split.
    + intros (j & tx & ti & Htx & -> & _ & ->). by exists j, tx.
    + intros (j & tx & Htx & ->). 
      pose proof (infosAt_lookup sha256 (dataStart (blk_Header (pl_block p)) (txsOf p)) _ _ _ Htx) as Hl.
      exists j, tx. eexists. split; [done|]. split; [|split; [exact Hl|done]]. done.
Qed.

Lemma keysOf_head p k : k ∈ keysOf p → k ≠ indexSavePointKey ∧ k ≠ blkMgrInfoKey.
Proof. intros [[_ ->]|[[_ ->]|[(_ & j & _ & ->)|(_ & j & tx & _ & ->)]]]%keysOf_spec; done. Qed.

Lemma putTranNums_inv flp num i infos batch k v :
  putTranNums flp num i infos batch !! k = Some v →
  (∃ j, (i <= j < i + length infos)%nat ∧ k = constructBlockNumTranNumKey num (Z.of_nat j)) ∨ batch !! k = Some v.
Proof.
  revert i batch. induction infos as [|t infos IH]; intros i batch; cbn [putTranNums]; [by right|].
  intros [(j & Hj & ->)|Hb]%IH; [left; exists j; split; [simpl; lia|done]|].
  unfold batch_Put in Hb. apply lookup_insert_Some in Hb as [[<- _]|[_ Hb]]; [|by right].
  left. exists i. split; [simpl; lia|done].
Qed.

(** Indexing a block touches its keys and the savepoint. *)
Lemma batchOf_keys p k v : storable (pl_block p) → batchOf p !! k = Some v → k = indexSavePointKey ∨ k ∈ keysOf p.
Proof.
  intros Hs. destruct (batchOf_form sha256 indexItems p Hs) as (b1 & Hb1 & ->). unfold batch_Put at 1.
  intros [[<- _]|[_ Hv]]%lookup_insert_Some; [by left|right].
  assert (entries0 sha256 indexItems p !! k = Some v → k ∈ keysOf p) as H0.
  { unfold entries0, isAttributeIndexed, batch_Put. intros H. apply keysOf_spec. repeat case_bool_decide;
      repeat (apply lookup_insert_Some in H as [[<- _]|[_ H]]; [tauto|]); try (by rewrite lookup_empty in H); tauto. }
  assert (b1 !! k = Some v → k ∈ keysOf p) as H1.
  { unfold isAttributeIndexed in Hb1 at 1. case_bool_decide as Hin; [|by subst b1]. intros H.
    destruct (putTxIDs_inv _ _ _ _ _ _ _ _ _ Hb1 H) as [(j & ti & fl & Hj & _ & -> & _)|Hb]; [|auto].
    apply keysOf_spec. do 3 right. split; [done|]. rewrite infosOf_lookup in Hj. apply fmap_Some in Hj as (tx & Htx & ->). by exists j, tx. }
  unfold isAttributeIndexed in Hv. case_bool_decide as Hin; [|auto].
  apply putTranNums_inv in Hv as [(j & Hj & ->)|Hb]; [|auto]. apply keysOf_spec. right. right. left. split; [done|].
  exists j. split; [rewrite infosOf_length in Hj; lia|done].
Qed.

(** ** Different blocks *)

Section chain.
Context (Hsetup : setup_ok) (ps : list placed).
Hypothesis Hn : numbered indexItems bsi ps.
Hypothesis Hids : ∀ i p j tx, ps !! i = Some p → txsOf p !! j = Some tx → id_ok (txIDOf tx).
Hypothesis Hhash : IndexableAttrBlockHash ∈ indexItems → NoDup (hashOf <$> ps).

Lemma placed_bounds i p j tx :
  ps !! i = Some p → txsOf p !! j = Some tx → is_u64 (numberOf p) ∧ is_u64 (Z.of_nat j) ∧ id_ok (txIDOf tx).
Proof.
  intros Hi Hj. destruct (Hn _ _ Hi) as [Hs _]. pose proof (txs_u64 _ _ Hs) as Hl. pose proof (lookup_lt_Some _ _ _ Hj).
  split; [by eapply number_u64|]. split; [unfold is_u64 in *; lia|]. by eapply Hids.
Qed.

Lemma keys_apart i j p q k :
  ps !! i = Some p → ps !! j = Some q → i ≠ j → k ∈ keysOf q → batchOf p !! k = None.
Proof.
  intros Hi Hj Hne Hk. destruct (Hn _ _ Hi) as [Hsp Hnp]. destruct (Hn _ _ Hj) as [Hsq Hnq].
  assert (numberOf p ≠ numberOf q) as Hnum by lia. pose proof (number_u64 _ _ Hsp). pose proof (number_u64 _ _ Hsq).
  apply keysOf_spec in Hk as [[Hin ->]|[[Hin ->]|[(Hin & t & Hlt & ->)|(Hin & t & tx & Htx & ->)]]].
  - rewrite batchOf_hash by done. rewrite decide_False; [done|]. intros [_ E]. apply Hne.
    eapply NoDup_lookup; [by apply Hhash|rewrite list_lookup_fmap, Hi; done|]. rewrite list_lookup_fmap, Hj. cbn [fmap option_fmap option_map]. by rewrite E.
  - rewrite batchOf_blockNum by done. by rewrite decide_False by done.
  - apply lookup_lt_is_Some in Hlt as [tx Htx]. destruct (placed_bounds j q t tx Hj Htx) as (_ & ? & _).
    rewrite batchOf_tranNum by done. by rewrite decide_False by naive_solver.
  - destruct (batchOf p !! _) as [v|] eqn:E; [|done]. exfalso.
    destruct (batchOf_txID_inv _ _ p (constructTxIDKey (txIDOf tx) (numberOf q) (Z.of_nat t)) v Hsp eq_refl E) as (t' & tx' & fl & Ht' & _ & Hke & _).
    destruct (placed_bounds j q t tx Hj Htx) as (? & ? & ?). destruct (placed_bounds i p t' tx' Hi Ht') as (? & ? & ?).
    apply txIDKey_inj in Hke as (_ & ? & _); done.
Qed.

Lemma keys_fresh j q k : ps !! j = Some q → k ∈ keysOf q → db0 !! k = None.
Proof.
  intros Hj Hk. pose proof (keysOf_head _ _ Hk) as [Hsp _]. destruct (Hn _ _ Hj) as [Hs Hnum].
  destruct (db0 !! k) as [v|] eqn:E; [|done]. exfalso.
  destruct (so_db0 Hsetup k v E) as [(i & id & n & Hi & Hke & Hid & Hu & _)|]; [|done].
  apply keysOf_spec in Hk as [[_ ->]|[[_ ->]|[(_ & t & _ & ->)|(_ & t & tx & Htx & ->)]]]; try done.
  destruct (placed_bounds j q t tx Hj Htx) as (? & ? & ?). destruct (so_bsi Hsetup i Hi) as [? _].
  apply txIDKey_inj in Hke as (_ & E' & _); try done; [|unfold is_u64; lia].
  unfold firstNumber in Hnum. rewrite Hi in Hnum. lia.
Qed.

(** ** Deleting *)

Definition deletes (ks : list bytes) (batch : UpdateBatch) : UpdateBatch := foldl (λ batch key, batch_Delete key batch) batch ks.

Lemma deletes_lookup ks batch k : deletes ks batch !! k = if decide (k ∈ ks) then Some None else batch !! k.
Proof.
  revert batch. induction ks as [|x ks IH]; intros batch; [by rewrite decide_False by apply not_elem_of_nil|].
  cbn [deletes foldl]. fold (deletes ks (batch_Delete x batch)). rewrite IH. destruct (decide (k ∈ ks)) as [Hk|Hk].
  - by rewrite decide_True by (by right).
  - unfold batch_Delete. destruct (decide (x = k)) as [->|Hne].
    + by rewrite decide_True, lookup_insert_eq by left.
    + rewrite decide_False by (intros [?|?]%elem_of_cons; by subst). by rewrite lookup_insert_ne.
Qed.

(** Keys no block of the second part touches. *)
Lemma indexOf_untouched ps1 ps2 k : (∀ q, q ∈ ps2 → batchOf q !! k = None) → indexOf (ps1 ++ ps2) !! k = indexOf ps1 !! k.
Proof.
  induction ps2 as [|q ps2 IH] using rev_ind; intros H; [by rewrite app_nil_r|].
  rewrite (assoc_L (++)), indexOf_snoc, applyBatch_lookup, H by set_solver. apply IH. set_solver.
Qed.

Lemma rollback_index (a m : nat) (p : placed) (M : gmap bytes bytes) k :
  (a < length ps)%nat → (S a <= m)%nat → ps !! a = Some p → (k ≠ blkMgrInfoKey → M !! k = indexOf (take m ps) !! k) → k ≠ blkMgrInfoKey →
  applyBatch M (batch_Put indexSavePointKey (encodeBlockNum (numberOf p))
    (deletes (concat (keysOf <$> drop (S a) (take m ps))) NewUpdateBatch)) !! k = indexOf (take (S a) ps) !! k.
Proof.
  intros Ha Hm Hp HM Hk. set (qs := drop (S a) (take m ps)).
  assert (take m ps = take (S a) ps ++ qs) as Hsplit.
  { unfold qs. rewrite <- (take_drop (S a) (take m ps)) at 1. by rewrite take_take, Nat.min_l by lia. }
  assert (∀ q, q ∈ qs → ∃ j, (S a <= j)%nat ∧ ps !! j = Some q) as Hqs.
  { intros q (t & Ht)%list_elem_of_lookup. unfold qs in Ht. rewrite lookup_drop in Ht.
    apply lookup_take_Some in Ht as [Ht _]. exists (S a + t)%nat. split; [lia|done]. }
  rewrite applyBatch_lookup. unfold batch_Put. destruct (decide (k = indexSavePointKey)) as [->|Hs].
  { rewrite lookup_insert_eq. rewrite (indexOf_savepoint sha256 indexItems bsi db0) by by apply numbered_take.
    rewrite last_lookup, length_take, Nat.min_l by lia. cbn [Nat.pred]. by rewrite lookup_take_lt, Hp by lia. }
  rewrite lookup_insert_ne, deletes_lookup by done. case_decide as Hd.
  - apply elem_of_concat in Hd as (ks & Hd & (q & -> & Hq)%list_elem_of_fmap). destruct (Hqs q Hq) as (j & Hj & Hjq). symmetry.
    destruct (indexOf (take (S a) ps) !! k) as [v|] eqn:E; [|done]. exfalso.
    apply indexOf_Some in E as [E|(i & p' & Hi & Hb)]; [by rewrite (keys_fresh j q k) in E|].
    apply lookup_take_Some in Hi as [Hi Hlt]. by rewrite (keys_apart i j p' q k) in Hb by (done || lia).
  - unfold NewUpdateBatch. rewrite lookup_empty, HM, Hsplit by done. apply indexOf_untouched. intros q Hq.
    destruct (batchOf q !! k) as [v|] eqn:E; [|done]. exfalso. destruct (Hqs q Hq) as (j & _ & Hjq).
    destruct (batchOf_keys q k v (proj1 (Hn _ _ Hjq)) E) as [|Hin]; [done|]. apply Hd.
    apply elem_of_concat. exists (keysOf q). split; [done|]. by apply list_elem_of_fmap_2.
Qed.
End chain.
End index.

Section rollback.
Context `{!Codec Envelope, !Codec Payload, !Codec ChannelHeader, !Codec SignatureHeader}.
Context `{!Codec TxIDIndexValue, !Codec BootstrappingSnapshotInfo}.
Context (sha256 : bytes → bytes) (indexItems : list IndexableAttr) (maxBlockfileSize : Z).
Context (bsi : option BootstrappingSnapshotInfo) (db0 : gmap bytes bytes).

Abbreviation setup_ok := (setup_ok indexItems maxBlockfileSize bsi db0).
Abbreviation stored := (stored sha256 indexItems maxBlockfileSize bsi db0).
Abbreviation bare := (bare sha256 indexItems maxBlockfileSize bsi db0).
Abbreviation holds := (holds sha256 indexItems maxBlockfileSize bsi db0).
Abbreviation opened := (opened sha256 indexItems maxBlockfileSize bsi db0).
Abbreviation chain_ok := (chain_ok sha256 indexItems bsi).
Abbreviation open := (newBlockfileMgr sha256 indexItems).
Abbreviation first := (firstNumber bsi).
Abbreviation txIDOf := (txIDOf sha256).
Abbreviation keysOf := (keysOf sha256 indexItems).
Abbreviation indexOf := (indexOf sha256 indexItems db0).

(** A store no file of which is empty. *)
Definition tidy (chain : list Block) (d : disk) : Prop :=
  ∃ lay junk n m, concat lay = chain ∧ stored lay junk n m d ∧ Forall (λ bl, bl ≠ []) lay ∧
    ∀ f x, d_files d !! f = Some x → 0 <= f < Z.of_nat (length lay).

(** The index tells blocks and transactions apart. *)
Definition distinct (chain : list Block) : Prop :=
  (∀ b tx, b ∈ chain → tx ∈ dataOf b → id_ok (txIDOf tx)) ∧
  (IndexableAttrBlockHash ∈ indexItems → NoDup ((λ b, BlockHeaderHash sha256 (blk_Header b)) <$> chain)).

(** ** Shorter stores *)

Lemma chain_ok_prefix chain chain' : chain_ok (chain ++ chain') → chain_ok chain.
Proof.
  intros [Hs Hl]. split; [by apply Forall_app in Hs as [? _]|]. intros i b Hi.
  destruct (Hl i b) as [Hn Hp]; [by apply lookup_app_l_Some|]. split; [done|]. pose proof (lookup_lt_Some _ _ _ Hi).
  by rewrite take_app_le in Hp by lia.
Qed.

Lemma grown_concat lay lay' : grown lay lay' → ∃ more, concat lay' = concat lay ++ more.
Proof.
  intros (front & bl & more & rest & -> & ->). rewrite !concat_app. cbn [concat]. rewrite app_nil_r.
  exists (more ++ concat rest). by rewrite <- !(assoc_L (++)).
Qed.

(** The store with the blocks of [lay], of which it had more. *)
Lemma bare_shorter lay0 lay junk0 junk m d0 d :
  bare lay0 junk0 m d0 → grown lay lay0 → Forall (λ bl, bl ≠ []) lay → laid lay junk d → partial junk →
  (∀ f x, d_files d !! f = Some x → 0 <= f < Z.of_nat (length lay)) → (m <= length (concat lay))%nat →
  (∀ f x, d_files d !! f = Some x → f_synced x = length (f_bytes x)) → d_bootstrap d = d_bootstrap d0 → d_db d = d_db d0 →
  bare lay junk m d.
Proof.
  intros [] Hg Hne Hl Hj Honly Hm Hsync Hboot Hdb. destruct (grown_concat _ _ Hg) as (more' & Hc).
  destruct (place_grown _ _ Hg) as (front & bl & more & rest & El & El0 & Hpl). split; try done.
  - split; [exact Hsync|]. rewrite Hdb. apply ba_quiet.
  - by rewrite Hboot.
  - rewrite Hc in ba_chain. by eapply chain_ok_prefix.
  - rewrite El. by destruct front.
  - rewrite El. rewrite El0 in ba_sizes. apply Forall_app in ba_sizes as [H1 H2]. apply Forall_app. split; [done|].
    apply Forall_singleton. inversion H2 as [|? ? [Hb|Hb] _]; subst.
    + left. rewrite fileBytes_app, blen_app in Hb. unfold blen in *. lia.
    + right. rewrite length_app in Hb. lia.
  - unfold view. rewrite Hdb. apply ba_info.
  - intros k Hk. unfold view. rewrite Hdb. fold (view d0). rewrite (ba_index k Hk), Hpl, take_app_le by (by rewrite place_total). done.
Qed.

(** ** Finding the target *)

(** How many blocks come before a file. *)
Definition before (lay : list (list Block)) (F : nat) : nat := length (concat (take F lay)).

Lemma before_S lay F bl : lay !! F = Some bl → before lay (S F) = (before lay F + length bl)%nat.
Proof. intros HF. unfold before. rewrite (take_S_r _ _ bl), concat_snoc, length_app by done. done. Qed.

Lemma before_lookup lay F bl c b : lay !! F = Some bl → bl !! c = Some b → concat lay !! (before lay F + c)%nat = Some b.
Proof.
  intros HF Hc. unfold before. replace (concat lay) with (concat (take F lay) ++ concat (drop F lay)) by (by rewrite <- concat_app, take_drop).
  rewrite (drop_S _ bl) by done. cbn [concat].
  rewrite lookup_app_r by lia. rewrite Nat.add_comm, Nat.add_sub. by apply lookup_app_l_Some.
Qed.

Lemma before_all lay : before lay (length lay) = length (concat lay).
Proof. unfold before. by rewrite firstn_all. Qed.

Section files.
Context (lay : list (list Block)) (junk : bytes) (m : nat) (d : disk).
Hypothesis Hb : bare lay junk m d.

Lemma bare_small : Forall (Forall small) lay.
Proof. eapply chain_small. apply Hb. Qed.

Lemma bare_block i b : concat lay !! i = Some b → storable indexItems b ∧ hdr_Number (blk_Header b) = first + Z.of_nat i.
Proof.
  intros Hi. split; [|by apply (co_linked _ _ _ _ (ba_chain Hb) i b Hi)].
  eapply (Forall_lookup_1 _ _ _ _ (co_storable _ _ _ _ (ba_chain Hb)) Hi).
Qed.

(** The bytes around a block of a file. *)
Lemma bare_bytes F bl : lay !! F = Some bl → ∃ rest, d_files d !! Z.of_nat F ≠ None ∧ fileBytesOf (Z.of_nat F) d = fileBytes bl ++ rest.
Proof.
  intros HF. destruct (ba_files Hb F bl HF) as (x & Hx & Hbx). eexists. split; [by rewrite Hx|].
  by rewrite (fileBytesOf_lookup _ _ _ Hx), Hbx.
Qed.

Lemma file_first F bl :
  lay !! F = Some bl → retrieveFirstBlockNumFromFile sha256 (Z.of_nat F) d = ok (first + Z.of_nat (before lay F)).
Proof.
  intros HF. destruct (bare_bytes F bl HF) as (rest & Hx & Hbytes).
  pose proof (Forall_lookup_1 _ _ _ _ (ba_nonempty Hb) HF) as Hne. destruct bl as [|b bl]; [done|].
  destruct (bare_block (before lay F + 0) b) as [Hs Hn]; [by eapply before_lookup|]. rewrite Nat.add_0_r in Hn.
  unfold retrieveFirstBlockNumFromFile, newBlockfileStream. destruct (d_files d !! Z.of_nat F); [|done]. cbn [Z.ltb Z.compare try_bind].
  change (mkBlockfileStream (Z.of_nat F) 0) with (mkBlockfileStream (Z.of_nat F) (blen [])).
  rewrite (nextBlock_frame _ d [] b (fileBytes bl ++ rest)) by (try apply Hs; by rewrite Hbytes, fileBytes_cons, <- (assoc_L (++))).
  cbn [ok try_bind]. destruct (storable_read sha256 indexItems b Hs) as [_ ->]. cbn [try_bind infoOf sbi_blockHeader]. by rewrite Hn.
Qed.

Lemma search_loop fuel (B E : nat) (a : nat) :
  (B <= E < length lay)%nat → (before lay B <= a < before lay (S E))%nat → (E - B <= fuel)%nat →
  ∃ F, binarySearchLoop sha256 fuel (Z.of_nat B) (Z.of_nat E) (first + Z.of_nat a) d = ok (Z.of_nat F) ∧
    (F < length lay)%nat ∧ (before lay F <= a < before lay (S F))%nat.
Proof.
  revert B E. induction fuel as [|fuel IH]; intros B E HE Ha Hf; cbn [binarySearchLoop];
    (destruct (Z.eqb_spec (Z.of_nat E) (Z.of_nat B)) as [Heq|Hne]; [assert (E = B) as -> by lia; exists B; split; [done|lia]|lia || idtac]).
  set (S1 := (B + (E - B) / 2 + 1)%nat).
  assert (Z.of_nat B + (Z.of_nat E - Z.of_nat B) / 2 + 1 = Z.of_nat S1) as ->.
  { unfold S1. rewrite !Nat2Z.inj_add, Nat2Z.inj_div, Nat2Z.inj_sub by lia. done. }
  assert (B < S1 <= E)%nat as HS.
  { unfold S1. pose proof (Nat.div_lt (E - B) 2 ltac:(lia) ltac:(lia)). lia. }
  destruct (lookup_lt_is_Some_2 lay S1) as [bl HF]; [lia|]. rewrite (file_first S1 bl HF). cbn [ok try_bind].
  destruct (Z.eqb_spec (first + Z.of_nat (before lay S1)) (first + Z.of_nat a)) as [Heq|Hn].
  - exists S1. split; [done|]. rewrite (before_S _ _ _ HF).
    pose proof (Forall_lookup_1 _ _ _ _ (ba_nonempty Hb) HF) as Hne'. destruct bl; [done|]. simpl. lia.
  - destruct (Z.gtb_spec (first + Z.of_nat (before lay S1)) (first + Z.of_nat a)).
    + replace (Z.of_nat S1 - 1) with (Z.of_nat (S1 - 1)) by lia. apply IH; [lia| |lia].
      replace (S (S1 - 1)) with S1 by lia. lia.
    + apply IH; lia.
Qed.

Lemma search (a : nat) :
  (a < length (concat lay))%nat →
  ∃ F, binarySearchFileNumForBlock sha256 (first + Z.of_nat a) d = ok (Z.of_nat F) ∧
    (F < length lay)%nat ∧ (before lay F <= a < before lay (S F))%nat.
Proof.
  intros Ha. unfold binarySearchFileNumForBlock. rewrite (bare_construct _ _ _ _ _ _ _ _ _ Hb).
  cbn [ok try_bind summary latestFileNumber]. pose proof (ba_some Hb) as Hne.
  assert (Z.of_nat (length lay) - 1 = Z.of_nat (length lay - 1)) as -> by (destruct lay; [done|simpl; lia]).
  apply (search_loop _ 0 (length lay - 1)); [destruct lay; [done|simpl; lia]| |rewrite Nat2Z.id; lia].
  split; [unfold before; simpl; lia|]. replace (S (length lay - 1)) with (length lay) by (destruct lay; [done|simpl; lia]).
  by rewrite before_all.
Qed.

Lemma end_offset_loop f n pre bl1 b bl2 fuel rest :
  Forall (storable indexItems) (bl1 ++ b :: bl2) → Forall (λ b, hdr_Number (blk_Header b) ≠ n) bl1 → hdr_Number (blk_Header b) = n →
  fileBytesOf f d = pre ++ fileBytes (bl1 ++ b :: bl2) ++ rest → (length bl1 <= fuel)%nat →
  endOffsetLoop sha256 fuel (mkBlockfileStream f (blen pre)) n d = ok (blen pre + blen (fileBytes (bl1 ++ [b]))).
Proof.
  intros Hs Hn Hb'. revert pre fuel. induction bl1 as [|b1 bl1 IH]; intros pre fuel Hbytes Hf; cbn [app] in *;
    apply Forall_cons in Hs as [Hsb Hs]; rewrite fileBytes_cons, <- (assoc_L (++)) in Hbytes; pose proof (sb_small Hsb) as Hsm.
  - destruct fuel; cbn [endOffsetLoop]; rewrite (nextBlock_frame f d pre b _ Hsm Hbytes); cbn [ok try_bind];
      destruct (storable_read sha256 indexItems b Hsb) as [_ ->]; cbn [try_bind infoOf sbi_blockHeader fs_currentOffset];
      rewrite Hb', Z.eqb_refl; by rewrite fileBytes_cons, app_nil_r.
  - apply Forall_cons in Hn as [Hn1 Hn]. destruct fuel as [|fuel]; [simpl in Hf; lia|]. cbn [endOffsetLoop].
    rewrite (nextBlock_frame f d pre b1 _ Hsm Hbytes). cbn [ok try_bind].
    destruct (storable_read sha256 indexItems b1 Hsb) as [_ ->]. cbn [try_bind infoOf sbi_blockHeader].
    destruct (Z.eqb_spec (hdr_Number (blk_Header b1)) n); [done|]. rewrite <- blen_app.
    rewrite (IH Hs Hn (pre ++ frame b1) fuel); [|by rewrite <- (assoc_L (++))|simpl in Hf; lia].
    rewrite fileBytes_cons, !blen_app. f_equal. lia.
Qed.

Lemma end_offset F bl1 b bl2 :
  lay !! F = Some (bl1 ++ b :: bl2) →
  calculateEndOffSet sha256 (Z.of_nat F) (first + Z.of_nat (before lay F + length bl1)) d = ok (blen (fileBytes (bl1 ++ [b]))).
Proof.
  intros HF. destruct (bare_bytes F _ HF) as (rest & Hx & Hbytes). unfold calculateEndOffSet, newBlockfileStream.
  destruct (d_files d !! Z.of_nat F); [|done]. cbn [Z.ltb Z.compare try_bind].
  assert (∀ c x, (bl1 ++ b :: bl2) !! c = Some x → storable indexItems x ∧ hdr_Number (blk_Header x) = first + Z.of_nat (before lay F + c)) as Hblk.
  { intros c x Hc. apply bare_block. by eapply before_lookup. }
  change (mkBlockfileStream (Z.of_nat F) 0) with (mkBlockfileStream (Z.of_nat F) (blen [])).
  rewrite (end_offset_loop (Z.of_nat F) _ [] bl1 b bl2 _ rest); [done| | | |done|].
  - apply Forall_lookup. intros c x Hc. by eapply Hblk.
  - apply Forall_lookup. intros c x Hc. pose proof (lookup_lt_Some _ _ _ Hc). destruct (Hblk c x) as [_ ->]; [by apply lookup_app_l_Some|]. lia.
  - apply (Hblk (length bl1)). by rewrite lookup_app_r, Nat.sub_diag by lia.
  - rewrite Hbytes. pose proof (Forall_lookup_1 _ _ _ _ bare_small HF) as Hsm. rewrite !length_app, fileBytes_app, length_app.
    apply Forall_app in Hsm as [Hsm _]. pose proof (fileBytes_count bl1 Hsm). lia.
Qed.

Lemma genesis_offset b bl :
  lay !! 0%nat = Some (b :: bl) → bsi = None → retrieveGenesisBlkOffset sha256 d = ok (blen (fileBytes [b])).
Proof.
  intros HF Hbsi. destruct (bare_bytes 0 _ HF) as (rest & Hx & Hbytes). unfold retrieveGenesisBlkOffset, newBlockfileStream.
  change (Z.of_nat 0) with 0 in *. destruct (d_files d !! 0); [|done]. cbn [Z.ltb Z.compare try_bind].
  destruct (bare_block (before lay 0 + 0) b) as [Hs Hn]; [by eapply before_lookup|].
  change (mkBlockfileStream 0 0) with (mkBlockfileStream 0 (blen [])).
  rewrite (nextBlock_frame _ d [] b (fileBytes bl ++ rest)) by (try apply Hs; by rewrite Hbytes, fileBytes_cons, <- (assoc_L (++))).
  cbn [ok try_bind]. unfold assertIsGenesisBlock. destruct (storable_read sha256 indexItems b Hs) as [-> _]. cbn [mbind res_bind].
  rewrite Hn. unfold first, firstNumber, before. rewrite Hbsi. cbn. by rewrite app_nil_r.
Qed.
End files.

(** ** Cutting the files *)

Lemma take_concat lay F bl c : lay !! F = Some bl → (c <= length bl)%nat → concat (take F lay ++ [take c bl]) = take (before lay F + c) (concat lay).
Proof.
  intros HF Hc. replace (concat lay) with (concat (take F lay) ++ concat (drop F lay)) by (by rewrite <- concat_app, take_drop).
  rewrite (drop_S _ bl), concat_snoc by done. cbn [concat]. unfold before.
  rewrite take_app_ge by lia. f_equal. rewrite Nat.add_comm, Nat.add_sub. by rewrite take_app_le by done.
Qed.

Lemma take_files lay k : concat (take k lay) = take (before lay k) (concat lay).
Proof.
  replace (concat lay) with (concat (take k lay) ++ concat (drop k lay)) by (by rewrite <- concat_app, take_drop).
  unfold before. by rewrite take_app_length.
Qed.

Lemma grown_cut lay F bl1 bl2 : lay !! F = Some (bl1 ++ bl2) → grown (take F lay ++ [bl1]) (take (S F) lay).
Proof. intros HF. exists (take F lay), bl1, bl2, []. split; [done|]. by rewrite (take_S_r _ _ (bl1 ++ bl2)). Qed.

Lemma grown_drop lay k : (0 < k < length lay)%nat → grown (take k lay) (take (S k) lay).
Proof.
  intros Hk. destruct (lookup_lt_is_Some_2 lay (k - 1)) as [bl Hbl]; [lia|]. destruct (lookup_lt_is_Some_2 lay k) as [bl' Hbl']; [lia|].
  exists (take (k - 1) lay), bl, [], [bl']. rewrite app_nil_r. replace k with (S (k - 1)) at 1 by lia. split; [by apply take_S_r|].
  rewrite (take_S_r _ _ bl') by done. replace k with (S (k - 1)) at 1 by lia. rewrite (take_S_r _ _ bl), <- (assoc_L (++)) by done. done.
Qed.

Lemma bare_removed lay k junk m d :
  (0 < k < length lay)%nat → bare (take (S k) lay) junk m d → (m <= before lay k)%nat →
  bare (take k lay) [] m (deleteFile (Z.of_nat k) d).
Proof.
  intros Hk Hb Hm. assert (length (take (S k) lay) = S k) as Hl by (rewrite length_take; lia).
  eapply (bare_shorter (take (S k) lay)); [exact Hb|by apply grown_drop| | |apply partial_empty| |done| |done|done].
  - pose proof (ba_nonempty Hb) as H. rewrite <- (take_drop k (take (S k) lay)), take_take, Nat.min_l in H by lia. by apply Forall_app in H as [? _].
  - intros i bl Hi. apply lookup_take_Some in Hi as [Hi Hlt]. destruct (ba_files Hb i bl) as (x & Hx & Hbx).
    { by rewrite lookup_take_lt by lia. }
    exists x. unfold deleteFile. cbn [d_files]. rewrite lookup_delete_ne by lia. split; [done|].
    rewrite Hbx, Hl. destruct (decide (S i = S k)); [lia|]. by destruct (decide (S i = length (take k lay))).
  - intros f x. unfold deleteFile. cbn [d_files]. intros [Hf Hx]%lookup_delete_Some. pose proof (ba_only Hb f x Hx) as H.
    rewrite Hl in H. rewrite length_take. lia.
  - intros f x. unfold deleteFile. cbn [d_files]. intros [_ Hx]%lookup_delete_Some. by eapply (quiet_files _ (ba_quiet Hb)).
Qed.

Lemma bare_truncated lay F bl1 bl2 junk m d :
  lay !! F = Some (bl1 ++ bl2) → bl1 ≠ [] → bare (take (S F) lay) junk m d → (m <= before lay F + length bl1)%nat →
  bare (take F lay ++ [bl1]) [] m (truncateTo (Z.of_nat F) (length (fileBytes bl1)) d).
Proof.
  intros HF Hne Hb Hm. pose proof (lookup_lt_Some _ _ _ HF) as HFl.
  assert (take (S F) lay !! F = Some (bl1 ++ bl2)) as HF' by (by rewrite lookup_take_lt by lia).
  assert (length (take (S F) lay) = S F) as Hl by (rewrite length_take; lia).
  destruct (ba_files Hb F _ HF') as (x & Hx & Hbx). unfold truncateTo. rewrite Hx.
  assert (take (length (fileBytes bl1)) (f_bytes x) = fileBytes bl1) as Ht.
  { rewrite Hbx, fileBytes_app, <- (assoc_L (++)). by rewrite take_app_length. }
  eapply (bare_shorter (take (S F) lay)); [exact Hb|by eapply grown_cut| | |apply partial_empty| | | |done|done].
  - pose proof (ba_nonempty Hb) as H. rewrite (take_S_r _ _ _ HF) in H. apply Forall_app in H as [H _]. apply Forall_app. split; [done|].
    by apply Forall_singleton.
  - intros i bl Hi. unfold setFile. cbn [d_files]. rewrite length_app, length_take. cbn [length]. apply lookup_app_Some in Hi as [Hi|[Hge Hi]].
    + apply lookup_take_Some in Hi as [Hi Hlt]. destruct (ba_files Hb i bl) as (y & Hy & Hby); [by rewrite lookup_take_lt by lia|].
      exists y. rewrite lookup_insert_ne by lia. split; [done|]. rewrite Hby, Hl. rewrite !decide_False by lia. done.
    + apply list_lookup_singleton_Some in Hi as [Hi <-]. rewrite length_take in Hi, Hge. assert (i = F) as -> by lia.
      eexists. split; [apply lookup_insert_eq|]. cbn [f_bytes]. rewrite Ht. clear Hbx; case_decide; by rewrite app_nil_r.
  - intros f y. unfold setFile. cbn [d_files]. rewrite length_app, length_take. cbn [length].
    intros [[<- _]|[_ Hy]]%lookup_insert_Some; [lia|]. pose proof (ba_only Hb f y Hy) as H. rewrite Hl in H. lia.
  - by rewrite concat_snoc, length_app.
  - intros f y. unfold setFile. cbn [d_files]. intros [[_ <-]|[_ Hy]]%lookup_insert_Some; [|by eapply (quiet_files _ (ba_quiet Hb))].
    cbn [f_bytes f_synced]. rewrite (quiet_files _ (ba_quiet Hb) _ _ Hx), Ht, Hbx, !length_app. rewrite fileBytes_app, length_app. lia.
Qed.

Lemma before_mono lay k k' : (k <= k')%nat → (before lay k <= before lay k')%nat.
Proof.
  intros Hk. unfold before. rewrite <- (take_drop k (take k' lay)), take_take, Nat.min_l, concat_app, length_app by lia. lia.
Qed.

(** ** The files *)

Section runs.
Context (Hs : setup_ok) (w : weather) (C : disk → Prop) (lay : list (list Block)) (a : nat).

(** A store whose chain goes at least to the target. *)
Definition reached (chain : list Block) (d : disk) : Prop := ∃ j, (a < j)%nat ∧ holds (take j chain) d.

(** Nothing but files is changed, and there are no more of them. *)
Definition fewer (d d' : disk) : Prop := d_preReset d' = d_preReset d ∧ (size (d_files d') <= size (d_files d))%nat.

(** What is to hold of every disk that may be left: it has the chain of some files and a
    part of the last one, or is as it was, and something [R] that removing files keeps. *)
Context (R : disk → Prop).
Hypothesis HR : ∀ d d', fewer d d' → R d → R d'.
Hypothesis HCb : ∀ j lay' junk m d, (a < j)%nat → concat lay' = take j (concat lay) → bare lay' junk m d → R d → C d.
Hypothesis HCs : ∀ junk n m d, stored lay junk n m d → C d.
Hypothesis Ha : (a < length (concat lay))%nat.

Definition rb_post (P : disk → Prop) (r : res unit) (d : disk) : Prop :=
  match r with Ok _ => P d | Err _ => w ≠ Calm ∧ C d end.

Lemma bare_C k junk m d : bare (take k lay) junk m d → (a < before lay k)%nat → R d → C d.
Proof. intros Hb Hk. apply (HCb (before lay k) (take k lay) junk m); [done|by rewrite <- take_files|done]. Qed.

Lemma wp_removeFiles F n junk m d (P : disk → Prop) :
  (S F + n <= length lay)%nat → (a < before lay (S F))%nat → (m <= S a)%nat → bare (take (S F + n) lay) junk m d → R d →
  (∀ d' junk', bare (take (S F) lay) junk' m d' → fewer d d' → P d') →
  wp w C (removeFiles n (Z.of_nat (S F + n) - 1)) (rb_post P) d.
Proof.
  intros Hn Hk Hm. revert junk d. induction n as [|n IH]; intros junk d Hb HRd HP; cbn [removeFiles].
  { apply wp_ret. rewrite Nat.add_0_r in Hb. eapply HP; [exact Hb|done]. }
  replace (S F + S n)%nat with (S (S F + n)) in * by lia. set (k := (S F + n)%nat) in *.
  pose proof (before_mono lay (S F) k ltac:(lia)) as Hmono. pose proof (before_mono lay (S F) (S k) ltac:(lia)) as Hmono'.
  replace (Z.of_nat (S k) - 1) with (Z.of_nat k) by lia.
  destruct (lookup_lt_is_Some_2 lay k) as [bl Hbl]; [lia|].
  destruct (ba_files Hb k bl) as (x & Hx & _); [by rewrite lookup_take_lt by lia|].
  pose proof (bare_removed lay k junk m d ltac:(lia) Hb ltac:(lia)) as Hb'.
  assert (fewer d (deleteFile (Z.of_nat k) d)) as Hfew.
  { split; [done|]. unfold deleteFile. cbn [d_files]. rewrite map_size_delete, Hx. lia. }
  pose proof (HR _ _ Hfew HRd) as HRd'.
  assert (C d) as HCd by (eapply bare_C; [exact Hb|lia|done]). assert (C (deleteFile (Z.of_nat k) d)) as HCd' by (eapply bare_C; [exact Hb'|lia|done]).
  apply wp_try. unfold os_Remove. apply wp_bind, wp_reads. rewrite Hx. apply wp_atomic.
  - apply (IH ltac:(lia) [] _ Hb' HRd'). intros d' junk' Hd' [Hp Hsz]. eapply HP; [exact Hd'|]. split; [done|].
    etrans; [exact Hsz|]. apply Hfew.
  - intros Hw. split; [by rewrite Hw|done].
  - done.
Qed.

Lemma wp_truncated F bl1 bl2 junk m d (P : disk → Prop) :
  lay !! F = Some (bl1 ++ bl2) → a = (before lay F + length bl1 - 1)%nat → bl1 ≠ [] → (m <= S a)%nat → bare (take (S F) lay) junk m d → R d →
  (∀ d', bare (take F lay ++ [bl1]) [] m d' → fewer d d' → P d') →
  wp w C (os_Truncate (Z.of_nat F) (length (fileBytes bl1))) (rb_post P) d.
Proof.
  intros HF Ea Hne Hm Hb HRd HP. assert (0 < length bl1)%nat by (destruct bl1; [done|simpl; lia]).
  pose proof (bare_truncated lay F bl1 bl2 junk m d HF Hne Hb ltac:(lia)) as Hb'.
  assert (C d) as HCd. { eapply bare_C; [exact Hb| |done]. rewrite (before_S _ _ _ HF), length_app. lia. }
  assert (fewer d (truncateTo (Z.of_nat F) (length (fileBytes bl1)) d)) as Hfew.
  { unfold truncateTo, fewer. destruct (ba_files Hb F (bl1 ++ bl2)) as (x & Hx & _); [by rewrite lookup_take_lt by lia|].
    rewrite Hx. cbn [setFile d_preReset d_files]. split; [done|]. by rewrite map_size_insert, Hx. }
  apply wp_atomic.
  - by apply HP.
  - intros Hw. split; [by rewrite Hw|done].
  - intros _. split; [done|]. apply (HCb (S a) (take F lay ++ [bl1]) [] m); [lia| |done|by apply (HR _ _ Hfew)].
    rewrite <- (firstn_all bl1) at 1. rewrite <- (take_app_le bl1 bl2) at 1 by lia.
    rewrite (take_concat lay F (bl1 ++ bl2)); [f_equal; lia|done|rewrite length_app; lia].
Qed.

(** After the summary is gone. *)
Lemma wp_cutFiles junk m d (P : disk → Prop) :
  bare lay junk m d → R d → (m <= S a)%nat →
  (∀ lay' d', bare lay' [] m d' → concat lay' = take (S a) (concat lay) → fewer d d' → P d') →
  wp w C (r ← reads (binarySearchFileNumForBlock sha256 (first + Z.of_nat a)); targetFileNum ←! io_outcome r;
          lastFileNum ← reads retrieveLastFileSuffix;
          _ ←! removeFiles (Z.to_nat (lastFileNum - targetFileNum)) lastFileNum;
          r ← reads (calculateEndOffSet sha256 targetFileNum (first + Z.of_nat a)); endOffset ←! io_outcome r;
          os_Truncate targetFileNum (Z.to_nat endOffset)) (rb_post P) d.
Proof.
  intros Hb HRd Hm HP. apply wp_bind, wp_reads. destruct (search _ _ _ _ Hb a Ha) as (F & -> & HF & Hba).
  apply wp_try. eapply wp_outcome; [done|]. cbn [ok]. apply wp_bind, wp_reads. rewrite (bare_last_suffix _ _ _ _ _ _ _ _ _ Hb).
  destruct (lookup_lt_is_Some_2 lay F) as [bl Hbl]; [done|]. rewrite (before_S _ _ _ Hbl) in Hba.
  set (c := (a - before lay F)%nat). destruct (lookup_lt_is_Some_2 bl c) as [b Hbc]; [lia|].
  assert (bl = take c bl ++ b :: drop (S c) bl) as Esplit by (by rewrite take_drop_middle).
  assert (bl = (take c bl ++ [b]) ++ drop (S c) bl) as Esplit' by (by rewrite <- (assoc_L (++))).
  assert (length (take c bl) = c) as Elen by (rewrite length_take; lia).
  replace (Z.to_nat (Z.of_nat (length lay) - 1 - Z.of_nat F)) with (length lay - S F)%nat by lia.
  replace (Z.of_nat (length lay) - 1) with (Z.of_nat (S F + (length lay - S F)) - 1) by lia.
  apply wp_try. eapply wp_mono; [eapply (wp_removeFiles F (length lay - S F) junk m d (λ d', ∃ junk', bare (take (S F) lay) junk' m d' ∧ fewer d d'))|].
  - lia.
  - rewrite (before_S _ _ _ Hbl). lia.
  - done.
  - rewrite take_ge by lia. done.
  - done.
  - intros d' junk' Hd' Hf'. by exists junk'.
  - intros [[]|e] d1 Hd1; [|exact Hd1]. destruct Hd1 as (junk1 & Hb1 & Hf1). apply wp_bind, wp_reads.
    assert (before (take (S F) lay) F = before lay F) as Eb by (unfold before; by rewrite take_take, Nat.min_l by lia).
    pose proof (end_offset (take (S F) lay) junk1 m d1 Hb1 F (take c bl) b (drop (S c) bl)) as Heo.
    rewrite Eb, Elen in Heo. replace (before lay F + c)%nat with a in Heo by lia.
    rewrite Heo by (rewrite lookup_take_lt, Hbl by lia; by f_equal). apply wp_try. eapply wp_outcome; [done|]. cbn [ok]. rewrite blen_nat.
    eapply (wp_truncated F (take c bl ++ [b]) (drop (S c) bl) junk1 m d1); [rewrite Hbl; by f_equal| |by destruct (take c bl)|done|done|by apply (HR _ _ Hf1)|].
    { rewrite length_app, Elen. simpl. lia. }
    intros d2 Hb2 [Hp2 Hs2]. destruct Hf1 as [Hp1 Hs1]. eapply HP; [exact Hb2| |split; [congruence|lia]].
    rewrite <- (take_S_r bl c b Hbc), (take_concat lay F bl) by (done || lia). f_equal. lia.
Qed.

(** ** The index *)

Abbreviation ps := (place 0 lay).
Abbreviation total := (length (concat lay)).
Hypothesis Hd : distinct (concat lay).

Definition sameDir (d d' : disk) : Prop := d_files d' = d_files d ∧ d_preReset d' = d_preReset d.


Lemma collect junk n m d k (s : nat) stream batch :
  stored lay junk n m d → (s + k <= total)%nat → streamAt lay stream (drop s ps) → bs_endFileNum stream = -1 →
  collectDeletes sha256 indexItems k stream batch d = ok (deletes (concat (keysOf <$> take k (drop s ps))) batch).
Proof.
  intros Hst. revert s stream batch. induction k as [|k IH]; intros s stream batch Hk Hstr He; [done|].
  destruct (lookup_lt_is_Some_2 ps s) as [p Hp]; [rewrite place_total; lia|]. rewrite (drop_S _ p) in Hstr |- * by done.
  destruct (next_block lay junk d stream p (drop (S s) ps)) as (s' & Hnext & Hs' & He');
    [by apply (chain_small sha256 indexItems bsi), Hst|apply Hst|done|left; lia|].
  cbn [collectDeletes]. rewrite Hnext. cbn [ok try_bind]. destruct (stored_numbered Hst _ _ Hp) as [Hsp _].
  destruct (storable_read sha256 indexItems _ Hsp) as [_ ->]. cbn [try_bind]. rewrite (IH (S s)); [|lia|done|by rewrite He'].
  cbn [take fmap list_fmap concat]. unfold deletes at 2. by rewrite foldl_app.
Qed.

Lemma wp_deleteRange junk n m (s : nat) d (P : disk → Prop) :
  stored lay junk n m d → few d → (0 < s < m)%nat →
  (∀ d', stored lay junk n s d' → sameDir d d' → P d') →
  wp w C (deleteIndexEntriesRange sha256 indexItems (first + Z.of_nat s) (first + Z.of_nat m - 1)) (rb_post P) d.
Proof.
  intros Hst Hf Hsm HP. pose proof (st_index_le Hst) as Hmn. pose proof (st_count_le Hst) as Hnt.
  unfold deleteIndexEntriesRange. apply wp_bind, wp_reads. pose proof (first_nonneg _ _ _ _ Hs) as H0.
  pose proof (number_bound Hst m ltac:(lia) ltac:(lia)) as Hbound.
  destruct (lookup_lt_is_Some_2 ps s) as [p Hp]; [rewrite place_total; lia|].
  destruct (lookup_lt_is_Some_2 ps (s - 1)) as [q Hq]; [rewrite place_total; lia|].
  destruct (stored_numbered Hst _ _ Hp) as [_ Hnp]. destruct (stored_numbered Hst _ _ Hq) as [_ Hnq].
  rewrite <- Hnp at 1. rewrite (find_block _ _ _ _ _ Hs _ _ _ _ _ Hst Hf s p Hp) by lia. cbn [try_bind].
  destruct (place_split lay s p Hp) as (i & bl1 & bl2 & Hi & Hpf & Hpo). destruct (st_files Hst i _ Hi) as (x & Hx & _).
  unfold newBlockStream, newBlockfileStream, locOf. cbn [fileSuffixNum flp_loc lp_offset].
  destruct (d_files d !! pl_file p) eqn:Ex; [|by rewrite Hpf, Hx in Ex].
  destruct (Z.ltb_spec (pl_offset p) 0); [rewrite Hpo in *; unfold blen in *; lia|]. cbn [mbind res_bind try_bind].
  rewrite u64_small by (unfold is_u64; lia).
  replace (Z.to_nat (first + Z.of_nat m - 1 - (first + Z.of_nat s) + 1)) with (m - s)%nat by lia.
  rewrite (collect junk n m d (m - s) s) by (done || lia || by apply streamAt_place). apply wp_try. eapply wp_outcome; [done|]. cbn [ok].
  rewrite u64_small by (unfold is_u64; lia). replace (first + Z.of_nat s - 1) with (numberOf q) by lia.
  rewrite take_drop_commute. replace (s + (m - s))%nat with m by lia.
  set (batch := batch_Put _ _ _). assert (batch ≠ ∅) as Hne.
  { intros E. apply (f_equal (lookup indexSavePointKey)) in E. unfold batch, batch_Put in E. by rewrite lookup_insert_eq, lookup_empty in E. }
  assert (stored lay junk n s (writeDB batch true d)) as Hst'.
  { eapply (stored_db _ _ _ _ _ _ _ n m); try done; try lia; [by apply write_quiet, Hst| |].
    - rewrite view_write, applyBatch_lookup. unfold batch, batch_Put. rewrite lookup_insert_ne, deletes_lookup by done.
      rewrite decide_False; [apply (st_info Hst)|]. intros (ks & Hk & (r & -> & _)%list_elem_of_fmap)%elem_of_concat. by apply keysOf_head in Hk as [_ ?].
    - intros k Hk. rewrite view_write. unfold batch. destruct Hd as [Hids Hhash].
      pose proof (rollback_index sha256 indexItems maxBlockfileSize bsi db0 Hs ps (stored_numbered Hst)) as Hri.
      replace s with (S (s - 1)) by lia. apply Hri; try done.
      + intros i' p' j tx Hi' Hj. apply (Hids (pl_block p')); [|by eapply list_elem_of_lookup_2].
        eapply list_elem_of_lookup_2. by rewrite chain_place, Hi'.
      + intros Hin. rewrite <- (place_blocks 0 lay), <- list_fmap_compose in Hhash. by apply Hhash.
      + rewrite place_total. lia.
      + lia.
      + intros _. by apply Hst. }
  unfold db_WriteBatch. rewrite decide_False by done. apply wp_atomic.
  - apply HP; [done|]. split; done.
  - intros Hw. split; [by rewrite Hw|by eapply HCs].
  - intros _. split; by eapply HCs.
Qed.

Lemma sameDir_trans d1 d2 d3 : sameDir d1 d2 → sameDir d2 d3 → sameDir d1 d3.
Proof. intros [H1 H2] [H3 H4]. split; congruence. Qed.

Lemma sameDir_few d d' : sameDir d d' → few d → few d'.
Proof. intros [H _] Hf. unfold few in *. by rewrite H. Qed.

Lemma wp_rollbackLoop fuel junk n m d (P : disk → Prop) :
  stored lay junk n m d → few d → 0 <= first + Z.of_nat m - 1 → (m <= fuel + S a)%nat →
  (∀ d' m', stored lay junk n m' d' → (m' <= S a)%nat → sameDir d d' → P d') →
  wp w C (rollbackLoop sha256 indexItems fuel (first + Z.of_nat a) (first + Z.of_nat m - 1)) (rb_post P) d.
Proof.
  revert m d. induction fuel as [|fuel IH]; intros m d Hst Hf Hm Hfuel HP; cbn [rollbackLoop];
    pose proof (first_nonneg _ _ _ _ Hs) as H0; pose proof (number_bound Hst total ltac:(lia) ltac:(lia)) as Hb;
    pose proof (st_index_le Hst) as Hmn; pose proof (st_count_le Hst) as Hnt;
    (rewrite (u64_small (first + Z.of_nat a + 1)) by (unfold is_u64; lia));
    (destruct (Z.geb_spec (first + Z.of_nat m - 1) (first + Z.of_nat a + 1)) as [Hge|Hlt];
      [|apply wp_ret; apply (HP d m); [done|lia|done]]); [lia|].
  set (s := if decide (10 <= m - 1 - S a)%nat then (m - 10)%nat else S a).
  assert ((if u64 (first + Z.of_nat m - 1 - (first + Z.of_nat a + 1)) >=? batchLimit
           then u64 (first + Z.of_nat m - 1 - batchLimit + 1) else first + Z.of_nat a + 1) = first + Z.of_nat s) as ->.
  { unfold s, batchLimit. rewrite (u64_small (_ - (_ + 1))) by (unfold is_u64; lia).
    destruct (Z.geb_spec (first + Z.of_nat m - 1 - (first + Z.of_nat a + 1)) 10), (decide (10 <= m - 1 - S a)%nat);
      rewrite ?u64_small by (unfold is_u64; lia); lia. }
  assert (S a <= s < m)%nat as Hsm by (unfold s; case_decide; lia).
  apply wp_try. eapply wp_mono; [apply (wp_deleteRange junk n m s d (λ d', stored lay junk n s d' ∧ sameDir d d') Hst Hf); [lia|]|].
  - intros d' Hd' Hf'. by split.
  - intros [[]|e] d' Hd'; [|exact Hd']. destruct Hd' as [Hst' Hfew']. rewrite u64_small by (unfold is_u64; lia).
    apply (IH s); [done|by eapply sameDir_few|lia|lia|]. intros d2 m2 Hst2 Hm2 Hf2. eapply HP; [exact Hst2|done|by eapply sameDir_trans].
Qed.

Lemma wp_rollbackIndex junk n m d (P : disk → Prop) :
  stored lay junk n m d → few d →
  (∀ d' m', stored lay junk n m' d' → (m' <= S a)%nat → sameDir d d' → P d') →
  wp w C (rollbackBlockIndex sha256 indexItems (first + Z.of_nat a)) (rb_post P) d.
Proof.
  intros Hst Hf HP. unfold rollbackBlockIndex. apply wp_bind, wp_reads.
  pose proof (st_index_le Hst) as Hmn. pose proof (st_count_le Hst) as Hnt. pose proof (first_nonneg _ _ _ _ Hs) as H0.
  destruct (last_indexed _ _ _ _ _ Hs _ _ _ _ _ Hst) as [(-> & Hm & _)|[-> Hm]].
  - rewrite decide_True by done. apply wp_ret. apply (HP d m); [done|lia|done].
  - apply (wp_rollbackLoop _ junk n m); [done|done|lia|lia|done].
Qed.

(** ** The whole *)

Definition maxHeight (h0 : option Z) : Z := Z.max (default 0 h0) (first + Z.of_nat total).

Lemma wp_recordHeight d h0 (P : disk → Prop) :
  constructBlockfilesInfo sha256 d = ok (summary bsi lay total) → first + Z.of_nat total < 2 ^ 64 → loadPreResetHeight d = Ok h0 →
  C d → (∀ s, loadPreResetHeight (writePreReset s d) = Ok (Some (maxHeight h0)) → C (writePreReset s d)) →
  (∀ d', (d' = d ∨ ∃ s, d' = writePreReset s d) → loadPreResetHeight d' = Ok (Some (maxHeight h0)) → P d') →
  wp w C (recordHeight sha256) (rb_post P) d.
Proof.
  intros Hc Hb Hh HCd HCw HP. unfold recordHeight. apply wp_bind, wp_reads. rewrite Hc. apply wp_try. eapply wp_outcome; [done|]. cbn [ok].
  apply wp_bind, wp_reads. pose proof (first_nonneg _ _ _ _ Hs) as H0. cbn [summary lastPersistedBlock]. rewrite decide_False by lia.
  assert ((match d_preReset d with None => Ok 0 | Some s => match ParseUint64 s with Some h => Ok h | None => Err (Errorf "invalid syntax") end end : res Z)
    = Ok (default 0 h0) ∧ (h0 = None ∨ ∃ h, h0 = Some h)) as [-> Hcase].
  { unfold loadPreResetHeight in Hh. destruct (d_preReset d) as [s|]; [destruct (ParseUint64 s); [|done]|]; injection Hh as <-; naive_solver. }
  apply wp_try, wp_ret. replace (first + Z.of_nat total - 1 + 1) with (first + Z.of_nat total) by lia. rewrite u64_small by (unfold is_u64; lia).
  destruct (Z.gtb_spec (first + Z.of_nat total) (default 0 h0)) as [Hgt|Hle].
  - assert (loadPreResetHeight (writePreReset (pretty (first + Z.of_nat total)) d) = Ok (Some (maxHeight h0))) as Hw.
    { unfold loadPreResetHeight, writePreReset. cbn [d_preReset]. rewrite ParseUint64_pretty by lia. unfold maxHeight. by rewrite Z.max_r by lia. }
    apply wp_atomic; [|intros Hw'; split; [by rewrite Hw'|done]|intros _; split; [done|by apply HCw]]. apply HP; [by right; eexists|done].
  - apply wp_ret. apply HP; [by left|]. rewrite Hh. destruct Hcase as [->|[h ->]]; cbn [default from_option id] in *; [lia|].
    unfold maxHeight. cbn [default from_option id]. by rewrite Z.max_l by lia.
Qed.

Lemma stored_preReset junk n m d s : stored lay junk n m d → stored lay junk n m (writePreReset s d).
Proof. intros []. split; try done. destruct st_quiet. by split. Qed.

Definition tidyFiles (d : disk) : Prop := ∀ f x, d_files d !! f = Some x → 0 <= f < Z.of_nat (length lay).

Lemma tidy_bare junk n m d :
  stored lay junk n m d → Forall (λ bl, bl ≠ []) lay → tidyFiles d → bare lay junk m (writeDB {[ blkMgrInfoKey := None ]} true d).
Proof.
  intros Hst Hne Hf. pose proof (lay_nonempty Hst). pose proof (st_index_le Hst). pose proof (st_count_le Hst). destruct Hst. split; try done.
  - by apply write_quiet.
  - lia.
  - by rewrite view_write, applyBatch_lookup, lookup_singleton_eq.
  - intros k Hk. rewrite view_write, applyBatch_lookup, lookup_singleton_ne by done. auto.
Qed.

Lemma wp_Rollback junk n m d h0 :
  (∀ d, R d) → stored lay junk n m d → few d → Forall (λ bl, bl ≠ []) lay → tidyFiles d → loadPreResetHeight d = Ok h0 →
  wp w C (Rollback sha256 indexItems (first + Z.of_nat a))
    (rb_post (λ d', holds (take (S a) (concat lay)) d' ∧ few d' ∧ loadPreResetHeight d' = Ok (Some (maxHeight h0)))) d.
Proof.
  intros HRany Hst Hf Hne Ht Hh. pose proof (number_bound Hst total ltac:(lia) ltac:(lia)) as Hb. unfold Rollback. apply wp_try.
  eapply wp_mono; [apply (wp_recordHeight d h0 (λ d', (d' = d ∨ ∃ s, d' = writePreReset s d) ∧ loadPreResetHeight d' = Ok (Some (maxHeight h0))))|].
  - by eapply same_construct; [exact (tidy_bare _ _ _ _ Hst Hne Ht)|].
  - lia.
  - done.
  - by eapply HCs.
  - intros s _. by eapply HCs, stored_preReset.
  - done.
  - intros [[]|e] d1 Hd1; [|exact Hd1]. destruct Hd1 as [Hd1 Hh1].
    assert (stored lay junk n m d1 ∧ d_files d1 = d_files d) as [Hst1 Hfiles1].
    { destruct Hd1 as [->|[s ->]]; [done|]. split; [by apply stored_preReset|done]. }
    apply wp_try. eapply wp_mono; [apply (wp_rollbackIndex junk n m d1 (λ d', ∃ m', stored lay junk n m' d' ∧ (m' <= S a)%nat ∧ sameDir d1 d') Hst1)|].
    + unfold few. by rewrite Hfiles1.
    + intros d' m' Hd' Hm' Hdir. by exists m'.
    + intros [[]|e] d2 Hd2; [|exact Hd2]. destruct Hd2 as (m2 & Hst2 & Hm2 & Hdir2 & Hpre2).
      assert (bare lay junk m2 (writeDB {[ blkMgrInfoKey := None ]} true d2)) as Hb2.
      { eapply tidy_bare; [done|done|]. unfold tidyFiles. by rewrite Hdir2, Hfiles1. }
      unfold rollbackBlockFiles. apply wp_try, wp_atomic.
      * apply (wp_cutFiles junk m2); [done|done|done|]. intros lay' d3 Hb3 Hc3 [Hp3 Hs3]. split; [|split].
        -- right. right. by exists lay', [], m2.
        -- unfold few in *. cbn [writeDB d_files] in Hs3. rewrite Hdir2, Hfiles1 in Hs3. lia.
        -- unfold loadPreResetHeight in *. rewrite Hp3. cbn [writeDB d_preReset]. by rewrite Hpre2.
      * intros Hw. split; [by rewrite Hw|by eapply HCs].
      * intros _. split; [by eapply HCs|]. apply (bare_C (length lay) junk m2); [by rewrite firstn_all|by rewrite before_all|done].
Qed.

(** ** Reset *)

Lemma bare_dropped junk m d : db0 = ∅ → bare lay junk m d → bare lay junk 0 (dropIndex d).
Proof.
  intros H0 []. split; try done.
  - destruct ba_quiet. by split.
  - apply Nat.le_0_l.
  - intros k _. unfold view, dropIndex. cbn [d_db]. rewrite take_0. unfold BlockStore.indexOf. cbn. by rewrite H0.
Qed.

Lemma tidy_dropped junk n m d :
  db0 = ∅ → stored lay junk n m d → Forall (λ bl, bl ≠ []) lay → tidyFiles d → bare lay junk 0 (dropIndex d).
Proof. intros H0 Hst Hne Hf. eapply (bare_dropped _ _ (writeDB {[ blkMgrInfoKey := None ]} true d)); [done|]. by eapply tidy_bare. Qed.

Lemma wp_resetFiles junk d (P : disk → Prop) :
  bare lay junk 0 d → R d → a = 0%nat → bsi = None →
  (∀ lay' d', bare lay' [] 0 d' → concat lay' = take 1 (concat lay) → fewer d d' → P d') →
  wp w C (resetToGenesisBlk sha256) (rb_post P) d.
Proof.
  intros Hb HRd Ha0 Hbsi HP. unfold resetToGenesisBlk. apply wp_bind, wp_reads. rewrite (bare_last_suffix _ _ _ _ _ _ _ _ _ Hb).
  pose proof (ba_some Hb) as Hne. assert (length lay ≠ 0)%nat as Hlen by (by intros E%nil_length_inv).
  destruct (lookup_lt_is_Some_2 lay 0) as [[|b bl] Hbl]; [lia|by apply (Forall_lookup_1 _ _ _ _ (ba_nonempty Hb)) in Hbl|].
  destruct (Z.ltb_spec (Z.of_nat (length lay) - 1) 0); [lia|]. apply wp_bind, wp_reads. rewrite (genesis_offset _ _ _ _ Hb b bl Hbl Hbsi).
  apply wp_try. eapply wp_outcome; [done|]. cbn [ok].
  assert (C d) as HCd. { apply (bare_C (length lay) junk 0); [by rewrite firstn_all|by rewrite before_all|done]. }
  apply wp_try, wp_atomic; [|intros Hw; split; [by rewrite Hw|done]|done].
  replace (Z.to_nat (Z.of_nat (length lay) - 1)) with (length lay - 1)%nat by lia.
  replace (Z.of_nat (length lay) - 1) with (Z.of_nat (1 + (length lay - 1)) - 1) by lia.
  apply wp_try. eapply wp_mono; [eapply (wp_removeFiles 0 (length lay - 1) junk 0 d (λ d', ∃ junk', bare (take 1 lay) junk' 0 d' ∧ fewer d d'))|].
  - lia.
  - rewrite (before_S _ _ _ Hbl), Ha0. cbn. lia.
  - lia.
  - rewrite take_ge by lia. done.
  - done.
  - intros d' junk' Hd' Hf'. by exists junk'.
  - intros [[]|e] d1 Hd1; [|exact Hd1]. destruct Hd1 as (junk1 & Hb1 & Hp1 & Hs1). rewrite blen_nat.
    eapply (wp_truncated 0 [b] bl junk1 0 d1); [done|by rewrite Ha0|done|lia|done|by apply (HR d)|].
    intros d2 Hb2 [Hp2 Hs2]. eapply HP; [exact Hb2| |split; [congruence|lia]].
    pose proof (take_concat lay 0 (b :: bl) 1 Hbl ltac:(cbn; lia)) as E. exact E.
Qed.

Lemma wp_Reset junk d h0 :
  bare lay junk 0 (dropIndex d) → C d → C (dropIndex d) → a = 0%nat → bsi = None → loadPreResetHeight d = Ok h0 →
  (∀ d', d_files d' = d_files d → loadPreResetHeight d' = Ok (Some (maxHeight h0)) → R d') →
  wp w C (ResetBlockStore sha256)
    (rb_post (λ d', holds (take 1 (concat lay)) d' ∧ (size (d_files d') <= size (d_files d))%nat ∧
                    loadPreResetHeight d' = Ok (Some (maxHeight h0)))) d.
Proof.
  intros Hb HCd HCi Ha0 Hbsi Hh HRd. unfold ResetBlockStore, resetLedger.
  assert (∀ s, bare lay junk 0 (writePreReset s (dropIndex d))) as Hbw.
  { intros s. destruct Hb. split; try done. destruct ba_quiet. by split. }
  apply wp_try, wp_atomic; [|intros Hw; split; [by rewrite Hw|done]|done].
  apply wp_try. eapply wp_mono; [apply (wp_recordHeight (dropIndex d) h0 (λ d', (d' = dropIndex d ∨ ∃ s, d' = writePreReset s (dropIndex d)) ∧ loadPreResetHeight d' = Ok (Some (maxHeight h0))))|].
  - by eapply bare_construct.
  - destruct (lookup_lt_is_Some_2 (concat lay) (total - 1)) as [b Hbk]; [lia|].
    destruct (bare_block _ _ _ _ Hb _ _ Hbk) as [Hsb Hn]. pose proof (sb_number Hsb). lia.
  - done.
  - done.
  - intros s Hl. apply (HCb total lay junk 0); [done|by rewrite firstn_all|done|by apply HRd].
  - done.
  - intros [[]|e] d1 Hd1; [|exact Hd1]. destruct Hd1 as [Hd1 Hh1].
    assert (bare lay junk 0 d1 ∧ d_files d1 = d_files d) as [Hb1 Hf1] by (destruct Hd1 as [->|[s ->]]; by auto).
    apply (wp_resetFiles junk d1 _ Hb1); [by apply HRd|done|done|]. intros lay' d2 Hb2 Hc2 [Hp2 Hs2]. split; [|split].
    + right. right. by exists lay', [], 0%nat.
    + by rewrite <- Hf1.
    + unfold loadPreResetHeight in *. by rewrite Hp2.
Qed.
End runs.

(** ** The theorems *)

Lemma rb_result {m : io (res unit)} {C : disk → Prop} {P : disk → Prop} {d} fs :
  wp (weatherOf fs) C m (rb_post (weatherOf fs) C P) d →
  match m d fs with (Returned (Ok _), d', _) => P d' | (_, d', _) => fs ≠ [] ∧ C d' end.
Proof.
  intros H. specialize (H fs (weatherOf_allowed fs)). destruct (m d fs) as [[[[u|e]|p|] d'] fs'].
  - apply H.
  - destruct H as [_ [Hw HC]]. split; [by apply weatherOf_Calm|done].
  - destruct H as [Hw HC]. split; [by apply weatherOf_Calm|done].
  - destruct H as [Hw HC]. split; [by apply weatherOf_Calm|done].
Qed.

(** What is left when the rest of a chain is removed. *)
Definition cut (chain : list Block) (h : Z) (d : disk) : Prop :=
  (∃ mgr d', open d [] = (Returned (Ok mgr), d', []) ∧ opened chain [] mgr d') ∧ loadPreResetHeight d = Ok (Some h).

Lemma quiet_crash (Q : disk → Prop) d : quiet d → Q d → ∀ d', power_loss d d' → Q d'.
Proof. intros Hq H d' Hp. by rewrite (quiet_power_loss d d' Hq Hp). Qed.


(** A store that can be reset, and for which a reset records the height [h]: its summary is
    there and none of its files is empty, or the summary is gone. *)
Definition resettable (chain : list Block) (h : Z) (d : disk) : Prop :=
  chain ≠ [] ∧ (tidy chain d ∨ ∃ lay junk m, concat lay = chain ∧ bare lay junk m d) ∧ few d ∧
  ∃ h0, loadPreResetHeight d = Ok h0 ∧ Z.max (default 0 h0) (Z.of_nat (length chain)) = h.

(** A store some files of which are gone, with the height recorded. *)
Definition partlyReset (chain : list Block) (h : Z) (d : disk) : Prop :=
  quiet d ∧ ∃ j, (0 < j)%nat ∧ resettable (take j chain) h d.

Lemma resettable_dropped chain h d :
  db0 = ∅ → resettable chain h d → ∃ lay junk, concat lay = chain ∧ bare lay junk 0 (dropIndex d) ∧ quiet d.
Proof.
  intros Hdb (Hne & Hc & _). destruct Hc as [(lay & junk & n & m & <- & Hst & Hn & Ht)|(lay & junk & m & <- & Hb)]; exists lay, junk.
  - split; [done|]. assert (0 < length (concat lay))%nat as Ha by (by destruct (concat lay); [|cbn; lia]).
    split; [by eapply (tidy_dropped _ 0 Ha)|apply Hst].
  - split; [done|]. split; [by eapply bare_dropped|apply Hb].
Qed.

Lemma reset_result chain d h fs :
  setup_ok → bsi = None → db0 = ∅ → resettable chain h d →
  match ResetBlockStore sha256 d fs with
  | (Returned (Ok _), d', _) => cut (take 1 chain) h d'
  | (_, d', _) => fs ≠ [] ∧ partlyReset chain h d'
  end.
Proof.
  intros Hs Hbsi Hdb Hr. destruct (resettable_dropped chain h d Hdb Hr) as (lay & junk & <- & Hb & Hq).
  pose proof Hr as (Hne & _ & Hf & h0 & Hh & Hmax). assert (0 < length (concat lay))%nat as Ha by (by destruct (concat lay); [|cbn; lia]).
  assert (maxHeight lay h0 = h) as Hm by (unfold maxHeight, firstNumber; by rewrite Hbsi).
  set (R d' := few d' ∧ loadPreResetHeight d' = Ok (Some h)).
  apply (rb_result (C := partlyReset (concat lay) h)).
  assert (∀ j lay' junk' m' d', (0 < j)%nat → concat lay' = take j (concat lay) → bare lay' junk' m' d' → R d' → partlyReset (concat lay) h d') as HCb.
  { intros j lay' junk' m' d' Hj Hc Hb' [Hf' Hh']. split; [apply Hb'|]. exists j. split; [done|]. split; [|split; [|split; [done|]]].
    - intros E. apply (f_equal length) in E. rewrite length_take in E. simpl in E. lia.
    - right. by exists lay', junk', m'.
    - exists (Some h). split; [done|]. rewrite length_take. cbn [default from_option id]. lia. }
  eapply wp_mono; [apply (wp_Reset Hs (weatherOf fs) _ lay 0 R) with (junk := junk) (h0 := h0); try done|].
  - intros d1 d2 [Hp Hsz] [Hf1 Hh1]. split; [unfold few in *; lia|]. unfold loadPreResetHeight in *. by rewrite Hp.
  - split; [done|]. exists (length (concat lay)). split; [done|]. by rewrite firstn_all.
  - split; [apply Hb|]. exists (length (concat lay)). split; [done|]. rewrite firstn_all. split; [done|]. split; [right; by exists lay, junk, 0%nat|].
    split; [done|]. by exists h0.
  - intros d' Hfd Hl. split; [unfold few in *; by rewrite Hfd|by rewrite <- Hm].
  - intros [[]|e] d' H; [|exact H]. destruct H as (Hd' & Hf' & Hh'). rewrite Hm in Hh'. split; [|done]. apply open_calm; [done|done|].
    unfold few in *. lia.
Qed.

(** Attempts to reset that were cut short by an error, a panic or loss of power. *)
Inductive cutShort : disk → disk → Prop :=
  | not_yet d : cutShort d d
  | once_more d d1 fs r d2 fs' d3 :
    cutShort d d1 → ResetBlockStore sha256 d1 fs = (r, d2, fs') → r ≠ Returned (Ok tt) → power_loss d2 d3 → cutShort d d3.

Lemma partlyReset_again chain h j d fs :
  setup_ok → bsi = None → db0 = ∅ → (0 < j)%nat → resettable (take j chain) h d →
  match ResetBlockStore sha256 d fs with
  | (Returned (Ok _), d', _) => cut (take 1 chain) h d'
  | (_, d', _) => fs ≠ [] ∧ partlyReset chain h d'
  end.
Proof.
  intros Hs Hbsi Hdb Hj Hr. pose proof (reset_result (take j chain) d h fs Hs Hbsi Hdb Hr) as H.
  rewrite take_take, Nat.min_l in H by lia.
  assert (∀ d', fs ≠ [] ∧ partlyReset (take j chain) h d' → fs ≠ [] ∧ partlyReset chain h d') as Hp.
  { intros d' (Hfs & Hq & i & Hi & Hr'). split; [done|]. split; [done|]. rewrite take_take in Hr'. exists (Nat.min i j). split; [lia|done]. }
  destruct (ResetBlockStore sha256 d fs) as [[[[u|e]|p|] d'] fs']; [done|by apply Hp..].
Qed.

End rollback.
