(* ===== verification/BlockStoreDemo.v ===== *)
(** * A concrete block store

    Codecs for the messages of the block store and ledgers with one and with two blocks:
    the hypotheses of the theorems on the block store, and on iterators, rollback and
    reset, can be met. *)

From stdpp Require Import gmap strings list.
From Stdlib Require Import Strings.Byte.
From S2P Require Import Prelude Protos Codecs GoLib Blocks BlockWriterDemo Varint BlockSerialization Disk LevelDB BlockIndex BlockStream BlockfileMgr BlockLayout BlockStore BlockStoreFacts BlockStoreReads BlockStoreOpen BlockStoreAdd BlockStoreProps BlockStoreKeys BlockStoreQueries BlockStoreTxIDs BlockItr BlockRollback BlockRollbackProps.

#[export] Instance demo_TxIDIndexValue_ser : Ser TxIDIndexValue.
Proof. apply (iso_ser (λ x, (BlkLocation x, TxLocation x, TxValidationCode x)) (λ '(a, b, c), mkTxIDIndexValue a b c)). by_tuple. Defined.
#[export] Instance demo_TxIDIndexValue : Codec TxIDIndexValue := ser_codec TxIDIndexValue.

#[export] Instance demo_Bootstrapping_ser : Ser BootstrappingSnapshotInfo.
Proof.
  apply (iso_ser (λ x, (bsi_LastBlockNum x, bsi_LastBlockHash x, bsi_PreviousBlockHash x))
           (λ '(a, b, c), mkBootstrappingSnapshotInfo a b c)). by_tuple.
Defined.
#[export] Instance demo_Bootstrapping : Codec BootstrappingSnapshotInfo := ser_codec BootstrappingSnapshotInfo.

Definition demo_items : list IndexableAttr :=
  [IndexableAttrBlockNum; IndexableAttrBlockHash; IndexableAttrTxID; IndexableAttrBlockNumTranNum].

Definition demo_max : Z := 64 * 1024 * 1024.

(** The first block: one transaction, with its validation flag. *)
Definition demo_block : Block :=
  mkBlock (mkBlockHeader 0 [] [x01]) (Some [marshal (demo_tx 7)]) (Some [[]; []; [x00]; []; []]).

Definition demo_disk : disk := mkDisk ∅ None (mkDatabase ∅ []) None.

Lemma demo_setup : setup_ok demo_items demo_max None ∅.
Proof.
  split; [by left|done|done| |done]. intros k v H. by rewrite lookup_empty in H.
Qed.

Lemma demo_fresh : fresh None ∅ demo_disk.
Proof. split; [|done..|by left|done]. by split. Qed.

Lemma demo_few : few demo_disk.
Proof. done. Qed.

Lemma demo_small : blen (frame demo_block) = 55.
Proof. vm_compute. reflexivity. Qed.

Lemma demo_storable : storable demo_items demo_block.
Proof.
  split; [done| |unfold small; pose proof (frame_length demo_block); pose proof demo_small; unfold blen in *; lia|done].
  eexists _, _. split; [done|]. split; [done|]. simpl. lia.
Qed.

(** A disk with the first block in its file, followed by [junk]; summary and index
    know of [n] blocks. *)
Definition demo_at (junk : bytes) (n : nat) : disk :=
  mkDisk {[ 0 := mkFile (fileBytes [demo_block] ++ junk) (length (fileBytes [demo_block] ++ junk)) ]} None
    (mkDatabase (<[blkMgrInfoKey := info_marshal (summary None [[demo_block]] n)]>
      (indexOf demo_sum demo_items ∅ (take n (place 0 [[demo_block]])))) []) None.

Lemma demo_stored junk n :
  (n <= 1)%nat → partial junk → stored demo_sum demo_items demo_max None ∅ [[demo_block]] junk n n (demo_at junk n).
Proof.
  intros Hn Hj. split; try done.
  - split; [|done]. intros f x H. cbn [demo_at d_files] in H. by apply lookup_singleton_Some in H as [_ <-].
  - split; [constructor; [apply demo_storable|constructor]|]. intros [|i] b Hb; [injection Hb as <-; done|done].
  - right. by exists demo_block, [], [].
  - constructor; [|constructor]. right. done.
  - intros [|i] bl Hbl; [|done]. injection Hbl as <-. by eexists.
  - intros f x H. cbn [demo_at d_files] in H. apply lookup_singleton_Some in H as [<- _]. left. simpl. lia.
  - simpl. lia.
  - unfold view, db_view. cbn [demo_at d_db db_durable db_volatile foldl]. apply lookup_insert_eq.
  - intros k Hk. unfold view, db_view. cbn [demo_at d_db db_durable db_volatile foldl]. by apply lookup_insert_ne.
Qed.

Lemma demo_holds junk n : (n <= 1)%nat → partial junk → holds demo_sum demo_items demo_max None ∅ [demo_block] (demo_at junk n).
Proof. intros Hn Hj. right. left. exists [[demo_block]], junk, n, n. split; [done|]. by apply demo_stored. Qed.

Lemma demo_opened : opened demo_sum demo_items demo_max None ∅ [demo_block] [] (mgrOf demo_sum None [[demo_block]]) (demo_at [] 1).
Proof. exists [[demo_block]]. split; [done|]. split; [|done]. apply demo_stored; [done|apply partial_empty]. Qed.

Lemma demo_at_few junk n : few (demo_at junk n).
Proof. done. Qed.

Lemma demo_fits : fits demo_max None [] demo_block.
Proof. intros _. split; [done|]. rewrite demo_small. done. Qed.

Lemma serialize_roundtrip_witness :
  match serializeBlock demo_sum demo_block with
  | Panic _ => False
  | Done (bs, info) => deserializeBlock demo_sum bs = Ok demo_block ∧ extractSerializedBlockInfo demo_sum bs = Ok info
  end.
Proof.
  pose proof (serialize_roundtrip demo_sum demo_block ltac:(done)) as H.
  destruct (serializeBlock demo_sum demo_block) as [[bs info]|] eqn:E; [|by destruct H].
  assert (is_u64 (blen bs)) as Hb.
  { destruct (proj1 (serializeBlock_Done _ _ _ _) E) as (data & metadata & Hd & Hm & -> & _).
    injection Hd as <-. injection Hm as <-. apply (small_u64 demo_block). apply demo_storable. }
  destruct (H Hb) as (? & ? & _). by split.
Defined.


Lemma quiet_survives d : quiet d → power_loss d d.
Proof.
  intros Hq. split; [|done|done|].
  - intros f. destruct (d_files d !! f) as [x|] eqn:E; [|constructor]. constructor.
    pose proof (quiet_files _ Hq _ _ E) as Hx. destruct x as [b n]. cbn [f_bytes f_synced] in Hx. subst n.
    pose proof (survives_prefix (mkFile b (length b)) (length b)) as H. cbn [f_bytes f_synced] in H.
    rewrite firstn_all in H. by apply H.
  - exists 0%nat. pose proof (quiet_db _ Hq) as H. rewrite take_0. cbn [foldl]. destruct (d_db d) as [m l]. cbn in H. by subst.
Qed.

Lemma demo_open :
  ∃ mgr d, newBlockfileMgr demo_sum demo_items demo_disk [] = (Returned (Ok mgr), d, []) ∧ opened demo_sum demo_items demo_max None ∅ [] [] mgr d.
Proof. apply open_calm; [apply demo_setup|left; split; [done|apply demo_fresh]|apply demo_few]. Qed.



Lemma query_by_number_witness :
  retrieveBlockByNumber demo_sum demo_items (2 ^ 64 - 1) (mgrOf demo_sum None [[demo_block]]) (demo_at [] 1) = ok demo_block.
Proof.
  exact (query_by_number demo_sum demo_items demo_max None ∅ _ _ _ _ (2 ^ 64 - 1) demo_setup demo_opened (demo_at_few _ _) ltac:(done)).
Defined.

Lemma query_by_hash_and_position_witness :
  retrieveTransactionByBlockNumTranNum demo_items 0 0 (mgrOf demo_sum None [[demo_block]]) (demo_at [] 1) =
    GetEnvelopeFromBlock (marshal (demo_tx 7)).
Proof.
  destruct (query_by_hash_and_position demo_sum demo_items demo_max None ∅ _ _ _ _ [] 0 0 demo_setup demo_opened
    (demo_at_few _ _) ltac:(set_solver) ltac:(set_solver) ltac:(done) ltac:(done)) as [_ H].
  exact H.
Defined.

Lemma demo_id : id_ok "tx".
Proof. done. Qed.

Lemma query_by_txID_witness :
  retrieveBlockByTxID demo_sum demo_items "tx" (demo_at [] 1) = ok demo_block ∧
  retrieveTxValidationCodeByTxID demo_items "tx" (demo_at [] 1) = Ok 0.
Proof.
  assert (txIDOf demo_sum (marshal (demo_tx 7)) = "tx"%string) as Hid by (vm_compute; reflexivity).
  destruct (query_by_txID demo_sum demo_items demo_max None ∅ _ _ _ _ "tx" demo_setup demo_opened (demo_at_few _ _)) as [_ H].
  - right. right. left.
  - exact demo_id.
  - intros b tx Hb Htx. apply list_elem_of_singleton in Hb as ->. apply list_elem_of_singleton in Htx as ->. rewrite Hid. exact demo_id.
  - intros v Hv. split; [|by apply (ser_codec_ok TxIDIndexValue (λ _, True))]. destruct v as [[|y l] t c]; [done|]. done.
  - assert (findTx demo_sum "tx" [demo_block] = Some (demo_block, 0%nat)) as Hf.
    { cbn [findTx]. change (dataOf demo_block) with [marshal (demo_tx 7)]. unfold list_find. by rewrite decide_True. }
    rewrite Hf in H.
    destruct H as (Hb & _ & Hc); [by intros (i & n & [=] & _)|]. by split.
Defined.

(** ** A ledger with two blocks *)

Definition demo_second : Block :=
  mkBlock (mkBlockHeader 1 (BlockHeaderHash demo_sum (blk_Header demo_block)) [x02]) (Some [marshal (demo_tx 8)]) (Some [[]; []; [x00]; []; []]).

Lemma demo_second_storable : storable demo_items demo_second.
Proof.
  assert (blen (frame demo_second) < 100) as Hl by (vm_compute; reflexivity).
  split; [done| |unfold small; pose proof (frame_length demo_second); unfold blen in *; lia|done].
  eexists _, _. split; [done|]. split; [done|]. simpl. lia.
Qed.

Definition demo_chain : list Block := [demo_block; demo_second].

(** Both blocks are in one file. *)
Definition demo_two : disk :=
  mkDisk {[ 0 := mkFile (fileBytes demo_chain) (length (fileBytes demo_chain)) ]} None
    (mkDatabase (<[blkMgrInfoKey := info_marshal (summary None [demo_chain] 2)]>
      (indexOf demo_sum demo_items ∅ (place 0 [demo_chain]))) []) None.

Lemma demo_two_stored : stored demo_sum demo_items demo_max None ∅ [demo_chain] [] 2 2 demo_two.
Proof.
  split; try done.
  - split; [|done]. intros f x H. cbn [demo_two d_files] in H. by apply lookup_singleton_Some in H as [_ <-].
  - split; [constructor; [apply demo_storable|constructor; [apply demo_second_storable|constructor]]|].
    intros [|[|i]] b Hb; [injection Hb as <-; done|injection Hb as <-; done|done].
  - right. by exists demo_block, [demo_second], [].
  - constructor; [|constructor]. left. vm_compute. discriminate.
  - intros [|i] bl Hbl; [|done]. injection Hbl as <-. eexists. split; [done|]. cbn [f_bytes]. by rewrite app_nil_r.
  - apply partial_empty.
  - intros f x H. cbn [demo_two d_files] in H. apply lookup_singleton_Some in H as [<- _]. left. simpl. lia.
  - simpl. lia.
  - intros k Hk. unfold view, db_view. cbn [demo_two d_db db_durable db_volatile foldl]. by apply lookup_insert_ne.
Qed.

Lemma demo_tidy : tidy demo_sum demo_items demo_max None ∅ demo_chain demo_two.
Proof.
  exists [demo_chain], [], 2%nat, 2%nat. split; [done|]. split; [apply demo_two_stored|]. split; [by repeat constructor|].
  intros f x H. cbn [demo_two d_files] in H. apply lookup_singleton_Some in H as [<- _]. simpl. lia.
Qed.

Lemma demo_distinct : distinct demo_sum demo_items demo_chain.
Proof.
  assert (txIDOf demo_sum (marshal (demo_tx 7)) = "tx"%string) as H7 by (vm_compute; reflexivity).
  assert (txIDOf demo_sum (marshal (demo_tx 8)) = "tx"%string) as H8 by (vm_compute; reflexivity).
  split.
  - intros b tx Hb Htx. apply elem_of_cons in Hb as [->|Hb].
    + change (dataOf demo_block) with [marshal (demo_tx 7)] in Htx. apply list_elem_of_singleton in Htx as ->. rewrite H7. exact demo_id.
    + apply list_elem_of_singleton in Hb as ->. change (dataOf demo_second) with [marshal (demo_tx 8)] in Htx.
      apply list_elem_of_singleton in Htx as ->. rewrite H8. exact demo_id.
  - intros _. apply NoDup_cons. split; [|apply NoDup_singleton]. intros H%list_elem_of_singleton.
    assert (head (BlockHeaderHash demo_sum (blk_Header demo_block)) = Some x01) as H1 by (vm_compute; reflexivity).
    assert (head (BlockHeaderHash demo_sum (blk_Header demo_second)) = Some x02) as H2 by (vm_compute; reflexivity).
    rewrite H, H2 in H1. discriminate.
Qed.

Lemma few_one : few demo_two.
Proof. unfold few, demo_two. cbn [d_files]. by rewrite map_size_singleton. Qed.

Lemma demo_two_opened : opened demo_sum demo_items demo_max None ∅ demo_chain [] (mgrOf demo_sum None [demo_chain]) demo_two.
Proof. exists [demo_chain]. split; [done|]. split; [|done]. apply demo_two_stored. Qed.

(** An iterator from block 1 delivers it. *)
Lemma iterator_exact_witness :
  ∃ itr itr', retrieveBlocks 1 (mgrOf demo_sum None [demo_chain]) = Ok itr ∧
    Next demo_sum demo_items itr (mgrOf demo_sum None [demo_chain]) demo_two = Some (ok (Some demo_second, itr')).
Proof.
  pose proof (iterator_exact demo_sum demo_items demo_max None ∅ demo_chain _ demo_two 1 (newBlockItr (mgrOf demo_sum None [demo_chain]) 1)
    _ [] demo_setup demo_two_opened ltac:(by apply few_one) ltac:(done) (or_intror eq_refl) ltac:(reflexivity) (readings_nil _ _ _ _ _ _))
    as (chain' & Ho & Hp & _ & Hn & _).
  destruct Hp as [more ->]. destruct Hn as [itr' Hn]. eexists _, itr'. split; [reflexivity|exact Hn].
Defined.


Lemma demo_resettable : resettable demo_sum demo_items demo_max None ∅ demo_chain 2 demo_two.
Proof. split; [done|]. split; [left; exact demo_tidy|]. split; [exact few_one|]. by exists None. Qed.

