(* ===== verification/StateDB.v ===== *)
(** * Versions and update batches of the state database

    [core/ledger/internal/version]: the height of the transaction that wrote a value.
    [core/ledger/kvledger/txmgmt/statedb]: versioned values, the batch of updates a
    block makes and the iteration over a range of its keys. A Go string is the list of
    its bytes. *)

From stdpp Require Import gmap strings list sorting.
From Stdlib Require Import Strings.Byte.
From S2P Require Import Prelude Varint Disk LevelDB.

(** ** Heights *)

Record Height := mkHeight { BlockNum : Z; TxNum : Z }.

#[export] Instance Height_eq_dec : EqDecision Height.
Proof. solve_decision. Defined.

Definition Compare (h h1 : Height) : Z :=
  let sign (r : Z) : Z := if r >? 0 then 1 else -1 in
  if decide (BlockNum h = BlockNum h1) then
    if decide (TxNum h = TxNum h1) then 0 else sign (i64 (u64 (TxNum h - TxNum h1)))
  else sign (i64 (u64 (BlockNum h - BlockNum h1))).

Definition AreSame (h1 h2 : option Height) : bool :=
  match h1, h2 with
  | None, None => true
  | Some h1, Some h2 => Compare h1 h2 =? 0
  | _, _ => false
  end.

Definition ToBytes (h : Height) : bytes :=
  EncodeOrderPreservingVarUint64 (BlockNum h) ++ EncodeOrderPreservingVarUint64 (TxNum h).

Definition NewHeightFromBytes (b : bytes) : res (Height * nat) :=
  '(blockNum, n1) ← DecodeOrderPreservingVarUint64 b;
  '(txNum, n2) ← DecodeOrderPreservingVarUint64 (drop n1 b);
  Ok (mkHeight blockNum txNum, (n1 + n2)%nat).

Definition is_height (h : Height) : Prop := is_u64 (BlockNum h) ∧ is_u64 (TxNum h).

Lemma AreSame_eq h1 h2 : AreSame h1 h2 = true ↔ h1 = h2.
Proof.
  destruct h1 as [[b1 t1]|], h2 as [[b2 t2]|]; cbn [AreSame]; [|done|done|done]. unfold Compare. cbn [BlockNum TxNum].
  destruct (decide (b1 = b2)) as [->|Hb]; [destruct (decide (t1 = t2)) as [->|Ht]; [done|]|].
  - destruct (_ >? 0); split; [done|congruence|done|congruence].
  - destruct (_ >? 0); split; [done|congruence|done|congruence].
Qed.

Lemma Height_roundtrip h rest :
  is_height h → NewHeightFromBytes (ToBytes h ++ rest) = Ok (h, length (ToBytes h)).
Proof.
  intros [Hb Ht]. unfold NewHeightFromBytes, ToBytes. rewrite <- (assoc_L (++)).
  rewrite DecodeOrderPreserving_encode by done. cbn [mbind res_bind].
  rewrite drop_app_length, DecodeOrderPreserving_encode by done. cbn [mbind res_bind]. rewrite length_app. by destruct h.
Qed.

(** ** Versioned values *)

(** A value that is [nil] stands for a deleted key. *)
Record VersionedValue := mkVersionedValue { vv_Value : nbytes; vv_Metadata : nbytes; vv_Version : Height }.

#[export] Instance VersionedValue_eq_dec : EqDecision VersionedValue.
Proof. solve_decision. Defined.

Definition IsDelete (vv : VersionedValue) : bool := match vv_Value vv with None => true | Some _ => false end.

Record VersionedKV := mkVersionedKV { kv_Namespace : bytes; kv_Key : bytes; kv_VersionedValue : VersionedValue }.

(** ** Update batches *)

Record UpdateBatch := mkUpdateBatch {
  ContainsPostOrderWrites : bool;
  Updates : gmap bytes (gmap bytes VersionedValue)
}.

Definition newUpdateBatch : UpdateBatch := mkUpdateBatch false ∅.

Definition UpdateBatch_Get (ns key : bytes) (batch : UpdateBatch) : option VersionedValue :=
  nsUpdates ← Updates batch !! ns; nsUpdates !! key.

Definition UpdateBatch_Exists (ns key : bytes) (batch : UpdateBatch) : bool :=
  match Updates batch !! ns with
  | None => false
  | Some nsUpdates => bool_decide (is_Some (nsUpdates !! key))
  end.

Definition UpdateBatch_Update (ns key : bytes) (vv : VersionedValue) (batch : UpdateBatch) : UpdateBatch :=
  {| batch with Updates := <[ns := <[key := vv]> (default ∅ (Updates batch !! ns))]> (Updates batch) |}.

Definition UpdateBatch_PutValAndMetadata (ns key : bytes) (value metadata : nbytes) (version : Height) (batch : UpdateBatch)
    : outcome UpdateBatch :=
  match value with
  | None => Panic "Nil value not allowed. Instead call 'Delete' function"
  | Some _ => Done (UpdateBatch_Update ns key (mkVersionedValue value metadata version) batch)
  end.

Definition UpdateBatch_Delete (ns key : bytes) (version : Height) (batch : UpdateBatch) : UpdateBatch :=
  UpdateBatch_Update ns key (mkVersionedValue None None version) batch.

(** The updates of a namespace. *)
Definition GetUpdates (ns : bytes) (batch : UpdateBatch) : gmap bytes VersionedValue := default ∅ (Updates batch !! ns).

Lemma Get_updates ns key batch : UpdateBatch_Get ns key batch = GetUpdates ns batch !! key.
Proof. unfold UpdateBatch_Get, GetUpdates. by destruct (Updates batch !! ns); cbn; [|rewrite lookup_empty]. Qed.

Lemma Exists_updates ns key batch : UpdateBatch_Exists ns key batch = bool_decide (is_Some (GetUpdates ns batch !! key)).
Proof.
  unfold UpdateBatch_Exists, GetUpdates. destruct (Updates batch !! ns); [done|]. cbn. rewrite lookup_empty. by rewrite bool_decide_eq_false_2.
Qed.

Lemma Update_updates ns key vv batch ns' :
  GetUpdates ns' (UpdateBatch_Update ns key vv batch) =
    if decide (ns' = ns) then <[key := vv]> (GetUpdates ns batch) else GetUpdates ns' batch.
Proof.
  unfold GetUpdates, UpdateBatch_Update. cbn [Updates]. destruct (decide (ns' = ns)) as [->|Hn].
  - by rewrite lookup_insert_eq.
  - by rewrite lookup_insert_ne.
Qed.

(** ** Iteration over a range *)

(** [util.GetSortedKeys] and [sort.SearchStrings]. *)
Definition GetSortedKeys {V} (m : gmap bytes V) : list bytes := merge_sort bytes_le (map_to_list m).*1.

Definition SearchStrings (l : list bytes) (x : bytes) : nat :=
  match list_find (bytes_le x) l with Some (i, _) => i | None => length l end.

(** What the iterator over a range returns, in order. *)
Definition newNsIterator (ns startKey endKey : bytes) (batch : UpdateBatch) : list VersionedKV :=
  match Updates batch !! ns with
  | None => []
  | Some nsUpdates =>
    let sortedKeys := GetSortedKeys nsUpdates in
    let nextIndex := if decide (startKey = []) then 0%nat else SearchStrings sortedKeys startKey in
    let lastIndex := if decide (endKey = []) then length sortedKeys else SearchStrings sortedKeys endKey in
    omap (λ key, mkVersionedKV ns key <$> nsUpdates !! key) (take (lastIndex - nextIndex) (drop nextIndex sortedKeys))
  end.

(** The end of a range as a limit: the empty key stands for no limit. *)
Definition limit (endKey : bytes) : option bytes := if decide (endKey = []) then None else Some endKey.

(** The entries of a range of keys in order. *)
Definition entries (ns startKey endKey : bytes) (m : gmap bytes VersionedValue) : list VersionedKV :=
  (λ '(key, vv), mkVersionedKV ns key vv) <$> scan startKey (limit endKey) m.

Lemma key_sorted {V} (l : list (bytes * V)) : StronglySorted bytes_le l.*1 → StronglySorted key_le l.
Proof.
  induction l as [|x l IH]; [constructor|]. cbn. intros H. inversion H as [|? ? Hs Hf]; subst. constructor; [by apply IH|].
  apply Forall_forall. intros y Hy. rewrite Forall_forall in Hf. apply Hf. by apply list_elem_of_fmap_2.
Qed.

Lemma sub_sorted (l : list bytes) a n : StronglySorted bytes_le l → StronglySorted bytes_le (take n (drop a l)).
Proof.
  intros H. rewrite <- (take_drop a l) in H. apply StronglySorted_app_1_r in H.
  rewrite <- (take_drop n (drop a l)) in H. by apply StronglySorted_app_1_l in H.
Qed.

Lemma GetSortedKeys_sorted {V} (m : gmap bytes V) : StronglySorted bytes_le (GetSortedKeys m).
Proof. apply Sorted_StronglySorted; [apply _|]. apply Sorted_merge_sort, _. Qed.

Lemma GetSortedKeys_elem {V} (m : gmap bytes V) k : k ∈ GetSortedKeys m ↔ is_Some (m !! k).
Proof.
  unfold GetSortedKeys. rewrite merge_sort_Permutation, list_elem_of_fmap. split.
  - intros ([k' v] & -> & H%elem_of_map_to_list). by eexists.
  - intros [v H]. exists (k, v). by rewrite elem_of_map_to_list.
Qed.

Lemma GetSortedKeys_NoDup {V} (m : gmap bytes V) : NoDup (GetSortedKeys m).
Proof. unfold GetSortedKeys. rewrite merge_sort_Permutation. apply NoDup_fst_map_to_list. Qed.

Lemma sorted_lookup (l : list bytes) i j x y :
  StronglySorted bytes_le l → l !! i = Some x → l !! j = Some y → (i <= j)%nat → bytes_le x y.
Proof.
  intros Hs. revert i j. induction Hs as [|z l Hs IH Hf]; intros [|i] [|j] Hi Hj Hij; cbn in Hi, Hj; try done; [| |lia|].
  - injection Hi as ->. injection Hj as ->. done.
  - injection Hi as ->. by apply (Forall_lookup_1 _ _ _ _ Hf Hj).
  - apply (IH i j); [done|done|lia].
Qed.

Lemma SearchStrings_spec l x i k :
  StronglySorted bytes_le l → l !! i = Some k → (SearchStrings l x <= i)%nat ↔ bytes_le x k.
Proof.
  intros Hs Hi. unfold SearchStrings. destruct (list_find (bytes_le x) l) as [[j y]|] eqn:E.
  - apply list_find_Some in E as (Hj & Hy & Hmin). split.
    + intros Hij. etrans; [exact Hy|]. by eapply sorted_lookup.
    + intros Hk. destruct (decide (j <= i)%nat); [done|]. exfalso. apply (Hmin i k Hi); [lia|done].
  - apply list_find_None in E. split.
    + intros Hij. apply lookup_lt_Some in Hi. lia.
    + intros Hk. exfalso. by apply (Forall_lookup_1 _ _ _ _ E Hi).
Qed.

Lemma elem_of_slice (l : list bytes) a b k : k ∈ take (b - a) (drop a l) ↔ ∃ i, l !! i = Some k ∧ (a <= i < b)%nat.
Proof.
  rewrite list_elem_of_lookup. split.
  - intros (i & Hi). apply lookup_take_Some in Hi as [Hi Hlt]. rewrite lookup_drop in Hi. exists (a + i)%nat. split; [done|lia].
  - intros (i & Hi & Hr). exists (i - a)%nat. rewrite lookup_take_lt by lia. rewrite lookup_drop. by replace (a + (i - a))%nat with i by lia.
Qed.

Lemma bytes_le_nil k : bytes_le [] k.
Proof. by destruct k. Qed.

(** The entries at keys that are there. *)
Lemma omap_entries {V} (m : gmap bytes V) l :
  (∀ k, k ∈ l → is_Some (m !! k)) → (omap (λ k, pair k <$> m !! k) l).*1 = l.
Proof.
  induction l as [|k l IH]; intros H; [done|]. destruct (H k) as [v Hv]; [left|]. cbn. rewrite Hv. cbn. f_equal.
  apply IH. intros k' Hk'. apply H. by right.
Qed.

Lemma slice_scan (m : gmap bytes VersionedValue) startKey endKey :
  omap (λ k, pair k <$> m !! k)
    (let sortedKeys := GetSortedKeys m in
     let nextIndex := if decide (startKey = []) then 0%nat else SearchStrings sortedKeys startKey in
     let lastIndex := if decide (endKey = []) then length sortedKeys else SearchStrings sortedKeys endKey in
     take (lastIndex - nextIndex) (drop nextIndex sortedKeys)) = scan startKey (limit endKey) m.
Proof.
  cbv zeta. set (l := GetSortedKeys m). set (a := if decide (startKey = []) then 0%nat else SearchStrings l startKey).
  set (b := if decide (endKey = []) then length l else SearchStrings l endKey).
  assert (∀ k, k ∈ take (b - a) (drop a l) ↔ is_Some (m !! k) ∧ inRange startKey (limit endKey) k) as Hel.
  { intros k. rewrite elem_of_slice, <- GetSortedKeys_elem. fold l. rewrite (list_elem_of_lookup l k).
    assert (∀ i, l !! i = Some k → (a <= i)%nat ↔ bytes_le startKey k) as Ha.
    { intros i Hi. unfold a. destruct (decide (startKey = [])) as [->|]; [pose proof (bytes_le_nil k); split; [done|lia]|].
      by apply SearchStrings_spec; [apply GetSortedKeys_sorted|]. }
    assert (∀ i, l !! i = Some k → (i < b)%nat ↔ match limit endKey with Some e => bytes_lt k e | None => True end) as Hb.
    { intros i Hi. unfold b, limit. destruct (decide (endKey = [])); [split; [done|]; intros _; by apply lookup_lt_Some in Hi|].
      rewrite bytes_lt_not_le, <- (SearchStrings_spec l endKey i k (GetSortedKeys_sorted m) Hi). lia. }
    unfold inRange. split.
    - intros (i & Hi & Hr). split; [by exists i|]. rewrite <- (Ha i Hi), <- (Hb i Hi). lia.
    - intros ((i & Hi) & Hr). exists i. split; [done|]. rewrite <- (Ha i Hi), <- (Hb i Hi) in Hr. lia. }
  assert (∀ k, k ∈ take (b - a) (drop a l) → is_Some (m !! k)) as Hin by (intros k [? _]%Hel; done).
  apply sorted_unique; [|apply scan_sorted| |apply scan_NoDup|].
  - apply key_sorted. rewrite omap_entries by done. apply sub_sorted, GetSortedKeys_sorted.
  - rewrite omap_entries by done. eapply sublist_NoDup; [apply (GetSortedKeys_NoDup m)|].
    etrans; [apply sublist_take|apply sublist_drop].
  - intros [k v]. rewrite scan_elem, list_elem_of_omap. split.
    + intros (k' & Hk' & E). destruct (m !! k') as [v'|] eqn:Ev; [|done]. injection E as -> ->. split; [done|]. by apply Hel in Hk' as [_ ?].
    + intros [Hv Hr]. exists k. rewrite Hv. split; [|done]. apply Hel. split; [by eexists|done].
Qed.

Lemma newNsIterator_entries ns startKey endKey batch :
  newNsIterator ns startKey endKey batch = entries ns startKey endKey (GetUpdates ns batch).
Proof.
  unfold newNsIterator, entries, GetUpdates. destruct (Updates batch !! ns) as [m|]; cbn [default from_option id]; [|done].
  rewrite <- slice_scan. cbv zeta. generalize (take (
    (if decide (endKey = []) then length (GetSortedKeys m) else SearchStrings (GetSortedKeys m) endKey) -
    (if decide (startKey = []) then 0%nat else SearchStrings (GetSortedKeys m) startKey))
    (drop (if decide (startKey = []) then 0%nat else SearchStrings (GetSortedKeys m) startKey) (GetSortedKeys m))).
  intros l. induction l as [|k l IH]; [done|]. cbn. destruct (m !! k); cbn; by rewrite IH.
Qed.
