(* ===== verification/RangeQuery.v ===== *)
(** * Validation of range queries

    [core/ledger/kvledger/txmgmt/validation]: [combined_iterator.go] runs a range query
    over the state database with the updates of the earlier transactions of a block on
    top, [rangequery_validator.go] compares the results with those the transaction
    recorded, either one by one or by the Merkle tree of
    [rwsetutil/query_results_helper.go]. The state database is an interface,
    [VersionedDB], and what its implementations promise is [VersionedDBOk]. *)

From stdpp Require Import gmap strings list sorting.
From Stdlib Require Import Strings.Byte.
From S2P Require Import Prelude GoLib Varint Disk LevelDB StateDB.

(** ** The state database *)

(** An iterator is the list of what [Next] returns. *)
Class VersionedDB (D : Type) := {
  GetState : bytes → bytes → D → res (option VersionedValue);
  GetVersion : bytes → bytes → D → res (option Height);
  GetStateRangeScanIterator : bytes → bytes → bytes → D → res (list (res VersionedKV))
}.

(** A database that works is an ordered map for every namespace. It has no [nil] values. *)
Class VersionedDBOk (D : Type) `{VersionedDB D} := {
  contents : D → bytes → gmap bytes VersionedValue;
  db_ok : D → Prop;
  ns_ok : bytes → Prop;
  GetState_ok d ns key : db_ok d → ns_ok ns → GetState ns key d = Ok (contents d ns !! key);
  GetVersion_ok d ns key : db_ok d → ns_ok ns → GetVersion ns key d = Ok (vv_Version <$> contents d ns !! key);
  GetStateRangeScanIterator_ok d ns startKey endKey : db_ok d → ns_ok ns →
    GetStateRangeScanIterator ns startKey endKey d = Ok (Ok <$> entries ns startKey endKey (contents d ns));
  contents_live d ns key vv : db_ok d → ns_ok ns → contents d ns !! key = Some vv → IsDelete vv = false
}.

(** ** Recorded queries *)

(** The version of a read is the height of the write; [NewVersion] and [newProtoVersion]
    convert between two types with the same fields. *)
Record KVRead := mkKVRead { kr_Key : bytes; kr_Version : option Height }.

#[export] Instance KVRead_eq_dec : EqDecision KVRead.
Proof. solve_decision. Defined.

Record QueryReadsMerkleSummary := mkMerkleSummary { MaxDegree : Z; MaxLevel : Z; MaxLevelHashes : list bytes }.

#[export] Instance QueryReadsMerkleSummary_eq_dec : EqDecision QueryReadsMerkleSummary.
Proof. solve_decision. Defined.

Inductive ReadsInfo := RawReads (kvReads : list KVRead) | ReadsMerkleHashes (summary : QueryReadsMerkleSummary).

Record RangeQueryInfo := mkRangeQueryInfo {
  StartKey : bytes;
  EndKey : bytes;
  ItrExhausted : bool;
  rq_ReadsInfo : option ReadsInfo
}.

(** ** The combined iterator *)

(** [Next] of an iterator. *)
Definition nextItem {A} (itr : list (res A)) : res (option A * list (res A)) :=
  match itr with
  | [] => Ok (None, [])
  | Ok a :: itr => Ok (Some a, itr)
  | Err e :: _ => Err e
  end.

Record combinedIterator := mkCombinedIterator {
  dbItr : list (res VersionedKV);
  updatesItr : list (res VersionedKV);
  dbItem : option VersionedKV;
  updatesItem : option VersionedKV;
  endKeyServed : bool
}.

Definition compareKeys (item1 item2 : option VersionedKV) : comparison :=
  match item1, item2 with
  | None, None => Eq
  | None, Some _ => Gt
  | Some _, None => Lt
  | Some a, Some b => bytesCompare (kv_Key a) (kv_Key b)
  end.

Definition isDelete (item : VersionedKV) : bool := IsDelete (kv_VersionedValue item).

Section iterator.
Context {D} `{!VersionedDB D} (db : D) (updates : UpdateBatch) (ns startKey endKey : bytes) (includeEndKey : bool).

Definition newCombinedIterator : res combinedIterator :=
  dbItr ← GetStateRangeScanIterator ns startKey endKey db;
  '(dbItem, dbItr) ← nextItem dbItr;
  '(updatesItem, updatesItr) ← nextItem (Ok <$> newNsIterator ns startKey endKey updates);
  Ok (mkCombinedIterator dbItr updatesItr dbItem updatesItem false).

Definition serveEndKeyIfNeeded (itr : combinedIterator) : res (option VersionedKV * combinedIterator) :=
  if negb includeEndKey || endKeyServed itr then Ok (None, itr) else
  vv ← match UpdateBatch_Get ns endKey updates with
       | Some vv => Ok (Some vv)
       | None => GetState ns endKey db
       end;
  let itr := {| itr with endKeyServed := true |} in
  match vv with
  | None => Ok (None, itr)
  | Some vv =>
    let vkv := mkVersionedKV ns endKey (mkVersionedValue (vv_Value vv) None (vv_Version vv)) in
    if isDelete vkv then Ok (None, itr) else Ok (Some vkv, itr)
  end.

(** One item is taken in every call, so there are at most as many as the iterators have. *)
Fixpoint combinedNext_fuel (fuel : nat) (itr : combinedIterator) : res (option VersionedKV * combinedIterator) :=
  match dbItem itr, updatesItem itr with
  | None, None => serveEndKeyIfNeeded itr
  | _, _ =>
    let compResult := compareKeys (dbItem itr) (updatesItem itr) in
    let selectedItem := match compResult with Lt => dbItem itr | _ => updatesItem itr end in
    '(dbItem', dbItr') ← match compResult with Gt => Ok (dbItem itr, dbItr itr) | _ => nextItem (dbItr itr) end;
    '(updatesItem', updatesItr') ← match compResult with Lt => Ok (updatesItem itr, updatesItr itr) | _ => nextItem (updatesItr itr) end;
    let itr' := mkCombinedIterator dbItr' updatesItr' dbItem' updatesItem' (endKeyServed itr) in
    match selectedItem with
    | None => Err (Errorf "unreachable")
    | Some item =>
      if isDelete item then
        match fuel with O => Err (Errorf "out of fuel") | S fuel => combinedNext_fuel fuel itr' end
      else Ok (Some item, itr')
    end
  end.

Definition combinedNext (itr : combinedIterator) : res (option VersionedKV * combinedIterator) :=
  combinedNext_fuel (2 + length (dbItr itr) + length (updatesItr itr)) itr.
End iterator.

(** ** Comparison one by one *)

(** [rangeQueryResultsValidator.validate], for any iterator. *)
Section results.
Context {I : Type} (next : I → res (option VersionedKV * I)).

Fixpoint compareResults (rqResults : list KVRead) (result : option VersionedKV) (itr : I) : fallible bool :=
  match rqResults with
  | [] => ok (match result with None => true | Some _ => false end)
  | kvRead :: rqResults =>
    match result with
    | None => ok false
    | Some versionedKV =>
      if decide (kv_Key versionedKV ≠ kr_Key kvRead) then ok false else
      match kr_Version kvRead with
      | None => Panic "invalid memory address or nil pointer dereference"
      | Some version =>
        if negb (AreSame (Some (vv_Version (kv_VersionedValue versionedKV))) (Some version)) then ok false else
        '(result, itr) ←? Done (next itr);
        compareResults rqResults result itr
      end
    end
  end.

Definition validateResults (rqResults : list KVRead) (itr : I) : fallible bool :=
  '(result, itr) ←? Done (next itr);
  compareResults rqResults result itr.
End results.

(** ** Comparison by a Merkle tree *)

(** Levels are counted from 1, the hashes of groups of results. *)
Record merkleTree := mkMerkleTree { mt_tree : gmap nat (list bytes); mt_maxLevel : nat; mt_maxDegree : Z }.

Definition level (l : nat) (m : merkleTree) : list bytes := default [] (mt_tree m !! l).

Definition newMerkleTree (maxDegree : Z) : res merkleTree :=
  if maxDegree <? 2 then Err (Errorf "maxDegree should not be less than 2 in the merkle tree")
  else Ok (mkMerkleTree ∅ 1 maxDegree).

Section merkle.
Context `{!Codec (list KVRead)} (hashFunc : bytes → bytes).

Definition computeCombinedHash (hashes : list bytes) : bytes := hashFunc (concat hashes).

(** Takes the nodes of a level to the next while they are too many. Only the level above
    the last is empty, so the loop ends there. *)
Fixpoint updateLoop (fuel currentLevel : nat) (m : merkleTree) : merkleTree :=
  if u32 (Z.of_nat (length (level currentLevel m))) <=? mt_maxDegree m then m else
  let nextLevelHash := computeCombinedHash (level currentLevel m) in
  let nextLevel := S currentLevel in
  let m := {| m with mt_tree := <[nextLevel := level nextLevel m ++ [nextLevelHash]]> (delete currentLevel (mt_tree m));
                     mt_maxLevel := Nat.max nextLevel (mt_maxLevel m) |} in
  match fuel with O => m | S fuel => updateLoop fuel nextLevel m end.

Definition merkle_update (nextLeafLevelHash : bytes) (m : merkleTree) : merkleTree :=
  updateLoop (mt_maxLevel m) 1 {| m with mt_tree := <[1%nat := level 1 m ++ [nextLeafLevelHash]]> (mt_tree m) |}.

(** Moves what is left on the levels from [currentLevel] up to the last one. *)
Fixpoint doneLoop (n currentLevel : nat) (m : merkleTree) : merkleTree :=
  match n with
  | O => m
  | S n =>
    match level currentLevel m with
    | [] => doneLoop n (S currentLevel) m
    | hs =>
      let h := match hs with [h] => h | _ => computeCombinedHash hs end in
      doneLoop n (S currentLevel)
        {| m with mt_tree := <[S currentLevel := level (S currentLevel) m ++ [h]]> (delete currentLevel (mt_tree m)) |}
    end
  end.

Definition merkle_done (m : merkleTree) : merkleTree :=
  let m := doneLoop (mt_maxLevel m - 1) 1 m in
  let finalHashes := level (mt_maxLevel m) m in
  if u32 (Z.of_nat (length finalHashes)) >? mt_maxDegree m then
    {| m with mt_tree := <[S (mt_maxLevel m) := [computeCombinedHash finalHashes]]> (delete (mt_maxLevel m) (mt_tree m));
              mt_maxLevel := S (mt_maxLevel m) |}
  else m.

Definition getSummery (m : merkleTree) : QueryReadsMerkleSummary :=
  mkMerkleSummary (mt_maxDegree m) (u32 (Z.of_nat (mt_maxLevel m))) (level (mt_maxLevel m) m).

Definition merkle_isEmpty (m : merkleTree) : bool :=
  bool_decide (mt_maxLevel m = 1%nat) && bool_decide (level (mt_maxLevel m) m = []).

(** The helper, with hashing enabled. *)
Record RangeQueryResultsHelper := mkResultsHelper { pendingResults : list KVRead; rh_mt : merkleTree }.

Definition NewRangeQueryResultsHelper (maxDegree : Z) : res RangeQueryResultsHelper :=
  mt ← newMerkleTree maxDegree; Ok (mkResultsHelper [] mt).

Definition processPendingResults (helper : RangeQueryResultsHelper) : RangeQueryResultsHelper :=
  mkResultsHelper [] (merkle_update (hashFunc (marshal (pendingResults helper))) (rh_mt helper)).

Definition AddResult (kvRead : KVRead) (helper : RangeQueryResultsHelper) : RangeQueryResultsHelper :=
  let helper := {| helper with pendingResults := pendingResults helper ++ [kvRead] |} in
  if u32 (Z.of_nat (length (pendingResults helper))) >? mt_maxDegree (rh_mt helper) then processPendingResults helper else helper.

Definition helper_Done (helper : RangeQueryResultsHelper) : list KVRead * option QueryReadsMerkleSummary :=
  if merkle_isEmpty (rh_mt helper) then (pendingResults helper, None) else
  let helper := if decide (pendingResults helper = []) then helper else processPendingResults helper in
  (pendingResults helper, Some (getSummery (merkle_done (rh_mt helper)))).

Definition merkleSummariesEqual (ms : QueryReadsMerkleSummary) (anotherMS : option QueryReadsMerkleSummary) : bool :=
  match anotherMS with
  | None => false
  | Some another => bool_decide (ms = another)
  end.

(** [rangeQueryHashValidator.validate] from a helper that has got the results so far. *)
Section hashes.
Context {I : Type} (next : I → res (option VersionedKV * I)) (inMerkle : QueryReadsMerkleSummary).

Fixpoint compareHashes (fuel : nat) (lastMatchedIndex : Z) (helper : RangeQueryResultsHelper) (itr : I) : fallible bool :=
  '(result, itr) ←? Done (next itr);
  match result with
  | None => ok (merkleSummariesEqual inMerkle (helper_Done helper).2)
  | Some versionedKV =>
    let helper := AddResult (mkKVRead (kv_Key versionedKV) (Some (vv_Version (kv_VersionedValue versionedKV)))) helper in
    let merkle := getSummery (rh_mt helper) in
    let continue lastMatchedIndex :=
      match fuel with O => fail "out of fuel" | S fuel => compareHashes fuel lastMatchedIndex helper itr end in
    if MaxLevel merkle <? MaxLevel inMerkle then continue lastMatchedIndex
    else if lastMatchedIndex =? Z.of_nat (length (MaxLevelHashes merkle)) - 1 then continue lastMatchedIndex
    else if decide (length (MaxLevelHashes inMerkle) < length (MaxLevelHashes merkle))%nat then ok false
    else
      let lastMatchedIndex := lastMatchedIndex + 1 in
      match MaxLevelHashes merkle !! Z.to_nat lastMatchedIndex, MaxLevelHashes inMerkle !! Z.to_nat lastMatchedIndex with
      | Some h, Some h' => if decide (h = h') then continue lastMatchedIndex else ok false
      | _, _ => Panic "index out of range"
      end
  end.

(** An error of [init] is dropped, and leaves the validator without a helper. *)
Definition validateHashes (fuel : nat) (itr : I) : fallible bool :=
  match NewRangeQueryResultsHelper (MaxDegree inMerkle) with
  | Err _ => Panic "invalid memory address or nil pointer dereference"
  | Ok helper => compareHashes fuel (-1) helper itr
  end.
End hashes.

(** ** The validation of a query *)

Definition validateRangeQuery {D} `{!VersionedDB D} (db : D) (updates : UpdateBatch) (ns : bytes) (rangeQueryInfo : RangeQueryInfo)
    : fallible bool :=
  let includeEndKey := negb (ItrExhausted rangeQueryInfo) in
  combinedItr ←? Done (newCombinedIterator db updates ns (StartKey rangeQueryInfo) (EndKey rangeQueryInfo));
  let next := combinedNext db updates ns (EndKey rangeQueryInfo) includeEndKey in
  match rq_ReadsInfo rangeQueryInfo with
  | Some (ReadsMerkleHashes summary) =>
    validateHashes next summary (4 + length (dbItr combinedItr) + length (updatesItr combinedItr)) combinedItr
  | Some (RawReads kvReads) => validateResults next kvReads combinedItr
  | None => validateResults next [] combinedItr
  end.
End merkle.
