(* ===== verification/RangeQueryProps.v ===== *)
(** * Correctness of the validation of range queries

    A query is validated against the state with the updates of the earlier transactions
    of the block applied. [range_query_exact]: the recorded results are accepted exactly
    if the query on that state returns them, or has the recorded Merkle summary. *)

From stdpp Require Import gmap strings list sorting.
From Stdlib Require Import Strings.Byte.
From S2P Require Import Prelude GoLib Varint Disk LevelDB StateDB RangeQuery.

(** ** The state with updates applied *)

Definition overlay (u m : gmap bytes VersionedValue) : gmap bytes VersionedValue :=
  merge (λ x y, match x with Some vv => if IsDelete vv then None else Some vv | None => y end) u m.

Lemma overlay_lookup u m k :
  overlay u m !! k = match u !! k with Some vv => if IsDelete vv then None else Some vv | None => m !! k end.
Proof. unfold overlay. rewrite lookup_merge. by destruct (u !! k), (m !! k). Qed.

(** A query on a state: the entries of the range and, if it ends at a key the caller
    saw, that key. *)
Definition query (ns startKey endKey : bytes) (includeEndKey : bool) (m : gmap bytes VersionedValue) : list VersionedKV :=
  entries ns startKey endKey m ++
  match (if includeEndKey then m !! endKey else None) with
  | Some vv => [mkVersionedKV ns endKey (mkVersionedValue (vv_Value vv) None (vv_Version vv))]
  | None => []
  end.

(** The reads a query records. *)
Definition reads (l : list VersionedKV) : list KVRead :=
  (λ kv, mkKVRead (kv_Key kv) (Some (vv_Version (kv_VersionedValue kv)))) <$> l.

(** ** Merging sorted lists *)

Section merge.
Context {V : Type}.
Implicit Types (l : list (bytes * V)).

Definition key_lt (x y : bytes * V) : Prop := bytes_lt x.1 y.1.

Fixpoint mergeKeys (l1 : list (bytes * V)) : list (bytes * V) → list (bytes * V) :=
  fix aux (l2 : list (bytes * V)) : list (bytes * V) :=
  match l1, l2 with
  | [], _ => l2
  | _, [] => l1
  | x :: l1', y :: l2' =>
    match bytesCompare x.1 y.1 with
    | Lt => x :: mergeKeys l1' l2
    | Eq => y :: mergeKeys l1' l2'
    | Gt => y :: aux l2'
    end
  end.

Lemma mergeKeys_nil_r l : mergeKeys l [] = l.
Proof. by destruct l. Qed.

Lemma mergeKeys_nil_l l : mergeKeys [] l = l.
Proof. by destruct l. Qed.

Lemma mergeKeys_cons x l1 y l2 :
  mergeKeys (x :: l1) (y :: l2) =
    match bytesCompare x.1 y.1 with
    | Lt => x :: mergeKeys l1 (y :: l2)
    | Eq => y :: mergeKeys l1 l2
    | Gt => y :: mergeKeys (x :: l1) l2
    end.
Proof. done. Qed.

Lemma scan_strict (s : bytes) (e : option bytes) (m : gmap bytes V) : StronglySorted key_lt (scan s e m).
Proof.
  pose proof (scan_sorted s e m) as Hs. pose proof (scan_NoDup s e m) as Hn. induction Hs as [|x l Hs IH Hf]; [constructor|].
  cbn in Hn. apply NoDup_cons in Hn as [Hx Hn]. constructor; [by apply IH|]. apply Forall_forall. intros y Hy.
  rewrite Forall_forall in Hf. specialize (Hf y Hy). apply bytes_le_alt in Hf as [E|?]; [|done]. exfalso. apply Hx. rewrite E. by apply list_elem_of_fmap_2.
Qed.

Lemma strict_sorted l : StronglySorted key_lt l → StronglySorted key_le l ∧ NoDup l.*1.
Proof.
  induction 1 as [|x l Hs [IH1 IH2] Hf]; [split; constructor|]. split.
  - constructor; [done|]. eapply Forall_impl; [exact Hf|]. intros y Hy. apply bytes_le_alt. by right.
  - cbn. apply NoDup_cons. split; [|done]. intros ([k v] & E & Hy)%list_elem_of_fmap. rewrite Forall_forall in Hf. specialize (Hf _ Hy).
    unfold key_lt in Hf. rewrite E in Hf. by apply (irreflexivity bytes_lt) in Hf.
Qed.

Lemma mergeKeys_elem l1 l2 x :
  StronglySorted key_lt l1 → StronglySorted key_lt l2 →
  x ∈ mergeKeys l1 l2 ↔ x ∈ l2 ∨ x ∈ l1 ∧ x.1 ∉ l2.*1.
Proof.
  intros H1. revert l2. induction H1 as [|a l1 S1 IH1 F1]; intros l2 H2; [cbn; destruct l2; set_solver|].
  induction H2 as [|b l2 S2 IH2 F2]; [rewrite mergeKeys_nil_r; set_solver|]. rewrite mergeKeys_cons.
  destruct (bytesCompare a.1 b.1) eqn:E.
  - apply bytesCompare_eq in E. rewrite elem_of_cons, IH1 by done. cbn [fmap list_fmap]. rewrite !elem_of_cons, <- E. split.
    + intros [->|[?|[? Hn]]]; [by left; left|by left; right|]. right. split; [by right|]. intros [Ex|?]; [|done].
      rewrite Forall_forall in F1. specialize (F1 x ltac:(done)). unfold key_lt in F1. rewrite Ex in F1. by apply (irreflexivity bytes_lt) in F1.
    + intros [[->|?]|[[->|?] Hn]]; [by left|by right; left| |]; [by exfalso; apply Hn; left|]. right. right. split; [done|]. intros ?. apply Hn. by right.
  - rewrite elem_of_cons, IH1 by (by constructor). rewrite !elem_of_cons. split.
    + intros [->|[?|[? ?]]]; [|tauto|tauto]. right. split; [by left|]. cbn [fmap list_fmap]. rewrite elem_of_cons. intros [Ex|([k v] & Ex & Hin)%list_elem_of_fmap].
      * rewrite Ex, bytesCompare_refl in E. done.
      * rewrite Forall_forall in F2. specialize (F2 _ Hin). unfold key_lt in F2. rewrite <- Ex in F2. apply bytes_lt_not_le in F2. apply F2.
        apply bytes_le_alt. by right.
    + tauto.
  - rewrite elem_of_cons, IH2. cbn [fmap list_fmap]. rewrite !elem_of_cons. split.
    + intros [->|[?|[Hx ?]]]; [tauto|tauto|]. right. split; [done|]. intros [Ex|?]; [|done].
      assert (bytes_lt b.1 a.1) as Hlt by (unfold bytes_lt; rewrite bytesCompare_antisym, E; done).
      destruct Hx as [->|Hx]; [rewrite Ex in Hlt; by apply (irreflexivity bytes_lt) in Hlt|].
      rewrite Forall_forall in F1. specialize (F1 x Hx). unfold key_lt in F1. rewrite Ex in F1. apply bytes_lt_not_le in F1. apply F1. apply bytes_le_alt. by right.
    + intros [[->|?]|[? Hn]]; [by left|by right; left|]. right. right. split; [done|]. intros ?. apply Hn. by right.
Qed.

Lemma mergeKeys_sorted l1 l2 : StronglySorted key_lt l1 → StronglySorted key_lt l2 → StronglySorted key_lt (mergeKeys l1 l2).
Proof.
  intros H1. revert l2. induction H1 as [|a l1 S1 IH1 F1]; intros l2 H2; [by destruct l2|].
  induction H2 as [|b l2 S2 IH2 F2]; [rewrite mergeKeys_nil_r; by constructor|]. rewrite mergeKeys_cons.
  rewrite Forall_forall in F1, F2.
  assert (∀ x y z : bytes * V, key_lt x y → key_lt y z → key_lt x z) as Htr by (intros ? ? ?; apply bytesCompare_trans).
  destruct (bytesCompare a.1 b.1) eqn:E.
  - apply bytesCompare_eq in E. constructor; [by apply IH1|]. apply Forall_forall. intros x Hx. apply mergeKeys_elem in Hx as [Hx|[Hx _]]; [by apply F2| |done|done].
    unfold key_lt. rewrite <- E. by apply F1.
  - constructor; [apply IH1; constructor; [done|by apply Forall_forall]|]. apply Forall_forall. intros x Hx.
    apply mergeKeys_elem in Hx as [Hx|[Hx _]]; [|by apply F1|done|constructor; [done|by apply Forall_forall]].
    apply elem_of_cons in Hx as [->|Hx]; [done|]. eapply Htr; [exact E|by apply F2].
  - assert (key_lt b a) as Hlt by (unfold key_lt, bytes_lt; rewrite bytesCompare_antisym, E; done).
    constructor; [done|]. apply Forall_forall. intros x Hx.
    apply mergeKeys_elem in Hx as [Hx|[Hx _]]; [by apply F2| |constructor; [done|by apply Forall_forall]|done].
    apply elem_of_cons in Hx as [->|Hx]; [done|]. eapply Htr; [exact Hlt|by apply F1].
Qed.
End merge.

(** The live entries of the merge are those of the state with the updates applied. *)
Definition live (kv : bytes * VersionedValue) : Prop := IsDelete kv.2 = false.

#[export] Instance live_dec kv : Decision (live kv).
Proof. unfold live. apply _. Defined.

Lemma strict_filter {V} (P : bytes * V → Prop) `{!∀ x, Decision (P x)} l : StronglySorted key_lt l → StronglySorted key_lt (filter P l).
Proof.
  induction 1 as [|x l Hs IH Hf]; [constructor|]. rewrite filter_cons. case_decide; [|done]. constructor; [done|].
  apply Forall_forall. intros y [_ Hy]%list_elem_of_filter. rewrite Forall_forall in Hf. by apply Hf.
Qed.

Lemma merge_overlay (s : bytes) (e : option bytes) (u m : gmap bytes VersionedValue) :
  (∀ k vv, m !! k = Some vv → IsDelete vv = false) →
  filter live (mergeKeys (scan s e m) (scan s e u)) = scan s e (overlay u m).
Proof.
  intros Hlive. pose proof (scan_strict s e m) as H1. pose proof (scan_strict s e u) as H2.
  destruct (strict_sorted _ (strict_filter live _ (mergeKeys_sorted _ _ H1 H2))) as [HA HB].
  apply sorted_unique; [done|apply scan_sorted|done|apply scan_NoDup|]. intros [k vv].
  rewrite list_elem_of_filter, mergeKeys_elem, !scan_elem, overlay_lookup by done. unfold live. cbn [snd fst].
  rewrite list_elem_of_fmap. split.
  - intros [Hl [[Hu Hr]|[[Hm Hr] Hn]]]; [by rewrite Hu, Hl|]. split; [|done]. destruct (u !! k) as [vu|] eqn:Eu; [|done].
    exfalso. apply Hn. exists (k, vu). split; [done|]. by apply scan_elem.
  - intros [Ho Hr]. destruct (u !! k) as [vu|] eqn:Eu.
    + destruct (IsDelete vu) eqn:Ed; [done|]. injection Ho as ->. split; [done|]. by left.
    + split; [by eapply Hlive|]. right. split; [done|]. intros ([k' v'] & -> & [Hx _]%scan_elem). cbn in Eu. congruence.
Qed.

(** ** What an iterator returns *)

Section yields.
Context {I : Type} (next : I → res (option VersionedKV * I)).

Fixpoint yields (itr : I) (l : list VersionedKV) : Prop :=
  match l with
  | [] => ∃ itr', next itr = Ok (None, itr')
  | kv :: l => ∃ itr', next itr = Ok (Some kv, itr') ∧ yields itr' l
  end.

(** Results that come one by one are compared with all recorded reads. *)
Lemma validateResults_exact rq itr l :
  Forall (λ r, is_Some (kr_Version r)) rq → yields itr l → validateResults next rq itr = ok (bool_decide (rq = reads l)).
Proof.
  intros Hv. unfold validateResults. revert itr l. induction Hv as [|r rq [v Hr] Hv IH]; intros itr [|kv l].
  - by intros (itr' & ->).
  - by intros (itr' & -> & _).
  - by intros (itr' & ->).
  - intros (itr' & -> & Hy). cbn [try_bind compareResults]. destruct r as [k ver]. cbn [kr_Key kr_Version] in *. subst ver.
    destruct (decide (kv_Key kv ≠ k)) as [Hk|Hk].
    { rewrite bool_decide_eq_false_2; [done|]. cbn. congruence. }
    apply dec_stable in Hk. destruct (AreSame _ _) eqn:E; cbn [negb].
    + apply AreSame_eq in E. injection E as Ev. specialize (IH itr' l Hy). cbn [try_bind] in IH. rewrite IH. do 2 f_equal. apply bool_decide_ext. cbn. rewrite Hk, Ev. naive_solver.
    + rewrite bool_decide_eq_false_2; [done|]. cbn. intros [= _ Ev]. apply not_true_iff_false in E. apply E. apply AreSame_eq. congruence.
Qed.
End yields.

Section combined.
Context {D} `{!VersionedDB D, !VersionedDBOk D}.
Context (db : D) (updates : UpdateBatch) (ns startKey endKey : bytes) (includeEndKey : bool).
Hypothesis (Hdb : db_ok db) (Hns : ns_ok ns).

Abbreviation next := (combinedNext db updates ns endKey includeEndKey).
Abbreviation kv := (λ '(key, vv), mkVersionedKV ns key vv).

(** An iterator that has the items [l] left, the first of which was taken out. *)
Definition left_in (item : option VersionedKV) (itr : list (res VersionedKV)) (l : list (bytes * VersionedValue)) : Prop :=
  match l with
  | [] => item = None ∧ itr = []
  | x :: l => item = Some (kv x) ∧ itr = Ok <$> (kv <$> l)
  end.

Definition itr_at (itr : combinedIterator) (l1 l2 : list (bytes * VersionedValue)) : Prop :=
  left_in (dbItem itr) (dbItr itr) l1 ∧ left_in (updatesItem itr) (updatesItr itr) l2 ∧ endKeyServed itr = false.

Lemma nextItem_left l : ∃ item itr, nextItem (Ok <$> (kv <$> l)) = Ok (item, itr) ∧ left_in item itr l.
Proof. destruct l as [|x l]; cbn; by eexists _, _. Qed.

(** One call of [Next]. *)
Lemma next_step fuel itr l1 l2 :
  itr_at itr l1 l2 → (length l1 + length l2 <= fuel)%nat →
  match filter live (mergeKeys l1 l2) with
  | [] => ∃ itr', combinedNext_fuel db updates ns endKey includeEndKey fuel itr = serveEndKeyIfNeeded db updates ns endKey includeEndKey itr' ∧ itr_at itr' [] []
  | x :: rest => ∃ itr' l1' l2', combinedNext_fuel db updates ns endKey includeEndKey fuel itr = Ok (Some (kv x), itr') ∧
      itr_at itr' l1' l2' ∧ filter live (mergeKeys l1' l2') = rest
  end.
Proof.
  revert itr l1 l2. induction fuel as [|fuel IH]; intros [i1 i2 x1 x2 served] l1 l2 (H1 & H2 & Hsv) Hf; cbn [dbItem dbItr updatesItem updatesItr endKeyServed] in *;
    subst served.
  { destruct l1; [|cbn in Hf; lia]. destruct l2; [|cbn in Hf; lia]. destruct H1 as [-> ->], H2 as [-> ->]. cbn. by eexists. }
  (** the item that is selected, and what is left *)
  assert (∀ x l1' l2' item1 itr1 item2 itr2, left_in item1 itr1 l1' → left_in item2 itr2 l2' → (length l1' + length l2' <= fuel)%nat →
    let itr' := mkCombinedIterator itr1 itr2 item1 item2 false in
    let r := if isDelete (kv x) then combinedNext_fuel db updates ns endKey includeEndKey fuel itr' else Ok (Some (kv x), itr') in
    match filter live (x :: mergeKeys l1' l2') with
    | [] => ∃ itr', r = serveEndKeyIfNeeded db updates ns endKey includeEndKey itr' ∧ itr_at itr' [] []
    | y :: rest => ∃ itr' l1' l2', r = Ok (Some (kv y), itr') ∧ itr_at itr' l1' l2' ∧ filter live (mergeKeys l1' l2') = rest
    end) as Hsel.
  { intros [k vv] l1' l2' item1 itr1 item2 itr2 Hl1 Hl2 Hlen. cbn zeta. rewrite filter_cons. unfold isDelete. cbn [kv_VersionedValue].
    destruct (decide (live (k, vv))) as [Ed|Ed]; unfold live in Ed; cbn [snd] in Ed; [|apply not_false_iff_true in Ed]; rewrite Ed; cycle 1.
    - apply IH; [by split_and!|done].
    - eexists _, l1', l2'. by split_and!. }
  destruct l1 as [|[k1 v1] l1], l2 as [|[k2 v2] l2]; cbn [left_in] in H1, H2; destruct H1 as [-> ->], H2 as [-> ->].
  - cbn. by eexists.
  - cbn [combinedNext_fuel dbItem updatesItem compareKeys dbItr updatesItr endKeyServed mbind res_bind mergeKeys].
    destruct (nextItem_left l2) as (item & itr & -> & Hl). cbn [mbind res_bind].
    pose proof (Hsel (k2, v2) [] l2) as Hs. rewrite mergeKeys_nil_l in Hs. apply Hs; [by split|done|cbn in *; lia].
  - cbn [combinedNext_fuel dbItem updatesItem compareKeys dbItr updatesItr endKeyServed mbind res_bind mergeKeys].
    destruct (nextItem_left l1) as (item & itr & -> & Hl). cbn [mbind res_bind]. pose proof (Hsel (k1, v1) l1 []) as Hs. rewrite mergeKeys_nil_r in Hs.
    apply Hs; [done|by split|cbn in *; lia].
  - cbn [combinedNext_fuel dbItem updatesItem compareKeys dbItr updatesItr endKeyServed kv_Key]. rewrite mergeKeys_cons. cbn [fst].
    destruct (nextItem_left l1) as (item1 & itr1 & E1 & Hl1), (nextItem_left l2) as (item2 & itr2 & E2 & Hl2).
    destruct (bytesCompare k1 k2) eqn:E; rewrite ?E1, ?E2; cbn [mbind res_bind].
    + apply (Hsel (k2, v2) l1 l2); [done|done|cbn in *; lia].
    + apply (Hsel (k1, v1) l1 ((k2, v2) :: l2)); [done|by split|cbn in *; lia].
    + apply (Hsel (k2, v2) ((k1, v1) :: l1) l2); [by split|done|cbn in *; lia].
Qed.

Lemma left_in_length item itr l : left_in item itr l → (length l <= S (length itr))%nat.
Proof. destruct l; intros [_ ->]; cbn; rewrite ?length_fmap; lia. Qed.

Definition endEntry : list VersionedKV :=
  match (if includeEndKey then overlay (GetUpdates ns updates) (contents db ns) !! endKey else None) with
  | Some vv => [mkVersionedKV ns endKey (mkVersionedValue (vv_Value vv) None (vv_Version vv))]
  | None => []
  end.

(** Once the items are used up, the end key is served once. *)
Lemma served_yields itr : itr_at itr [] [] → ∃ o itr',
  serveEndKeyIfNeeded db updates ns endKey includeEndKey itr = Ok (o, itr') ∧
  match endEntry with [] => o = None | x :: l => o = Some x ∧ yields next itr' l end.
Proof.
  destruct itr as [i1 i2 x1 x2 served]. intros (H1 & H2 & Hsv). cbn [dbItem dbItr updatesItem updatesItr endKeyServed left_in] in *.
  destruct H1 as [-> ->], H2 as [-> ->]. subst served. unfold serveEndKeyIfNeeded, endEntry. cbn [endKeyServed]. rewrite orb_false_r. destruct includeEndKey; cbn [negb]; [|by eexists _, _].
  rewrite Get_updates, GetState_ok, overlay_lookup by done. destruct (GetUpdates ns updates !! endKey) as [vv|] eqn:Eu; cbn [mbind res_bind].
  - unfold isDelete, IsDelete. cbn [kv_VersionedValue vv_Value]. destruct (vv_Value vv) eqn:Ev; [|by eexists _, _].
    eexists _, _. split; [done|]. rewrite Ev. split; [done|]. by eexists.
  - destruct (contents db ns !! endKey) as [vv|] eqn:Ec; [|by eexists _, _].
    pose proof (contents_live db ns endKey vv Hdb Hns Ec) as Hl. unfold isDelete, IsDelete in *. cbn [kv_VersionedValue vv_Value].
    destruct (vv_Value vv) eqn:Ev; [|done]. eexists _, _. split; [done|]. split; [done|]. by eexists.
Qed.

Lemma left_yields l itr l1 l2 :
  itr_at itr l1 l2 → filter live (mergeKeys l1 l2) = l → yields next itr ((kv <$> l) ++ endEntry).
Proof.
  revert itr l1 l2. induction l as [|x l IH]; intros itr l1 l2 Hi Hl.
  - pose proof Hi as (H1 & H2 & _). apply left_in_length in H1, H2.
    pose proof (next_step (2 + length (dbItr itr) + length (updatesItr itr)) itr l1 l2 Hi ltac:(lia)) as Hn. rewrite Hl in Hn.
    destruct Hn as (itr' & Hn & Hi'). destruct (served_yields itr' Hi') as (o & itr'' & Hs & Ho). cbn [fmap list_fmap app].
    destruct endEntry as [|y l']; cbn [yields]; unfold combinedNext; rewrite Hn, Hs; [subst o; by eexists|]. destruct Ho as [-> Ho]. by eexists.
  - pose proof Hi as (H1 & H2 & _). apply left_in_length in H1, H2.
    pose proof (next_step (2 + length (dbItr itr) + length (updatesItr itr)) itr l1 l2 Hi ltac:(lia)) as Hn. rewrite Hl in Hn.
    destruct Hn as (itr' & l1' & l2' & Hn & Hi' & Hl'). cbn [fmap list_fmap app yields]. exists itr'. split; [done|]. by eapply IH.
Qed.

Lemma combined_yields :
  ∃ itr, newCombinedIterator db updates ns startKey endKey = Ok itr ∧
    yields next itr (query ns startKey endKey includeEndKey (overlay (GetUpdates ns updates) (contents db ns))) ∧
    (length (scan startKey (limit endKey) (contents db ns)) <= S (length (dbItr itr)))%nat ∧
    (length (scan startKey (limit endKey) (GetUpdates ns updates)) <= S (length (updatesItr itr)))%nat.
Proof.
  unfold newCombinedIterator. rewrite GetStateRangeScanIterator_ok, newNsIterator_entries by done. unfold entries. cbn [mbind res_bind].
  destruct (nextItem_left (scan startKey (limit endKey) (contents db ns))) as (item1 & itr1 & -> & Hl1).
  destruct (nextItem_left (scan startKey (limit endKey) (GetUpdates ns updates))) as (item2 & itr2 & -> & Hl2). cbn [mbind res_bind].
  eexists. split; [done|]. split; [|split; by apply left_in_length in Hl1, Hl2].
  unfold query, entries. rewrite <- (merge_overlay _ _ _ _ (λ k vv, contents_live db ns k vv Hdb Hns)).
  eapply left_yields; [|done]. by split_and!.
Qed.
End combined.

(** ** Merkle trees *)

Section merkle.
Context `{!Codec (list KVRead)} (hashFunc : bytes → bytes).

(** No level has too many nodes, and there are none above the last one. *)
Record tree_ok (m : merkleTree) : Prop := {
  to_degree : 2 <= mt_maxDegree m < 2 ^ 31;
  to_first : (1 <= mt_maxLevel m)%nat;
  to_nodes l : Z.of_nat (length (level l m)) <= mt_maxDegree m;
  to_last l : (mt_maxLevel m < l)%nat → level l m = []
}.

Lemma level_insert l l' hs t n d : level l (mkMerkleTree (<[l' := hs]> t) n d) = if decide (l = l') then hs else default [] (t !! l).
Proof. unfold level. cbn [mt_tree]. destruct (decide (l = l')) as [->|Hn]; [by rewrite lookup_insert_eq|by rewrite lookup_insert_ne]. Qed.

(** The tree grew by a node of its last level, or by a level. *)
Definition grow (m r : merkleTree) : Prop :=
  mt_maxDegree r = mt_maxDegree m ∧
  (mt_maxLevel r = mt_maxLevel m ∧
     (level (mt_maxLevel m) r = level (mt_maxLevel m) m ∨ ∃ h, level (mt_maxLevel m) r = level (mt_maxLevel m) m ++ [h]) ∨
   mt_maxLevel r = S (mt_maxLevel m) ∧ (∃ h, level (S (mt_maxLevel m)) r = [h]) ∧
     Z.of_nat (length (level (mt_maxLevel m) m)) = mt_maxDegree m).

Lemma updateLoop_grow fuel cur m (B : list bytes) :
  2 <= mt_maxDegree m < 2 ^ 31 → (1 <= cur <= mt_maxLevel m)%nat → (mt_maxLevel m + 1 <= fuel + cur)%nat →
  (∀ l, l ≠ cur → Z.of_nat (length (level l m)) <= mt_maxDegree m) → Z.of_nat (length (level cur m)) <= mt_maxDegree m + 1 →
  (∀ l, (mt_maxLevel m < l)%nat → level l m = []) →
  ((cur < mt_maxLevel m)%nat → level (mt_maxLevel m) m = B) → (cur = mt_maxLevel m → ∃ x, level (mt_maxLevel m) m = B ++ [x]) →
  let r := updateLoop hashFunc fuel cur m in
  tree_ok r ∧ mt_maxDegree r = mt_maxDegree m ∧
  (mt_maxLevel r = mt_maxLevel m ∧ (level (mt_maxLevel m) r = B ∨ ∃ h, level (mt_maxLevel m) r = B ++ [h]) ∨
   mt_maxLevel r = S (mt_maxLevel m) ∧ (∃ h, level (S (mt_maxLevel m)) r = [h]) ∧ Z.of_nat (length B) = mt_maxDegree m).
Proof.
  revert cur m. induction fuel as [|fuel IH]; intros cur m Hd Hc Hfuel Ho Hcur Hl HB1 HB2; [lia|].
  cbn zeta. cbn [updateLoop]. rewrite u32_small by (unfold is_u32; lia).
  destruct (Z.leb_spec (Z.of_nat (length (level cur m))) (mt_maxDegree m)) as [Hs|Hs].
  { split; [split; [done|lia|intros l; destruct (decide (l = cur)) as [->|]; auto|done]|]. split; [done|]. left. split; [done|].
    destruct (decide (cur = mt_maxLevel m)); [by right; apply HB2|left; apply HB1; lia]. }
  set (h := computeCombinedHash hashFunc (level cur m)). destruct m as [t n d]. cbn [mt_tree mt_maxLevel mt_maxDegree] in *.
  assert (∀ l, level l (mkMerkleTree (<[S cur := level (S cur) (mkMerkleTree t n d) ++ [h]]> (delete cur t)) (Nat.max (S cur) n) d) =
    if decide (l = S cur) then level (S cur) (mkMerkleTree t n d) ++ [h] else if decide (l = cur) then [] else level l (mkMerkleTree t n d)) as Hlev.
  { intros l. rewrite level_insert. destruct (decide (l = S cur)); [done|]. destruct (decide (l = cur)) as [->|]; [by rewrite lookup_delete_eq|].
    by rewrite lookup_delete_ne. }
  destruct (decide (cur = n)) as [->|Hn].
  - destruct (HB2 eq_refl) as [x HB]. assert (level (S n) (mkMerkleTree t n d) = []) as Hnil by (apply Hl; lia). rewrite Hnil in *. cbn [app] in *.
    replace (Nat.max (S n) n) with (S n) in * by lia.
    assert (∀ f, updateLoop hashFunc f (S n) (mkMerkleTree (<[S n := [h]]> (delete n t)) (S n) d) = mkMerkleTree (<[S n := [h]]> (delete n t)) (S n) d) as Hend.
    { intros f. destruct f; cbn [updateLoop]; rewrite Hlev, decide_True by done; cbn [length mt_maxDegree];
        rewrite u32_small by (unfold is_u32; lia); by destruct (Z.leb_spec (Z.of_nat 1) d); [|lia]. }
    rewrite Hend. split; [|split; [done|]].
    + split; cbn [mt_maxDegree mt_maxLevel]; [done|lia| |].
      * intros l. rewrite Hlev. destruct (decide (l = S n)); [cbn; lia|]. destruct (decide (l = n)); [cbn; lia|]. by apply Ho.
      * intros l Hlt. rewrite Hlev. rewrite !decide_False by lia. apply Hl. lia.
    + right. split; [done|]. split; [exists h; by rewrite Hlev, decide_True|]. rewrite HB, length_app in Hs, Hcur. cbn in Hs, Hcur. lia.
  - replace (Nat.max (S cur) n) with n in * by lia.
    set (m' := mkMerkleTree (<[S cur := level (S cur) (mkMerkleTree t n d) ++ [h]]> (delete cur t)) n d) in *. apply (IH (S cur) m'); change (mt_maxLevel m') with n; change (mt_maxDegree m') with d; [done|lia|lia| | | | |].
    + intros l Hne. rewrite Hlev, decide_False by done. destruct (decide (l = cur)); [cbn; lia|by apply Ho].
    + rewrite Hlev, decide_True, length_app by done. cbn. specialize (Ho (S cur)). lia.
    + intros l Hlt. rewrite Hlev, !decide_False by lia. by apply Hl.
    + intros Hlt. rewrite Hlev, !decide_False by lia. apply HB1. lia.
    + intros E. exists h. rewrite Hlev, decide_True by lia. f_equal. rewrite E. apply HB1. lia.
Qed.

Lemma update_grow x m : tree_ok m → tree_ok (merkle_update hashFunc x m) ∧ grow m (merkle_update hashFunc x m).
Proof.
  intros [Hd H1 Hn Hl]. destruct m as [t n d]. unfold merkle_update. cbn [mt_tree mt_maxLevel mt_maxDegree] in *.
  set (m' := mkMerkleTree (<[1%nat := level 1 (mkMerkleTree t n d) ++ [x]]> t) n d).
  assert (∀ l, level l m' = if decide (l = 1%nat) then level 1 (mkMerkleTree t n d) ++ [x] else level l (mkMerkleTree t n d)) as Hlev.
  { intros l. unfold m'. by rewrite level_insert. }
  destruct (updateLoop_grow n 1 m' (level n (mkMerkleTree t n d))) as (Hok & Hdeg & Hcase); subst m'; cbn [mt_maxLevel mt_maxDegree] in *.
  - done.
  - lia.
  - lia.
  - intros l Hne. rewrite Hlev, decide_False by done. apply Hn.
  - rewrite Hlev, decide_True, length_app by done. cbn. specialize (Hn 1%nat). lia.
  - intros l Hlt. rewrite Hlev, decide_False by lia. by apply Hl.
  - intros Hlt. by rewrite Hlev, decide_False by lia.
  - intros <-. exists x. by rewrite Hlev, decide_True.
  - split; [done|]. split; [done|]. exact Hcase.
Qed.

(** A later tree: it has more levels, or its last level goes on. *)
Definition later (m r : merkleTree) : Prop :=
  (mt_maxLevel m < mt_maxLevel r)%nat ∨ mt_maxLevel r = mt_maxLevel m ∧ level (mt_maxLevel m) m `prefix_of` level (mt_maxLevel m) r.

Lemma later_trans m1 m2 m3 : later m1 m2 → later m2 m3 → later m1 m3.
Proof.
  intros [H1|[E1 H1]] [H2|[E2 H2]]; [left; lia|left; lia|left; lia|]. right. rewrite E1 in *. split; [lia|]. by etrans.
Qed.

Lemma grow_later m r : grow m r → later m r.
Proof.
  intros [_ [[E [H|[h H]]]|[E _]]]; [right; split; [done|]; by rewrite H|right; split; [done|]; rewrite H; by eexists|left; lia].
Qed.

Lemma doneLoop_later n cur m :
  (cur + n = mt_maxLevel m)%nat → later m (doneLoop hashFunc n cur m) ∧
    mt_maxLevel (doneLoop hashFunc n cur m) = mt_maxLevel m ∧ mt_maxDegree (doneLoop hashFunc n cur m) = mt_maxDegree m.
Proof.
  revert cur m. induction n as [|n IH]; intros cur m Hn; cbn [doneLoop]; [split; [by right|done]|].
  destruct (level cur m) as [|h0 hs] eqn:E; [apply IH; lia|].
  generalize (match hs with [] => h0 | _ => computeCombinedHash hashFunc (h0 :: hs) end). intros h. destruct m as [t k d]. cbn [mt_tree mt_maxLevel mt_maxDegree] in *.
  set (m' := mkMerkleTree (<[S cur := _]> _) k d). destruct (IH (S cur) m') as (H1 & H2 & H3); [cbn; lia|]. split; [|done].
  eapply later_trans; [|exact H1]. right. cbn [mt_maxLevel]. split; [done|]. unfold m'. rewrite level_insert.
  destruct (decide (k = S cur)) as [->|Hne]; [by eexists|]. rewrite lookup_delete_ne by lia. done.
Qed.

Lemma merkle_done_later m :
  (1 <= mt_maxLevel m)%nat → later m (merkle_done hashFunc m) ∧ (mt_maxLevel (merkle_done hashFunc m) <= S (mt_maxLevel m))%nat.
Proof.
  intros H1. unfold merkle_done. destruct (doneLoop_later (mt_maxLevel m - 1) 1 m) as (Hl & Hm & _); [lia|].
  set (r := doneLoop hashFunc (mt_maxLevel m - 1) 1 m) in *. destruct (_ >? _); cbn [mt_maxLevel]; [|split; [done|lia]].
  split; [|lia]. left. cbn [mt_maxLevel]. lia.
Qed.

(** ** The helper *)

Record helper_ok (h : RangeQueryResultsHelper) : Prop := {
  ho_tree : tree_ok (rh_mt h);
  ho_pending : Z.of_nat (length (pendingResults h)) <= mt_maxDegree (rh_mt h)
}.

Lemma AddResult_grow r h :
  helper_ok h → helper_ok (AddResult hashFunc r h) ∧ (rh_mt (AddResult hashFunc r h) = rh_mt h ∨ grow (rh_mt h) (rh_mt (AddResult hashFunc r h))).
Proof.
  intros [Ht Hp]. pose proof (to_degree _ Ht) as Hd. unfold AddResult. cbn [pendingResults rh_mt]. rewrite length_app. cbn [length].
  rewrite u32_small by (unfold is_u32; lia). destruct (Z.gtb_spec (Z.of_nat (length (pendingResults h) + 1)) (mt_maxDegree (rh_mt h))) as [Hg|Hg].
  - unfold processPendingResults. cbn [pendingResults rh_mt]. destruct (update_grow (hashFunc (marshal (pendingResults h ++ [r]))) (rh_mt h) Ht) as [Hok Hgr].
    split; [split; [done|]|by right]. cbn. pose proof (to_degree _ Hok). lia.
  - split; [split; cbn [pendingResults rh_mt]; [done|rewrite length_app; cbn; lia]|by left].
Qed.

Lemma AddResult_later r h :
  helper_ok h → later (rh_mt h) (rh_mt (AddResult hashFunc r h)) ∧ (mt_maxLevel (rh_mt (AddResult hashFunc r h)) <= S (mt_maxLevel (rh_mt h)))%nat.
Proof.
  intros H. destruct (AddResult_grow r h H) as [_ [->|Hg]]; [split; [by right|lia]|]. split; [by apply grow_later|]. destruct Hg as [_ [[-> _]|[-> _]]]; lia.
Qed.

Definition addAll (l : list KVRead) (h : RangeQueryResultsHelper) : RangeQueryResultsHelper := foldl (λ h r, AddResult hashFunc r h) h l.

Lemma addAll_later l h :
  helper_ok h → helper_ok (addAll l h) ∧ later (rh_mt h) (rh_mt (addAll l h)) ∧
    (mt_maxLevel (rh_mt (addAll l h)) <= length l + mt_maxLevel (rh_mt h))%nat.
Proof.
  revert h. induction l as [|r l IH]; intros h Hh; cbn [addAll foldl]; [split; [done|split; [by right|cbn; lia]]|].
  destruct (AddResult_grow r h Hh) as [Hok _]. destruct (AddResult_later r h Hh) as [Hl Hm]. destruct (IH _ Hok) as (H1 & H2 & H3).
  split; [done|]. split; [by eapply later_trans|]. cbn [length]. fold (addAll l (AddResult hashFunc r h)). lia.
Qed.

Lemma final_later h s :
  helper_ok h → (helper_Done hashFunc h).2 = Some s →
  ∃ m, s = getSummery m ∧ later (rh_mt h) m ∧ (mt_maxLevel m <= 2 + mt_maxLevel (rh_mt h))%nat.
Proof.
  intros Hh. unfold helper_Done. destruct (merkle_isEmpty (rh_mt h)); [done|]. cbn [snd]. intros [= <-].
  set (h' := if decide (pendingResults h = []) then h else processPendingResults hashFunc h).
  assert (tree_ok (rh_mt h') ∧ later (rh_mt h) (rh_mt h') ∧ (mt_maxLevel (rh_mt h') <= S (mt_maxLevel (rh_mt h)))%nat) as (Ht & Hl & Hm).
  { unfold h'. destruct (decide _); [split; [apply Hh|split; [by right|lia]]|].
    destruct (update_grow (hashFunc (marshal (pendingResults h))) (rh_mt h) (ho_tree _ Hh)) as [Hok Hg]. cbn [processPendingResults rh_mt].
    split; [done|]. split; [by apply grow_later|]. destruct Hg as [_ [[-> _]|[-> _]]]; lia. }
  destruct (merkle_done_later (rh_mt h') (to_first _ Ht)) as [Hl2 Hm2]. eexists. split; [done|]. split; [by eapply later_trans|lia].
Qed.

(** The summary of all results. *)
Definition summaryOf (l : list KVRead) (h : RangeQueryResultsHelper) : option QueryReadsMerkleSummary := (helper_Done hashFunc (addAll l h)).2.

Section hashes.
Context {I : Type} (next : I → res (option VersionedKV * I)) (inMerkle : QueryReadsMerkleSummary).

(** A mismatch on the way is a mismatch in the end. *)
Lemma early_mismatch l h :
  helper_ok h → Z.of_nat (length l + mt_maxLevel (rh_mt h)) + 2 < 2 ^ 32 → MaxLevel inMerkle <= Z.of_nat (mt_maxLevel (rh_mt h)) →
  ¬ level (mt_maxLevel (rh_mt h)) (rh_mt h) `prefix_of` MaxLevelHashes inMerkle →
  merkleSummariesEqual inMerkle (summaryOf l h) = false.
Proof.
  intros Hh Hb Hl Hp. unfold merkleSummariesEqual, summaryOf. destruct (addAll_later l h Hh) as (H1 & H2 & H3).
  destruct (helper_Done hashFunc (addAll l h)).2 as [s|] eqn:E; [|done]. apply bool_decide_eq_false_2. intros ->.
  destruct (final_later _ _ H1 E) as (m & -> & Hm & Hlev). cbn [getSummery MaxLevel MaxLevelHashes] in *. pose proof (later_trans _ _ _ H2 Hm) as [Hlt|[Heq Hpre]].
  - rewrite u32_small in Hl by (unfold is_u32; lia). lia.
  - apply Hp. by rewrite Heq.
Qed.

(** How far the comparison has got. *)
Definition tracks (last : Z) (h : RangeQueryResultsHelper) : Prop :=
  last = if Z.of_nat (mt_maxLevel (rh_mt h)) <? MaxLevel inMerkle then -1
         else Z.of_nat (length (level (mt_maxLevel (rh_mt h)) (rh_mt h))) - 1.

Lemma tracks_step last h r :
  helper_ok h → last < Z.of_nat (length (MaxLevelHashes inMerkle)) → Z.of_nat (length (MaxLevelHashes inMerkle)) < mt_maxDegree (rh_mt h) →
  tracks last h →
  let m := rh_mt (AddResult hashFunc r h) in
  tracks last (AddResult hashFunc r h) ∨
  MaxLevel inMerkle <= Z.of_nat (mt_maxLevel m) ∧ Z.of_nat (length (level (mt_maxLevel m) m)) = last + 2.
Proof.
  intros Hh Hlast Hd Ht. cbn zeta. unfold tracks in *. destruct (AddResult_grow r h Hh) as [_ [->|[_ Hg]]]; [by left|].
  set (m := rh_mt h) in *. set (m' := rh_mt (AddResult hashFunc r h)) in *.
  destruct (Z.ltb_spec (Z.of_nat (mt_maxLevel m)) (MaxLevel inMerkle)) as [Hlt|Hge];
    destruct Hg as [[El [Hn|[x Hn]]]|(El & [x Hn] & Hfull)]; rewrite El, Hn, ?length_app; cbn [length].
  - left. by destruct (Z.ltb_spec (Z.of_nat (mt_maxLevel m)) (MaxLevel inMerkle)); [|lia].
  - left. by destruct (Z.ltb_spec (Z.of_nat (mt_maxLevel m)) (MaxLevel inMerkle)); [|lia].
  - destruct (Z.ltb_spec (Z.of_nat (S (mt_maxLevel m))) (MaxLevel inMerkle)); [by left|right; lia].
  - left. by destruct (Z.ltb_spec (Z.of_nat (mt_maxLevel m)) (MaxLevel inMerkle)); [lia|].
  - right. lia.
  - lia.
Qed.

(** The comparison as it goes along gives the comparison of the summaries, and an index
    is out of range only if the recorded summary fills its level. *)
Lemma compareHashes_exact fuel last h itr l :
  helper_ok h → Z.of_nat (length l + mt_maxLevel (rh_mt h)) + 2 < 2 ^ 32 → (length l <= fuel)%nat → -1 <= last < Z.of_nat (length (MaxLevelHashes inMerkle)) →
  (Z.of_nat (length (MaxLevelHashes inMerkle)) < mt_maxDegree (rh_mt h) → tracks last h) → yields next itr l →
  match compareHashes hashFunc next inMerkle fuel last h itr with
  | Done r => r = Ok (merkleSummariesEqual inMerkle (summaryOf (reads l) h))
  | Panic _ => mt_maxDegree (rh_mt h) <= Z.of_nat (length (MaxLevelHashes inMerkle))
  end.
Proof.
  revert fuel last h itr. induction l as [|kv l IH]; intros fuel last h itr Hh Hb Hf Hlast Ht.
  { intros (itr' & Hn). destruct fuel; cbn [compareHashes]; by rewrite Hn. }
  intros (itr' & Hn & Hy). destruct fuel as [|fuel]; [cbn in Hf; lia|]. cbn [compareHashes]. rewrite Hn. cbn [try_bind].
  set (r := mkKVRead (kv_Key kv) (Some (vv_Version (kv_VersionedValue kv)))). set (h' := AddResult hashFunc r h).
  destruct (AddResult_grow r h Hh) as [Hh' Hg]. destruct (AddResult_later r h Hh) as [_ Hm]. fold h' in Hh', Hg, Hm.
  assert (summaryOf (reads (kv :: l)) h = summaryOf (reads l) h') as -> by done.
  assert (mt_maxDegree (rh_mt h') = mt_maxDegree (rh_mt h)) as Hdeg by (destruct Hg as [->|[? _]]; done).
  assert (Z.of_nat (length l + mt_maxLevel (rh_mt h')) + 2 < 2 ^ 32) as Hb' by (cbn [length] in Hb; lia).
  assert (∀ last', -1 <= last' < Z.of_nat (length (MaxLevelHashes inMerkle)) → (Z.of_nat (length (MaxLevelHashes inMerkle)) < mt_maxDegree (rh_mt h') → tracks last' h') →
    match compareHashes hashFunc next inMerkle fuel last' h' itr' with
    | Done r => r = Ok (merkleSummariesEqual inMerkle (summaryOf (reads l) h'))
    | Panic _ => mt_maxDegree (rh_mt h) <= Z.of_nat (length (MaxLevelHashes inMerkle))
    end) as Hgo.
  { intros last' Hl' Ht'. rewrite <- Hdeg. apply IH; [done|done|cbn in Hf; lia|done|done|done]. }
  cbn [getSummery MaxLevel MaxLevelHashes]. rewrite u32_small by (unfold is_u32; lia).
  set (n := mt_maxLevel (rh_mt h')) in *. set (hs := level n (rh_mt h')) in *. rewrite Hdeg in Hgo.
  assert (Z.of_nat (length (MaxLevelHashes inMerkle)) < mt_maxDegree (rh_mt h) → tracks last h' ∨ MaxLevel inMerkle <= Z.of_nat n ∧ Z.of_nat (length hs) = last + 2) as Hts.
  { intros Hd. apply tracks_step; [done|lia|done|auto]. }
  unfold tracks in Hts, Hgo. fold n hs in Hts, Hgo.
  destruct (Z.ltb_spec (Z.of_nat n) (MaxLevel inMerkle)) as [Hlev|Hlev].
  { apply Hgo; [done|]. intros Hd. destruct (Hts Hd) as [?|]; [done|lia]. }
  destruct (Z.eqb_spec last (Z.of_nat (length hs) - 1)) as [El|El]; [apply Hgo; [done|intros _; done]|].
  assert (¬ hs `prefix_of` MaxLevelHashes inMerkle → merkleSummariesEqual inMerkle (summaryOf (reads l) h') = false) as Hmis.
  { intros Hp. apply early_mismatch; [done|by unfold reads; rewrite length_fmap|done|done]. }
  assert (Z.of_nat (length (MaxLevelHashes inMerkle)) < mt_maxDegree (rh_mt h) → Z.of_nat (length hs) = last + 2) as Hnext.
  { intros Hd. destruct (Hts Hd) as [E|[_ E]]; [|done]. destruct (Z.ltb_spec (Z.of_nat n) (MaxLevel inMerkle)); [lia|done]. }
  destruct (decide _) as [Hlen|Hlen]; [rewrite Hmis; [done|]; intros Hp%prefix_length; lia|].
  destruct (hs !! Z.to_nat (last + 1)) as [x|] eqn:Ex; [destruct (MaxLevelHashes inMerkle !! Z.to_nat (last + 1)) as [y|] eqn:Ey|].
  - destruct (decide (x = y)) as [->|Hxy]; [|rewrite Hmis; [done|]; intros [t Hp]; rewrite Hp, (lookup_app_l_Some _ _ _ _ Ex) in Ey; congruence].
    apply lookup_lt_Some in Ey. apply Hgo; [lia|]. intros Hd. specialize (Hnext Hd). destruct (Z.ltb_spec (Z.of_nat n) (MaxLevel inMerkle)); lia.
  - apply lookup_ge_None in Ey. apply Z.nlt_ge. intros Hd. specialize (Hnext Hd). lia.
  - apply lookup_ge_None in Ex. apply Z.nlt_ge. intros Hd. specialize (Hnext Hd). lia.
Qed.

Lemma newMerkleTree_ok d : 2 <= d < 2 ^ 31 → NewRangeQueryResultsHelper d = Ok (mkResultsHelper [] (mkMerkleTree ∅ 1 d)) ∧
  helper_ok (mkResultsHelper [] (mkMerkleTree ∅ 1 d)).
Proof.
  intros Hd. unfold NewRangeQueryResultsHelper, newMerkleTree. destruct (Z.ltb_spec d 2); [lia|]. split; [done|].
  split; cbn [rh_mt pendingResults mt_maxDegree length]; [|lia]. split; cbn [mt_maxDegree mt_maxLevel]; [done|lia| |]; intros l; unfold level; cbn [mt_tree]; rewrite lookup_empty; cbn; lia || done.
Qed.

Lemma validateHashes_exact fuel itr l :
  2 <= MaxDegree inMerkle < 2 ^ 31 → Z.of_nat (length l) < 2 ^ 31 → (length l <= fuel)%nat → yields next itr l →
  match validateHashes hashFunc next inMerkle fuel itr with
  | Done r => r = Ok (merkleSummariesEqual inMerkle (summaryOf (reads l) (mkResultsHelper [] (mkMerkleTree ∅ 1 (MaxDegree inMerkle)))))
  | Panic _ => MaxDegree inMerkle <= Z.of_nat (length (MaxLevelHashes inMerkle))
  end.
Proof.
  intros Hd Hl Hf Hy. unfold validateHashes. destruct (newMerkleTree_ok (MaxDegree inMerkle) Hd) as [-> Hh].
  apply (compareHashes_exact fuel (-1) _ itr l Hh); [cbn [rh_mt mt_maxLevel]; lia|done|lia| |done].
  intros _. unfold tracks. cbn [rh_mt mt_maxLevel]. unfold level. cbn [mt_tree]. rewrite lookup_empty. cbn. by destruct (_ <? _).
Qed.
End hashes.
End merkle.

(** ** Queries *)

Lemma mergeKeys_length {V} (l1 l2 : list (bytes * V)) : (length (mergeKeys l1 l2) <= length l1 + length l2)%nat.
Proof.
  revert l2. induction l1 as [|a l1 IH1]; intros l2; [rewrite mergeKeys_nil_l; cbn; lia|].
  induction l2 as [|b l2 IH2]; [rewrite mergeKeys_nil_r; cbn; lia|]. rewrite mergeKeys_cons.
  destruct (bytesCompare a.1 b.1); cbn [length]; [specialize (IH1 l2); lia|specialize (IH1 (b :: l2)); cbn in IH1; lia|cbn [length] in IH2; lia].
Qed.

Section queries.
Context `{!Codec (list KVRead)} (hashFunc : bytes → bytes).
Context {D} `{!VersionedDB D, !VersionedDBOk D}.

(** The summary of the results of a query. *)
Definition summarize (maxDegree : Z) (l : list KVRead) : option QueryReadsMerkleSummary :=
  summaryOf hashFunc l (mkResultsHelper [] (mkMerkleTree ∅ 1 maxDegree)).

(** Whether a query recorded the results [l]. *)
Definition recorded (rq : RangeQueryInfo) (l : list VersionedKV) : bool :=
  match rq_ReadsInfo rq with
  | Some (ReadsMerkleHashes s) => merkleSummariesEqual s (summarize (MaxDegree s) (reads l))
  | Some (RawReads rs) => bool_decide (rs = reads l)
  | None => bool_decide (l = [])
  end.

(** A query as the simulation of a transaction records it. *)
Definition query_ok (rq : RangeQueryInfo) : Prop :=
  match rq_ReadsInfo rq with
  | Some (ReadsMerkleHashes s) => 2 <= MaxDegree s < 2 ^ 31
  | Some (RawReads rs) => Forall (λ r, is_Some (kr_Version r)) rs
  | None => True
  end.

(** A query whose summary has as many nodes as its level takes. *)
Definition query_full (rq : RangeQueryInfo) : Prop :=
  match rq_ReadsInfo rq with
  | Some (ReadsMerkleHashes s) => MaxDegree s <= Z.of_nat (length (MaxLevelHashes s))
  | _ => False
  end.

Definition rerun (rq : RangeQueryInfo) (ns : bytes) (m : gmap bytes VersionedValue) : list VersionedKV :=
  query ns (StartKey rq) (EndKey rq) (negb (ItrExhausted rq)) m.

Lemma validateRangeQuery_exact db updates ns rq :
  let m := overlay (GetUpdates ns updates) (contents db ns) in
  db_ok db → ns_ok ns → query_ok rq → Z.of_nat (length (rerun rq ns m)) < 2 ^ 31 →
  match validateRangeQuery hashFunc db updates ns rq with
  | Done r => r = Ok (recorded rq (rerun rq ns m))
  | Panic _ => query_full rq
  end.
Proof.
  cbn zeta. intros Hdb Hns Hq Hlen. unfold validateRangeQuery.
  destruct (combined_yields db updates ns (StartKey rq) (EndKey rq) (negb (ItrExhausted rq)) Hdb Hns) as (itr & -> & Hy & Hl1 & Hl2).
  cbn [try_bind]. fold (rerun rq ns (overlay (GetUpdates ns updates) (contents db ns))) in Hy. set (l := rerun _ _ _) in *.
  unfold query_ok, query_full, recorded in *. destruct (rq_ReadsInfo rq) as [[rs|s]|].
  - by rewrite (validateResults_exact _ _ _ l Hq Hy).
  - apply (validateHashes_exact hashFunc _ s); [done|done| |done]. unfold l, rerun, query, entries.
    rewrite length_app, length_fmap, <- (merge_overlay _ _ _ _ (λ k vv, contents_live db ns k vv Hdb Hns)).
    pose proof (length_filter live (mergeKeys (scan (StartKey rq) (limit (EndKey rq)) (contents db ns)) (scan (StartKey rq) (limit (EndKey rq)) (GetUpdates ns updates)))).
    pose proof (mergeKeys_length (scan (StartKey rq) (limit (EndKey rq)) (contents db ns)) (scan (StartKey rq) (limit (EndKey rq)) (GetUpdates ns updates))).
    destruct (if negb (ItrExhausted rq) then _ else None); cbn [length]; lia.
  - rewrite (validateResults_exact _ [] _ l ltac:(constructor) Hy). do 2 f_equal. apply bool_decide_ext. by destruct l.
Qed.

(** C8. Phantom detection. A recorded range query is accepted exactly if the query,
    run on the state database with the updates of the earlier valid transactions of the
    block applied, returns the recorded results one by one or has the recorded Merkle
    summary; the merge of the two sources and the early exits of the comparison do not
    change the answer. The validation of a well-formed query can only panic if its summary
    fills its level. *)
Theorem range_query_exact db updates ns rq :
  let m := overlay (GetUpdates ns updates) (contents db ns) in
  db_ok db → ns_ok ns → query_ok rq → Z.of_nat (length (rerun rq ns m)) < 2 ^ 31 →
  match validateRangeQuery hashFunc db updates ns rq with
  | Done r => r = Ok (recorded rq (rerun rq ns m))
  | Panic _ => query_full rq
  end.
Proof. apply validateRangeQuery_exact. Qed.
End queries.
