(* ===== verification/Validation.v ===== *)
(** * Validation of the transactions of a block

    [core/ledger/kvledger/txmgmt/validation]: [validator.go] checks the read sets of the
    transactions of a block against the state database and the writes of the valid
    transactions before them, [types.go] and [tx_ops.go] collect the writes of the valid
    ones. [privacyenabledstate] keeps the hashes of private data in namespaces of their
    own. Private data itself is not part of the model, nor is the version cache of
    CouchDB. *)

From stdpp Require Import gmap strings list.
From Stdlib Require Import Strings.Byte.
From S2P Require Import Prelude GoLib Varint Disk LevelDB StateDB RangeQuery.

(** ** Read-write sets *)

Record KVWrite := mkKVWrite { kw_Key : bytes; kw_IsDelete : bool; kw_Value : bytes }.

Record KVMetadataWrite := mkKVMetadataWrite { mw_Key : bytes; mw_Entries : list (bytes * bytes) }.

Record KVRWSet := mkKVRWSet {
  Reads : list KVRead;
  RangeQueriesInfo : list RangeQueryInfo;
  Writes : list KVWrite;
  MetadataWrites : list KVMetadataWrite
}.

Record KVReadHash := mkKVReadHash { rh_KeyHash : bytes; rh_Version : option Height }.

Record KVWriteHash := mkKVWriteHash { wh_KeyHash : bytes; wh_IsDelete : bool; wh_ValueHash : bytes }.

Record KVMetadataWriteHash := mkKVMetadataWriteHash { mh_KeyHash : bytes; mh_Entries : list (bytes * bytes) }.

Record HashedRWSet := mkHashedRWSet {
  HashedReads : list KVReadHash;
  HashedWrites : list KVWriteHash;
  hs_MetadataWrites : list KVMetadataWriteHash
}.

Record CollHashedRwSet := mkCollHashedRwSet { CollectionName : bytes; HashedRwSet : HashedRWSet; PvtRwSetHash : nbytes }.

Record NsRwSet := mkNsRwSet { NameSpace : bytes; KvRwSet : KVRWSet; CollHashedRwSets : list CollHashedRwSet }.

Record TxRwSet := mkTxRwSet { NsRwSets : list NsRwSet }.

(** A bytes field of a decoded message is [nil] if it is empty. *)
Definition decoded (b : bytes) : nbytes := match b with [] => None | _ => Some b end.

(** ** Batches for collections *)

Abbreviation UpdateMap := (gmap bytes UpdateBatch).

Definition getOrCreateNsBatch (ns : bytes) (b : UpdateMap) : UpdateBatch := default newUpdateBatch (b !! ns).

Definition UpdateMap_PutValAndMetadata (ns coll key : bytes) (value metadata : nbytes) (version : Height) (b : UpdateMap) : outcome UpdateMap :=
  batch ← UpdateBatch_PutValAndMetadata coll key value metadata version (getOrCreateNsBatch ns b);
  Done (<[ns := batch]> b).

Definition UpdateMap_Delete (ns coll key : bytes) (version : Height) (b : UpdateMap) : UpdateMap :=
  <[ns := UpdateBatch_Delete coll key version (getOrCreateNsBatch ns b)]> b.

Definition UpdateMap_Get (ns coll key : bytes) (b : UpdateMap) : option VersionedValue :=
  nsPvtBatch ← b !! ns; UpdateBatch_Get coll key nsPvtBatch.

Definition UpdateMap_Contains (ns coll key : bytes) (b : UpdateMap) : bool :=
  match b !! ns with
  | None => false
  | Some nsBatch => UpdateBatch_Exists coll key nsBatch
  end.

(** ** The state database with private data *)

(** For a database that supports keys that are bytes. *)
Record DB (D : Type) := mkDB { vdb : D; metadataHint : gset bytes }.
#[global] Arguments mkDB {D}.
#[global] Arguments vdb {D}.
#[global] Arguments metadataHint {D}.

Definition deriveHashedDataNs (namespace collection : bytes) : bytes :=
  namespace ++ [x24; x24] ++ [x68] ++ collection.

Section db.
Context {D} `{!VersionedDB D}.

Definition GetValueHash (namespace collection keyHash : bytes) (db : DB D) : res (option VersionedValue) :=
  GetState (deriveHashedDataNs namespace collection) keyHash (vdb db).

Definition GetKeyHashVersion (namespace collection keyHash : bytes) (db : DB D) : res (option Height) :=
  GetVersion (deriveHashedDataNs namespace collection) keyHash (vdb db).

Definition GetStateMetadata (namespace key : bytes) (db : DB D) : res nbytes :=
  if decide (namespace ∉ metadataHint db) then Ok None else
  vv ← GetState namespace key (vdb db);
  Ok (vv ≫= vv_Metadata).

Definition GetPrivateDataMetadataByHash (namespace collection keyHash : bytes) (db : DB D) : res nbytes :=
  if decide (namespace ∉ metadataHint db) then Ok None else
  vv ← GetValueHash namespace collection keyHash db;
  Ok (vv ≫= vv_Metadata).
End db.

(** ** The operations of a transaction on a key *)

Definition upsertVal : Z := 1.
Definition metadataUpdate : Z := 2.
Definition metadataDelete : Z := 4.
Definition keyDelete : Z := 8.

Record keyOps := mkKeyOps { ko_flag : Z; ko_value : nbytes; ko_metadata : nbytes }.

(** [flag += f], of type [uint8]. *)
Definition addFlag (f : Z) (keyops : keyOps) : keyOps := {| keyops with ko_flag := (ko_flag keyops + f) mod 256 |}.

Definition keyOps_isDelete (keyops : keyOps) : bool := Z.land (ko_flag keyops) keyDelete =? keyDelete.

Definition isUpsertAndMetadataUpdate (keyops : keyOps) : bool :=
  (Z.land (ko_flag keyops) upsertVal =? upsertVal) &&
  ((Z.land (ko_flag keyops) metadataUpdate =? metadataUpdate) || (Z.land (ko_flag keyops) metadataDelete =? metadataDelete)).

Definition isOnlyUpsert (keyops : keyOps) : bool := Z.lor (ko_flag keyops) upsertVal =? upsertVal.

(** Namespace, collection (empty for public data) and key. *)
Abbreviation compositeKey := (bytes * bytes * bytes)%type.
Abbreviation txOps := (gmap compositeKey keyOps).

Definition onKeyEntry (f : keyOps → keyOps) (k : compositeKey) (txops : txOps) : txOps :=
  <[k := f (default (mkKeyOps 0 None None) (txops !! k))]> txops.

Definition applyKVWrite (ns coll : bytes) (txops : txOps) (kvWrite : KVWrite) : txOps :=
  if kw_IsDelete kvWrite then onKeyEntry (addFlag keyDelete) (ns, coll, kw_Key kvWrite) txops
  else onKeyEntry (λ keyops, let keyops := addFlag upsertVal keyops in {| keyops with ko_value := decoded (kw_Value kvWrite) |})
    (ns, coll, kw_Key kvWrite) txops.

Section ops.
Context `{!Codec (list (bytes * bytes))}.

(** The entries are serialised as a message that holds nothing else. *)
Definition applyMetadata (ns coll : bytes) (txops : txOps) (metadataWrite : KVMetadataWrite) : txOps :=
  match mw_Entries metadataWrite with
  | [] => onKeyEntry (addFlag metadataDelete) (ns, coll, mw_Key metadataWrite) txops
  | entries => onKeyEntry (λ keyops, let keyops := addFlag metadataUpdate keyops in {| keyops with ko_metadata := Some (marshal entries) |})
      (ns, coll, mw_Key metadataWrite) txops
  end.

Definition applyTxRwset (rwset : TxRwSet) : txOps :=
  foldl (λ txops nsRWSet,
    let ns := NameSpace nsRWSet in
    let txops := foldl (applyKVWrite ns []) txops (Writes (KvRwSet nsRWSet)) in
    let txops := foldl (applyMetadata ns []) txops (MetadataWrites (KvRwSet nsRWSet)) in
    foldl (λ txops collHashRWset,
      let coll := CollectionName collHashRWset in
      let txops := foldl (λ txops w, applyKVWrite ns coll txops (mkKVWrite (wh_KeyHash w) (wh_IsDelete w) (wh_ValueHash w)))
                     txops (HashedWrites (HashedRwSet collHashRWset)) in
      foldl (λ txops w, applyMetadata ns coll txops (mkKVMetadataWrite (mh_KeyHash w) (mh_Entries w)))
        txops (hs_MetadataWrites (HashedRwSet collHashRWset)))
      txops (CollHashedRwSets nsRWSet))
    ∅ (NsRwSets rwset).

(** ** The updates of a block *)

Record publicAndHashUpdates := mkUpdates { publicUpdates : UpdateBatch; hashUpdates : UpdateMap }.

Definition newPubAndHashUpdates : publicAndHashUpdates := mkUpdates newUpdateBatch ∅.

Section validator.
Context {D} `{!VersionedDB D} (hashFunc : bytes → bytes) `{!Codec (list KVRead)}.

Definition retrieveLatestState (ck : compositeKey) (precedingUpdates : publicAndHashUpdates) (db : DB D) : res (option VersionedValue) :=
  let '(ns, coll, key) := ck in
  if decide (coll = []) then
    match UpdateBatch_Get ns key (publicUpdates precedingUpdates) with
    | Some vv => Ok (Some vv)
    | None => GetState ns key (vdb db)
    end
  else
    match UpdateMap_Get ns coll key (hashUpdates precedingUpdates) with
    | Some vv => Ok (Some vv)
    | None => GetValueHash ns coll key db
    end.

Definition retrieveLatestMetadata (ck : compositeKey) (precedingUpdates : publicAndHashUpdates) (db : DB D) : res nbytes :=
  let '(ns, coll, key) := ck in
  if decide (coll = []) then
    match UpdateBatch_Get ns key (publicUpdates precedingUpdates) with
    | Some vv => Ok (vv_Metadata vv)
    | None => GetStateMetadata ns key db
    end
  else
    match UpdateMap_Get ns coll key (hashUpdates precedingUpdates) with
    | Some vv => Ok (vv_Metadata vv)
    | None => GetPrivateDataMetadataByHash ns coll key db
    end.

(** The body of the loop over the operations. *)
Definition prepareKeyOps (precedingUpdates : publicAndHashUpdates) (db : DB D) (ck : compositeKey) (keyop : keyOps) (txops : txOps)
    : fallible txOps :=
  if keyOps_isDelete keyop || isUpsertAndMetadataUpdate keyop then ok txops
  else if isOnlyUpsert keyop then
    latestMetadata ←? Done (retrieveLatestMetadata ck precedingUpdates db);
    ok (<[ck := {| keyop with ko_metadata := latestMetadata |}]> txops)
  else
    latestVal ←? Done (retrieveLatestState ck precedingUpdates db);
    ok (match latestVal with
        | Some vv => <[ck := {| keyop with ko_value := vv_Value vv |}]> txops
        | None => delete ck txops
        end).

Definition prepareTxOps (rwset : TxRwSet) (precedingUpdates : publicAndHashUpdates) (db : DB D) : fallible txOps :=
  let txops := applyTxRwset rwset in
  range (prepareKeyOps precedingUpdates db) txops txops.

(** The body of the loop of [applyWriteSet]. *)
Definition applyKeyOps (txHeight : Height) (ck : compositeKey) (keyops : keyOps) (u : publicAndHashUpdates) : fallible publicAndHashUpdates :=
  let '(ns, coll, key) := ck in
  if decide (coll = []) then
    if keyOps_isDelete keyops then ok {| u with publicUpdates := UpdateBatch_Delete ns key txHeight (publicUpdates u) |}
    else b ← UpdateBatch_PutValAndMetadata ns key (ko_value keyops) (ko_metadata keyops) txHeight (publicUpdates u);
         ok {| u with publicUpdates := b |}
  else
    if keyOps_isDelete keyops then ok {| u with hashUpdates := UpdateMap_Delete ns coll key txHeight (hashUpdates u) |}
    else m ← UpdateMap_PutValAndMetadata ns coll key (ko_value keyops) (ko_metadata keyops) txHeight (hashUpdates u);
         ok {| u with hashUpdates := m |}.

(** Changes the updates also when it returns an error. *)
Definition applyWriteSet (txRWSet : TxRwSet) (txHeight : Height) (db : DB D) (containsPostOrderWrites : bool) (u : publicAndHashUpdates)
    : outcome (publicAndHashUpdates * res unit) :=
  let b := publicUpdates u in
  let b := {| b with ContainsPostOrderWrites := ContainsPostOrderWrites b || containsPostOrderWrites |} in
  let u := {| u with publicUpdates := b |} in
  txops ← prepareTxOps txRWSet u db;
  match txops with
  | Err e => Done (u, Err e)
  | Ok txops =>
    u' ← range (applyKeyOps txHeight) txops u;
    match u' with
    | Err e => Done (u, Err e)
    | Ok u' => Done (u', Ok tt)
    end
  end.

(** ** Validation *)

Definition VALID : Z := 0.
Definition MVCC_READ_CONFLICT : Z := 11.
Definition PHANTOM_READ_CONFLICT : Z := 12.

(** [for] loops that end at the first check that fails. *)
Fixpoint allValid {A} (check : A → fallible bool) (l : list A) : fallible bool :=
  match l with
  | [] => ok true
  | a :: l => valid ←? check a; if valid : bool then allValid check l else ok false
  end.

Definition validateKVRead (ns : bytes) (updates : UpdateBatch) (db : DB D) (kvRead : KVRead) : fallible bool :=
  if UpdateBatch_Exists ns (kr_Key kvRead) updates then ok false else
  committedVersion ←? Done (GetVersion ns (kr_Key kvRead) (vdb db));
  ok (AreSame committedVersion (kr_Version kvRead)).

Definition validateReadSet (ns : bytes) (kvReads : list KVRead) (updates : UpdateBatch) (db : DB D) : fallible bool :=
  allValid (validateKVRead ns updates db) kvReads.

Definition validateRangeQueries (ns : bytes) (rangeQueriesInfo : list RangeQueryInfo) (updates : UpdateBatch) (db : DB D) : fallible bool :=
  allValid (validateRangeQuery hashFunc (vdb db) updates ns) rangeQueriesInfo.

Definition validateKVReadHash (ns coll : bytes) (updates : UpdateMap) (db : DB D) (kvReadHash : KVReadHash) : fallible bool :=
  if UpdateMap_Contains ns coll (rh_KeyHash kvReadHash) updates then ok false else
  committedVersion ←? Done (GetKeyHashVersion ns coll (rh_KeyHash kvReadHash) db);
  ok (AreSame committedVersion (rh_Version kvReadHash)).

Definition validateNsHashedReadSets (ns : bytes) (collHashedRWSets : list CollHashedRwSet) (updates : UpdateMap) (db : DB D) : fallible bool :=
  allValid (λ c, allValid (validateKVReadHash ns (CollectionName c) updates db) (HashedReads (HashedRwSet c))) collHashedRWSets.

Fixpoint validateTx (nsRwSets : list NsRwSet) (updates : publicAndHashUpdates) (db : DB D) : fallible Z :=
  match nsRwSets with
  | [] => ok VALID
  | nsRWSet :: nsRwSets =>
    let ns := NameSpace nsRWSet in
    valid ←? validateReadSet ns (Reads (KvRwSet nsRWSet)) (publicUpdates updates) db;
    if negb valid then ok MVCC_READ_CONFLICT else
    valid ←? validateRangeQueries ns (RangeQueriesInfo (KvRwSet nsRWSet)) (publicUpdates updates) db;
    if negb valid then ok PHANTOM_READ_CONFLICT else
    valid ←? validateNsHashedReadSets ns (CollHashedRwSets nsRWSet) (hashUpdates updates) db;
    if negb valid then ok MVCC_READ_CONFLICT else
    validateTx nsRwSets updates db
  end.

Definition validateEndorserTX (txRWSet : TxRwSet) (doMVCCValidation : bool) (updates : publicAndHashUpdates) (db : DB D) : fallible Z :=
  if doMVCCValidation then validateTx (NsRwSets txRWSet) updates db else ok VALID.

Record transaction := mkTransaction {
  indexInBlock : Z;
  tx_id : bytes;
  tx_rwset : TxRwSet;
  validationCode : Z;
  containsPostOrderWrites : bool
}.

(** The loop over the transactions of block [num]. An error of [applyWriteSet] is dropped. *)
Fixpoint validateTxs (num : Z) (doMVCCValidation : bool) (db : DB D) (txs : list transaction) (updates : publicAndHashUpdates)
    : fallible (list transaction * publicAndHashUpdates) :=
  match txs with
  | [] => ok ([], updates)
  | tx :: txs =>
    code ←? validateEndorserTX (tx_rwset tx) doMVCCValidation updates db;
    let tx := {| tx with validationCode := code |} in
    updates ← (if code =? VALID then
                 '(updates, _) ← applyWriteSet (tx_rwset tx) (mkHeight num (u64 (indexInBlock tx))) db (containsPostOrderWrites tx) updates;
                 Done updates
               else Done updates);
    '(txs, updates) ←? validateTxs num doMVCCValidation db txs updates;
    ok (tx :: txs, updates)
  end.

Definition validateAndPrepareBatch (num : Z) (txs : list transaction) (doMVCCValidation : bool) (db : DB D)
    : fallible (list transaction * publicAndHashUpdates) :=
  validateTxs num doMVCCValidation db txs newPubAndHashUpdates.
End validator.
End ops.
