(* ===== verification/ValidationProps.v ===== *)
(** * Serializability of the transactions of a block

    [block_serial]: validating a block and collecting the writes of its valid
    transactions is the same as running the transactions one after the other on the state,
    where a transaction counts if what it read is what it would read now.
    [metadata_after_delete]: which writes of a valid transaction make the validation
    panic. *)

From stdpp Require Import gmap strings list.
From Stdlib Require Import Strings.Byte.
From S2P Require Import Prelude GoLib Varint Disk LevelDB StateDB RangeQuery RangeQueryProps Validation.

(** ** The writes of a transaction *)

(** What a transaction does, in the order in which it is recorded. *)
Inductive act := AWrite (w : KVWrite) | AMeta (w : KVMetadataWrite).

Definition nsActs (nsRWSet : NsRwSet) : list (bytes * bytes * act) :=
  let ns := NameSpace nsRWSet in
  ((λ w, (ns, [], AWrite w)) <$> Writes (KvRwSet nsRWSet)) ++
  ((λ w, (ns, [], AMeta w)) <$> MetadataWrites (KvRwSet nsRWSet)) ++
  concat ((λ c,
    ((λ w, (ns, CollectionName c, AWrite (mkKVWrite (wh_KeyHash w) (wh_IsDelete w) (wh_ValueHash w)))) <$> HashedWrites (HashedRwSet c)) ++
    ((λ w, (ns, CollectionName c, AMeta (mkKVMetadataWrite (mh_KeyHash w) (mh_Entries w)))) <$> hs_MetadataWrites (HashedRwSet c)))
    <$> CollHashedRwSets nsRWSet).

Definition acts (rwset : TxRwSet) : list (bytes * bytes * act) := concat (nsActs <$> NsRwSets rwset).

Section writes.
Context `{!Codec (list (bytes * bytes))}.

(** The value written at a key, [nil] for a deletion, and the metadata, [nil] to remove it. *)
Definition writeAt (ck : compositeKey) (a : bytes * bytes * act) : option nbytes :=
  match a with
  | (ns, coll, AWrite w) => if decide (ck = (ns, coll, kw_Key w)) then Some (if kw_IsDelete w then None else Some (kw_Value w)) else None
  | _ => None
  end.

Definition metaAt (ck : compositeKey) (a : bytes * bytes * act) : option nbytes :=
  match a with
  | (ns, coll, AMeta w) => if decide (ck = (ns, coll, mw_Key w)) then Some (match mw_Entries w with [] => None | l => Some (marshal l) end) else None
  | _ => None
  end.

Definition firstOf (f : bytes * bytes * act → option nbytes) (l : list (bytes * bytes * act)) : option nbytes := head (omap f l).

Definition writeFor (rwset : TxRwSet) (ck : compositeKey) : option nbytes := firstOf (writeAt ck) (acts rwset).
Definition metaFor (rwset : TxRwSet) (ck : compositeKey) : option nbytes := firstOf (metaAt ck) (acts rwset).

(** A key with the value, metadata and version after a transaction at height [h]. *)
Definition newVal (w md : option nbytes) (h : Height) (old : option VersionedValue) : option VersionedValue :=
  match w, md with
  | Some None, _ => None
  | Some (Some v), Some m => Some (mkVersionedValue (Some v) m h)
  | Some (Some v), None => Some (mkVersionedValue (Some v) (old ≫= vv_Metadata) h)
  | None, Some m => (λ o, mkVersionedValue (vv_Value o) m h) <$> old
  | None, None => old
  end.

(** The key an action is about. *)
Definition actKey (a : bytes * bytes * act) : compositeKey :=
  match a with (ns, coll, AWrite w) => (ns, coll, kw_Key w) | (ns, coll, AMeta w) => (ns, coll, mw_Key w) end.

Definition writeKeys (l : list (bytes * bytes * act)) : list compositeKey :=
  omap (λ a, match a.2 with AWrite _ => Some (actKey a) | AMeta _ => None end) l.
Definition metaKeys (l : list (bytes * bytes * act)) : list compositeKey :=
  omap (λ a, match a.2 with AMeta _ => Some (actKey a) | AWrite _ => None end) l.

(** ** The operations the code collects *)

Definition applyAct (txops : txOps) (a : bytes * bytes * act) : txOps :=
  match a with
  | (ns, coll, AWrite w) => applyKVWrite ns coll txops w
  | (ns, coll, AMeta w) => applyMetadata ns coll txops w
  end.

Lemma foldl_fmap {A B C} (f : C → B → C) (g : A → B) l c : foldl f c (g <$> l) = foldl (λ c a, f c (g a)) c l.
Proof. revert c. induction l as [|a l IH]; intros c; [done|]. apply IH. Qed.

Lemma foldl_concat {A B} (f : A → B → A) ls a : foldl f a (concat ls) = foldl (foldl f) a ls.
Proof. revert a. induction ls as [|l ls IH]; intros a; [done|]. cbn. by rewrite foldl_app, IH. Qed.

Lemma foldl_ext' {A B} (f g : A → B → A) l a : (∀ a b, f a b = g a b) → foldl f a l = foldl g a l.
Proof. intros H. revert a. induction l as [|b l IH]; intros a; [done|]. cbn. by rewrite H, IH. Qed.

Lemma applyTxRwset_acts rwset : applyTxRwset rwset = foldl applyAct ∅ (acts rwset).
Proof.
  unfold applyTxRwset, acts. rewrite foldl_concat, foldl_fmap. apply foldl_ext'. intros txops n. unfold nsActs. cbv zeta.
  rewrite !foldl_app, !foldl_fmap, foldl_concat, foldl_fmap. apply foldl_ext'. intros txops' c. by rewrite foldl_app, !foldl_fmap.
Qed.

(** The operations on a key with at most one write and one change of metadata. *)
Definition opOf (w md : option nbytes) : option keyOps :=
  match w, md with
  | None, None => None
  | _, _ =>
    Some (mkKeyOps
      (match w with Some None => keyDelete | Some (Some _) => upsertVal | None => 0 end +
       match md with Some None => metadataDelete | Some (Some _) => metadataUpdate | None => 0 end)
      (match w with Some (Some v) => Some v | _ => None end)
      (match md with Some (Some m) => Some m | _ => None end))
  end.

Definition puts_ok (l : list (bytes * bytes * act)) : Prop :=
  Forall (λ a, match a.2 with AWrite w => kw_IsDelete w = false → kw_Value w ≠ [] | AMeta _ => True end) l.

Lemma firstOf_app f l1 l2 : firstOf f (l1 ++ l2) = match firstOf f l1 with Some x => Some x | None => firstOf f l2 end.
Proof. unfold firstOf. rewrite omap_app. by destruct (omap f l1). Qed.

Lemma writeFor_keys ck l : firstOf (writeAt ck) l = None ↔ ck ∉ writeKeys l.
Proof.
  induction l as [|[[ns coll] [w|w]] l IH]; [cbn; set_solver| |done]. unfold firstOf, writeKeys in *. cbn. destruct (decide (ck = (ns, coll, kw_Key w))) as [->|Hn]; cbn.
  - split; [done|]. intros H. exfalso. apply H. left.
  - rewrite IH, not_elem_of_cons. naive_solver.
Qed.

Lemma metaFor_keys ck l : firstOf (metaAt ck) l = None ↔ ck ∉ metaKeys l.
Proof.
  induction l as [|[[ns coll] [w|w]] l IH]; [cbn; set_solver|done|]. unfold firstOf, metaKeys in *. cbn. destruct (decide (ck = (ns, coll, mw_Key w))) as [->|Hn]; cbn.
  - split; [done|]. intros H. exfalso. apply H. left.
  - rewrite IH, not_elem_of_cons. naive_solver.
Qed.

Lemma acts_lookup l ck :
  NoDup (writeKeys l) → NoDup (metaKeys l) → puts_ok l →
  foldl applyAct ∅ l !! ck = opOf (firstOf (writeAt ck) l) (firstOf (metaAt ck) l).
Proof.
  induction l as [|a l IH] using rev_ind; intros Hw Hm Hp; [done|]. rewrite foldl_snoc, !firstOf_app.
  unfold writeKeys, metaKeys in Hw, Hm. rewrite omap_app in Hw, Hm. apply NoDup_app in Hw as (Hw & Hwa & _), Hm as (Hm & Hma & _).
  apply Forall_app in Hp as [Hp Hpa]. rewrite Forall_singleton in Hpa. specialize (IH Hw Hm Hp).
  destruct a as [[ns coll] [w|w]]; cbn [applyAct snd] in *.
  - assert (firstOf (metaAt ck) [(ns, coll, AWrite w)] = None) as -> by done.
    assert (firstOf (writeAt ck) [(ns, coll, AWrite w)] = writeAt ck (ns, coll, AWrite w)) as -> by (unfold firstOf; cbn; by destruct (decide _)).
    unfold applyKVWrite, onKeyEntry. cbn [writeAt]. destruct (decide (ck = (ns, coll, kw_Key w))) as [->|Hne].
    + assert (firstOf (writeAt (ns, coll, kw_Key w)) l = None) as Hnone.
      { apply writeFor_keys. intros Hin. apply (Hwa _ Hin). left. }
      rewrite Hnone in *. destruct (kw_IsDelete w) eqn:Ed; rewrite lookup_insert_eq, IH; destruct (firstOf (metaAt _) l) as [[m|]|]; cbn; try done.
      all: destruct (kw_Value w); [exfalso; by apply Hpa|done].
    + destruct (kw_IsDelete w); rewrite lookup_insert_ne by congruence; rewrite IH; by destruct (firstOf (writeAt ck) l), (firstOf (metaAt ck) l).
  - assert (firstOf (writeAt ck) [(ns, coll, AMeta w)] = None) as -> by done.
    assert (firstOf (metaAt ck) [(ns, coll, AMeta w)] = metaAt ck (ns, coll, AMeta w)) as -> by (unfold firstOf; cbn; by destruct (decide _)).
    unfold applyMetadata, onKeyEntry. cbn [metaAt]. destruct (decide (ck = (ns, coll, mw_Key w))) as [->|Hne].
    + assert (firstOf (metaAt (ns, coll, mw_Key w)) l = None) as Hnone.
      { apply metaFor_keys. intros Hin. apply (Hma _ Hin). left. }
      rewrite Hnone in *. destruct (mw_Entries w); rewrite lookup_insert_eq, IH; by destruct (firstOf (writeAt _) l) as [[v|]|].
    + destruct (mw_Entries w); rewrite lookup_insert_ne by congruence; rewrite IH; by destruct (firstOf (writeAt ck) l), (firstOf (metaAt ck) l).
Qed.
End writes.

(** ** Loops over maps that change one key at a time *)

Lemma range_alter {K V} `{Countable K} (body : K → V → gmap K V → fallible (gmap K V)) (f : K → V → option V) (m : gmap K V) :
  (∀ k v acc, m !! k = Some v → acc !! k = Some v → body k v acc = ok (partial_alter (λ _, f k v) k acc)) →
  range body m m = ok (map_imap f m).
Proof.
  intros Hb. unfold range.
  cut (∀ m1, m1 ⊆ m → map_fold (λ k v acc, try_bind acc (body k v)) (ok m) m1 =
    ok (map_imap (λ k v, match m1 !! k with Some _ => f k v | None => Some v end) m)).
  { intros H1. rewrite (H1 m) by done. f_equal. apply map_eq. intros k. rewrite !map_lookup_imap. by destruct (m !! k). }
  intros m1. induction m1 as [|k v m1 Hk Hfirst IH] using map_first_key_ind; intros Hsub.
  - rewrite map_fold_empty. f_equal. apply map_eq. intros k. rewrite map_lookup_imap, lookup_empty. by destruct (m !! k).
  - rewrite map_fold_insert_first_key by done. rewrite IH by (etrans; [by apply insert_subseteq|done]). cbn [try_bind ok].
    assert (m !! k = Some v) as Hm by (eapply lookup_weaken; [|done]; apply lookup_insert_eq).
    rewrite Hb by (done || by rewrite map_lookup_imap, Hm, Hk). f_equal. apply map_eq. intros k'. destruct (decide (k' = k)) as [->|Hn].
    + by rewrite lookup_partial_alter_eq, map_lookup_imap, Hm, lookup_insert_eq.
    + by rewrite lookup_partial_alter_ne, !map_lookup_imap, lookup_insert_ne by done.
Qed.

Section serial.
Context {D} `{!VersionedDB D, !VersionedDBOk D} `{!Codec (list (bytes * bytes))}.

(** ** The state that transactions see *)

Definition updatesAt (u : publicAndHashUpdates) (ns coll : bytes) : gmap bytes VersionedValue :=
  if decide (coll = []) then GetUpdates ns (publicUpdates u) else GetUpdates coll (getOrCreateNsBatch ns (hashUpdates u)).

(** The namespace of the database that has the data of a collection. *)
Definition nsOf (ns coll : bytes) : bytes := if decide (coll = []) then ns else deriveHashedDataNs ns coll.

Definition base (db : DB D) (ns coll : bytes) : gmap bytes VersionedValue := contents (vdb db) (nsOf ns coll).

Definition view (u : publicAndHashUpdates) (db : DB D) (ns coll : bytes) : gmap bytes VersionedValue :=
  overlay (updatesAt u ns coll) (base db ns coll).

(** Names of chaincodes have no [$], which separates them from those of collections. *)
Definition named (ns coll : bytes) : Prop := x24 ∉ ns ∧ ns_ok (nsOf ns coll).

(** The database works, and metadata is only where it is expected. *)
Record state_ok (db : DB D) : Prop := {
  so_db : db_ok (vdb db);
  so_hint ns coll key vv : ns ∉ metadataHint db → named ns coll → base db ns coll !! key = Some vv → vv_Metadata vv = None
}.

Lemma UpdateMap_Get_at u ns coll key : coll ≠ [] → UpdateMap_Get ns coll key (hashUpdates u) = updatesAt u ns coll !! key.
Proof.
  intros Hc. unfold UpdateMap_Get, updatesAt, getOrCreateNsBatch. rewrite decide_False by done. destruct (hashUpdates u !! ns) as [b|]; cbn.
  - by rewrite Get_updates.
  - unfold GetUpdates, newUpdateBatch. cbn. by rewrite !lookup_empty.
Qed.

Lemma UpdateMap_Contains_at u ns coll key :
  coll ≠ [] → UpdateMap_Contains ns coll key (hashUpdates u) = bool_decide (is_Some (updatesAt u ns coll !! key)).
Proof.
  intros Hc. unfold UpdateMap_Contains, updatesAt, getOrCreateNsBatch. rewrite decide_False by done. destruct (hashUpdates u !! ns) as [b|]; cbn.
  - by rewrite Exists_updates.
  - unfold GetUpdates, newUpdateBatch. cbn. rewrite !lookup_empty. by rewrite bool_decide_eq_false_2.
Qed.

Lemma nsOf_coll ns coll : coll ≠ [] → nsOf ns coll = deriveHashedDataNs ns coll.
Proof. intros H. unfold nsOf. by rewrite decide_False. Qed.

Lemma latestState u db ns coll key :
  state_ok db → named ns coll →
  retrieveLatestState (ns, coll, key) u db =
    Ok (match updatesAt u ns coll !! key with Some vv => Some vv | None => base db ns coll !! key end).
Proof.
  intros [Hdb _] [_ Hns]. unfold retrieveLatestState. destruct (decide (coll = [])) as [->|Hc].
  - rewrite Get_updates. change (updatesAt u ns []) with (GetUpdates ns (publicUpdates u)). destruct (GetUpdates ns (publicUpdates u) !! key); [done|]. by rewrite GetState_ok.
  - rewrite UpdateMap_Get_at by done. destruct (updatesAt u ns coll !! key); [done|]. unfold GetValueHash, base.
    rewrite <- nsOf_coll by done. by rewrite GetState_ok.
Qed.

Lemma latestMetadata u db ns coll key :
  state_ok db → named ns coll →
  retrieveLatestMetadata (ns, coll, key) u db =
    Ok (match updatesAt u ns coll !! key with Some vv => vv_Metadata vv | None => base db ns coll !! key ≫= vv_Metadata end).
Proof.
  intros [Hdb Hh] Hnamed. pose proof Hnamed as [_ Hns]. unfold retrieveLatestMetadata. specialize (Hh ns coll key).
  assert (ns ∉ metadataHint db → base db ns coll !! key ≫= vv_Metadata = None) as Hnone.
  { intros Hn. destruct (base db ns coll !! key) as [vv|]; [|done]. cbn. by apply (Hh vv). }
  destruct (decide (coll = [])) as [->|Hc].
  - rewrite Get_updates. change (updatesAt u ns []) with (GetUpdates ns (publicUpdates u)). destruct (GetUpdates ns (publicUpdates u) !! key); [done|].
    unfold GetStateMetadata. destruct (decide _) as [Hn|Hn]; [by rewrite Hnone|]. by rewrite GetState_ok.
  - rewrite UpdateMap_Get_at by done. destruct (updatesAt u ns coll !! key); [done|]. unfold GetPrivateDataMetadataByHash, GetValueHash.
    destruct (decide _) as [Hn|Hn]; [by rewrite Hnone|]. rewrite <- nsOf_coll by done. by rewrite GetState_ok.
Qed.

(** ** Preparing the operations *)

Definition prepared (u : publicAndHashUpdates) (db : DB D) (ck : compositeKey) (keyop : keyOps) : option keyOps :=
  let '(ns, coll, key) := ck in
  let latest := match updatesAt u ns coll !! key with Some vv => Some vv | None => base db ns coll !! key end in
  if keyOps_isDelete keyop || isUpsertAndMetadataUpdate keyop then Some keyop
  else if isOnlyUpsert keyop then Some {| keyop with ko_metadata := latest ≫= vv_Metadata |}
  else (λ vv, {| keyop with ko_value := vv_Value vv |}) <$> latest.

Definition names_ok (rwset : TxRwSet) : Prop := ∀ ns coll a, (ns, coll, a) ∈ acts rwset → named ns coll.

(** What is known of a read-write set. *)
Record writes_ok (rwset : TxRwSet) : Prop := {
  wo_names : names_ok rwset;
  wo_writes : NoDup (writeKeys (acts rwset));
  wo_meta : NoDup (metaKeys (acts rwset));
  wo_puts : puts_ok (acts rwset)
}.

Lemma applyTxRwset_lookup rwset ck : writes_ok rwset → applyTxRwset rwset !! ck = opOf (writeFor rwset ck) (metaFor rwset ck).
Proof. intros []. rewrite applyTxRwset_acts. by apply acts_lookup. Qed.

Lemma opOf_key rwset ck : is_Some (opOf (writeFor rwset ck) (metaFor rwset ck)) → ∃ ns coll a, (ns, coll, a) ∈ acts rwset ∧ ck.1 = (ns, coll).
Proof.
  intros H. assert (ck ∈ writeKeys (acts rwset) ∨ ck ∈ metaKeys (acts rwset)) as [Hk|Hk].
  { destruct (decide (ck ∈ writeKeys (acts rwset))) as [?|Hw]; [by left|]. destruct (decide (ck ∈ metaKeys (acts rwset))) as [?|Hm]; [by right|].
    apply writeFor_keys in Hw. apply metaFor_keys in Hm. unfold writeFor, metaFor in H. rewrite Hw, Hm in H. by destruct H. }
  all: apply list_elem_of_omap in Hk as ([[ns coll] a] & Ha & Hk); exists ns, coll, a; split; [done|].
  all: destruct a; cbn in Hk; [|try done]; try done; by injection Hk as <-.
Qed.

Lemma prepareTxOps_exact rwset u db :
  state_ok db → writes_ok rwset → prepareTxOps rwset u db = ok (map_imap (prepared u db) (applyTxRwset rwset)).
Proof.
  intros Hs Hw. unfold prepareTxOps. cbv zeta. apply range_alter. intros [[ns coll] key] keyop acc Hk Hacc.
  assert (named ns coll) as Hns.
  { rewrite applyTxRwset_lookup in Hk by done. destruct (opOf_key rwset (ns, coll, key)) as (ns' & coll' & a & Ha & E); [by rewrite Hk|].
    cbn in E. injection E as -> ->. by eapply (wo_names _ Hw). }
  unfold prepareKeyOps, prepared. destruct (_ || _).
  - f_equal. rewrite <- Hacc. symmetry. apply partial_alter_self.
  - rewrite latestMetadata, latestState by done. cbn [try_bind]. destruct (isOnlyUpsert keyop).
    + f_equal. destruct (updatesAt u ns coll !! key); done.
    + f_equal. destruct (updatesAt u ns coll !! key); [done|]. by destruct (base db ns coll !! key).
Qed.

(** ** Applying the operations *)

Definition setAt (ck : compositeKey) (vv : VersionedValue) (u : publicAndHashUpdates) : publicAndHashUpdates :=
  let '(ns, coll, key) := ck in
  if decide (coll = []) then {| u with publicUpdates := UpdateBatch_Update ns key vv (publicUpdates u) |}
  else {| u with hashUpdates := <[ns := UpdateBatch_Update coll key vv (getOrCreateNsBatch ns (hashUpdates u))]> (hashUpdates u) |}.

Lemma updatesAt_setAt ns coll key vv u ns' coll' :
  updatesAt (setAt (ns, coll, key) vv u) ns' coll' =
    if decide ((ns', coll') = (ns, coll)) then <[key := vv]> (updatesAt u ns coll) else updatesAt u ns' coll'.
Proof.
  unfold setAt, updatesAt. destruct (decide (coll = [])) as [->|Hc], (decide (coll' = [])) as [->|Hc']; cbn [publicUpdates hashUpdates].
  - rewrite Update_updates. destruct (decide (ns' = ns)) as [->|Hn]; [by rewrite decide_True|rewrite decide_False; [done|congruence]].
  - rewrite decide_False; [done|congruence].
  - rewrite decide_False; [done|congruence].
  - unfold getOrCreateNsBatch at 1. destruct (decide (ns' = ns)) as [->|Hn].
    + rewrite lookup_insert_eq. cbn [default from_option id]. rewrite Update_updates.
      destruct (decide (coll' = coll)) as [->|]; [by rewrite decide_True|rewrite decide_False; [done|congruence]].
    + rewrite lookup_insert_ne by done. rewrite decide_False by congruence. done.
Qed.

(** The hash of private data always belongs to a collection. *)
Definition split_ok (u : publicAndHashUpdates) : Prop := ∀ ns, GetUpdates [] (getOrCreateNsBatch ns (hashUpdates u)) = ∅.

Lemma setAt_split ck vv u : split_ok u → split_ok (setAt ck vv u).
Proof.
  destruct ck as [[ns coll] key]. intros H ns'. unfold setAt. destruct (decide (coll = [])) as [|Hc]; [apply H|]. cbn [hashUpdates]. unfold getOrCreateNsBatch at 1.
  destruct (decide (ns' = ns)) as [->|Hn]; [rewrite lookup_insert_eq|rewrite lookup_insert_ne by done; apply H]. cbn [default from_option id].
  rewrite Update_updates, decide_False by done. apply H.
Qed.

(** The entry an operation makes; there is none for a [nil] value. *)
Definition opVV (h : Height) (op : keyOps) : option VersionedValue :=
  if keyOps_isDelete op then Some (mkVersionedValue None None h)
  else (λ v, mkVersionedValue (Some v) (ko_metadata op) h) <$> ko_value op.

Lemma applyKeyOps_set h ck op u :
  match opVV h op with
  | Some vv => applyKeyOps h ck op u = ok (setAt ck vv u)
  | None => ∃ why, applyKeyOps h ck op u = Panic why
  end.
Proof.
  destruct ck as [[ns coll] key]. unfold applyKeyOps, opVV, setAt. destruct (decide (coll = [])) as [->|Hc]; destruct (keyOps_isDelete op); try done.
  - destruct (ko_value op); cbn; [done|by eexists].
  - unfold UpdateMap_PutValAndMetadata. destruct (ko_value op); cbn; [done|by eexists].
Qed.

Lemma range_apply (h : Height) (txops : txOps) (u : publicAndHashUpdates) :
  (∃ ck op, txops !! ck = Some op ∧ opVV h op = None) ∧ (∃ why, range (applyKeyOps h) txops u = Panic why) ∨
  ∃ u', range (applyKeyOps h) txops u = ok u' ∧
    (∀ ck op, txops !! ck = Some op → is_Some (opVV h op)) ∧ (split_ok u → split_ok u') ∧
    ∀ ns coll key, updatesAt u' ns coll !! key = match txops !! (ns, coll, key) with Some op => opVV h op | None => updatesAt u ns coll !! key end.
Proof.
  unfold range. induction txops as [|ck op txops Hck Hfirst IH] using map_first_key_ind.
  { right. exists u. split; [by rewrite map_fold_empty|]. split; [intros ck op H; by rewrite lookup_empty in H|]. split; [done|]. intros ns coll key. by rewrite lookup_empty. }
  rewrite map_fold_insert_first_key by done.
  destruct IH as [[(ck' & op' & Hl & Hn) (why & ->)]|(u1 & -> & Hall & Hsp & Hu1)].
  { left. split; [|by exists why]. exists ck', op'. split; [|done]. rewrite lookup_insert_ne; [done|]. intros ->. congruence. }
  cbn [try_bind ok]. pose proof (applyKeyOps_set h ck op u1) as Hset. destruct (opVV h op) as [vv|] eqn:Eo.
  - right. exists (setAt ck vv u1). split; [done|]. split.
    { intros ck' op' [[<- <-]|[_ H]]%lookup_insert_Some; [by rewrite Eo|by eapply Hall]. }
    split; [intros H; apply setAt_split; auto|].
    destruct ck as [[ns0 coll0] key0]. intros ns coll key. rewrite updatesAt_setAt.
    destruct (decide ((ns, coll) = (ns0, coll0))) as [[= -> ->]|Hne].
    + destruct (decide (key = key0)) as [->|Hk]; [by rewrite !lookup_insert_eq|]. rewrite !lookup_insert_ne by congruence. apply Hu1.
    + rewrite lookup_insert_ne by congruence. apply Hu1.
  - left. split; [|done]. exists ck, op. split; [apply lookup_insert_eq|done].
Qed.

(** Whether a key gets a new version. *)
Definition touches (w md : option nbytes) (old : option VersionedValue) : Prop := is_Some w ∨ is_Some md ∧ is_Some old.

(** The entry of a deleted key has no metadata. *)
Definition clean (u : publicAndHashUpdates) : Prop :=
  ∀ ns coll key vv, updatesAt u ns coll !! key = Some vv → IsDelete vv = true → vv_Metadata vv = None.

(** The operation on one key. *)
Lemma prepared_entry u db ns coll key w md (h : Height) op op' :
  state_ok db → clean u → named ns coll → opOf w md = Some op → prepared u db (ns, coll, key) op = Some op' →
  (w = None ∧ is_Some md ∧ (∃ vv, updatesAt u ns coll !! key = Some vv ∧ IsDelete vv = true) ∧ opVV h op' = None) ∨
  ∃ vv, opVV h op' = Some vv ∧ touches w md (view u db ns coll !! key) ∧ (if IsDelete vv then None else Some vv) = newVal w md h (view u db ns coll !! key) ∧
    (IsDelete vv = true → vv_Metadata vv = None).
Proof.
  intros Hs Hcl Hns Hop Hpr. unfold view. rewrite overlay_lookup. specialize (Hcl ns coll key).
  assert (∀ vv, base db ns coll !! key = Some vv → IsDelete vv = false) as Hlive by (intros vv; apply contents_live; [apply Hs|apply Hns]).
  unfold prepared in Hpr. unfold opOf in Hop. unfold touches. set (up := updatesAt u ns coll !! key) in *. clearbody up.
  destruct w as [[v|]|]; [| |destruct md as [m|]; [|done]].
  - destruct md as [[m|]|]; injection Hop as <-; cbn in Hpr; injection Hpr as <-; right; eexists; (split; [done|]); (split; [left; by eexists|]); try done.
    split; [|done]. cbn. do 2 f_equal. destruct up as [vv|]; [|done]. destruct (IsDelete vv) eqn:Ed; [by apply Hcl|done].
  - destruct md as [[m|]|]; injection Hop as <-; cbn in Hpr; injection Hpr as <-; right; eexists; (split; [done|]); (split; [left; by eexists|]); done.
  - assert (∃ vv, (match up with Some vv => Some vv | None => base db ns coll !! key end) = Some vv ∧ op' = mkKeyOps (ko_flag op) (vv_Value vv) m ∧ keyOps_isDelete op' = false) as (vv & El & -> & Hdel).
    { destruct m as [m|]; injection Hop as <-; cbn in Hpr; destruct (match up with Some vv => Some vv | None => base db ns coll !! key end) as [vv|]; try done; injection Hpr as <-; by exists vv. }
    unfold opVV. rewrite Hdel. cbn [ko_value ko_metadata]. destruct (IsDelete vv) eqn:Ed.
    + left. split; [done|]. split; [by eexists|]. split; [|unfold IsDelete in Ed; by destruct (vv_Value vv)].
      destruct up as [vv'|]; [injection El as ->; by exists vv|]. apply Hlive in El. congruence.
    + right. unfold IsDelete in Ed. destruct (vv_Value vv) as [v|] eqn:Ev; [|done]. eexists. split; [done|].
      assert (match up with Some vv => if IsDelete vv then None else Some vv | None => base db ns coll !! key end = Some vv) as ->.
      { destruct up as [vv'|]; [|done]. injection El as ->. unfold IsDelete. by rewrite Ev. }
      split; [right; split; by eexists|]. cbn. by rewrite Ev.
Qed.

Lemma prepared_none u db ns coll key w md op :
  opOf w md = Some op → prepared u db (ns, coll, key) op = None →
  w = None ∧ updatesAt u ns coll !! key = None ∧ base db ns coll !! key = None.
Proof.
  unfold prepared, opOf. intros Hop Hpr. destruct w as [[v|]|].
  - destruct md as [[m|]|]; injection Hop as <-; by cbn in Hpr.
  - destruct md as [[m|]|]; injection Hop as <-; by cbn in Hpr.
  - split; [done|]. destruct (updatesAt u ns coll !! key), (base db ns coll !! key), md as [[m|]|]; try discriminate Hop; injection Hop as <-; done.
Qed.

(** The operation on a key, if there is one to apply. *)
Definition opAt (rwset : TxRwSet) (u : publicAndHashUpdates) (db : DB D) (ck : compositeKey) : option keyOps :=
  opOf (writeFor rwset ck) (metaFor rwset ck) ≫= prepared u db ck.

(** A transaction cannot set only the metadata of a key that an earlier transaction of
    the block deleted. *)
Definition stuckAt (u : publicAndHashUpdates) (rwset : TxRwSet) (ns coll key : bytes) : Prop :=
  writeFor rwset (ns, coll, key) = None ∧ is_Some (metaFor rwset (ns, coll, key)) ∧
    ∃ vv, updatesAt u ns coll !! key = Some vv ∧ IsDelete vv = true.

Lemma opAt_cases rwset u db ns coll key (h : Height) :
  state_ok db → clean u → writes_ok rwset →
  let w := writeFor rwset (ns, coll, key) in let md := metaFor rwset (ns, coll, key) in let old := view u db ns coll !! key in
  match opAt rwset u db (ns, coll, key) with
  | None => newVal w md h old = old ∧ ¬ touches w md old ∧ ¬ stuckAt u rwset ns coll key
  | Some op =>
    match opVV h op with
    | None => stuckAt u rwset ns coll key
    | Some vv => touches w md old ∧ (if IsDelete vv then None else Some vv) = newVal w md h old ∧ (IsDelete vv = true → vv_Metadata vv = None) ∧
        ¬ stuckAt u rwset ns coll key
    end
  end.
Proof.
  intros Hs Hcl Hw. cbv zeta. unfold opAt, stuckAt. set (w := writeFor _ _). set (md := metaFor _ _). destruct (opOf w md) as [op|] eqn:Eop; cbn [mbind option_bind].
  - assert (named ns coll) as Hns.
    { destruct (opOf_key rwset (ns, coll, key)) as (ns' & coll' & a & Ha & E); [by fold w md; rewrite Eop|]. injection E as -> ->. by eapply (wo_names _ Hw). }
    destruct (prepared u db (ns, coll, key) op) as [op'|] eqn:Epr.
    + destruct (prepared_entry u db ns coll key w md h op op' Hs Hcl Hns Eop Epr) as [(Hw0 & Hmd & Hvv & ->)|(vv & -> & Ht & Hn & Hc)]; [done|].
      split; [done|]. split; [done|]. split; [done|]. intros (Hw0 & _ & vv' & Hvv' & Hd). destruct Ht as [Ht|[_ [x Ht]]]; [by rewrite Hw0 in Ht; destruct Ht|].
      unfold view in Ht. by rewrite overlay_lookup, Hvv', Hd in Ht.
    + destruct (prepared_none _ _ _ _ _ _ _ _ Eop Epr) as (-> & Hup & Hb). unfold view. rewrite overlay_lookup, Hup, Hb.
      split; [by destruct md|]. split; [intros [[? ?]|[_ [? ?]]]; done|]. intros (_ & _ & ? & ? & _). done.
  - assert (w = None ∧ md = None) as [-> ->] by (unfold opOf in Eop; by destruct w as [[?|]|], md as [[?|]|]).
    split; [done|]. split; [intros [[? ?]|[[? ?] _]]; done|]. intros (_ & [? ?] & _). done.
Qed.

(** The updates after the writes of a transaction are those of the state after it. *)
Definition applied (rwset : TxRwSet) (h : Height) (db : DB D) (u u' : publicAndHashUpdates) : Prop :=
  ∀ ns coll key,
    let w := writeFor rwset (ns, coll, key) in let md := metaFor rwset (ns, coll, key) in let old := view u db ns coll !! key in
    view u' db ns coll !! key = newVal w md h old ∧
    (is_Some (updatesAt u' ns coll !! key) ↔ is_Some (updatesAt u ns coll !! key) ∨ touches w md old).

Definition stuck (u : publicAndHashUpdates) (rwset : TxRwSet) : Prop := ∃ ns coll key, stuckAt u rwset ns coll key.

Lemma applyWriteSet_applied rwset h db post u :
  state_ok db → clean u → writes_ok rwset →
  stuck u rwset ∧ (∃ why, applyWriteSet rwset h db post u = Panic why) ∨
  ∃ u', applyWriteSet rwset h db post u = Done (u', Ok tt) ∧ ¬ stuck u rwset ∧ clean u' ∧ (split_ok u → split_ok u') ∧ applied rwset h db u u'.
Proof.
  intros Hs Hcl Hw. unfold applyWriteSet. cbv zeta. set (u1 := mkUpdates _ (hashUpdates u)).
  assert (∀ ns coll, updatesAt u1 ns coll = updatesAt u ns coll) as Hu1 by (intros ns coll; unfold updatesAt; by destruct (decide (coll = []))).
  assert (clean u1) as Hcl1 by (intros ns coll key vv; rewrite Hu1; apply Hcl).
  assert (∀ ns coll key, stuckAt u1 rwset ns coll key ↔ stuckAt u rwset ns coll key) as Hst by (intros; unfold stuckAt; by rewrite Hu1).
  rewrite (prepareTxOps_exact rwset u1 db Hs Hw). cbn [mbind outcome_bind ok]. set (T := map_imap _ _).
  assert (∀ ck, T !! ck = opAt rwset u1 db ck) as HT.
  { intros ck. unfold T, opAt. by rewrite map_lookup_imap, applyTxRwset_lookup. }
  destruct (range_apply h T u1) as [[(ck & op & HTck & Hnone) (why & ->)]|(u' & -> & Hall & Hsp & Hu')].
  - left. split; [|by exists why]. destruct ck as [[ns coll] key]. pose proof (opAt_cases rwset u1 db ns coll key h Hs Hcl1 Hw) as Hc. cbv zeta in Hc.
    rewrite <- HT, HTck, Hnone in Hc. exists ns, coll, key. by apply Hst.
  - right. exists u'. split; [done|]. split; [|split; [|split; [exact Hsp|]]].
    + intros (ns & coll & key & Hk%Hst). pose proof (opAt_cases rwset u1 db ns coll key h Hs Hcl1 Hw) as Hc. cbv zeta in Hc. rewrite <- HT in Hc.
      destruct (T !! (ns, coll, key)) as [op|] eqn:E; [|tauto]. destruct (Hall _ _ E) as [vv Hvv]. rewrite Hvv in Hc. tauto.
    + intros ns coll key vv Hvv Hd. pose proof (opAt_cases rwset u1 db ns coll key h Hs Hcl1 Hw) as Hc. cbv zeta in Hc. rewrite <- HT in Hc. rewrite Hu' in Hvv.
      destruct (T !! (ns, coll, key)) as [op|] eqn:E; [rewrite Hvv in Hc; tauto|by eapply Hcl1].
    + intros ns coll key. cbv zeta. assert (view u db ns coll = view u1 db ns coll) as -> by (unfold view; by rewrite Hu1). rewrite <- Hu1.
      pose proof (opAt_cases rwset u1 db ns coll key h Hs Hcl1 Hw) as Hc. cbv zeta in Hc. rewrite <- HT in Hc. unfold view at 1. rewrite overlay_lookup, Hu'.
      destruct (T !! (ns, coll, key)) as [op|] eqn:E.
      * destruct (Hall _ _ E) as [vv Hvv]. rewrite Hvv in *. split; [tauto|]. split; [tauto|by eexists].
      * destruct Hc as (Hn & Ht & _). rewrite Hn. split; [by unfold view; rewrite overlay_lookup|]. tauto.
Qed.

(** ** Transactions one after the other *)

(** The state, and the keys that transactions of the block have written. *)
Record sstate := mkState { world : bytes → bytes → gmap bytes VersionedValue; dirty : gset compositeKey }.

Definition read_current (st : sstate) (ns coll key : bytes) (ver : option Height) : bool :=
  bool_decide ((ns, coll, key) ∉ dirty st) && bool_decide (vv_Version <$> world st ns coll !! key = ver).

Definition keysOf (rwset : TxRwSet) : list compositeKey := actKey <$> acts rwset.

Definition afterWrites (rwset : TxRwSet) (h : Height) (ns coll : bytes) (m : gmap bytes VersionedValue) : gmap bytes VersionedValue :=
  foldl (λ m' ck, if decide (ck.1 = (ns, coll)) then partial_alter (λ _, newVal (writeFor rwset ck) (metaFor rwset ck) h (m !! ck.2)) ck.2 m' else m')
    m (keysOf rwset).

#[local] Instance touches_dec w md old : Decision (touches w md old).
Proof. unfold touches. apply _. Defined.

Definition worldAt (st : sstate) (ck : compositeKey) : option VersionedValue := world st ck.1.1 ck.1.2 !! ck.2.

Definition touched (st : sstate) (rwset : TxRwSet) : list compositeKey :=
  filter (λ ck, touches (writeFor rwset ck) (metaFor rwset ck) (worldAt st ck)) (keysOf rwset).

(** Only the metadata of a key the block deleted is set. *)
Definition orphaned (st : sstate) (rwset : TxRwSet) : bool :=
  existsb (λ ck, bool_decide (writeFor rwset ck = None) && bool_decide (is_Some (metaFor rwset ck)) && bool_decide (ck ∈ dirty st) &&
    bool_decide (worldAt st ck = None)) (keysOf rwset).

Definition after (rwset : TxRwSet) (h : Height) (st : sstate) : sstate :=
  mkState (λ ns coll, afterWrites rwset h ns coll (world st ns coll)) (dirty st ∪ list_to_set (touched st rwset)).

Definition heightOf (num : Z) (tx : transaction) : Height := mkHeight num (u64 (indexInBlock tx)).

(** The updates and the database give the state. *)
Record gives (u : publicAndHashUpdates) (db : DB D) (st : sstate) : Prop := {
  gi_world ns coll : view u db ns coll = world st ns coll;
  gi_dirty ns coll key : (ns, coll, key) ∈ dirty st ↔ is_Some (updatesAt u ns coll !! key);
  gi_clean : clean u;
  gi_split : split_ok u
}.

(** ** Writes *)

Lemma keysOf_elem rwset ck : is_Some (writeFor rwset ck) ∨ is_Some (metaFor rwset ck) → ck ∈ keysOf rwset.
Proof.
  intros H. assert (ck ∈ writeKeys (acts rwset) ∨ ck ∈ metaKeys (acts rwset)) as [Hk|Hk].
  { destruct H as [H|H]; [left|right]; apply dec_stable; intros Hn; [apply writeFor_keys in Hn|apply metaFor_keys in Hn]; unfold writeFor, metaFor in H; rewrite Hn in H; by destruct H. }
  all: apply list_elem_of_omap in Hk as ([[ns coll] a] & Ha & Hk); apply list_elem_of_fmap; eexists; split; [|exact Ha]; destruct a; by simplify_eq/=.
Qed.

Lemma afterWrites_lookup rwset h ns coll m key :
  afterWrites rwset h ns coll m !! key = newVal (writeFor rwset (ns, coll, key)) (metaFor rwset (ns, coll, key)) h (m !! key).
Proof.
  unfold afterWrites. set (f := λ (m' : gmap bytes VersionedValue) (ck : compositeKey), _).
  assert (∀ l, foldl f m l !! key = if decide ((ns, coll, key) ∈ l) then newVal (writeFor rwset (ns, coll, key)) (metaFor rwset (ns, coll, key)) h (m !! key) else m !! key) as H.
  { induction l as [|[[ns' coll'] key'] l IH] using rev_ind; [done|]. rewrite foldl_snoc. unfold f at 1. cbn [fst snd].
    destruct (decide ((ns', coll') = (ns, coll))) as [[= -> ->]|Hne].
    - destruct (decide (key' = key)) as [->|Hk]; [rewrite lookup_partial_alter_eq, decide_True by set_solver; done|].
      rewrite lookup_partial_alter_ne, IH by done. by apply decide_ext; set_solver.
    - rewrite IH. apply decide_ext. set_solver. }
  rewrite H. destruct (decide _) as [|Hn]; [done|].
  destruct (writeFor rwset (ns, coll, key)) eqn:Ew; [destruct Hn; apply keysOf_elem; left; by eexists|].
  destruct (metaFor rwset (ns, coll, key)) eqn:Em; [destruct Hn; apply keysOf_elem; right; by eexists|done].
Qed.

Lemma gives_orphaned u db st rwset : gives u db st → stuck u rwset ↔ orphaned st rwset = true.
Proof.
  intros [Hw Hd _ _]. unfold orphaned. rewrite existsb_exists. split.
  - intros (ns & coll & key & Hwr & Hmd & vv & Hvv & Hdel). exists (ns, coll, key). split; [apply list_elem_of_In, keysOf_elem; by right|].
    rewrite !andb_true_iff, !bool_decide_eq_true. repeat split; [done|done|by apply Hd; rewrite Hvv|].
    unfold worldAt. cbn [fst snd]. rewrite <- Hw. unfold view. by rewrite overlay_lookup, Hvv, Hdel.
  - intros ([[ns coll] key] & _ & H). rewrite !andb_true_iff, !bool_decide_eq_true in H. destruct H as [[[Hwr Hmd] [vv Hvv]%Hd] Hno].
    exists ns, coll, key. split; [done|]. split; [done|]. exists vv. split; [done|].
    unfold worldAt in Hno. cbn [fst snd] in Hno. rewrite <- Hw in Hno. unfold view in Hno. rewrite overlay_lookup, Hvv in Hno. by destruct (IsDelete vv).
Qed.

Lemma gives_after u u' db st rwset h : gives u db st → clean u' → split_ok u' → applied rwset h db u u' → gives u' db (after rwset h st).
Proof.
  intros [Hw Hd _ _] Hcl Hsp Hap. split; [..|done|done]; cbn [after world dirty].
  - intros ns coll. apply map_eq. intros key. destruct (Hap ns coll key) as [-> _]. by rewrite afterWrites_lookup, Hw.
  - intros ns coll key. destruct (Hap ns coll key) as [_ ->]. rewrite <- Hd, elem_of_union, elem_of_list_to_set, Hw. unfold touched. rewrite list_elem_of_filter.
    unfold worldAt. cbn [fst snd]. split; [intros [?|[? _]]; [by left|by right]|]. intros [?|Ht]; [by left|right]. split; [done|]. apply keysOf_elem. destruct Ht as [?|[? _]]; [by left|by right].
Qed.

Lemma applyWriteSet_after u db st rwset h post :
  state_ok db → gives u db st → writes_ok rwset →
  if orphaned st rwset then ∃ why, applyWriteSet rwset h db post u = Panic why
  else ∃ u', applyWriteSet rwset h db post u = Done (u', Ok tt) ∧ gives u' db (after rwset h st).
Proof.
  intros Hs Hg Hw. pose proof (gives_orphaned _ _ _ rwset Hg) as Ho. destruct (applyWriteSet_applied rwset h db post u Hs (gi_clean _ _ _ Hg) Hw) as [[Hst Hp]|(u' & Hu' & Hst & Hcl & Hsp & Hap)].
  - apply Ho in Hst. by rewrite Hst.
  - destruct (orphaned st rwset); [by destruct Hst; apply Ho|]. exists u'. split; [done|]. eapply gives_after; [done|done|apply Hsp, Hg|done].
Qed.

(** ** Reads *)

Context `{!Codec (list KVRead)} (hashFunc : bytes → bytes).

Definition query_current (st : sstate) (ns : bytes) (rq : RangeQueryInfo) : bool := recorded hashFunc rq (rerun rq ns (world st ns [])).

(** Whether everything a transaction read is current, and if not what was not. *)
Fixpoint verdict (st : sstate) (nsRwSets : list NsRwSet) : Z :=
  match nsRwSets with
  | [] => VALID
  | n :: nsRwSets =>
    let ns := NameSpace n in
    if negb (forallb (λ r, read_current st ns [] (kr_Key r) (kr_Version r)) (Reads (KvRwSet n))) then MVCC_READ_CONFLICT
    else if negb (forallb (query_current st ns) (RangeQueriesInfo (KvRwSet n))) then PHANTOM_READ_CONFLICT
    else if negb (forallb (λ c, forallb (λ r, read_current st ns (CollectionName c) (rh_KeyHash r) (rh_Version r)) (HashedReads (HashedRwSet c))) (CollHashedRwSets n))
      then MVCC_READ_CONFLICT
    else verdict st nsRwSets
  end.

Definition codeOf (mvcc : bool) (st : sstate) (tx : transaction) : Z := if mvcc then verdict st (NsRwSets (tx_rwset tx)) else VALID.

Fixpoint serial (num : Z) (mvcc : bool) (st : sstate) (txs : list transaction) : option (list Z * sstate) :=
  match txs with
  | [] => Some ([], st)
  | tx :: txs =>
    let code := codeOf mvcc st tx in
    if (code =? VALID) && orphaned st (tx_rwset tx) then None else
    let st := if code =? VALID then after (tx_rwset tx) (heightOf num tx) st else st in
    '(codes, st) ← serial num mvcc st txs; Some (code :: codes, st)
  end.

Record reads_ok (rwset : TxRwSet) : Prop := {
  ro_ns n : n ∈ NsRwSets rwset → named (NameSpace n) [];
  ro_queries n rq : n ∈ NsRwSets rwset → rq ∈ RangeQueriesInfo (KvRwSet n) → query_ok rq;
  ro_colls n c : n ∈ NsRwSets rwset → c ∈ CollHashedRwSets n → CollectionName c ≠ [] ∧ named (NameSpace n) (CollectionName c)
}.

(** No query has so many results that 32 bits do not count the levels of its summary. *)
Definition queries_small (st : sstate) (rwset : TxRwSet) : Prop :=
  ∀ n rq, n ∈ NsRwSets rwset → rq ∈ RangeQueriesInfo (KvRwSet n) → Z.of_nat (length (rerun rq (NameSpace n) (world st (NameSpace n) []))) < 2 ^ 31.

(** The validation of a query may panic. *)
Lemma allValid_forallb {A} (check : A → fallible bool) (f : A → bool) (full : A → Prop) l :
  (∀ a, a ∈ l → match check a with Done r => r = Ok (f a) | Panic _ => full a end) →
  match allValid check l with Done r => r = Ok (forallb f l) | Panic _ => ∃ a, a ∈ l ∧ full a end.
Proof.
  induction l as [|a l IH]; intros H; [done|]. cbn. pose proof (H a ltac:(left)) as Ha. destruct (check a) as [r|why]; [subst r|exists a; split; [left|done]].
  cbn. destruct (f a); [|done]. specialize (IH (λ b Hb, H b (list_elem_of_further _ _ _ Hb))). destruct (allValid check l) as [r|]; [done|].
  destruct IH as (b & Hb & Hf). exists b. split; [by right|done].
Qed.

Lemma allValid_exact {A} (check : A → fallible bool) (f : A → bool) l :
  (∀ a, a ∈ l → check a = ok (f a)) → allValid check l = ok (forallb f l).
Proof.
  intros H. pose proof (allValid_forallb check f (λ _, False) l) as Ha. destruct (allValid check l) as [r|].
  - unfold ok. f_equal. apply Ha. intros a Hin. by rewrite H.
  - destruct Ha as (a & _ & []). intros a Hin. by rewrite H.
Qed.

Lemma gives_version u db st ns coll key ver :
  gives u db st →
  (if bool_decide (is_Some (updatesAt u ns coll !! key)) then false else AreSame (vv_Version <$> base db ns coll !! key) ver) = read_current st ns coll key ver.
Proof.
  intros [Hw Hd _]. unfold read_current. rewrite <- Hw. unfold view. rewrite overlay_lookup.
  rewrite (bool_decide_ext ((ns, coll, key) ∉ dirty st) (¬ is_Some (updatesAt u ns coll !! key))) by (by rewrite Hd). rewrite bool_decide_not.
  destruct (updatesAt u ns coll !! key) as [vv|]; [rewrite bool_decide_eq_true_2 by done; done|]. rewrite bool_decide_eq_false_2 by (by intros []). cbn [negb andb].
  apply eq_bool_prop_intro. rewrite !Is_true_true, AreSame_eq, bool_decide_eq_true. done.
Qed.

Lemma validateKVRead_current u db st ns r :
  state_ok db → gives u db st → named ns [] → validateKVRead ns (publicUpdates u) db r = ok (read_current st ns [] (kr_Key r) (kr_Version r)).
Proof.
  intros Hs Hg [_ Hns]. rewrite <- (gives_version u db st ns [] _ _ Hg). unfold validateKVRead. rewrite Exists_updates.
  change (GetUpdates ns (publicUpdates u)) with (updatesAt u ns []). destruct (bool_decide _); [done|]. by rewrite GetVersion_ok by (apply Hs || done).
Qed.

Lemma validateKVReadHash_current u db st ns coll r :
  state_ok db → gives u db st → coll ≠ [] → named ns coll →
  validateKVReadHash ns coll (hashUpdates u) db r = ok (read_current st ns coll (rh_KeyHash r) (rh_Version r)).
Proof.
  intros Hs Hg Hc [_ Hns]. rewrite <- (gives_version u db st ns coll _ _ Hg). unfold validateKVReadHash. rewrite UpdateMap_Contains_at by done.
  destruct (bool_decide _); [done|]. unfold GetKeyHashVersion. rewrite <- nsOf_coll by done. by rewrite GetVersion_ok by (apply Hs || done).
Qed.

Lemma validateRangeQuery_current u db st ns rq :
  state_ok db → gives u db st → named ns [] → query_ok rq → Z.of_nat (length (rerun rq ns (world st ns []))) < 2 ^ 31 →
  match validateRangeQuery hashFunc (vdb db) (publicUpdates u) ns rq with Done r => r = Ok (query_current st ns rq) | Panic _ => query_full rq end.
Proof.
  intros Hs Hg [_ Hns] Hq Hl. unfold query_current. rewrite <- (gi_world _ _ _ Hg) in *. unfold view, base in *. change (nsOf ns []) with ns in *.
  change (updatesAt u ns []) with (GetUpdates ns (publicUpdates u)) in *. by apply validateRangeQuery_exact; [apply Hs|..].
Qed.

(** Some query of a transaction fills the level of its summary. *)
Definition tx_full (nsRwSets : list NsRwSet) : Prop := ∃ n rq, n ∈ nsRwSets ∧ rq ∈ RangeQueriesInfo (KvRwSet n) ∧ query_full rq.

Lemma validateTx_verdict u db st rwset :
  state_ok db → gives u db st → reads_ok rwset → queries_small st rwset →
  match validateTx hashFunc (NsRwSets rwset) u db with Done r => r = Ok (verdict st (NsRwSets rwset)) | Panic _ => tx_full (NsRwSets rwset) end.
Proof.
  intros Hs Hg [Hns Hq Hc] Hsm. unfold queries_small in Hsm. revert Hns Hq Hc Hsm. generalize (NsRwSets rwset). intros l.
  induction l as [|n l IH]; intros Hns Hq Hc Hsm; [done|]. cbn [validateTx verdict].
  unfold validateReadSet. rewrite (allValid_exact _ (λ r, read_current st (NameSpace n) [] (kr_Key r) (kr_Version r)));
    [|intros r _; apply validateKVRead_current; [done|done|apply Hns; left]]. cbn [try_bind ok]. destruct (negb _); [done|].
  unfold validateRangeQueries. pose proof (allValid_forallb (validateRangeQuery hashFunc (vdb db) (publicUpdates u) (NameSpace n)) (query_current st (NameSpace n)) query_full
    (RangeQueriesInfo (KvRwSet n)) ltac:(intros rq Hrq; apply validateRangeQuery_current; [done|done|apply Hns; left|by apply (Hq n rq); [left|]|apply Hsm; [left|done]])) as Hv.
  destruct (allValid _ _) as [r|why]; [subst r|destruct Hv as (rq & Hin & Hf); exists n, rq; split; [left|done]].
  cbn [try_bind ok]. destruct (negb _); [done|]. unfold validateNsHashedReadSets.
  rewrite (allValid_exact _ (λ c, forallb (λ r, read_current st (NameSpace n) (CollectionName c) (rh_KeyHash r) (rh_Version r)) (HashedReads (HashedRwSet c)))).
  2: { intros c Hcc. destruct (Hc n c ltac:(left) Hcc). apply allValid_exact. intros r _. by apply validateKVReadHash_current. }
  cbn [try_bind ok]. destruct (negb _); [done|].
  assert (match validateTx hashFunc l u db with Done r => r = Ok (verdict st l) | Panic _ => tx_full l end) as Hl.
  { apply IH; intros; (apply Hns || eapply Hq || eapply Hc || eapply Hsm); try done; by right. }
  destruct (validateTx hashFunc l u db); [done|]. destruct Hl as (n' & rq & Hn & Hr & Hf). exists n', rq. split; [by right|done].
Qed.

(** ** Blocks *)

Definition tx_ok (tx : transaction) : Prop := writes_ok (tx_rwset tx) ∧ reads_ok (tx_rwset tx).

(** Each transaction has small queries in the state it is run in. *)
Fixpoint small (num : Z) (mvcc : bool) (st : sstate) (txs : list transaction) : Prop :=
  match txs with
  | [] => True
  | tx :: txs =>
    queries_small st (tx_rwset tx) ∧ small num mvcc (if codeOf mvcc st tx =? VALID then after (tx_rwset tx) (heightOf num tx) st else st) txs
  end.

Definition setCode (tx : transaction) (code : Z) : transaction := {| tx with validationCode := code |}.

Lemma validateTxs_serial num mvcc db txs : ∀ u st,
  state_ok db → gives u db st → Forall tx_ok txs → small num mvcc st txs →
  match validateTxs hashFunc num mvcc db txs u with
  | Panic _ => serial num mvcc st txs = None ∨ Exists (λ tx, tx_full (NsRwSets (tx_rwset tx))) txs
  | Done r => ∃ codes st' u', serial num mvcc st txs = Some (codes, st') ∧ r = Ok (zip_with setCode txs codes, u') ∧ gives u' db st'
  end.
Proof.
  induction txs as [|tx txs IH]; intros u st Hs Hg Hok Hsm; [by exists [], st, u|]. apply Forall_cons in Hok as [[Hw Hr] Hok]. destruct Hsm as [Hq Hsm].
  cbn [serial validateTxs]. set (code := codeOf mvcc st tx) in *.
  assert (match validateEndorserTX hashFunc (tx_rwset tx) mvcc u db with Done r => r = Ok code | Panic _ => tx_full (NsRwSets (tx_rwset tx)) end) as Hc.
  { unfold validateEndorserTX, code, codeOf. destruct mvcc; [by apply validateTx_verdict|done]. }
  destruct (validateEndorserTX _ _ _ _ _) as [r|]; [subst r|right; by constructor].
  cbn [try_bind ok tx_rwset indexInBlock containsPostOrderWrites].
  pose proof (applyWriteSet_after u db st (tx_rwset tx) (heightOf num tx) (containsPostOrderWrites tx) Hs Hg Hw) as Hap. unfold heightOf in *.
  destruct (code =? VALID) eqn:Ec; cbn [andb].
  - destruct (orphaned st (tx_rwset tx)); [destruct Hap as [why ->]; by left|]. destruct Hap as (u1 & -> & Hg1). cbn [mbind outcome_bind].
    specialize (IH u1 _ Hs Hg1 Hok Hsm). destruct (validateTxs _ _ _ _ _ _) as [r|].
    + destruct IH as (codes & st' & u' & -> & -> & Hg'). by exists (code :: codes), st', u'.
    + destruct IH as [->|?]; [by left|right; by constructor].
  - specialize (IH u st Hs Hg Hok Hsm). cbn [mbind outcome_bind]. destruct (validateTxs _ _ _ _ _ _) as [r|].
    + destruct IH as (codes & st' & u' & -> & -> & Hg'). by exists (code :: codes), st', u'.
    + destruct IH as [->|?]; [by left|right; by constructor].
Qed.

(** The state before the first transaction of a block. *)
Definition start (db : DB D) : sstate := mkState (base db) ∅.

Lemma gives_start db : gives newPubAndHashUpdates db (start db).
Proof.
  assert (∀ ns coll, updatesAt newPubAndHashUpdates ns coll = ∅) as Hu by (intros ns coll; unfold updatesAt; by destruct (decide (coll = []))).
  split.
  - intros ns coll. unfold view. rewrite Hu. apply map_eq. intros key. by rewrite overlay_lookup, lookup_empty.
  - intros ns coll key. rewrite Hu, lookup_empty. split; [set_solver|by intros []].
  - intros ns coll key vv H. by rewrite Hu, lookup_empty in H.
  - intros ns. done.
Qed.

(** C4. Validation of a block is serial. The codes given to the transactions of a block
    and the state that its updates make of the database are those of running the
    transactions one by one: a transaction counts if what it read is what it would read
    after the ones before it, and if nothing it read was written in the block, and then
    its writes are applied. The validation can only panic if a valid transaction sets the
    metadata of a key that the block deleted, or if a query of some transaction has a Merkle
    summary that fills its level. *)
Theorem block_serial num mvcc db txs :
  state_ok db → Forall tx_ok txs → small num mvcc (start db) txs →
  match validateAndPrepareBatch hashFunc num txs mvcc db with
  | Panic _ => serial num mvcc (start db) txs = None ∨ Exists (λ tx, tx_full (NsRwSets (tx_rwset tx))) txs
  | Done r => ∃ codes st u, serial num mvcc (start db) txs = Some (codes, st) ∧ r = Ok (zip_with setCode txs codes, u) ∧
      ∀ ns coll, view u db ns coll = world st ns coll
  end.
Proof.
  intros Hs Hok Hsm. pose proof (validateTxs_serial num mvcc db txs newPubAndHashUpdates (start db) Hs (gives_start db) Hok Hsm) as H.
  unfold validateAndPrepareBatch. destruct (validateTxs _ _ _ _ _ _) as [r|]; [|done]. destruct H as (codes & st & u & H1 & H2 & Hg). exists codes, st, u. split; [done|]. split; [done|]. apply Hg.
Qed.

(** ** Metadata of deleted keys *)

Lemma validateTxs_app num mvcc db txs1 txs2 : ∀ u,
  validateTxs hashFunc num mvcc db (txs1 ++ txs2) u =
    try_bind (validateTxs hashFunc num mvcc db txs1 u) (λ '(done1, u1),
      try_bind (validateTxs hashFunc num mvcc db txs2 u1) (λ '(done2, u2), ok (done1 ++ done2, u2))).
Proof.
  induction txs1 as [|tx txs1 IH]; intros u; cbn [app validateTxs].
  { cbn. by destruct (validateTxs _ _ _ _ _ _) as [[[??]|]|]. }
  destruct (validateEndorserTX _ _ _ _ _) as [[code|]|]; [|done..]. cbn [try_bind ok].
  destruct (if code =? VALID then _ else _) as [u1|]; [|done]. cbn [mbind outcome_bind]. rewrite IH.
  destruct (validateTxs _ _ _ _ txs1 u1) as [[[done1 u2]|]|]; [|done..]. cbn [try_bind ok].
  by destruct (validateTxs _ _ _ _ txs2 u2) as [[[done2 u3]|]|].
Qed.

Lemma validateTxs_clean num mvcc db txs : ∀ u txs' u',
  state_ok db → clean u → Forall (λ tx, writes_ok (tx_rwset tx)) txs →
  validateTxs hashFunc num mvcc db txs u = Done (Ok (txs', u')) → clean u'.
Proof.
  induction txs as [|tx txs IH]; intros u txs' u' Hs Hcl Hok; cbn [validateTxs]; [by intros [= _ <-]|].
  apply Forall_cons in Hok as [Hw Hok]. destruct (validateEndorserTX _ _ _ _ _) as [[code|]|]; [|done..]. cbn [try_bind ok].
  assert (∀ u1, clean u1 → (try_bind (validateTxs hashFunc num mvcc db txs u1) (λ '(done1, u2), ok (setCode tx code :: done1, u2)))
    = Done (Ok (txs', u')) → clean u') as Hrest.
  { intros u1 Hc1. destruct (validateTxs _ _ _ _ txs u1) as [[[done1 u2]|]|] eqn:E; [|done..]. intros [= _ <-]. by eapply IH. }
  destruct (code =? VALID); [|by apply Hrest].
  destruct (applyWriteSet_applied (tx_rwset tx) (heightOf num tx) db (containsPostOrderWrites tx) u Hs Hcl Hw)
    as [[_ (why & E)]|(u1 & E & _ & Hc1 & _)]; unfold heightOf in E; cbn [tx_rwset indexInBlock containsPostOrderWrites]; rewrite E; [done|].
  by apply Hrest.
Qed.

(** C25. The one way in which the writes of a valid transaction bring the validation
    of a block down. Let the transactions before it be validated, and the transaction be
    valid after them. Collecting its writes panics exactly if it sets the metadata of a key
    that it does not write, and that the transactions before it have deleted ([stuck]); then
    the validation of every block that starts this way panics. Otherwise the validation
    goes on with the transaction marked as valid. *)
Theorem metadata_after_delete num mvcc db before tx before' u :
  state_ok db → Forall (λ tx, writes_ok (tx_rwset tx)) before → writes_ok (tx_rwset tx) →
  validateAndPrepareBatch hashFunc num before mvcc db = Done (Ok (before', u)) →
  validateEndorserTX hashFunc (tx_rwset tx) mvcc u db = ok VALID →
  (stuck u (tx_rwset tx) ∧ ∀ rest, ∃ why, validateAndPrepareBatch hashFunc num (before ++ tx :: rest) mvcc db = Panic why) ∨
  (¬ stuck u (tx_rwset tx) ∧ ∃ u', validateAndPrepareBatch hashFunc num (before ++ [tx]) mvcc db = Done (Ok (before' ++ [setCode tx VALID], u'))).
Proof.
  unfold validateAndPrepareBatch. intros Hs Hok Hw Hb Hv.
  assert (clean u) as Hcl by (eapply validateTxs_clean; [done|apply (gi_clean _ _ _ (gives_start db))|done|done]).
  assert (∀ rest, validateTxs hashFunc num mvcc db (before ++ tx :: rest) newPubAndHashUpdates =
    try_bind (validateTxs hashFunc num mvcc db (tx :: rest) u) (λ '(done2, u2), ok (before' ++ done2, u2))) as Happ
    by (intros rest; by rewrite validateTxs_app, Hb).
  destruct (applyWriteSet_applied (tx_rwset tx) (heightOf num tx) db (containsPostOrderWrites tx) u Hs Hcl Hw)
    as [[Hst (why & E)]|(u' & E & Hst & _)]; unfold heightOf in E; [left|right]; (split; [done|]).
  - intros rest. exists why. rewrite Happ. cbn [validateTxs]. rewrite Hv. cbn [try_bind ok].
    change (VALID =? VALID) with true. cbn [tx_rwset indexInBlock containsPostOrderWrites]. by rewrite E.
  - exists u'. rewrite Happ. cbn [validateTxs]. rewrite Hv. cbn [try_bind ok].
    change (VALID =? VALID) with true. cbn [tx_rwset indexInBlock containsPostOrderWrites]. by rewrite E.
Qed.
End serial.
