(* ===== verification/StateLevelDB.v ===== *)
(** * The state database on LevelDB

    [statedb/stateleveldb]: [stateleveldb.go] keeps the values of all namespaces in one
    database of a ledger, [value_encoding.go] serialises them. [privacyenabledstate]: how
    [ApplyPrivacyAwareUpdates] commits the updates of a block, and the bookkeeping of the
    namespaces that have metadata in [optimization.go]. The database is an instance of the
    interface [VersionedDBOk], which the validation of transactions relies on. The state is
    that of a handle of the database, a map of its own by [handle_private]. *)

From stdpp Require Import gmap strings list.
From Stdlib Require Import Strings.Byte.
From S2P Require Import Prelude GoLib Varint Disk LevelDB StateDB RangeQuery RangeQueryProps Validation ValidationProps.

(** ** Keys *)

Definition dataKeyPrefix : bytes := [x64].
Definition nsKeySep : bytes := [x00].
Definition lastKeyIndicator : byte := x01.
Definition savePointKey : bytes := [x73].

Definition encodeDataKey (ns key : bytes) : bytes := ((dataKeyPrefix ++ ns) ++ nsKeySep) ++ key.

(** [bytes.SplitN(s, nsKeySep, 2)], if there is a separator. *)
Fixpoint splitSep (s : bytes) : option (bytes * bytes) :=
  match s with
  | [] => None
  | b :: s => if decide (b = x00) then Some ([], s) else '(p, q) ← splitSep s; Some (b :: p, q)
  end.

Definition decodeDataKey (encodedDataKey : bytes) : outcome (bytes * bytes) :=
  match splitSep encodedDataKey with
  | None => Panic "index out of range"
  | Some ([], _) => Panic "slice bounds out of range"
  | Some (_ :: ns, key) => Done (ns, key)
  end.

(** ** Values *)

Record DBValue := mkDBValue { dv_Version : bytes; dv_Value : bytes; dv_Metadata : bytes }.

Section leveldb.
Context `{!Codec DBValue}.

Definition encodeValue (v : VersionedValue) : bytes :=
  marshal (mkDBValue (ToBytes (vv_Version v)) (default [] (vv_Value v)) (default [] (vv_Metadata v))).

Definition decodeValue (encodedValue : bytes) : res VersionedValue :=
  match unmarshal encodedValue with
  | None => Err (Errorf "proto: cannot parse")
  | Some dbValue =>
    '(ver, _) ← NewHeightFromBytes (dv_Version dbValue);
    Ok (mkVersionedValue (Some (dv_Value dbValue)) (decoded (dv_Metadata dbValue)) ver)
  end.

(** ** Reads *)

Definition versionedDB_GetState (namespace key : bytes) (vdb : gmap bytes bytes) : res (option VersionedValue) :=
  match vdb !! encodeDataKey namespace key with
  | None => Ok None
  | Some dbVal => vv ← decodeValue dbVal; Ok (Some vv)
  end.

Definition versionedDB_GetVersion (namespace key : bytes) (vdb : gmap bytes bytes) : res (option Height) :=
  versionedValue ← versionedDB_GetState namespace key vdb;
  Ok (match versionedValue with None => None | Some versionedValue => Some (vv_Version versionedValue) end).

(** What [kvScanner.Next] returns for an entry. The keys of the range of a namespace have a
    separator after the first byte, so [decodeDataKey] does not panic on them. *)
Definition kvScanner_Next (namespace : bytes) (kv : bytes * bytes) : res VersionedKV :=
  match decodeDataKey kv.1 with
  | Panic why => Err (Errorf why)
  | Done (_, key) => vv ← decodeValue kv.2; Ok (mkVersionedKV namespace key vv)
  end.

(** Without an end key the last byte of the end, the separator, becomes 1. *)
Definition versionedDB_GetStateRangeScanIterator (namespace startKey endKey : bytes) (vdb : gmap bytes bytes) : res (list (res VersionedKV)) :=
  let dataStartKey := encodeDataKey namespace startKey in
  let dataEndKey := encodeDataKey namespace endKey in
  let dataEndKey := if decide (endKey = []) then <[(length dataEndKey - 1)%nat := lastKeyIndicator]> dataEndKey else dataEndKey in
  Ok (kvScanner_Next namespace <$> scan dataStartKey (Some dataEndKey) vdb).

#[export] Instance versionedDB : VersionedDB (gmap bytes bytes) := {
  GetState := versionedDB_GetState;
  GetVersion := versionedDB_GetVersion;
  GetStateRangeScanIterator := versionedDB_GetStateRangeScanIterator
}.

(** ** Commits *)

Definition addUpdate (ns key : bytes) (vv : VersionedValue) (dbBatch : Disk.UpdateBatch) : Disk.UpdateBatch :=
  match vv_Value vv with
  | None => batch_Delete (encodeDataKey ns key) dbBatch
  | Some _ => batch_Put (encodeDataKey ns key) (encodeValue vv) dbBatch
  end.

(** The batch that is written at once; without a height there is no savepoint. *)
Definition updatesBatch (batch : StateDB.UpdateBatch) (height : option Height) : Disk.UpdateBatch :=
  let dbBatch := map_fold (λ ns updates dbBatch, map_fold (addUpdate ns) dbBatch updates) ∅ (Updates batch) in
  match height with
  | None => dbBatch
  | Some height => batch_Put savePointKey (ToBytes height) dbBatch
  end.

Definition ApplyUpdates (batch : StateDB.UpdateBatch) (height : option Height) (vdb : gmap bytes bytes) : gmap bytes bytes :=
  applyBatch vdb (updatesBatch batch height).

Definition GetLatestSavePoint (vdb : gmap bytes bytes) : res (option Height) :=
  match vdb !! savePointKey with
  | None => Ok None
  | Some versionBytes => '(version, _) ← NewHeightFromBytes versionBytes; Ok (Some version)
  end.

(** ** Commits with private data *)

Definition derivePvtDataNs (namespace collection : bytes) : bytes := namespace ++ [x24; x24] ++ [x70] ++ collection.

(** [addPvtUpdates] and [addHashedUpdates] differ in the name of the namespace. *)
Definition addUpdates (derive : bytes → bytes → bytes) (pubUpdateBatch : StateDB.UpdateBatch) (updateMap : UpdateMap) : StateDB.UpdateBatch :=
  map_fold (λ ns nsBatch pub, map_fold (λ coll updates pub, map_fold (λ key vv pub, UpdateBatch_Update (derive ns coll) key vv pub) pub updates) pub (Updates nsBatch))
    pubUpdateBatch updateMap.

Definition addPvtUpdates : StateDB.UpdateBatch → UpdateMap → StateDB.UpdateBatch := addUpdates derivePvtDataNs.
Definition addHashedUpdates : StateDB.UpdateBatch → UpdateMap → StateDB.UpdateBatch := addUpdates deriveHashedDataNs.

Definition hasMetadata (updates : gmap bytes VersionedValue) : bool := bool_decide (map_Exists (λ _ vv, is_Some (vv_Metadata vv)) updates).

Definition filterNamespacesThatHasMetadata (pubUpdates : StateDB.UpdateBatch) (hashUpdates : UpdateMap) : gset bytes :=
  dom (filter (λ kv, hasMetadata kv.2 = true) (Updates pubUpdates)) ∪
  dom (filter (λ kv, map_Exists (λ _ updates, hasMetadata updates = true) (Updates kv.2)) hashUpdates).

(** [setMetadataUsedFlag]; an error of the write of the bookkeeper is dropped. *)
Definition setMetadataUsedFlag (pubUpdates : StateDB.UpdateBatch) (hashUpdates : UpdateMap) {D} (s : DB D) : DB D :=
  {| s with metadataHint := metadataHint s ∪ filterNamespacesThatHasMetadata pubUpdates hashUpdates |}.

(** [combinedUpdates] is [updates.PubUpdates] itself, so the flags are set from the
    combined batch. *)
Definition ApplyPrivacyAwareUpdates (pubUpdates : StateDB.UpdateBatch) (hashUpdates pvtUpdates : UpdateMap) (height : option Height)
    (s : DB (gmap bytes bytes)) : DB (gmap bytes bytes) :=
  let combinedUpdates := addPvtUpdates pubUpdates pvtUpdates in
  let combinedUpdates := addHashedUpdates combinedUpdates hashUpdates in
  let s := setMetadataUsedFlag combinedUpdates hashUpdates s in
  {| s with vdb := ApplyUpdates combinedUpdates height (vdb s) |}.

(** ** The map of a namespace *)

Definition nsName (ns : bytes) : string := String.string_of_list_byte (dataKeyPrefix ++ ns).

Lemma nsName_bytes ns : String.list_byte_of_string (nsName ns) = dataKeyPrefix ++ ns.
Proof. unfold nsName. by rewrite String.list_byte_of_string_of_list_byte. Qed.

(** The keys of a namespace are those of a handle for it. *)
Lemma encodeDataKey_level ns key : encodeDataKey ns key = constructLevelKey (nsName ns) key.
Proof. unfold encodeDataKey, constructLevelKey. by rewrite nsName_bytes. Qed.

Definition plain (ns : bytes) : Prop := x00 ∉ ns.

Lemma plain_zeroFree ns : plain ns → zeroFree (nsName ns).
Proof. intros H. unfold zeroFree. rewrite nsName_bytes. apply Forall_forall. intros b Hb ->. unfold plain, dataKeyPrefix in *. set_solver. Qed.

Lemma encodeDataKey_inj ns ns' key key' : plain ns → plain ns' → encodeDataKey ns key = encodeDataKey ns' key' → ns = ns' ∧ key = key'.
Proof.
  intros H H' E. rewrite !encodeDataKey_level in E. apply levelKey_inj in E as [E ->]; [|by apply plain_zeroFree..].
  apply (f_equal String.list_byte_of_string) in E. rewrite !nsName_bytes in E. by injection E as ->.
Qed.

Lemma decodeDataKey_encode ns key : plain ns → decodeDataKey (encodeDataKey ns key) = Done (ns, key).
Proof.
  intros H. unfold decodeDataKey, encodeDataKey, dataKeyPrefix, nsKeySep. rewrite <- (assoc_L (++)). cbn.
  assert (splitSep (ns ++ x00 :: key) = Some (ns, key)) as E.
  { unfold plain in H. induction ns as [|b ns IH]; [done|]. cbn. rewrite decide_False by set_solver. rewrite IH by set_solver. done. }
  by rewrite E.
Qed.

Definition keyOf (ns k : bytes) : option bytes :=
  if decide (encodeDataKey ns [] `prefix_of` k) then Some (drop (length (encodeDataKey ns [])) k) else None.

Lemma keyOf_Some ns k key : keyOf ns k = Some key ↔ k = encodeDataKey ns key.
Proof.
  unfold keyOf, encodeDataKey. rewrite app_nil_r. destruct (decide _) as [[t ->]|Hn].
  - rewrite drop_app_length. split; [by intros [= ->]|]. intros E. by apply app_inv_head in E as ->.
  - split; [done|]. intros ->. destruct Hn. by eexists.
Qed.

Definition rawContents (d : gmap bytes bytes) (ns : bytes) : gmap bytes bytes :=
  list_to_map (omap (λ kv, (λ key, (key, kv.2)) <$> keyOf ns kv.1) (map_to_list d)).

Lemma rawContents_lookup d ns key : rawContents d ns !! key = d !! encodeDataKey ns key.
Proof.
  unfold rawContents. set (l := omap _ _).
  assert (∀ k v, (k, v) ∈ l ↔ d !! encodeDataKey ns k = Some v) as Hl.
  { intros k v. unfold l. rewrite list_elem_of_omap. split.
    - intros ([k' v'] & Hin%elem_of_map_to_list & E). cbn in E. destruct (keyOf ns k') as [key'|] eqn:Ek; [|done]. injection E as -> ->. by apply keyOf_Some in Ek as ->.
    - intros Hd. exists (encodeDataKey ns k, v). split; [by apply elem_of_map_to_list|]. cbn [fst snd]. by rewrite (proj2 (keyOf_Some ns _ k) eq_refl). }
  destruct (d !! encodeDataKey ns key) as [v|] eqn:E.
  - apply elem_of_list_to_map; [|by apply Hl]. unfold l. clear Hl E l. pose proof (NoDup_fst_map_to_list d) as Hn. revert Hn. generalize (map_to_list d). intros l.
    induction l as [|[k b] l IH]; [done|]. intros [Hk Hl]%NoDup_cons. cbn [omap list_omap fst snd fmap]. destruct (keyOf ns k) as [k'|] eqn:Ek; [|by apply IH]. apply keyOf_Some in Ek as ->. cbn.
    apply NoDup_cons. split; [|by apply IH]. contradict Hk. apply list_elem_of_fmap in Hk as ([k2 b2] & -> & Hin). apply list_elem_of_omap in Hin as ([k3 b3] & Hin & E3).
    cbn in E3. destruct (keyOf ns k3) eqn:E4; [|done]. injection E3 as -> ->. apply keyOf_Some in E4 as ->. apply list_elem_of_fmap. by exists (encodeDataKey ns k2, b2).
  - apply not_elem_of_list_to_map. intros ([k b] & -> & Hin)%list_elem_of_fmap. apply Hl in Hin. cbn [fst] in E. congruence.
Qed.

Definition toOption {A} (r : res A) : option A := match r with Ok a => Some a | Err _ => None end.

Definition level_contents (d : gmap bytes bytes) (ns : bytes) : gmap bytes VersionedValue := omap (λ b, toOption (decodeValue b)) (rawContents d ns).

(** Everything stored can be decoded. *)
Definition level_ok (d : gmap bytes bytes) : Prop :=
  ∀ ns key b, plain ns → d !! encodeDataKey ns key = Some b → ∃ vv, decodeValue b = Ok vv.

Lemma level_contents_lookup d ns key :
  level_contents d ns !! key = (d !! encodeDataKey ns key ≫= λ b, toOption (decodeValue b)).
Proof. unfold level_contents. by rewrite lookup_omap, rawContents_lookup. Qed.

Lemma decodeValue_live b vv : decodeValue b = Ok vv → IsDelete vv = false.
Proof. unfold decodeValue. destruct (unmarshal b); [|done]. destruct (NewHeightFromBytes _) as [[ver n]|]; [|done]. cbn. by intros [= <-]. Qed.

Lemma level_GetState d ns key : level_ok d → plain ns → versionedDB_GetState ns key d = Ok (level_contents d ns !! key).
Proof.
  intros Hok Hns. rewrite level_contents_lookup. unfold versionedDB_GetState. destruct (d !! encodeDataKey ns key) as [b|] eqn:E; [|done].
  destruct (Hok ns key b Hns E) as [vv Hvv]. cbn. by rewrite Hvv.
Qed.

(** A scan of decoded values. *)
Lemma scan_omap {V W} (f : V → option W) (s : bytes) (e : option bytes) (m : gmap bytes V) :
  (∀ k v, m !! k = Some v → is_Some (f v)) → scan s e (omap f m) = omap (λ kv, pair kv.1 <$> f kv.2) (scan s e m).
Proof.
  intros Hf. assert (∀ l, (∀ kv, kv ∈ l → is_Some (f kv.2)) → (omap (λ kv : bytes * V, pair kv.1 <$> f kv.2) l).*1 = l.*1) as Hk.
  { induction l as [|[k v] l IH]; intros H; [done|]. cbn. destruct (H (k, v)) as [w Hw]; [left|]. cbn in Hw. rewrite Hw. cbn. f_equal. apply IH. intros kv Hkv. apply H. by right. }
  assert ((omap (λ kv : bytes * V, pair kv.1 <$> f kv.2) (scan s e m)).*1 = (scan s e m).*1) as E by (apply Hk; intros [k v] [? _]%scan_elem; by eapply Hf).
  apply sorted_unique; [apply scan_sorted| |apply scan_NoDup|rewrite E; apply scan_NoDup|].
  - apply key_sorted. rewrite E. pose proof (scan_sorted s e m) as Hs. clear E Hk. induction Hs as [|x l _ IH Hx]; [constructor|]. cbn. constructor; [done|].
    apply Forall_fmap. eapply Forall_impl; [exact Hx|]. done.
  - intros [k w]. rewrite scan_elem, lookup_omap, list_elem_of_omap. split.
    + intros [Hm Hr]. destruct (m !! k) as [v|] eqn:Ev; [|done]. cbn in Hm. exists (k, v). split; [by apply scan_elem|]. cbn. by rewrite Hm.
    + intros ([k' v] & [Hv Hr]%scan_elem & Hw). cbn in Hw. destruct (f v) as [w'|] eqn:Ew; [|done]. injection Hw as -> ->. by rewrite Hv.
Qed.

Lemma level_scan d ns startKey endKey :
  level_ok d → plain ns → versionedDB_GetStateRangeScanIterator ns startKey endKey d = Ok (Ok <$> entries ns startKey endKey (level_contents d ns)).
Proof.
  intros Hok Hns. unfold versionedDB_GetStateRangeScanIterator. f_equal. cbv zeta.
  assert (Some (if decide (endKey = []) then <[(length (encodeDataKey ns endKey) - 1)%nat := lastKeyIndicator]> (encodeDataKey ns endKey) else encodeDataKey ns endKey) =
    Some match limit endKey with Some e => constructLevelKey (nsName ns) e | None => String.list_byte_of_string (nsName ns) ++ [x01] end) as ->.
  { f_equal. unfold limit. destruct (decide (endKey = [])) as [->|]; [|apply encodeDataKey_level]. unfold encodeDataKey. rewrite nsName_bytes, app_nil_r, length_app.
    cbn [length]. replace (length (dataKeyPrefix ++ ns) + length nsKeySep - 1)%nat with (length (dataKeyPrefix ++ ns) + 0)%nat by (cbn; lia). by rewrite insert_app_r. }
  rewrite encodeDataKey_level. change (scan _ _ d) with (DBHandle_GetIterator (nsName ns) startKey (limit endKey) d).
  rewrite (handle_scan _ _ _ _ (rawContents d ns)) by (intros k; by rewrite rawContents_lookup, encodeDataKey_level).
  unfold entries, level_contents. rewrite scan_omap.
  2: { intros k v Hv. rewrite rawContents_lookup in Hv. destruct (Hok _ _ _ Hns Hv) as [vv ->]. by eexists. }
  assert (∀ kv, kv ∈ scan startKey (limit endKey) (rawContents d ns) → ∃ vv, decodeValue kv.2 = Ok vv) as Hd.
  { intros [k v] [Hv _]%scan_elem. rewrite rawContents_lookup in Hv. by apply (Hok ns k v). }
  revert Hd. generalize (scan startKey (limit endKey) (rawContents d ns)). intros l Hd. induction l as [|[k v] l IH]; [done|].
  destruct (Hd (k, v)) as [vv Hvv]; [left|]. cbn [snd] in Hvv. assert (omap (λ kv : bytes * bytes, pair kv.1 <$> toOption (decodeValue kv.2)) ((k, v) :: l) =
    (k, vv) :: omap (λ kv : bytes * bytes, pair kv.1 <$> toOption (decodeValue kv.2)) l) as -> by (cbn; by rewrite Hvv).
  rewrite !fmap_cons. f_equal; [|apply IH; intros kv Hkv; apply Hd; by right].
  unfold kvScanner_Next. cbn [prod_map fst snd id]. rewrite <- encodeDataKey_level, decodeDataKey_encode, Hvv by done. done.
Qed.

#[export] Program Instance versionedDB_ok : VersionedDBOk (gmap bytes bytes) := {
  contents := level_contents;
  db_ok := level_ok;
  ns_ok := plain
}.
Next Obligation. intros. by apply level_GetState. Qed.
Next Obligation. intros d ns key Hd Hns. cbn. unfold versionedDB_GetVersion. rewrite level_GetState by done. cbn. by destruct (level_contents d ns !! key). Qed.
Next Obligation. intros. by apply level_scan. Qed.
Next Obligation.
  intros d ns key vv Hd Hns Hvv. rewrite level_contents_lookup in Hvv. destruct (d !! encodeDataKey ns key) as [b|]; [|done]. cbn in Hvv.
  destruct (decodeValue b) eqn:E; [|done]. injection Hvv as ->. by eapply decodeValue_live.
Qed.

(** ** What a commit does *)

(** A loop over a map, where only the entry at [k0] matters for what is observed. *)
Lemma fold_at `{Countable K} {V B X} (f : K → V → B → B) (obs : B → option X) (g : V → option X) (k0 : K) (m : gmap K V) b :
  (∀ v b, obs (f k0 v b) = match g v with Some x => Some x | None => obs b end) →
  (∀ k v b, m !! k = Some v → k ≠ k0 → obs (f k v b) = obs b) →
  obs (map_fold f b m) = match m !! k0 ≫= g with Some x => Some x | None => obs b end.
Proof.
  intros H0 Hne. cut (∀ m', m' ⊆ m → obs (map_fold f b m') = match m' !! k0 ≫= g with Some x => Some x | None => obs b end); [intros Hc; by apply Hc|].
  intros m'. apply (map_fold_weak_ind (λ r m', m' ⊆ m → obs r = match m' !! k0 ≫= g with Some x => Some x | None => obs b end)); [done|].
  intros k v m1 r Hk IH Hsub. assert (m1 ⊆ m) as Hm1 by (etrans; [by apply insert_subseteq|done]). specialize (IH Hm1).
  destruct (decide (k = k0)) as [->|Hn]; [rewrite H0, IH, lookup_insert_eq, Hk; done|].
  rewrite Hne by (done || by eapply lookup_weaken; [apply lookup_insert_eq|]). by rewrite IH, lookup_insert_ne.
Qed.

Lemma fold_inv `{Countable K} {V B} (P : B → Prop) (f : K → V → B → B) (m : gmap K V) b :
  (∀ k v b, m !! k = Some v → P b → P (f k v b)) → P b → P (map_fold f b m).
Proof.
  intros Hf Hb. cut (∀ m', m' ⊆ m → P (map_fold f b m')); [intros Hc; by apply Hc|].
  intros m'. apply (map_fold_weak_ind (λ r m', m' ⊆ m → P r)); [done|]. intros k v m1 r Hk IH Hsub.
  apply Hf; [by eapply lookup_weaken; [apply lookup_insert_eq|]|]. apply IH. etrans; [by apply insert_subseteq|done].
Qed.

Definition change (vv : VersionedValue) : option bytes := match vv_Value vv with None => None | Some _ => Some (encodeValue vv) end.

(** What can be stored. *)
Definition vv_ok (vv : VersionedValue) : Prop := is_height (vv_Version vv) ∧ vv_Metadata vv ≠ Some [].

Record batch_ok (batch : StateDB.UpdateBatch) : Prop := {
  bo_names ns key vv : GetUpdates ns batch !! key = Some vv → plain ns;
  bo_values ns key vv : GetUpdates ns batch !! key = Some vv → IsDelete vv = false → vv_ok vv
}.

Lemma addUpdate_lookup ns key vv b k :
  addUpdate ns key vv b !! k = if decide (k = encodeDataKey ns key) then Some (change vv) else b !! k.
Proof.
  unfold addUpdate, change, batch_Delete, batch_Put.
  destruct (vv_Value vv), (decide (k = encodeDataKey ns key)) as [->|]; by rewrite ?lookup_insert_eq, ?lookup_insert_ne.
Qed.

Lemma encodeDataKey_fresh ns key : savePointKey ≠ encodeDataKey ns key.
Proof. done. Qed.

Lemma updatesBatch_lookup batch height ns key :
  batch_ok batch → plain ns → updatesBatch batch height !! encodeDataKey ns key = change <$> GetUpdates ns batch !! key.
Proof.
  intros [Hn _] Hns. unfold updatesBatch. cbv zeta. set (dbBatch := map_fold _ _ _).
  assert (dbBatch !! encodeDataKey ns key = change <$> GetUpdates ns batch !! key) as E.
  { unfold dbBatch. rewrite (fold_at _ (λ b : Disk.UpdateBatch, b !! encodeDataKey ns key) (λ updates, change <$> updates !! key) ns).
    - unfold GetUpdates. rewrite lookup_empty. destruct (Updates batch !! ns) as [updates|]; cbn; [by destruct (updates !! key)|by rewrite lookup_empty].
    - intros updates b. rewrite (fold_at _ (λ b : Disk.UpdateBatch, b !! encodeDataKey ns key) (λ vv, Some (change vv)) key).
      + by destruct (updates !! key).
      + intros vv b'. by rewrite addUpdate_lookup, decide_True.
      + intros k vv b' _ Hk. rewrite addUpdate_lookup, decide_False; [done|]. intros E. by apply encodeDataKey_inj in E as [_ <-].
    - intros ns' updates b Hm Hne. apply (fold_inv (λ r : Disk.UpdateBatch, r !! encodeDataKey ns key = b !! encodeDataKey ns key)); [|done].
      intros k vv r Hk IH. rewrite addUpdate_lookup, decide_False; [done|]. intros E. apply encodeDataKey_inj in E as [<- _]; [done|done|].
      apply (Hn ns' k vv). unfold GetUpdates. by rewrite Hm. }
  destruct height; [unfold batch_Put; rewrite lookup_insert_ne by apply encodeDataKey_fresh|]; done.
Qed.

Context `{!CodecOk DBValue (λ _, True)}.

Lemma decodeValue_encode vv : vv_ok vv → IsDelete vv = false → decodeValue (encodeValue vv) = Ok vv.
Proof.
  intros [Hh Hm] Hd. unfold decodeValue, encodeValue. rewrite unmarshal_marshal by done. cbn [dv_Version dv_Value dv_Metadata].
  rewrite <- (app_nil_r (ToBytes _)), Height_roundtrip by done. cbn [mbind res_bind]. destruct vv as [[v|] md ver]; [|done]. cbn. do 2 f_equal.
  by destruct md as [[|]|].
Qed.

Lemma ApplyUpdates_ok batch height d :
  level_ok d → batch_ok batch →
  level_ok (ApplyUpdates batch height d) ∧
  ∀ ns, plain ns → level_contents (ApplyUpdates batch height d) ns = overlay (GetUpdates ns batch) (level_contents d ns).
Proof.
  intros Hd Hb. assert (∀ ns key, plain ns → ApplyUpdates batch height d !! encodeDataKey ns key =
    match GetUpdates ns batch !! key with Some vv => change vv | None => d !! encodeDataKey ns key end) as Hl.
  { intros ns key Hns. unfold ApplyUpdates. rewrite applyBatch_lookup, updatesBatch_lookup by done. by destruct (GetUpdates ns batch !! key). }
  assert (∀ ns key vv, GetUpdates ns batch !! key = Some vv → ∀ b, change vv = Some b → decodeValue b = Ok vv ∧ IsDelete vv = false) as Hc.
  { intros ns key vv Hvv b. unfold change. assert (IsDelete vv = false → vv_ok vv) as Hv by by eapply (bo_values _ Hb). unfold IsDelete in *.
    destruct (vv_Value vv) eqn:E; [|done]. intros [= <-]. split; [|done]. apply decodeValue_encode; [by apply Hv|]. unfold IsDelete. by rewrite E. }
  split.
  - intros ns key b Hns Hk. rewrite Hl in Hk by done. destruct (GetUpdates ns batch !! key) as [vv|] eqn:E; [|by eapply Hd]. exists vv. by eapply Hc.
  - intros ns Hns. apply map_eq. intros key. rewrite level_contents_lookup, Hl, overlay_lookup, level_contents_lookup by done.
    destruct (GetUpdates ns batch !! key) as [vv|] eqn:E; [|done]. specialize (Hc _ _ _ E). unfold IsDelete in *. unfold change in *. destruct (vv_Value vv) eqn:Ev; [|done].
    cbn. by destruct (Hc _ eq_refl) as [-> _].
Qed.

Lemma ApplyUpdates_savepoint batch height d : is_height height → GetLatestSavePoint (ApplyUpdates batch (Some height) d) = Ok (Some height).
Proof.
  intros Hh. unfold GetLatestSavePoint, ApplyUpdates. rewrite applyBatch_lookup. unfold updatesBatch, batch_Put. rewrite lookup_insert_eq.
  rewrite <- (app_nil_r (ToBytes _)), Height_roundtrip by done. done.
Qed.

(** C14. The state database on LevelDB is a versioned map. After [ApplyUpdates], [GetState],
    [GetVersion] and the scan of a range of keys return, in every namespace, what the values
    from before with the updates laid over them are, in the order of the keys; the savepoint
    is the height of the commit, and everything stored can still be decoded. *)
Theorem leveldb_map batch height d ns key startKey endKey :
  level_ok d → batch_ok batch → is_height height → plain ns →
  let d' := ApplyUpdates batch (Some height) d in
  let m := overlay (GetUpdates ns batch) (level_contents d ns) in
  GetState ns key d' = Ok (m !! key) ∧ GetVersion ns key d' = Ok (vv_Version <$> m !! key) ∧
  GetStateRangeScanIterator ns startKey endKey d' = Ok (Ok <$> entries ns startKey endKey m) ∧
  GetLatestSavePoint d' = Ok (Some height) ∧ level_ok d'.
Proof.
  intros Hd Hb Hh Hns. cbv zeta. destruct (ApplyUpdates_ok batch (Some height) d Hd Hb) as [Hd' Hc]. rewrite <- (Hc ns Hns).
  pose proof (GetState_ok (D := gmap bytes bytes) _ ns key Hd' Hns) as H1. pose proof (GetVersion_ok (D := gmap bytes bytes) _ ns key Hd' Hns) as H2.
  pose proof (GetStateRangeScanIterator_ok (D := gmap bytes bytes) _ ns startKey endKey Hd' Hns) as H3. pose proof (ApplyUpdates_savepoint batch height d Hh) as H4. done.
Qed.

(** ** Namespaces of collections *)

Definition joined (c : byte) (ns coll : bytes) : bytes := ns ++ x24 :: x24 :: c :: coll.

Lemma joined_inj c c' ns ns' coll coll' :
  x24 ∉ ns → x24 ∉ ns' → joined c ns coll = joined c' ns' coll' → ns = ns' ∧ c = c' ∧ coll = coll'.
Proof.
  unfold joined. revert ns'. induction ns as [|b ns IH]; intros [|b' ns'] H H' E; cbn in E.
  - by injection E as -> ->.
  - injection E as <- _. set_solver.
  - injection E as -> _. set_solver.
  - injection E as -> E. destruct (IH ns') as (-> & -> & ->); [set_solver..|done|done].
Qed.

Lemma joined_not_named c ns coll : x24 ∈ joined c ns coll.
Proof. unfold joined. set_solver. Qed.

(** The updates of collections, by their names. *)
Record map_ok (c : byte) (um : UpdateMap) : Prop := {
  mo_names ns coll key vv : GetUpdates coll (getOrCreateNsBatch ns um) !! key = Some vv → x24 ∉ ns ∧ plain (joined c ns coll);
  mo_values ns coll key vv : GetUpdates coll (getOrCreateNsBatch ns um) !! key = Some vv → IsDelete vv = false → vv_ok vv
}.

Lemma map_entry (um : UpdateMap) (ns : bytes) nsBatch coll updates key vv :
  um !! ns = Some nsBatch → Updates nsBatch !! coll = Some updates → updates !! key = Some vv → GetUpdates coll (getOrCreateNsBatch ns um) !! key = Some vv.
Proof. intros H1 H2 H3. unfold getOrCreateNsBatch. rewrite H1. cbn. unfold GetUpdates. by rewrite H2. Qed.

(** An invariant of the batch that updates are added to. *)
Lemma addUpdates_inv (P : StateDB.UpdateBatch → Prop) (derive : bytes → bytes → bytes) (pub : StateDB.UpdateBatch) (um : UpdateMap) :
  (∀ ns coll key vv b, GetUpdates coll (getOrCreateNsBatch ns um) !! key = Some vv → P b → P (UpdateBatch_Update (derive ns coll) key vv b)) →
  P pub → P (addUpdates derive pub um).
Proof.
  intros H. unfold addUpdates. apply fold_inv. intros ns nsBatch b Hn. apply fold_inv. intros coll updates b' Hc. apply fold_inv. intros key vv b'' Hk.
  apply H. by eapply map_entry.
Qed.

Lemma addUpdates_ok (c : byte) (pub : StateDB.UpdateBatch) (um : UpdateMap) : map_ok c um → batch_ok pub → batch_ok (addUpdates (joined c) pub um).
Proof.
  intros [Hn Hv]. apply addUpdates_inv. intros ns coll key vv b Hvv [Hb1 Hb2]. specialize (Hn _ _ _ _ Hvv). specialize (Hv _ _ _ _ Hvv).
  split; intros ns' key' vv'; rewrite Update_updates; (destruct (decide (ns' = joined c ns coll)) as [->|]; [|by (apply Hb1 || apply Hb2)]).
  - intros [[<- <-]|[_ H]]%lookup_insert_Some; [apply Hn|by eapply Hb1].
  - intros [[<- <-]|[_ H]]%lookup_insert_Some; [done|by eapply Hb2].
Qed.

Lemma addUpdates_other (c : byte) (pub : StateDB.UpdateBatch) (um : UpdateMap) (ns' : bytes) :
  (∀ ns coll, x24 ∉ ns → ns' ≠ joined c ns coll) → map_ok c um → GetUpdates ns' (addUpdates (joined c) pub um) = GetUpdates ns' pub.
Proof.
  intros Ho [Hn _]. apply (addUpdates_inv (λ b, GetUpdates ns' b = GetUpdates ns' pub)); [|done]. intros ns coll key vv b Hvv IH.
  rewrite Update_updates, decide_False by (by apply Ho; eapply Hn). done.
Qed.

Lemma addUpdates_at (c : byte) (pub : StateDB.UpdateBatch) (um : UpdateMap) (ns coll key : bytes) :
  map_ok c um → x24 ∉ ns →
  GetUpdates (joined c ns coll) (addUpdates (joined c) pub um) !! key =
    match GetUpdates coll (getOrCreateNsBatch ns um) !! key with Some vv => Some vv | None => GetUpdates (joined c ns coll) pub !! key end.
Proof.
  intros [Hn _] Hns. unfold addUpdates. set (obs := λ b, GetUpdates (joined c ns coll) b !! key).
  assert (∀ ns' coll' key' vv b, x24 ∉ ns' → obs (UpdateBatch_Update (joined c ns' coll') key' vv b) = if decide ((ns', coll', key') = (ns, coll, key)) then Some vv else obs b) as Ho.
  { intros ns' coll' key' vv b Hns'. unfold obs. rewrite Update_updates. destruct (decide (joined c ns coll = joined c ns' coll')) as [E|E].
    - apply joined_inj in E as (<- & _ & <-); [|done..]. destruct (decide (key' = key)) as [->|Hk]; [by rewrite lookup_insert_eq, decide_True|].
      rewrite lookup_insert_ne by done. rewrite decide_False by congruence. done.
    - rewrite decide_False by congruence. done. }
  change (obs (map_fold (λ ns' nsBatch b, map_fold (λ coll' updates b, map_fold (λ key' vv b, UpdateBatch_Update (joined c ns' coll') key' vv b) b updates) b (Updates nsBatch)) pub um) =
    match GetUpdates coll (getOrCreateNsBatch ns um) !! key with Some vv => Some vv | None => obs pub end).
  rewrite (fold_at _ obs (λ nsBatch, GetUpdates coll nsBatch !! key) ns).
  - unfold getOrCreateNsBatch. destruct (um !! ns) as [b|]; [done|]. unfold GetUpdates at 2, newUpdateBatch. cbn. by rewrite !lookup_empty.
  - intros nsBatch b. rewrite (fold_at _ obs (λ updates, updates !! key) coll).
    + unfold GetUpdates. destruct (Updates nsBatch !! coll); [done|]. cbn. by rewrite lookup_empty.
    + intros updates b'. rewrite (fold_at _ obs Some key).
      * by destruct (updates !! key).
      * intros vv b''. rewrite Ho by done. by rewrite decide_True.
      * intros k vv b'' _ Hk. rewrite Ho by done. by rewrite decide_False by congruence.
    + intros coll' updates b' Hc Hne. apply (fold_inv (λ r, obs r = obs b')); [|done]. intros k vv r Hk IH. rewrite Ho by done. by rewrite decide_False by congruence.
  - intros ns' nsBatch b Hb Hne. apply (fold_inv (λ r, obs r = obs b)); [|done]. intros coll' updates r Hc IH.
    apply (fold_inv (λ r, obs r = obs b)); [|done]. intros k vv r' Hk IH'. rewrite Ho; [by rewrite decide_False by congruence|].
    eapply Hn. by eapply map_entry.
Qed.

(** ** The commit of a block *)

Definition world_ok (st : sstate) : Prop := ∀ ns coll key vv, named ns coll → world st ns coll !! key = Some vv → vv_ok vv.
Definition dirty_ok (st : sstate) : Prop := ∀ ns coll key, (ns, coll, key) ∈ dirty st → named ns coll.

Section commit.
Context (u : publicAndHashUpdates) (db : DB (gmap bytes bytes)) (st : sstate) (pvt : UpdateMap).
Hypothesis (Hs : state_ok db) (Hg : gives u db st) (Hw : world_ok st) (Hd : dirty_ok st) (Hp : map_ok x70 pvt).

Let combined : StateDB.UpdateBatch := addHashedUpdates (addPvtUpdates (publicUpdates u) pvt) (hashUpdates u).

Lemma update_facts ns coll key vv : updatesAt u ns coll !! key = Some vv → named ns coll ∧ (IsDelete vv = false → vv_ok vv).
Proof.
  intros Hvv. assert (named ns coll) as Hn by (apply (Hd ns coll key); apply (gi_dirty _ _ _ Hg); by eexists). split; [done|]. intros Hdel.
  apply (Hw ns coll key vv Hn). rewrite <- (gi_world _ _ _ Hg). unfold view. by rewrite overlay_lookup, Hvv, Hdel.
Qed.

Lemma public_ok : batch_ok (publicUpdates u).
Proof.
  split; intros ns key vv Hvv; change (GetUpdates ns (publicUpdates u)) with (updatesAt u ns []) in Hvv; apply update_facts in Hvv as [Hn Hv]; [apply Hn|done].
Qed.

Lemma hash_ok : map_ok x68 (hashUpdates u).
Proof.
  assert (∀ ns coll key vv, GetUpdates coll (getOrCreateNsBatch ns (hashUpdates u)) !! key = Some vv → coll ≠ [] ∧ updatesAt u ns coll !! key = Some vv) as H.
  { intros ns coll key vv Hvv. destruct (decide (coll = [])) as [->|Hc]; [by rewrite (gi_split _ _ _ Hg), lookup_empty in Hvv|].
    split; [done|]. unfold updatesAt. by rewrite decide_False. }
  split; intros ns coll key vv [Hc Hvv]%H; apply update_facts in Hvv as [[Hx Hn] Hv]; [|done]. split; [done|]. by rewrite nsOf_coll in Hn.
Qed.

Lemma combined_ok : batch_ok combined.
Proof. apply (addUpdates_ok x68); [apply hash_ok|]. apply (addUpdates_ok x70); [done|apply public_ok]. Qed.

Lemma combined_at ns coll : named ns coll → GetUpdates (nsOf ns coll) combined = updatesAt u ns coll.
Proof.
  intros [Hx Hn]. unfold combined, addHashedUpdates, addPvtUpdates. change deriveHashedDataNs with (joined x68). change derivePvtDataNs with (joined x70).
  unfold updatesAt, nsOf. destruct (decide (coll = [])) as [->|Hc].
  - assert (∀ c ns' coll', ns ≠ joined c ns' coll') as Ho by (intros c ns' coll' ->; by apply Hx, joined_not_named).
    rewrite !addUpdates_other; [done|auto|exact Hp|auto|apply hash_ok].
  - change deriveHashedDataNs with (joined x68). apply map_eq. intros key. rewrite addUpdates_at by (apply hash_ok || done).
    destruct (GetUpdates coll (getOrCreateNsBatch ns (hashUpdates u)) !! key) as [vv|]; [done|].
    rewrite addUpdates_other; [|intros ns' coll' Hx' E; by apply joined_inj in E as (_ & ? & _)|exact Hp].
    destruct (GetUpdates (joined x68 ns coll) (publicUpdates u) !! key) as [vv|] eqn:E; [|done]. exfalso.
    change (GetUpdates (joined x68 ns coll) (publicUpdates u)) with (updatesAt u (joined x68 ns coll) []) in E.
    apply update_facts in E as [[Hj _] _]. by apply Hj, joined_not_named.
Qed.

Lemma flagged ns coll key vv :
  named ns coll → updatesAt u ns coll !! key = Some vv → is_Some (vv_Metadata vv) → ns ∈ filterNamespacesThatHasMetadata combined (hashUpdates u).
Proof.
  intros Hn Hvv Hm. unfold filterNamespacesThatHasMetadata. apply elem_of_union.
  assert (∀ m : gmap bytes VersionedValue, m !! key = Some vv → hasMetadata m = true) as Hh by (intros m Hk; apply bool_decide_eq_true; by exists key, vv).
  destruct (decide (coll = [])) as [->|Hc].
  - left. rewrite <- (combined_at ns []) in Hvv by done. unfold GetUpdates in Hvv. change (nsOf ns []) with ns in Hvv.
    destruct (Updates combined !! ns) as [m|] eqn:E; [|by cbn in Hvv; rewrite lookup_empty in Hvv].
    apply elem_of_dom. exists m. apply map_lookup_filter_Some. split; [done|]. by apply Hh.
  - right. unfold updatesAt, getOrCreateNsBatch, GetUpdates in Hvv. rewrite decide_False in Hvv by done.
    destruct (hashUpdates u !! ns) as [b|] eqn:E; cbn in Hvv; [|by rewrite !lookup_empty in Hvv].
    destruct (Updates b !! coll) as [m|] eqn:Em; cbn in Hvv; [|by rewrite lookup_empty in Hvv].
    apply elem_of_dom. exists b. apply map_lookup_filter_Some. split; [done|]. exists coll, m. split; [done|]. by apply Hh.
Qed.

(** The commit makes the state that the transactions gave, and so does a crash after the
    first of its two writes leave a state that works. *)
Lemma commit_ok (height : option Height) :
  let db' := ApplyPrivacyAwareUpdates (publicUpdates u) (hashUpdates u) pvt height db in
  state_ok db' ∧ (∀ ns coll, named ns coll → base db' ns coll = world st ns coll) ∧ state_ok (setMetadataUsedFlag combined (hashUpdates u) db).
Proof.
  cbv zeta. set (db' := ApplyPrivacyAwareUpdates _ _ _ _ _). destruct (ApplyUpdates_ok combined height (vdb db) (so_db _ Hs) combined_ok) as [Hok Hc].
  assert (∀ ns coll, named ns coll → base db' ns coll = view u db ns coll) as Hb.
  { intros ns coll Hn. unfold base, view. change (contents (vdb db') (nsOf ns coll)) with (level_contents (ApplyUpdates combined height (vdb db)) (nsOf ns coll)).
    rewrite Hc by apply Hn. by rewrite combined_at. }
  split; [|split].
  - split; [exact Hok|]. intros ns coll key vv Hh Hn Hvv. rewrite Hb in Hvv by done. unfold view in Hvv. rewrite overlay_lookup in Hvv.
    change (metadataHint db') with (metadataHint db ∪ filterNamespacesThatHasMetadata combined (hashUpdates u)) in Hh.
    destruct (updatesAt u ns coll !! key) as [vv'|] eqn:E; [|apply (so_hint _ Hs ns coll key vv); set_solver].
    destruct (IsDelete vv'); [done|]. injection Hvv as ->. destruct (vv_Metadata vv) eqn:Em; [|done]. exfalso. apply Hh, elem_of_union_r. eapply flagged; [done|done|by eexists].
  - intros ns coll Hn. rewrite Hb by done. apply (gi_world _ _ _ Hg).
  - split; [apply Hs|]. intros ns coll key vv Hh Hn Hvv. apply (so_hint _ Hs ns coll key vv); [|done|done]. cbn in Hh. set_solver.
Qed.
End commit.
End leveldb.
