(* ===== verification/Simulator.v ===== *)
(** * Simulation of transactions

    [txmgr/query_executor.go] and [txmgr/tx_simulator.go]: a chaincode reads and writes
    through a simulator, which records what it does with the builder of
    [rwsetutil/rwset_builder.go]. A chaincode is a tree of calls whose branches are what it
    does with the answers. Of the simulator there is the part on public data, for a database
    that takes all keys and values; queries by pages and on private data are not modelled. *)

From stdpp Require Import gmap strings list.
From Stdlib Require Import Strings.Byte.
From S2P Require Import Prelude GoLib Varint Disk LevelDB StateDB RangeQuery Validation.

(** ** The builder of read-write sets *)

(** Start key, end key and whether the iterator was exhausted. *)
Abbreviation rangeQueryKey := (bytes * bytes * bool)%type.

Record nsPubRwBuilder := mkNsPubRwBuilder {
  readMap : gmap bytes KVRead;
  writeMap : gmap bytes KVWrite;
  metadataWriteMap : gmap bytes KVMetadataWrite;
  rangeQueriesMap : gmap rangeQueryKey RangeQueryInfo;
  rangeQueriesKeys : list rangeQueryKey
}.

(** The builder, with an entry for every namespace that was used. *)
Abbreviation RWSetBuilder := (gmap bytes nsPubRwBuilder).

Definition newNsPubRwBuilder : nsPubRwBuilder := mkNsPubRwBuilder ∅ ∅ ∅ ∅ [].

Definition getOrCreateNsPubRwBuilder (ns : bytes) (b : RWSetBuilder) : nsPubRwBuilder := default newNsPubRwBuilder (b !! ns).

Definition AddToReadSet (ns key : bytes) (version : option Height) (b : RWSetBuilder) : RWSetBuilder :=
  let n := getOrCreateNsPubRwBuilder ns b in
  <[ns := {| n with readMap := <[key := mkKVRead key version]> (readMap n) |}]> b.

Definition newKVWrite (key : bytes) (value : nbytes) : KVWrite :=
  mkKVWrite key (match value with None => true | Some _ => false end) (default [] value).

Definition AddToWriteSet (ns key : bytes) (value : nbytes) (b : RWSetBuilder) : RWSetBuilder :=
  let n := getOrCreateNsPubRwBuilder ns b in
  <[ns := {| n with writeMap := <[key := newKVWrite key value]> (writeMap n) |}]> b.

Definition mapToMetadataWrite (key : bytes) (m : gmap bytes bytes) : KVMetadataWrite :=
  mkKVMetadataWrite key (omap (λ name, pair name <$> m !! name) (GetSortedKeys m)).

Definition AddToMetadataWriteSet (ns key : bytes) (metadata : gmap bytes bytes) (b : RWSetBuilder) : RWSetBuilder :=
  let n := getOrCreateNsPubRwBuilder ns b in
  <[ns := {| n with metadataWriteMap := <[key := mapToMetadataWrite key metadata]> (metadataWriteMap n) |}]> b.

Definition queryKey (rqi : RangeQueryInfo) : rangeQueryKey := (StartKey rqi, EndKey rqi, ItrExhausted rqi).

Definition AddToRangeQuerySet (ns : bytes) (rqi : RangeQueryInfo) (b : RWSetBuilder) : RWSetBuilder :=
  let n := getOrCreateNsPubRwBuilder ns b in
  let key := queryKey rqi in
  <[ns := match rangeQueriesMap n !! key with
          | Some _ => n
          | None => {| n with rangeQueriesMap := <[key := rqi]> (rangeQueriesMap n); rangeQueriesKeys := rangeQueriesKeys n ++ [key] |}
          end]> b.

Definition GetValuesBySortedKeys {V} (m : gmap bytes V) : list V := omap (λ k, m !! k) (GetSortedKeys m).

(** [build] of the builder of a namespace, without collections. *)
Definition build (ns : bytes) (b : nsPubRwBuilder) : NsRwSet :=
  mkNsRwSet ns
    (mkKVRWSet (GetValuesBySortedKeys (readMap b)) (omap (λ key, rangeQueriesMap b !! key) (rangeQueriesKeys b))
      (GetValuesBySortedKeys (writeMap b)) (GetValuesBySortedKeys (metadataWriteMap b)))
    [].

Definition GetTxReadWriteSet (b : RWSetBuilder) : TxRwSet :=
  mkTxRwSet (omap (λ ns, build ns <$> b !! ns) (GetSortedKeys b)).

(** ** The simulator *)

Definition maxDegreeQueryReadsHashing : Z := 50.

Record resultsItr := mkResultsItr {
  ri_ns : bytes;
  ri_endKey : bytes;
  ri_dbItr : list (res VersionedKV);
  rangeQueryInfo : RangeQueryInfo;
  rangeQueryResultsHelper : RangeQueryResultsHelper
}.

(** [txSimulator] with its [queryExecutor]. *)
Record txSimulator := mkTxSimulator {
  rwsetBuilder : RWSetBuilder;
  itrs : list resultsItr;
  doneInvoked : bool;
  writePerformed : bool;
  pvtdataQueriesPerformed : bool;
  paginatedQueriesPerformed : bool;
  simulationResultsComputed : bool
}.

Definition newTxSimulator : txSimulator := mkTxSimulator ∅ [] false false false false false.

Definition checkDone (s : txSimulator) : res unit :=
  if doneInvoked s then Err (Errorf "this instance should not be used after calling Done()") else Ok tt.

Definition checkWritePrecondition (s : txSimulator) : res txSimulator :=
  _ ← checkDone s;
  if pvtdataQueriesPerformed s then Err (Errorf "Transaction has already performed queries on pvt data. Writes are not allowed")
  else if paginatedQueriesPerformed s then Err (Errorf "Transaction has already performed a paginated query. Writes are not allowed")
  else Ok {| s with writePerformed := true |}.

Definition SetState (ns key : bytes) (value : nbytes) (s : txSimulator) : res txSimulator :=
  s ← checkWritePrecondition s;
  Ok {| s with rwsetBuilder := AddToWriteSet ns key value (rwsetBuilder s) |}.

Definition SetStateMetadata (namespace key : bytes) (metadata : gmap bytes bytes) (s : txSimulator) : res txSimulator :=
  s ← checkWritePrecondition s;
  Ok {| s with rwsetBuilder := AddToMetadataWriteSet namespace key metadata (rwsetBuilder s) |}.

Section executor.
Context `{!Codec (list KVRead)} (hashFunc : bytes → bytes).
Context `{!Codec (list (bytes * bytes))}.
Context {D} `{!VersionedDB D} (db : D).

(** [getState], with the value and the metadata. *)
Definition getState (ns key : bytes) (s : txSimulator) : res (nbytes * nbytes * txSimulator) :=
  _ ← checkDone s;
  versionedValue ← GetState ns key db;
  let '(val, metadata, ver) :=
    match versionedValue with
    | None => (None, None, None)
    | Some vv => (vv_Value vv, vv_Metadata vv, Some (vv_Version vv))
    end in
  Ok (val, metadata, {| s with rwsetBuilder := AddToReadSet ns key ver (rwsetBuilder s) |}).

(** [statemetadata.Deserialize]; of entries with the same name the last one counts. *)
Definition Deserialize (metadataBytes : nbytes) : res (gmap bytes bytes) :=
  match metadataBytes with
  | None => Ok ∅
  | Some b =>
    match unmarshal b with
    | None => Err (Errorf "proto: cannot parse")
    | Some entries => Ok (foldl (λ (m : gmap bytes bytes) e, <[e.1 := e.2]> m) ∅ entries)
    end
  end.

Definition qe_GetStateMetadata (ns key : bytes) (s : txSimulator) : res (gmap bytes bytes * txSimulator) :=
  '(_, metadata, s) ← getState ns key s;
  m ← Deserialize metadata;
  Ok (m, s).

Definition newResultsItr (ns startKey endKey : bytes) : res resultsItr :=
  dbItr ← GetStateRangeScanIterator ns startKey endKey db;
  resultsHelper ← NewRangeQueryResultsHelper maxDegreeQueryReadsHashing;
  Ok (mkResultsItr ns endKey dbItr (mkRangeQueryInfo startKey [] false None) resultsHelper).

(** The simulator gets one more iterator, which is known by its position. *)
Definition qe_GetStateRangeScanIterator (namespace startKey endKey : bytes) (s : txSimulator) : res (nat * txSimulator) :=
  _ ← checkDone s;
  itr ← newResultsItr namespace startKey endKey;
  Ok (length (itrs s), {| s with itrs := itrs s ++ [itr] |}).

Definition updateRangeQueryInfo (queryResult : option VersionedKV) (itr : resultsItr) : resultsItr :=
  let info := rangeQueryInfo itr in
  match queryResult with
  | None => {| itr with rangeQueryInfo := {| info with ItrExhausted := true; EndKey := ri_endKey itr |} |}
  | Some versionedKV =>
    {| itr with rangeQueryInfo := {| info with EndKey := kv_Key versionedKV |};
                rangeQueryResultsHelper :=
                  AddResult hashFunc (mkKVRead (kv_Key versionedKV) (Some (vv_Version (kv_VersionedValue versionedKV)))) (rangeQueryResultsHelper itr) |}
  end.

Definition resultsItr_Next (itr : resultsItr) : res (option (bytes * nbytes) * resultsItr) :=
  '(queryResult, dbItr) ← nextItem (ri_dbItr itr);
  let itr := updateRangeQueryInfo queryResult {| itr with ri_dbItr := dbItr |} in
  Ok (match queryResult with None => None | Some kv => Some (kv_Key kv, vv_Value (kv_VersionedValue kv)) end, itr).

Definition NextOf (i : nat) (s : txSimulator) : res (option (bytes * nbytes) * txSimulator) :=
  match itrs s !! i with
  | None => Err (Errorf "no such iterator")
  | Some itr =>
    '(kv, itr) ← resultsItr_Next itr;
    Ok (kv, {| s with itrs := <[i := itr]> (itrs s) |})
  end.

Definition finalInfo (itr : resultsItr) : RangeQueryInfo :=
  let info := rangeQueryInfo itr in
  match helper_Done hashFunc (rangeQueryResultsHelper itr) with
  | (_, Some hash) => {| info with rq_ReadsInfo := Some (ReadsMerkleHashes hash) |}
  | ([], None) => info
  | (results, None) => {| info with rq_ReadsInfo := Some (RawReads results) |}
  end.

Definition addRangeQueryInfo (s : txSimulator) : txSimulator :=
  {| s with rwsetBuilder := foldl (λ b itr, AddToRangeQuerySet (ri_ns itr) (finalInfo itr) b) (rwsetBuilder s) (itrs s) |}.

Definition GetTxSimulationResults (s : txSimulator) : res (TxRwSet * txSimulator) :=
  if simulationResultsComputed s then Err (Errorf "this function should only be called once on a transaction simulator instance") else
  let s := addRangeQueryInfo s in
  Ok (GetTxReadWriteSet (rwsetBuilder s), {| s with simulationResultsComputed := true |}).
End executor.

(** ** Chaincodes *)

(** An error ends the simulation. *)
Inductive program :=
| Return
| DoGetState (ns key : bytes) (k : nbytes → program)
| DoGetStateMetadata (ns key : bytes) (k : gmap bytes bytes → program)
| DoQuery (ns startKey endKey : bytes) (k : nat → program)
| DoNext (i : nat) (k : option (bytes * nbytes) → program)
| DoSetState (ns key : bytes) (value : nbytes) (k : program)
| DoSetStateMetadata (ns key : bytes) (metadata : gmap bytes bytes) (k : program).

Section simulation.
Context `{!Codec (list KVRead)} (hashFunc : bytes → bytes).
Context `{!Codec (list (bytes * bytes))}.
Context {D} `{!VersionedDB D} (db : D).

Fixpoint run (p : program) (s : txSimulator) : res txSimulator :=
  match p with
  | Return => Ok s
  | DoGetState ns key k => '(val, _, s) ← getState db ns key s; run (k val) s
  | DoGetStateMetadata ns key k => '(m, s) ← qe_GetStateMetadata db ns key s; run (k m) s
  | DoQuery ns startKey endKey k => '(i, s) ← qe_GetStateRangeScanIterator db ns startKey endKey s; run (k i) s
  | DoNext i k => '(kv, s) ← NextOf hashFunc i s; run (k kv) s
  | DoSetState ns key value k => s ← SetState ns key value s; run k s
  | DoSetStateMetadata ns key metadata k => s ← SetStateMetadata ns key metadata s; run k s
  end.

(** The read-write set of a chaincode. *)
Definition simulate (p : program) : res TxRwSet :=
  s ← run p newTxSimulator;
  '(rwset, _) ← GetTxSimulationResults hashFunc s;
  Ok rwset.
End simulation.
