(* ===== verification/SimulatorProps.v ===== *)
(** * A valid simulation can be repeated

    [simulate_again]: if everything a simulation read is current in another state, then the
    simulation of the chaincode on that state gives the same read-write set. Versions stand
    for values, and summaries for results. [fresh_valid]: what was simulated on the current
    state is valid. *)

From stdpp Require Import gmap strings list sorting.
From Stdlib Require Import Strings.Byte.
From S2P Require Import Prelude GoLib Varint Disk LevelDB StateDB RangeQuery RangeQueryProps Validation ValidationProps Simulator.

(** ** Ranges up to a result *)

Lemma scan_take {V} (s : bytes) (e : option bytes) (m : gmap bytes V) i k v :
  scan s e m !! i = Some (k, v) → take i (scan s e m) = scan s (Some k) m.
Proof.
  intros Hi. pose proof (scan_sorted s e m) as Hs. pose proof (scan_NoDup s e m) as Hn. pose proof (λ k v, scan_elem s e m k v) as Hel.
  rewrite <- (take_drop_middle _ _ _ Hi) in Hs, Hn, Hel. set (l1 := take i (scan s e m)) in *. set (l2 := drop (S i) (scan s e m)) in *. clearbody l1 l2.
  rewrite fmap_app in Hn. apply NoDup_app in Hn as (Hn1 & Hn2 & _). apply StronglySorted_app in Hs as (Hle & Hs1 & Hs2).
  inversion Hs2 as [|? ? _ Hge]; subst. rewrite Forall_forall in Hge.
  assert (inRange s e k) as [Hsk Hke] by (apply (Hel k v); set_solver).
  apply sorted_unique; [done|apply scan_sorted|done|apply scan_NoDup|]. intros [k' v']. rewrite scan_elem. split.
  - intros Hin. assert (m !! k' = Some v' ∧ inRange s e k') as [Hm [Hr _]] by (apply Hel; set_solver). split; [done|]. split; [done|].
    assert (bytes_le k' k) as [->|?]%bytes_le_alt by (apply (Hle (k', v') (k, v)); set_solver); [|done].
    exfalso. apply (Hn2 k); [apply list_elem_of_fmap; by exists (k, v')|by left].
  - intros (Hm & Hr & Hlt). assert ((k', v') ∈ l1 ++ (k, v) :: l2) as Hin.
    { apply Hel. split; [done|]. split; [done|]. destruct e as [e|]; [|done]. by trans k. }
    apply elem_of_app in Hin as [|[[= -> ->]|Hin]%elem_of_cons]; [done|by destruct (bytes_lt_irrefl k)|].
    specialize (Hge _ Hin). rewrite bytes_lt_not_le in Hlt. by destruct Hlt.
Qed.

(** The results up to one of them are those of the query that ends there. *)
Lemma entries_upto ns s e m c kv :
  entries ns s e m !! c = Some kv → kv_Key kv ≠ [] →
  take c (entries ns s e m) = entries ns s (kv_Key kv) m ∧ kv_Namespace kv = ns ∧ m !! kv_Key kv = Some (kv_VersionedValue kv).
Proof.
  unfold entries. intros Hc Hk. rewrite list_lookup_fmap in Hc. destruct (scan s (limit e) m !! c) as [[k vv]|] eqn:E; [|done]. injection Hc as <-. cbn in Hk |- *.
  rewrite <- fmap_take, (scan_take _ _ _ _ _ _ E). assert (limit k = Some k) as -> by (unfold limit; by rewrite decide_False). split; [done|]. split; [done|].
  by apply list_elem_of_lookup_2, scan_elem in E as [? _].
Qed.

(** ** What the helper records *)

Section helper.
Context `{!Codec (list KVRead)} (hashFunc : bytes → bytes).

Definition helper0 : RangeQueryResultsHelper := mkResultsHelper [] (mkMerkleTree ∅ 1 maxDegreeQueryReadsHashing).

Lemma helper0_ok : helper_ok helper0.
Proof. apply newMerkleTree_ok. done. Qed.

Definition helperOf (l : list KVRead) : RangeQueryResultsHelper := addAll hashFunc l helper0.

Lemma helperOf_snoc l r : helperOf (l ++ [r]) = AddResult hashFunc r (helperOf l).
Proof. unfold helperOf, addAll. by rewrite foldl_snoc. Qed.

Lemma helperOf_ok l : helper_ok (helperOf l).
Proof. apply addAll_later, helper0_ok. Qed.

Lemma later_nonempty m r : (1 <= mt_maxLevel m)%nat → later m r → merkle_isEmpty m = false → merkle_isEmpty r = false.
Proof.
  intros H1 Hl. rewrite <- !not_true_iff_false. intros Hm Hr. apply Hm. unfold merkle_isEmpty in *. rewrite andb_true_iff, !bool_decide_eq_true in *. destruct Hr as [Er Hr].
  destruct Hl as [?|[E Hp]]; [lia|]. rewrite <- E in Hp |- *. rewrite Hr in Hp. apply prefix_nil_inv in Hp. done.
Qed.

(** Results are kept until the first of them are hashed. *)
Lemma helperOf_pending l : (rh_mt (helperOf l) = rh_mt helper0 ∧ pendingResults (helperOf l) = l) ∨ merkle_isEmpty (rh_mt (helperOf l)) = false.
Proof.
  induction l as [|r l IH] using rev_ind; [by left|]. rewrite helperOf_snoc. destruct IH as [[Em Ep]|He].
  - unfold AddResult. cbn [pendingResults rh_mt]. destruct (_ >? _); cbn [processPendingResults pendingResults rh_mt]; [right|left; by rewrite Em, Ep].
    rewrite Em. unfold merkle_update, updateLoop, helper0. cbn [rh_mt mt_tree mt_maxLevel mt_maxDegree]. rewrite level_insert. cbn [decide]. rewrite decide_True by done.
    unfold level. cbn [mt_tree]. rewrite lookup_empty. cbn [default from_option app length]. change (u32 (Z.of_nat 1) <=? maxDegreeQueryReadsHashing) with true.
    unfold merkle_isEmpty, level. cbn [mt_tree mt_maxLevel]. by rewrite lookup_insert_eq.
  - right. eapply later_nonempty; [|by apply AddResult_later, helperOf_ok|done]. apply helperOf_ok.
Qed.

Definition readsInfoOf (l : list KVRead) : option ReadsInfo :=
  match helper_Done hashFunc (helperOf l) with
  | (_, Some hash) => Some (ReadsMerkleHashes hash)
  | ([], None) => None
  | (results, None) => Some (RawReads results)
  end.

Lemma doneLoop_degree n c m : mt_maxDegree (doneLoop hashFunc n c m) = mt_maxDegree m.
Proof. revert c m. induction n as [|n IH]; intros c m; [done|]. cbn [doneLoop]. destruct (level c m); rewrite IH; done. Qed.

Lemma AddAll_degree l h : helper_ok h → mt_maxDegree (rh_mt (addAll hashFunc l h)) = mt_maxDegree (rh_mt h).
Proof.
  revert h. induction l as [|r l IH]; intros h Hh; [done|]. cbn [addAll foldl]. destruct (AddResult_grow hashFunc r h Hh) as [Hok Hg].
  fold (addAll hashFunc l (AddResult hashFunc r h)). rewrite IH by done. by destruct Hg as [->|[-> _]].
Qed.

Lemma summarize_degree l s : summarize hashFunc maxDegreeQueryReadsHashing l = Some s → MaxDegree s = maxDegreeQueryReadsHashing.
Proof.
  unfold summarize, summaryOf, helper_Done. fold helper0. fold (helperOf l). destruct (merkle_isEmpty _); [done|]. cbn [snd]. intros [= <-]. cbn [getSummery MaxDegree].
  set (h := if decide _ then _ else _). assert (mt_maxDegree (rh_mt h) = maxDegreeQueryReadsHashing) as Hh.
  { unfold h. destruct (decide _); [by apply AddAll_degree, helper0_ok|]. cbn [processPendingResults rh_mt].
    destruct (update_grow hashFunc (hashFunc (marshal (pendingResults (helperOf l)))) (rh_mt (helperOf l)) (ho_tree _ (helperOf_ok l))) as [_ [-> _]]. by apply AddAll_degree, helper0_ok. }
  unfold merkle_done. destruct (_ >? _); cbn [mt_maxDegree]; by rewrite doneLoop_degree.
Qed.

(** Different results that have the same summary. *)
Definition collision : Prop :=
  ∃ l l' s, l ≠ l' ∧ summarize hashFunc maxDegreeQueryReadsHashing l = Some s ∧ summarize hashFunc maxDegreeQueryReadsHashing l' = Some s.

Lemma readsInfoOf_cases l :
  match readsInfoOf l with
  | Some (ReadsMerkleHashes s) => summarize hashFunc maxDegreeQueryReadsHashing l = Some s
  | Some (RawReads rs) => rs = l
  | None => l = []
  end.
Proof.
  unfold readsInfoOf, summarize, summaryOf. fold helper0. fold (helperOf l). unfold helper_Done. destruct (merkle_isEmpty _) eqn:E.
  - destruct (helperOf_pending l) as [[_ ->]|?]; [by destruct l|congruence].
  - cbv zeta. set (h := if decide _ then _ else _). by destruct (pendingResults h).
Qed.

Lemma recorded_same info l kvs :
  rq_ReadsInfo info = readsInfoOf l → recorded hashFunc info kvs = true → reads kvs = l ∨ collision.
Proof.
  intros Hi. unfold recorded. rewrite Hi. pose proof (readsInfoOf_cases l) as Hc. destruct (readsInfoOf l) as [[rs|s]|].
  - intros H%bool_decide_eq_true. left. congruence.
  - unfold merkleSummariesEqual. rewrite (summarize_degree l s Hc). destruct (summarize _ _ (reads kvs)) as [s'|] eqn:E; [|done]. intros ->%bool_decide_eq_true.
    destruct (decide (reads kvs = l)) as [|Hn]; [by left|right]. by exists (reads kvs), l, s'.
  - intros ->%bool_decide_eq_true. by left.
Qed.

Lemma readsInfoOf_ok kvs : match readsInfoOf (reads kvs) with
  | Some (ReadsMerkleHashes s) => 2 <= MaxDegree s < 2 ^ 31
  | Some (RawReads rs) => Forall (λ r, is_Some (kr_Version r)) rs
  | None => True
  end.
Proof.
  pose proof (readsInfoOf_cases (reads kvs)) as Hc. destruct (readsInfoOf (reads kvs)) as [[rs|s]|]; [|by rewrite (summarize_degree _ _ Hc)|done].
  subst rs. unfold reads. apply Forall_fmap, Forall_forall. intros kv _. by eexists.
Qed.
End helper.

(** ** Iterators *)

(** What a chaincode does not do: use the names of private data, an empty key, or an empty
    value, which would not survive serialisation. *)
Fixpoint sane (okNs : bytes → Prop) (p : program) : Prop :=
  match p with
  | Return => True
  | DoGetState ns key k => okNs ns ∧ ∀ v, sane okNs (k v)
  | DoGetStateMetadata ns key k => okNs ns ∧ ∀ m, sane okNs (k m)
  | DoQuery ns startKey endKey k => okNs ns ∧ ∀ i, sane okNs (k i)
  | DoNext i k => ∀ kv, sane okNs (k kv)
  | DoSetState ns key value k => okNs ns ∧ key ≠ [] ∧ value ≠ Some [] ∧ sane okNs k
  | DoSetStateMetadata ns key metadata k => okNs ns ∧ key ≠ [] ∧ sane okNs k
  end.

Section runs.
Context `{!Codec (list KVRead)} (hashFunc : bytes → bytes) `{!Codec (list (bytes * bytes))}.

Section iterators.
Context {D} `{!VersionedDB D, !VersionedDBOk D} (db : D).

(** What an iterator returns in the end. *)
Definition results (itr : resultsItr) : list VersionedKV :=
  entries (ri_ns itr) (StartKey (rangeQueryInfo itr)) (ri_endKey itr) (contents db (ri_ns itr)).

(** An iterator that has returned [c] results. *)
Record itr_at (c : nat) (itr : resultsItr) : Prop := {
  ia_le : (c <= length (results itr))%nat;
  ia_left : ri_dbItr itr = Ok <$> drop c (results itr);
  ia_helper : rangeQueryResultsHelper itr = helperOf hashFunc (reads (take c (results itr)));
  ia_reads : rq_ReadsInfo (rangeQueryInfo itr) = None;
  ia_end : if ItrExhausted (rangeQueryInfo itr) then c = length (results itr) ∧ EndKey (rangeQueryInfo itr) = ri_endKey itr
           else EndKey (rangeQueryInfo itr) = default [] (kv_Key <$> last (take c (results itr)))
}.

Lemma newResultsItr_at ns startKey endKey :
  db_ok db → ns_ok ns →
  ∃ itr, newResultsItr db ns startKey endKey = Ok itr ∧ itr_at 0 itr ∧
    itr = mkResultsItr ns endKey (ri_dbItr itr) (mkRangeQueryInfo startKey [] false None) helper0.
Proof.
  intros Hdb Hns. unfold newResultsItr. rewrite GetStateRangeScanIterator_ok by done. cbn [mbind res_bind]. eexists. split; [reflexivity|]. split; [|done].
  split; unfold results; cbn; [lia|done..].
Qed.

Lemma Next_at c itr :
  itr_at c itr →
  match results itr !! c with
  | Some kv => ∃ itr', resultsItr_Next hashFunc itr = Ok (Some (kv_Key kv, vv_Value (kv_VersionedValue kv)), itr') ∧ itr_at (S c) itr' ∧ results itr' = results itr ∧
      itr' = mkResultsItr (ri_ns itr) (ri_endKey itr) (ri_dbItr itr') (mkRangeQueryInfo (StartKey (rangeQueryInfo itr)) (kv_Key kv) false None)
        (helperOf hashFunc (reads (take (S c) (results itr))))
  | None => ∃ itr', resultsItr_Next hashFunc itr = Ok (None, itr') ∧ itr_at c itr' ∧ results itr' = results itr ∧
      itr' = mkResultsItr (ri_ns itr) (ri_endKey itr) (ri_dbItr itr') (mkRangeQueryInfo (StartKey (rangeQueryInfo itr)) (ri_endKey itr) true None)
        (helperOf hashFunc (reads (take c (results itr))))
  end.
Proof.
  intros [Hle Hleft Hh Hr He]. destruct itr as [ns endKey dbItr [startKey eKey exh ri] helper]. unfold results in *. cbn [ri_ns ri_endKey ri_dbItr rangeQueryInfo rangeQueryResultsHelper StartKey EndKey ItrExhausted rq_ReadsInfo] in *.
  set (es := entries ns startKey endKey (contents db ns)) in *. subst ri. unfold resultsItr_Next. cbn [ri_dbItr]. rewrite Hleft.
  destruct (es !! c) as [kv|] eqn:Ec.
  - rewrite (drop_S _ _ _ Ec). cbn [fmap list_fmap nextItem mbind res_bind]. eexists. split; [reflexivity|].
    assert (exh = false) as -> by (destruct exh; [destruct He as [-> _]; apply lookup_lt_Some in Ec; lia|done]).
    assert (AddResult hashFunc (mkKVRead (kv_Key kv) (Some (vv_Version (kv_VersionedValue kv)))) helper = helperOf hashFunc (reads (take (S c) es))) as Hadd.
    { subst helper. rewrite (take_S_r _ _ _ Ec). unfold reads. rewrite fmap_app. cbn [fmap list_fmap]. by rewrite helperOf_snoc. }
    split; [|split; [done|cbn; by rewrite Hadd]]. split; unfold results; cbn; fold es.
    + by apply lookup_lt_Some in Ec.
    + done.
    + done.
    + done.
    + by rewrite (take_S_r _ _ _ Ec), last_snoc.
  - apply lookup_ge_None in Ec. assert (c = length es) as -> by lia. rewrite drop_all. cbn [fmap list_fmap nextItem mbind res_bind]. eexists. split; [reflexivity|].
    split; [|split; [done|cbn; by rewrite Hh]]. split; unfold results; cbn; fold es; [done|by rewrite drop_all|done|done|done].
Qed.

(** ** What a run adds *)

Definition isRead (s : txSimulator) (ns key : bytes) : Prop := is_Some (readMap (getOrCreateNsPubRwBuilder ns (rwsetBuilder s)) !! key).

Definition itr_ext (itr itr' : resultsItr) : Prop :=
  ri_ns itr' = ri_ns itr ∧ ri_endKey itr' = ri_endKey itr ∧ StartKey (rangeQueryInfo itr') = StartKey (rangeQueryInfo itr) ∧
  (length (ri_dbItr itr') <= length (ri_dbItr itr))%nat ∧
  (ItrExhausted (rangeQueryInfo itr) = true → ItrExhausted (rangeQueryInfo itr') = true).

Definition ext (s s' : txSimulator) : Prop :=
  (∀ ns key, isRead s ns key → isRead s' ns key) ∧
  ∀ i itr, itrs s !! i = Some itr → ∃ itr', itrs s' !! i = Some itr' ∧ itr_ext itr itr'.

Lemma itr_ext_refl itr : itr_ext itr itr.
Proof. by repeat split. Qed.

#[local] Instance ext_preorder : PreOrder ext.
Proof.
  split; [intros s; split; [done|]; intros i itr Hi; exists itr; split; [done|apply itr_ext_refl]|].
  intros s1 s2 s3 [R1 I1] [R2 I2]. split; [auto|]. intros i itr Hi. destruct (I1 i itr Hi) as (itr2 & Hi2 & E2). destruct (I2 i itr2 Hi2) as (itr3 & Hi3 & E3).
  exists itr3. split; [done|]. unfold itr_ext in *. destruct E2 as (? & ? & ? & ? & ?), E3 as (? & ? & ? & ? & ?). repeat split; [congruence..|lia|auto].
Qed.

(** A simulator of which only the builder differs, and has at least the reads. *)
Lemma ext_builder s b f :
  (∀ ns key, is_Some (readMap (getOrCreateNsPubRwBuilder ns (rwsetBuilder s)) !! key) → is_Some (readMap (getOrCreateNsPubRwBuilder ns b) !! key)) →
  ext s (mkTxSimulator b (itrs s) (doneInvoked s) f (pvtdataQueriesPerformed s) (paginatedQueriesPerformed s) (simulationResultsComputed s)).
Proof. intros H. split; [exact H|]. intros i itr Hi. exists itr. split; [done|apply itr_ext_refl]. Qed.

Lemma reads_insert (ns : bytes) (n : nsPubRwBuilder) (b : RWSetBuilder) :
  (∀ key, is_Some (readMap (getOrCreateNsPubRwBuilder ns b) !! key) → is_Some (readMap n !! key)) →
  ∀ ns' key, is_Some (readMap (getOrCreateNsPubRwBuilder ns' b) !! key) → is_Some (readMap (getOrCreateNsPubRwBuilder ns' (<[ns := n]> b)) !! key).
Proof.
  intros H ns' key Hk. unfold getOrCreateNsPubRwBuilder at 1. destruct (decide (ns' = ns)) as [->|Hn]; [rewrite lookup_insert_eq; by apply H|by rewrite lookup_insert_ne].
Qed.

Lemma SetState_ext ns key value s s' : SetState ns key value s = Ok s' → ext s s'.
Proof.
  unfold SetState, checkWritePrecondition, checkDone. destruct (doneInvoked s) eqn:E1; [done|]. cbn. destruct (pvtdataQueriesPerformed s) eqn:E2; [done|]. destruct (paginatedQueriesPerformed s) eqn:E3; [done|].
  cbn. intros [= <-]. rewrite <- E1 at 1. rewrite <- E2 at 1. rewrite <- E3 at 1. apply ext_builder. by apply reads_insert.
Qed.

Lemma SetStateMetadata_ext ns key md s s' : SetStateMetadata ns key md s = Ok s' → ext s s'.
Proof.
  unfold SetStateMetadata, checkWritePrecondition, checkDone. destruct (doneInvoked s) eqn:E1; [done|]. cbn. destruct (pvtdataQueriesPerformed s) eqn:E2; [done|]. destruct (paginatedQueriesPerformed s) eqn:E3; [done|].
  cbn. intros [= <-]. rewrite <- E1 at 1. rewrite <- E2 at 1. rewrite <- E3 at 1. apply ext_builder. by apply reads_insert.
Qed.

Lemma getState_ext ns key s v md s' : getState db ns key s = Ok (v, md, s') → ext s s' ∧ isRead s' ns key.
Proof.
  unfold getState. destruct (checkDone s); [|done]. cbn. destruct (GetState ns key db) as [vv|]; [|done]. cbn.
  destruct (match vv with Some vv => _ | None => _ end) as [[v0 md0] ver]. intros [= -> -> <-]. split.
  - apply (ext_builder s _ (writePerformed s)). apply reads_insert. intros k Hk. cbn. destruct (decide (k = key)) as [->|Hn]; [rewrite lookup_insert_eq; by eexists|by rewrite lookup_insert_ne].
  - unfold isRead, getOrCreateNsPubRwBuilder. cbn. unfold AddToReadSet. rewrite lookup_insert_eq. cbn. rewrite lookup_insert_eq. by eexists.
Qed.

Lemma query_ext ns startKey endKey s i s' : qe_GetStateRangeScanIterator db ns startKey endKey s = Ok (i, s') → ext s s'.
Proof.
  unfold qe_GetStateRangeScanIterator. destruct (checkDone s); [|done]. cbn. destruct (newResultsItr db ns startKey endKey) as [itr|]; [|done]. cbn. intros [= <- <-].
  split; [done|]. intros j itr' Hj. exists itr'. split; [by apply lookup_app_l_Some|apply itr_ext_refl].
Qed.

Lemma resultsItr_Next_ext itr kv itr' : resultsItr_Next hashFunc itr = Ok (kv, itr') → itr_ext itr itr'.
Proof.
  unfold resultsItr_Next. destruct itr as [ns endKey dbItr [startKey eKey exh ri] helper]. cbn. destruct dbItr as [|[x|] dbItr]; cbn; [| |done]; intros [= <- <-]; repeat split; cbn; try done; lia.
Qed.

Lemma Next_ext i s kv s' : NextOf hashFunc i s = Ok (kv, s') → ext s s'.
Proof.
  unfold NextOf. destruct (itrs s !! i) as [itr|] eqn:Ei; [|done]. destruct (resultsItr_Next hashFunc itr) as [[kv0 itr']|] eqn:E; [|done]. cbn. intros [= <- <-].
  apply resultsItr_Next_ext in E. split; [done|]. intros j itr0 Hj. cbn. destruct (decide (j = i)) as [->|Hn].
  - rewrite list_lookup_insert_eq by (by eapply lookup_lt_Some). exists itr'. split; [done|]. congruence.
  - rewrite list_lookup_insert_ne by done. exists itr0. split; [done|apply itr_ext_refl].
Qed.

Lemma run_ext p s s' : run hashFunc db p s = Ok s' → ext s s'.
Proof.
  revert s. induction p as [|ns key k IH|ns key k IH|ns startKey endKey k IH|i k IH|ns key value k IH|ns key md k IH]; intros s; cbn [run].
  - by intros [= <-].
  - destruct (getState db ns key s) as [[[v md] s1]|] eqn:E; [|done]. intros H%IH. apply getState_ext in E as [E _]. by etrans.
  - unfold qe_GetStateMetadata. destruct (getState db ns key s) as [[[v md] s1]|] eqn:E; [|done]. cbn. destruct (Deserialize md); [|done]. cbn. intros H%IH. apply getState_ext in E as [E _]. by etrans.
  - destruct (qe_GetStateRangeScanIterator db ns startKey endKey s) as [[i s1]|] eqn:E; [|done]. intros H%IH. apply query_ext in E. by etrans.
  - destruct (NextOf hashFunc i s) as [[kv s1]|] eqn:E; [|done]. intros H%IH. apply Next_ext in E. by etrans.
  - destruct (SetState ns key value s) as [s1|] eqn:E; [|done]. intros H%IH. apply SetState_ext in E. by etrans.
  - destruct (SetStateMetadata ns key md s) as [s1|] eqn:E; [|done]. intros H%IH. apply SetStateMetadata_ext in E. by etrans.
Qed.
End iterators.

(** ** Two runs *)

Section lockstep.
Context {D1 D2} `{!VersionedDB D1, !VersionedDBOk D1, !VersionedDB D2, !VersionedDBOk D2} (db1 : D1) (db2 : D2) (okNs : bytes → Prop).
Hypothesis (Hdb1 : db_ok db1) (Hdb2 : db_ok db2).
Hypothesis (Hns1 : ∀ ns, okNs ns → ns_ok (D := D1) ns) (Hns2 : ∀ ns, okNs ns → ns_ok (D := D2) ns).

Definition itr_rel (itr1 itr2 : resultsItr) : Prop :=
  ∃ c, itr_at db1 c itr1 ∧ itr_at db2 c itr2 ∧
    itr2 = mkResultsItr (ri_ns itr1) (ri_endKey itr1) (ri_dbItr itr2) (rangeQueryInfo itr1) (rangeQueryResultsHelper itr1).

Definition sim_rel (s1 s2 : txSimulator) : Prop :=
  s2 = mkTxSimulator (rwsetBuilder s1) (itrs s2) (doneInvoked s1) (writePerformed s1) (pvtdataQueriesPerformed s1) (paginatedQueriesPerformed s1) (simulationResultsComputed s1) ∧
  Forall2 itr_rel (itrs s1) (itrs s2).

(** How many results an iterator has returned. *)
Definition consumed (itr : resultsItr) : nat := (length (results db1 itr) - length (ri_dbItr itr))%nat.

Lemma consumed_at c itr : itr_at db1 c itr → consumed itr = c.
Proof. intros [Hle Hleft _ _ _]. unfold consumed. rewrite Hleft, length_fmap, length_drop. lia. Qed.

(** The databases agree on what was read. *)
Definition agree_itr (itr : resultsItr) : Prop :=
  take (consumed itr) (results db1 itr) = take (consumed itr) (results db2 itr) ∧
  (ItrExhausted (rangeQueryInfo itr) = true → results db1 itr = results db2 itr).

Definition agree (s : txSimulator) : Prop :=
  (∀ ns key, isRead s ns key → contents db1 ns !! key = contents db2 ns !! key) ∧ Forall agree_itr (itrs s).

Lemma agree_ext s s' : ext s s' → agree s' → agree s.
Proof.
  intros [HR HI] [AR AI]. split; [intros ns key H; by apply AR, HR|]. apply Forall_lookup. intros i itr Hi.
  destruct (HI i itr Hi) as (itr' & Hi' & (E1 & E2 & E3 & E4 & E5)). destruct (Forall_lookup_1 _ _ _ _ AI Hi') as [A1 A2]. unfold agree_itr, consumed in *.
  assert (results db1 itr' = results db1 itr) as R1 by (unfold results; by rewrite E1, E2, E3). assert (results db2 itr' = results db2 itr) as R2 by (unfold results; by rewrite E1, E2, E3).
  rewrite R1, R2 in *. split; [|auto]. set (c := (length (results db1 itr) - length (ri_dbItr itr))%nat). set (c' := (_ - length (ri_dbItr itr'))%nat) in A1.
  assert (c = min c c') as -> by lia. by rewrite <- !take_take, A1.
Qed.

Lemma getState_same ns key s1 s2 v md s1' :
  okNs ns → sim_rel s1 s2 → getState db1 ns key s1 = Ok (v, md, s1') → agree s1' →
  ∃ s2', getState db2 ns key s2 = Ok (v, md, s2') ∧ sim_rel s1' s2'.
Proof.
  intros Hok [Hs HI] Hg [HA _]. assert (contents db1 ns !! key = contents db2 ns !! key) as Hc by (apply HA; destruct (getState_ext _ _ _ _ _ _ _ Hg) as [_ ?]; done).
  unfold getState in *. rewrite GetState_ok in Hg by auto. rewrite GetState_ok by auto. rewrite Hs. unfold checkDone in *. cbn [doneInvoked]. destruct (doneInvoked s1); [done|]. cbn [mbind res_bind] in *.
  rewrite <- Hc. destruct (match contents db1 ns !! key with Some vv => _ | None => _ end) as [[v0 md0] ver]. injection Hg as -> -> <-. eexists. split; [reflexivity|]. split; [done|exact HI].
Qed.

Lemma query_same ns startKey endKey s1 s2 i s1' :
  okNs ns → sim_rel s1 s2 → qe_GetStateRangeScanIterator db1 ns startKey endKey s1 = Ok (i, s1') →
  ∃ s2', qe_GetStateRangeScanIterator db2 ns startKey endKey s2 = Ok (i, s2') ∧ sim_rel s1' s2'.
Proof.
  intros Hok [Hs HI] Hq. pose proof (Forall2_length _ _ _ HI) as Hlen.
  destruct (newResultsItr_at db1 ns startKey endKey Hdb1 (Hns1 _ Hok)) as (itr1 & E1 & A1 & S1).
  destruct (newResultsItr_at db2 ns startKey endKey Hdb2 (Hns2 _ Hok)) as (itr2 & E2 & A2 & S2).
  unfold qe_GetStateRangeScanIterator in *. rewrite E1 in Hq. rewrite E2. unfold checkDone in *. assert (doneInvoked s2 = doneInvoked s1) as -> by (rewrite Hs; done). destruct (doneInvoked s1) eqn:Ed; [done|].
  cbn [mbind res_bind] in *. injection Hq as <- <-. eexists. split; [by rewrite Hlen|]. split; [rewrite Hs; cbn; congruence|].
  cbn [itrs]. apply Forall2_app; [done|]. constructor; [|constructor]. exists 0%nat. split; [done|]. split; [done|]. by rewrite S1, S2.
Qed.

Lemma Next_same i s1 s2 kv s1' :
  sim_rel s1 s2 → NextOf hashFunc i s1 = Ok (kv, s1') → agree s1' → ∃ s2', NextOf hashFunc i s2 = Ok (kv, s2') ∧ sim_rel s1' s2'.
Proof.
  intros [Hs HI] HN [_ HA]. unfold NextOf in *. destruct (itrs s1 !! i) as [itr1|] eqn:E1; [|done].
  destruct (Forall2_lookup_l _ _ _ _ _ HI E1) as (itr2 & E2 & c & A1 & A2 & Heq). rewrite E2.
  assert (results db2 itr2 = results db2 itr1) as R21 by (rewrite Heq; done).
  pose proof (Next_at db1 c itr1 A1) as N1. pose proof (Next_at db2 c itr2 A2) as N2. rewrite R21 in N2. destruct (results db1 itr1 !! c) as [x|] eqn:Ex.
  - destruct N1 as (itr1' & F1 & B1 & R1 & S1). rewrite F1 in HN. cbn [mbind res_bind] in HN. injection HN as <- <-.
    assert (agree_itr itr1') as [A _] by (apply (Forall_lookup_1 _ _ i _ HA); cbn; apply list_lookup_insert_eq; by eapply lookup_lt_Some).
    rewrite (consumed_at _ _ B1), R1 in A. assert (results db2 itr1' = results db2 itr1) as R12 by (rewrite S1; done). rewrite R12 in A.
    assert (results db2 itr1 !! c = Some x) as Ex2 by (rewrite <- (lookup_take_lt _ (S c)), <- A, lookup_take_lt by lia; done). rewrite Ex2 in N2.
    destruct N2 as (itr2' & F2 & B2 & R2 & S2). rewrite F2. cbn [mbind res_bind]. eexists. split; [reflexivity|]. split; [rewrite Hs; done|]. cbn [itrs].
    apply Forall2_insert; [done|]. exists (S c). split; [done|]. split; [done|]. rewrite S2, S1. cbn. rewrite A, Heq. done.
  - destruct N1 as (itr1' & F1 & B1 & R1 & S1). rewrite F1 in HN. cbn [mbind res_bind] in HN. injection HN as <- <-.
    assert (agree_itr itr1') as [_ A] by (apply (Forall_lookup_1 _ _ i _ HA); cbn; apply list_lookup_insert_eq; by eapply lookup_lt_Some).
    specialize (A ltac:(by rewrite S1)). assert (results db2 itr1' = results db2 itr1) as R12 by (rewrite S1; done). rewrite R12, R1 in A. rewrite <- A, Ex in N2.
    destruct N2 as (itr2' & F2 & B2 & R2 & S2). rewrite F2. cbn [mbind res_bind]. eexists. split; [reflexivity|]. split; [rewrite Hs; done|]. cbn [itrs].
    apply Forall2_insert; [done|]. exists c. split; [done|]. split; [done|]. rewrite S2, S1. cbn. rewrite Heq. done.
Qed.

Lemma SetState_same ns key value s1 s2 s1' : sim_rel s1 s2 → SetState ns key value s1 = Ok s1' → ∃ s2', SetState ns key value s2 = Ok s2' ∧ sim_rel s1' s2'.
Proof.
  intros [Hs HI]. unfold SetState, checkWritePrecondition, checkDone. rewrite Hs. cbn. destruct (doneInvoked s1) eqn:Ed; [done|]. cbn. destruct (pvtdataQueriesPerformed s1); [done|].
  destruct (paginatedQueriesPerformed s1); [done|]. cbn. intros [= <-]. eexists. split; [reflexivity|]. split; [done|exact HI].
Qed.

Lemma SetStateMetadata_same ns key md s1 s2 s1' :
  sim_rel s1 s2 → SetStateMetadata ns key md s1 = Ok s1' → ∃ s2', SetStateMetadata ns key md s2 = Ok s2' ∧ sim_rel s1' s2'.
Proof.
  intros [Hs HI]. unfold SetStateMetadata, checkWritePrecondition, checkDone. rewrite Hs. cbn. destruct (doneInvoked s1) eqn:Ed; [done|]. cbn. destruct (pvtdataQueriesPerformed s1); [done|].
  destruct (paginatedQueriesPerformed s1); [done|]. cbn. intros [= <-]. eexists. split; [reflexivity|]. split; [done|exact HI].
Qed.

Lemma run_same p s1 s2 f1 :
  sane okNs p → sim_rel s1 s2 → run hashFunc db1 p s1 = Ok f1 → agree f1 → ∃ f2, run hashFunc db2 p s2 = Ok f2 ∧ sim_rel f1 f2.
Proof.
  revert s1 s2. induction p as [|ns key k IH|ns key k IH|ns startKey endKey k IH|i k IH|ns key value k IH|ns key md k IH]; intros s1 s2; cbn [run sane].
  - intros _ HR [= <-] _. by exists s2.
  - intros [Hok Hk] HR HX HA. destruct (getState db1 ns key s1) as [[[v md] s1']|] eqn:E; [|done].
    destruct (getState_same _ _ _ _ _ _ _ Hok HR E) as (s2' & -> & HR'); [exact (agree_ext _ _ (run_ext _ _ _ _ HX) HA)|]. by eapply IH.
  - intros [Hok Hk] HR HX HA. unfold qe_GetStateMetadata in *. destruct (getState db1 ns key s1) as [[[v md] s1']|] eqn:E; [|done]. cbn [mbind res_bind] in HX.
    destruct (Deserialize md) as [m|] eqn:Em; [|done]. cbn [mbind res_bind] in HX.
    destruct (getState_same _ _ _ _ _ _ _ Hok HR E) as (s2' & -> & HR'); [exact (agree_ext _ _ (run_ext _ _ _ _ HX) HA)|]. cbn [mbind res_bind]. rewrite Em. cbn [mbind res_bind]. by eapply IH.
  - intros [Hok Hk] HR HX HA. destruct (qe_GetStateRangeScanIterator db1 ns startKey endKey s1) as [[i s1']|] eqn:E; [|done].
    destruct (query_same _ _ _ _ _ _ _ Hok HR E) as (s2' & -> & HR'). by eapply IH.
  - intros Hk HR HX HA. destruct (NextOf hashFunc i s1) as [[kv s1']|] eqn:E; [|done].
    destruct (Next_same _ _ _ _ _ HR E) as (s2' & -> & HR'); [exact (agree_ext _ _ (run_ext _ _ _ _ HX) HA)|]. by eapply IH.
  - intros (_ & _ & _ & Hk) HR HX HA. destruct (SetState ns key value s1) as [s1'|] eqn:E; [|done]. destruct (SetState_same _ _ _ _ _ _ HR E) as (s2' & -> & HR'). by eapply IH.
  - intros (_ & _ & Hk) HR HX HA. destruct (SetStateMetadata ns key md s1) as [s1'|] eqn:E; [|done]. destruct (SetStateMetadata_same _ _ _ _ _ _ HR E) as (s2' & -> & HR'). by eapply IH.
Qed.

Lemma simulate_same p R :
  sane okNs p → simulate hashFunc db1 p = Ok R → (∀ s, run hashFunc db1 p newTxSimulator = Ok s → agree s) → simulate hashFunc db2 p = Ok R.
Proof.
  intros Hp HR HA. unfold simulate in *. destruct (run hashFunc db1 p newTxSimulator) as [s1|] eqn:E; [|done].
  destruct (run_same p newTxSimulator newTxSimulator s1 Hp) as (s2 & -> & Hs & HI); [by split; [|constructor]|done|by apply HA|].
  cbn [mbind res_bind] in *. unfold GetTxSimulationResults in *. rewrite Hs. cbn [simulationResultsComputed]. destruct (simulationResultsComputed s1); [done|].
  cbn [mbind res_bind] in *. rewrite <- HR. do 2 f_equal. unfold addRangeQueryInfo. cbn [rwsetBuilder itrs]. clear Hs HR HA E.
  generalize (rwsetBuilder s1). induction HI as [|i1 i2 l1 l2 (c & _ & _ & ->) _ IH]; intros b; [done|]. cbn [foldl]. apply IH.
Qed.
End lockstep.

(** ** What a run builds *)

Section built.
Context {D} `{!VersionedDB D, !VersionedDBOk D} (db : D) (okNs : bytes → Prop).
Hypothesis (Hdb : db_ok db) (Hns : ∀ ns, okNs ns → ns_ok ns).

Record builder_ok (ns : bytes) (b : nsPubRwBuilder) : Prop := {
  bu_ns : okNs ns;
  bu_reads key r : readMap b !! key = Some r → r = mkKVRead key (vv_Version <$> contents db ns !! key);
  bu_writes key w : writeMap b !! key = Some w → kw_Key w = key ∧ key ≠ [] ∧ (kw_IsDelete w = false → kw_Value w ≠ []);
  bu_metadata key w : metadataWriteMap b !! key = Some w → mw_Key w = key
}.

Definition no_queries (b : nsPubRwBuilder) : Prop := rangeQueriesMap b = ∅ ∧ rangeQueriesKeys b = [].

Record sim_ok (s : txSimulator) : Prop := {
  si_builder ns b : rwsetBuilder s !! ns = Some b → builder_ok ns b ∧ no_queries b;
  si_itrs itr : itr ∈ itrs s → okNs (ri_ns itr) ∧ ∃ c, itr_at db c itr
}.

Lemma getOrCreate_ok ns s : okNs ns → sim_ok s → builder_ok ns (getOrCreateNsPubRwBuilder ns (rwsetBuilder s)) ∧ no_queries (getOrCreateNsPubRwBuilder ns (rwsetBuilder s)).
Proof. intros Hok [Hb _]. unfold getOrCreateNsPubRwBuilder. destruct (rwsetBuilder s !! ns) as [b|] eqn:E; [by apply Hb|]. done. Qed.

(** A builder that changes one namespace. *)
Lemma sim_ok_insert ns n s s' :
  sim_ok s → builder_ok ns n → no_queries n → rwsetBuilder s' = <[ns := n]> (rwsetBuilder s) → itrs s' = itrs s → sim_ok s'.
Proof.
  intros [Hb Hi] Hn Hq E1 E2. split; [|by rewrite E2]. intros ns' b. rewrite E1. intros [[<- <-]|[_ H]]%lookup_insert_Some; [done|by apply Hb].
Qed.

Lemma getState_sim ns key s v md s' : okNs ns → sim_ok s → getState db ns key s = Ok (v, md, s') → sim_ok s'.
Proof.
  intros Hok Hs. destruct (getOrCreate_ok ns s Hok Hs) as [Hb Hq]. unfold getState. rewrite GetState_ok by auto. destruct (checkDone s); [|done]. cbn [mbind res_bind].
  set (ver := vv_Version <$> contents db ns !! key). assert (∀ v md, (match contents db ns !! key with Some vv => (vv_Value vv, vv_Metadata vv, Some (vv_Version vv)) | None => (v, md, None) end).2 = ver) as Hv.
  { intros. unfold ver. by destruct (contents db ns !! key). } specialize (Hv None None).
  destruct (match contents db ns !! key with Some vv => _ | None => _ end) as [[v0 md0] ver0]. cbn in Hv. subst ver0. intros [= -> -> <-].
  eapply (sim_ok_insert ns); [exact Hs| | |reflexivity|reflexivity]; [|exact Hq]. destruct Hb as [H1 H2 H3 H4]. split; [done| |done|done].
  cbn. intros k r [[<- <-]|[_ H]]%lookup_insert_Some; [done|by apply H2].
Qed.

Lemma Set_sim ns s (f : nsPubRwBuilder → nsPubRwBuilder) s' :
  okNs ns → sim_ok s → (∀ b, builder_ok ns b → builder_ok ns (f b)) → (∀ b, no_queries b → no_queries (f b)) →
  (s0 ← checkWritePrecondition s; Ok {| s0 with rwsetBuilder := <[ns := f (getOrCreateNsPubRwBuilder ns (rwsetBuilder s0))]> (rwsetBuilder s0) |}) = Ok s' → sim_ok s'.
Proof.
  intros Hok Hs Hf Hf'. destruct (getOrCreate_ok ns s Hok Hs) as [Hb Hq]. unfold checkWritePrecondition. destruct (checkDone s); [|done]. cbn [mbind res_bind].
  destruct (pvtdataQueriesPerformed s); [done|]. destruct (paginatedQueriesPerformed s); [done|]. cbn [mbind res_bind]. intros [= <-].
  eapply (sim_ok_insert ns); [exact Hs| | |reflexivity|reflexivity]; [by apply Hf|by apply Hf'].
Qed.

Lemma SetState_sim ns key value s s' : okNs ns → key ≠ [] → value ≠ Some [] → sim_ok s → SetState ns key value s = Ok s' → sim_ok s'.
Proof.
  intros Hok Hk Hv Hs. apply (Set_sim ns s (λ n, {| n with writeMap := <[key := newKVWrite key value]> (writeMap n) |})); [done|done| |done].
  intros b [H1 H2 H3 H4]. split; [done|done| |done]. cbn. intros k w [[<- <-]|[_ H]]%lookup_insert_Some; [|by apply H3]. cbn. split; [done|]. split; [done|].
  destruct value as [[|]|]; done.
Qed.

Lemma SetStateMetadata_sim ns key md s s' : okNs ns → sim_ok s → SetStateMetadata ns key md s = Ok s' → sim_ok s'.
Proof.
  intros Hok Hs. apply (Set_sim ns s (λ n, {| n with metadataWriteMap := <[key := mapToMetadataWrite key md]> (metadataWriteMap n) |})); [done|done| |done].
  intros b [H1 H2 H3 H4]. split; [done|done|done|]. cbn. intros k w [[<- <-]|[_ H]]%lookup_insert_Some; [done|by apply H4].
Qed.

Lemma query_sim ns startKey endKey s i s' : okNs ns → sim_ok s → qe_GetStateRangeScanIterator db ns startKey endKey s = Ok (i, s') → sim_ok s'.
Proof.
  intros Hok [Hb Hi]. unfold qe_GetStateRangeScanIterator. destruct (checkDone s); [|done]. cbn [mbind res_bind].
  destruct (newResultsItr_at db ns startKey endKey Hdb (Hns _ Hok)) as (itr & -> & Hat & E). cbn [mbind res_bind]. intros [= <- <-]. split; [done|].
  cbn. intros itr' [H| ->%list_elem_of_singleton]%elem_of_app; [by apply Hi|]. split; [by rewrite E|by exists 0%nat].
Qed.

Lemma Next_sim i s kv s' : sim_ok s → NextOf hashFunc i s = Ok (kv, s') → sim_ok s'.
Proof.
  intros [Hb Hi]. unfold NextOf. destruct (itrs s !! i) as [itr|] eqn:E; [|done]. destruct (Hi itr (list_elem_of_lookup_2 _ _ _ E)) as [Hok [c Hat]].
  assert (∃ kv itr' c', resultsItr_Next hashFunc itr = Ok (kv, itr') ∧ itr_at db c' itr' ∧ ri_ns itr' = ri_ns itr) as (kv' & itr' & c' & -> & Hat' & En).
  { pose proof (Next_at db c itr Hat) as HN. destruct (results db itr !! c); destruct HN as (itr' & HN & Ha & _ & Ei); eexists _, itr', _; (split; [exact HN|]); (split; [exact Ha|]); by rewrite Ei. }
  cbn [mbind res_bind]. intros [= <- <-]. split; [done|]. cbn. intros itr0 [j Hj]%list_elem_of_lookup. destruct (decide (i = j)) as [<-|Hn].
  - rewrite list_lookup_insert_eq in Hj by (by eapply lookup_lt_Some). injection Hj as <-. split; [by rewrite En|by eexists].
  - rewrite list_lookup_insert_ne in Hj by done. apply list_elem_of_lookup_2 in Hj. by apply Hi.
Qed.

Lemma run_sim p s s' : sane okNs p → sim_ok s → run hashFunc db p s = Ok s' → sim_ok s'.
Proof.
  revert s. induction p as [|ns key k IH|ns key k IH|ns startKey endKey k IH|i k IH|ns key value k IH|ns key md k IH]; intros s; cbn [run sane].
  - by intros _ Hs [= <-].
  - intros [Hok Hk] Hs. destruct (getState db ns key s) as [[[v md] s1]|] eqn:E; [|done]. apply IH; [done|]. by eapply getState_sim.
  - intros [Hok Hk] Hs. unfold qe_GetStateMetadata. destruct (getState db ns key s) as [[[v md] s1]|] eqn:E; [|done]. cbn. destruct (Deserialize md); [|done]. cbn. apply IH; [done|]. by eapply getState_sim.
  - intros [Hok Hk] Hs. destruct (qe_GetStateRangeScanIterator db ns startKey endKey s) as [[i s1]|] eqn:E; [|done]. apply IH; [done|]. by eapply query_sim.
  - intros Hk Hs. destruct (NextOf hashFunc i s) as [[kv s1]|] eqn:E; [|done]. apply IH; [done|]. by eapply Next_sim.
  - intros (Hok & Hne & Hv & Hk) Hs. destruct (SetState ns key value s) as [s1|] eqn:E; [|done]. apply IH; [done|]. by eapply SetState_sim.
  - intros (Hok & Hne & Hk) Hs. destruct (SetStateMetadata ns key md s) as [s1|] eqn:E; [|done]. apply IH; [done|]. by eapply SetStateMetadata_sim.
Qed.

Lemma new_sim : sim_ok newTxSimulator.
Proof. split; [intros ns b H; cbn in H; by rewrite lookup_empty in H|intros itr H; by apply elem_of_nil in H]. Qed.

(** ** The read-write set *)

Lemma values_elem {V} (m : gmap bytes V) v : v ∈ GetValuesBySortedKeys m ↔ ∃ k, m !! k = Some v.
Proof.
  unfold GetValuesBySortedKeys. rewrite list_elem_of_omap. split; [intros (k & _ & Hk); by exists k|].
  intros [k Hk]. exists k. split; [apply GetSortedKeys_elem; by eexists|done].
Qed.

Lemma rwset_elem (b : RWSetBuilder) n : n ∈ NsRwSets (GetTxReadWriteSet b) ↔ ∃ ns nb, b !! ns = Some nb ∧ n = build ns nb.
Proof.
  unfold GetTxReadWriteSet. cbn [NsRwSets]. rewrite list_elem_of_omap. split.
  - intros (ns & _ & H). destruct (b !! ns) as [nb|] eqn:E; [|done]. injection H as <-. by exists ns, nb.
  - intros (ns & nb & E & ->). exists ns. split; [apply GetSortedKeys_elem; by eexists|]. by rewrite E.
Qed.

(** The recorded queries of a namespace are those of iterators, at least one for every
    start, end and way to end. *)
Record queries_ok (seen : list resultsItr) (ns : bytes) (b : nsPubRwBuilder) : Prop := {
  qu_map k rq : rangeQueriesMap b !! k = Some rq → ∃ itr, itr ∈ seen ∧ ri_ns itr = ns ∧ rq = finalInfo hashFunc itr ∧ k = queryKey rq;
  qu_keys k : is_Some (rangeQueriesMap b !! k) ↔ k ∈ rangeQueriesKeys b;
  qu_all itr : itr ∈ seen → ri_ns itr = ns → is_Some (rangeQueriesMap b !! queryKey (finalInfo hashFunc itr))
}.

Definition finals_ok (seen : list resultsItr) (b : RWSetBuilder) : Prop :=
  (∀ ns nb, b !! ns = Some nb → builder_ok ns nb ∧ queries_ok seen ns nb) ∧ ∀ itr, itr ∈ seen → is_Some (b !! ri_ns itr).

Lemma queries_step seen ns b itr :
  queries_ok seen ns b → ri_ns itr = ns →
  queries_ok (seen ++ [itr]) ns
    match rangeQueriesMap b !! queryKey (finalInfo hashFunc itr) with
    | Some _ => b
    | None => {| b with rangeQueriesMap := <[queryKey (finalInfo hashFunc itr) := finalInfo hashFunc itr]> (rangeQueriesMap b);
                        rangeQueriesKeys := rangeQueriesKeys b ++ [queryKey (finalInfo hashFunc itr)] |}
    end.
Proof.
  intros [Hm Hk Ha] Hn. set (k0 := queryKey (finalInfo hashFunc itr)). destruct (rangeQueriesMap b !! k0) as [rq0|] eqn:E.
  - split; [|done|].
    + intros k rq H. destruct (Hm k rq H) as (i & Hi & ?). exists i. split; [set_solver|done].
    + intros i [H| ->%list_elem_of_singleton]%elem_of_app; [by apply Ha|]. intros _. fold k0. by rewrite E.
  - split; cbn [rangeQueriesMap rangeQueriesKeys].
    + intros k rq [[<- <-]|[_ H]]%lookup_insert_Some; [exists itr; split; [set_solver|done]|]. destruct (Hm k rq H) as (i & Hi & ?). exists i. split; [set_solver|done].
    + intros k. rewrite elem_of_app, list_elem_of_singleton, <- Hk, lookup_insert_is_Some. destruct (decide (k0 = k)); naive_solver.
    + intros i [H| ->%list_elem_of_singleton]%elem_of_app Hi; rewrite lookup_insert_is_Some; [|by left]. destruct (decide (k0 = queryKey (finalInfo hashFunc i))); [by left|right; auto].
Qed.

Lemma finals_step seen b itr : okNs (ri_ns itr) → finals_ok seen b → finals_ok (seen ++ [itr]) (AddToRangeQuerySet (ri_ns itr) (finalInfo hashFunc itr) b).
Proof.
  intros Hok [Hb Hs]. assert (builder_ok (ri_ns itr) (getOrCreateNsPubRwBuilder (ri_ns itr) b) ∧ queries_ok seen (ri_ns itr) (getOrCreateNsPubRwBuilder (ri_ns itr) b)) as [H1 H2].
  { unfold getOrCreateNsPubRwBuilder. destruct (b !! ri_ns itr) as [nb|] eqn:E; [by apply Hb|]. split; [done|]. split; [done| |].
    - intros k. cbn. rewrite lookup_empty. split; [by intros []|by intros ?%elem_of_nil].
    - intros i Hi Hin. destruct (Hs i Hi) as [nb Hnb]. rewrite Hin in Hnb. congruence. }
  pose proof (queries_step seen (ri_ns itr) _ itr H2 eq_refl) as H3. split.
  - intros ns nb. unfold AddToRangeQuerySet. cbv zeta. intros [[<- <-]|[Hne H]]%lookup_insert_Some.
    + split; [|exact H3]. destruct (rangeQueriesMap _ !! _); [done|]. by destruct H1.
    + destruct (Hb ns nb H) as [Hb1 [Q1 Q2 Q3]]. split; [done|]. split; [|done|].
      * intros k rq Hk. destruct (Q1 k rq Hk) as (i & Hi & ?). exists i. split; [set_solver|done].
      * intros i [Hi| ->%list_elem_of_singleton]%elem_of_app E; [by apply Q3|done].
  - intros i [Hi| ->%list_elem_of_singleton]%elem_of_app; apply lookup_insert_is_Some; [|by left]. destruct (decide (ri_ns itr = ri_ns i)); [by left|right; auto].
Qed.

Lemma final_ok s : sim_ok s → finals_ok (itrs s) (rwsetBuilder (addRangeQueryInfo hashFunc s)).
Proof.
  intros [Hb Hi]. unfold addRangeQueryInfo. cbn [rwsetBuilder].
  assert (finals_ok [] (rwsetBuilder s)) as H0.
  { split; [|intros itr H; by apply elem_of_nil in H]. intros ns nb H. destruct (Hb ns nb H) as [H1 [E1 E2]]. split; [done|].
    split; [intros k rq Hk; by rewrite E1 in Hk| |intros itr Hk; by apply elem_of_nil in Hk]. intros k. rewrite E1, E2, lookup_empty. split; [by intros []|by intros ?%elem_of_nil]. }
  assert (∀ l seen b, (∀ itr, itr ∈ l → okNs (ri_ns itr)) → finals_ok seen b → finals_ok (seen ++ l) (foldl (λ b itr, AddToRangeQuerySet (ri_ns itr) (finalInfo hashFunc itr) b) b l)) as Hl.
  { induction l as [|itr l IH]; intros seen b Hok Hf; [by rewrite app_nil_r|]. cbn [foldl]. rewrite cons_middle, (assoc_L (++)). apply IH; [set_solver|]. apply finals_step; [set_solver|done]. }
  apply (Hl (itrs s) []); [|done]. intros itr Hin. by apply Hi.
Qed.

Lemma NoDup_tagged {A B} (tag : B → A) (f : A → list B) l :
  NoDup l → (∀ a, NoDup (f a)) → (∀ a x, x ∈ f a → tag x = a) → NoDup (concat (f <$> l)).
Proof.
  intros Hl Hf Ht. induction Hl as [|a l Ha Hl IH]; [constructor|]. cbn. apply NoDup_app. split; [done|]. split; [|done].
  intros x Hx Hin. apply elem_of_concat in Hin as (l' & Hin & (a' & -> & Ha')%list_elem_of_fmap). apply Ht in Hx. apply Ht in Hin. congruence.
Qed.

(** The keys of the values of a map that have their keys. *)
Lemma values_keys {V} (f : V → bytes) (m : gmap bytes V) : (∀ k v, m !! k = Some v → f v = k) → f <$> GetValuesBySortedKeys m = GetSortedKeys m.
Proof.
  intros H. unfold GetValuesBySortedKeys. assert (∀ l : list bytes, (∀ k, k ∈ l → is_Some (m !! k)) → f <$> omap (λ k, m !! k) l = l) as Hl.
  { induction l as [|k l IH]; intros Hk; [done|]. cbn. destruct (Hk k) as [v Hv]; [left|]. rewrite Hv. cbn. rewrite (H k v Hv). f_equal. apply IH. intros k' Hk'. apply Hk. by right. }
  apply Hl. intros k. apply GetSortedKeys_elem.
Qed.

Definition actsOf (b : RWSetBuilder) (ns : bytes) : list (bytes * bytes * act) := match b !! ns with Some nb => nsActs (build ns nb) | None => [] end.

Lemma acts_rwset b : acts (GetTxReadWriteSet b) = concat (actsOf b <$> GetSortedKeys b).
Proof.
  unfold acts, GetTxReadWriteSet, actsOf. cbn [NsRwSets]. generalize (GetSortedKeys b). intros l. induction l as [|ns l IH]; [done|]. cbn. destruct (b !! ns); cbn; by rewrite IH.
Qed.

Lemma nsActs_build ns nb : nsActs (build ns nb) =
  ((λ w, (ns, [], AWrite w)) <$> GetValuesBySortedKeys (writeMap nb)) ++ ((λ w, (ns, [], AMeta w)) <$> GetValuesBySortedKeys (metadataWriteMap nb)).
Proof. unfold nsActs, build. cbn. by rewrite app_nil_r. Qed.

Lemma writeKeys_build ns nb :
  builder_ok ns nb → writeKeys (nsActs (build ns nb)) = (λ k, (ns, [], k)) <$> GetSortedKeys (writeMap nb).
Proof.
  intros Hb. rewrite nsActs_build. unfold writeKeys. rewrite omap_app. rewrite <- (values_keys kw_Key (writeMap nb)) by (intros k w H; by apply (bu_writes _ _ Hb)).
  generalize (GetValuesBySortedKeys (writeMap nb)), (GetValuesBySortedKeys (metadataWriteMap nb)). intros lw lm.
  replace (omap _ ((λ w, (ns, [], AMeta w)) <$> lm)) with (@nil compositeKey) by (induction lm; [done|cbn; done]). rewrite app_nil_r. induction lw; [done|]. cbn. by f_equal.
Qed.

Lemma metaKeys_build ns nb :
  builder_ok ns nb → metaKeys (nsActs (build ns nb)) = (λ k, (ns, [], k)) <$> GetSortedKeys (metadataWriteMap nb).
Proof.
  intros Hb. rewrite nsActs_build. unfold metaKeys. rewrite omap_app. rewrite <- (values_keys mw_Key (metadataWriteMap nb)) by (intros k w H; by apply (bu_metadata _ _ Hb)).
  generalize (GetValuesBySortedKeys (writeMap nb)), (GetValuesBySortedKeys (metadataWriteMap nb)). intros lw lm.
  replace (omap _ ((λ w, (ns, [], AWrite w)) <$> lw)) with (@nil compositeKey) by (induction lw; [done|cbn; done]). cbn [app]. induction lm; [done|]. cbn. by f_equal.
Qed.

Lemma keys_NoDup (keys : list (bytes * bytes * act) → list compositeKey) (keysOf : nsPubRwBuilder → list bytes) seen b :
  finals_ok seen b → (∀ l1 l2, keys (l1 ++ l2) = keys l1 ++ keys l2) → keys [] = [] → (∀ nb, NoDup (keysOf nb)) →
  (∀ ns nb, builder_ok ns nb → keys (nsActs (build ns nb)) = (λ k, (ns, [], k)) <$> keysOf nb) → NoDup (keys (acts (GetTxReadWriteSet b))).
Proof.
  intros [Hb _] Happ Hnil Hnd Hk. rewrite acts_rwset. assert (∀ ls, keys (concat ls) = concat (keys <$> ls)) as -> by (induction ls; cbn; [done|by rewrite Happ; f_equal]).
  rewrite <- list_fmap_compose. apply (NoDup_tagged (λ ck, ck.1.1)); [apply GetSortedKeys_NoDup| |].
  - intros ns. cbn. unfold actsOf. destruct (b !! ns) as [nb|] eqn:E; [|rewrite Hnil; constructor]. rewrite Hk by (by apply Hb). apply NoDup_fmap_2; [|done]. by intros ?? [= ?].
  - intros ns ck. cbn. unfold actsOf. destruct (b !! ns) as [nb|] eqn:E; [|rewrite Hnil; by intros ?%elem_of_nil]. rewrite Hk by (by apply Hb). by intros (k & -> & _)%list_elem_of_fmap.
Qed.

Lemma finalInfo_at c itr : itr_at db c itr →
  finalInfo hashFunc itr = mkRangeQueryInfo (StartKey (rangeQueryInfo itr)) (EndKey (rangeQueryInfo itr)) (ItrExhausted (rangeQueryInfo itr))
    (readsInfoOf hashFunc (reads (take c (results db itr)))).
Proof.
  intros [_ _ Hh Hr _]. unfold finalInfo, readsInfoOf. rewrite Hh. destruct (helper_Done hashFunc _) as [l [hash|]]; [by destruct l|].
  destruct (rangeQueryInfo itr) as [sk ek ex ri]. cbn in *. subst ri. by destruct l.
Qed.

(** The read-write set of a simulation is one that the validation expects. *)
Lemma built_ok s : (∀ ns, okNs ns → named ns []) → sim_ok s → let R := GetTxReadWriteSet (rwsetBuilder (addRangeQueryInfo hashFunc s)) in
  writes_ok R ∧ reads_ok R ∧ ∀ ns coll w, (ns, coll, AWrite w) ∈ acts R → kw_Key w ≠ [].
Proof.
  intros Hnamed Hs. cbv zeta. pose proof (final_ok s Hs) as Hf. pose proof Hf as [Hb _]. set (b := rwsetBuilder _) in *.
  assert (∀ a, a ∈ acts (GetTxReadWriteSet b) → ∃ ns nb, b !! ns = Some nb ∧ a ∈ nsActs (build ns nb)) as Ha.
  { intros a. rewrite acts_rwset. intros (l & Hl & (ns & -> & _)%list_elem_of_fmap)%elem_of_concat. unfold actsOf in Hl. destruct (b !! ns) as [nb|] eqn:E; [by exists ns, nb|by apply elem_of_nil in Hl]. }
  split; [split|split; [split|]].
  - intros ns coll a (ns' & nb & E & Hin)%Ha. rewrite nsActs_build in Hin. destruct (Hb _ _ E) as [[Hok _ _ _] _].
    apply elem_of_app in Hin as [(w & [= -> -> ->] & _)%list_elem_of_fmap|(w & [= -> -> ->] & _)%list_elem_of_fmap]; by apply Hnamed.
  - eapply (keys_NoDup _ (λ nb, GetSortedKeys (writeMap nb))); [exact Hf|intros; apply omap_app|done|intros; apply GetSortedKeys_NoDup|apply writeKeys_build].
  - eapply (keys_NoDup _ (λ nb, GetSortedKeys (metadataWriteMap nb))); [exact Hf|intros; apply omap_app|done|intros; apply GetSortedKeys_NoDup|apply metaKeys_build].
  - apply Forall_forall. intros a (ns & nb & E & Hin)%Ha. rewrite nsActs_build in Hin. destruct (Hb _ _ E) as [Hbo _].
    apply elem_of_app in Hin as [(w & -> & [k Hw]%values_elem)%list_elem_of_fmap|(w & -> & _)%list_elem_of_fmap]; [|done]. cbn. by apply (bu_writes _ _ Hbo k).
  - intros n (ns & nb & E & ->)%rwset_elem. apply Hnamed, (bu_ns _ _ (proj1 (Hb _ _ E))).
  - intros n rq (ns & nb & E & ->)%rwset_elem. cbn. intros (k & _ & Hk)%list_elem_of_omap. destruct (Hb _ _ E) as [_ Hq].
    destruct (qu_map _ _ _ Hq k rq Hk) as (itr & Hin & _ & -> & _). destruct (si_itrs _ Hs itr Hin) as [_ [c Hat]]. rewrite (finalInfo_at c) by done. unfold query_ok. cbn [rq_ReadsInfo].
    pose proof (readsInfoOf_ok hashFunc (take c (results db itr))) as Hr. by destruct (readsInfoOf _ _) as [[|]|].
  - intros n c (ns & nb & E & ->)%rwset_elem. cbn. by intros ?%elem_of_nil.
  - intros ns coll w (ns' & nb & E & Hin)%Ha. rewrite nsActs_build in Hin. destruct (Hb _ _ E) as [Hbo _].
    apply elem_of_app in Hin as [(w' & [= -> -> ->] & [k Hw]%values_elem)%list_elem_of_fmap|(w' & ? & _)%list_elem_of_fmap]; [|done].
    destruct (bu_writes _ _ Hbo k _ Hw) as (-> & ? & _). done.
Qed.

Lemma simulate_ok p R : (∀ ns, okNs ns → named ns []) → sane okNs p → simulate hashFunc db p = Ok R →
  writes_ok R ∧ reads_ok R ∧ ∀ ns coll w, (ns, coll, AWrite w) ∈ acts R → kw_Key w ≠ [].
Proof.
  intros Hnamed Hp. unfold simulate. destruct (run hashFunc db p newTxSimulator) as [s|] eqn:E; [|done]. cbn [mbind res_bind]. unfold GetTxSimulationResults.
  destruct (simulationResultsComputed s); [done|]. cbn [mbind res_bind]. intros [= <-]. apply built_ok; [done|]. by eapply run_sim; [done|apply new_sim|].
Qed.
End built.

(** ** Valid reads *)

(** A version stands for a value. *)
Definition same_version (m1 m2 : gmap bytes VersionedValue) : Prop :=
  ∀ key vv1 vv2, m1 !! key = Some vv1 → m2 !! key = Some vv2 → vv_Version vv1 = vv_Version vv2 → vv1 = vv2.

(** The entries of a map. *)
Definition from (ns : bytes) (m : gmap bytes VersionedValue) (l : list VersionedKV) : Prop :=
  Forall (λ kv, kv_Namespace kv = ns ∧ m !! kv_Key kv = Some (kv_VersionedValue kv)) l.

Lemma entries_from ns s e m : from ns m (entries ns s e m).
Proof. unfold from, entries. apply Forall_fmap, Forall_forall. intros [k vv] [H _]%scan_elem. done. Qed.

Lemma reads_inj ns m1 m2 l1 l2 : same_version m1 m2 → from ns m1 l1 → from ns m2 l2 → reads l1 = reads l2 → l1 = l2.
Proof.
  intros Hv. unfold from. revert l2. induction l1 as [|[ns1 k1 v1] l1 IH]; intros [|[ns2 k2 v2] l2] H1 H2; cbn; try done. intros [= -> E HE].
  apply Forall_cons in H1 as [[E1 H1] H1']. apply Forall_cons in H2 as [[E2 H2] H2']. cbn in *. subst. rewrite (Hv _ _ _ H1 H2 E). f_equal. by apply IH.
Qed.

Lemma last_result ns s e m c :
  m !! [] = None → (0 < c <= length (entries ns s e m))%nat →
  ∃ k vv, k ≠ [] ∧ m !! k = Some vv ∧ inRange s (limit e) k ∧ entries ns s e m !! (c - 1)%nat = Some (mkVersionedKV ns k vv) ∧
    kv_Key <$> last (take c (entries ns s e m)) = Some k ∧ take c (entries ns s e m) = entries ns s k m ++ [mkVersionedKV ns k vv].
Proof.
  intros H0 Hc. destruct (lookup_lt_is_Some_2 (entries ns s e m) (c - 1)) as [[ns' k vv] E]; [lia|].
  destruct (Forall_lookup_1 _ _ _ _ (entries_from ns s e m) E) as [Hn Hk]. cbn in Hn, Hk. subst ns'. assert (k ≠ []) as Hne by (intros ->; congruence).
  destruct (entries_upto ns s e m _ _ E Hne) as (Ht & _ & _). cbn in Ht.
  assert (take c (entries ns s e m) = entries ns s k m ++ [mkVersionedKV ns k vv]) as Ht' by (rewrite <- Ht; replace c with (S (c - 1)) at 1 by lia; by apply take_S_r).
  exists k, vv. split; [done|]. split; [done|]. split; [|split; [done|split; [by rewrite Ht', last_snoc|done]]].
  unfold entries in E. rewrite list_lookup_fmap in E. destruct (scan s (limit e) m !! (c - 1)%nat) as [[k' v']|] eqn:Es; [|done]. injection E as -> ->.
  by apply list_elem_of_lookup_2, scan_elem in Es as [_ ?].
Qed.

Lemma entries_below ns s k m kv : k ≠ [] → kv ∈ entries ns s k m → bytes_lt (kv_Key kv) k.
Proof.
  intros Hk. unfold entries. intros ([k' vv] & -> & [_ [_ H]]%scan_elem)%list_elem_of_fmap. unfold limit in H. by rewrite decide_False in H by done.
Qed.

(** A query with the reads that were recorded gives the same results. *)
Lemma rerun_results (ns s e : bytes) (m1 m2 : gmap bytes VersionedValue) (c : nat) (exh : bool) (ek : bytes) :
  let es1 := entries ns s e m1 in let es2 := entries ns s e m2 in
  same_version m1 m2 → m1 !! [] = None → (c <= length es1)%nat →
  (if exh then c = length es1 ∧ ek = e else ek = default [] (kv_Key <$> last (take c es1))) → (exh = false → (0 < c)%nat) →
  reads (query ns s ek (negb exh) m2) = reads (take c es1) → take c es1 = take c es2 ∧ (exh = true → es1 = es2).
Proof.
  cbv zeta. intros Hv H0 Hc He Hpos. unfold query. destruct exh; cbn [negb].
  - destruct He as [-> ->]. rewrite app_nil_r, firstn_all. intros Hr. assert (entries ns s e m1 = entries ns s e m2) as E by (eapply reads_inj; [done|apply entries_from|apply entries_from|done]).
    rewrite <- E. by rewrite firstn_all.
  - specialize (Hpos eq_refl). destruct (last_result ns s e m1 c H0) as (k & vv & Hk & Hm & Hr & Hl & Hlast & Ht); [lia|]. rewrite Hlast in He. cbn in He. subst ek. rewrite Ht.
    intros HE. unfold reads in HE. rewrite !fmap_app in HE. cbn [fmap list_fmap] in HE.
    assert (∃ vv2, m2 !! k = Some vv2) as [vv2 Hm2].
    { destruct (m2 !! k) as [vv2|] eqn:E2; [by exists vv2|]. exfalso. cbn in HE. rewrite app_nil_r in HE.
      assert (mkKVRead k (Some (vv_Version vv)) ∈ reads (entries ns s k m2)) as Hin by (unfold reads; rewrite HE; set_solver).
      apply list_elem_of_fmap in Hin as (kv & [= Ek _] & Hin). apply entries_below in Hin; [|done]. rewrite <- Ek in Hin. by apply (bytes_lt_irrefl k). }
    rewrite Hm2 in HE. cbn in HE. apply app_inj_tail in HE as [HE [= HE2]].
    assert (vv = vv2) as <- by (by eapply Hv). assert (entries ns s k m1 = entries ns s k m2) as E by (eapply reads_inj; [done|apply entries_from|apply entries_from|done]).
    assert (∃ i, entries ns s e m2 !! i = Some (mkVersionedKV ns k vv)) as [i Hi].
    { apply list_elem_of_lookup. unfold entries. apply list_elem_of_fmap. exists (k, vv). split; [done|]. by apply scan_elem. }
    destruct (entries_upto ns s e m2 i _ Hi Hk) as (Hti & _ & _). cbn in Hti. split; [|done].
    assert (i = c - 1)%nat as ->.
    { apply (f_equal length) in Hti. rewrite <- E in Hti. apply (f_equal length) in Ht. rewrite length_app in Ht. cbn in Ht. rewrite length_take_le in Ht by lia.
      rewrite length_take_le in Hti by (apply lookup_lt_Some in Hi; lia). lia. }
    rewrite E, <- Hti. replace c with (S (c - 1)) at 2 by lia. by rewrite (take_S_r _ _ _ Hi).
Qed.

Lemma verdict_valid st l n :
  verdict hashFunc st l = VALID → n ∈ l →
  (∀ r, r ∈ Reads (KvRwSet n) → read_current st (NameSpace n) [] (kr_Key r) (kr_Version r) = true) ∧
  (∀ rq, rq ∈ RangeQueriesInfo (KvRwSet n) → query_current hashFunc st (NameSpace n) rq = true).
Proof.
  induction l as [|n' l IH]; [by intros _ ?%elem_of_nil|]. cbn [verdict].
  destruct (forallb (λ r, read_current st _ [] _ _) _) eqn:E1; [|done]. destruct (forallb (query_current hashFunc st _) _) eqn:E2; [|done]. destruct (forallb _ (CollHashedRwSets n')); [|done]. cbn [negb].
  intros Hl [-> |Hn]%elem_of_cons; [|by apply IH]. rewrite forallb_forall in E1, E2. split; intros x Hx%list_elem_of_In; auto.
Qed.

Section valid.
Context {D1 D2} `{!VersionedDB D1, !VersionedDBOk D1, !VersionedDB D2, !VersionedDBOk D2} (db1 : D1) (db2 : D2) (okNs : bytes → Prop).
Hypothesis (Hdb1 : db_ok db1) (Hdb2 : db_ok db2).
Hypothesis (Hns1 : ∀ ns, okNs ns → ns_ok (D := D1) ns) (Hns2 : ∀ ns, okNs ns → ns_ok (D := D2) ns).
Context (st : sstate).
Hypothesis (Hst : ∀ ns, okNs ns → contents db2 ns = world st ns []).
Hypothesis (Hver : ∀ ns, okNs ns → same_version (contents db1 ns) (contents db2 ns)).
Hypothesis (Hkeys : ∀ ns, okNs ns → contents db1 ns !! [] = None).

Lemma valid_reads s ns key :
  sim_ok db1 okNs s → verdict hashFunc st (NsRwSets (GetTxReadWriteSet (rwsetBuilder (addRangeQueryInfo hashFunc s)))) = VALID →
  isRead s ns key → contents db1 ns !! key = contents db2 ns !! key.
Proof.
  intros Hs HV [r Hr]. pose proof (final_ok db1 okNs Hdb1 Hns1 s Hs) as [Hb _]. unfold getOrCreateNsPubRwBuilder in Hr. destruct (rwsetBuilder s !! ns) as [nb|] eqn:E; cbn in Hr; [|by rewrite lookup_empty in Hr].
  assert (∃ nb', rwsetBuilder (addRangeQueryInfo hashFunc s) !! ns = Some nb' ∧ readMap nb' = readMap nb) as (nb' & E' & Em).
  { unfold addRangeQueryInfo. cbn [rwsetBuilder]. clear Hb HV Hs. revert nb Hr E. generalize (rwsetBuilder s), (itrs s). intros b l. revert b. induction l as [|itr l IH]; intros b nb Hr E; [by exists nb|].
    cbn [foldl]. destruct (decide (ns = ri_ns itr)) as [->|Hn].
    - set (n1 := match rangeQueriesMap nb !! queryKey (finalInfo hashFunc itr) with Some _ => nb | None => {| nb with rangeQueriesMap := <[queryKey (finalInfo hashFunc itr) := finalInfo hashFunc itr]> (rangeQueriesMap nb); rangeQueriesKeys := rangeQueriesKeys nb ++ [queryKey (finalInfo hashFunc itr)] |} end).
      assert (readMap n1 = readMap nb) as <- by (unfold n1; by destruct (rangeQueriesMap nb !! _)). apply IH; [unfold n1; by destruct (rangeQueriesMap nb !! _)|].
      unfold AddToRangeQuerySet, getOrCreateNsPubRwBuilder. cbv zeta. rewrite E. cbn [default from_option id]. by rewrite lookup_insert_eq.
    - apply IH; [done|]. unfold AddToRangeQuerySet. by rewrite lookup_insert_ne. }
  destruct (Hb ns nb' E') as [[Hok Hrd _ _] _]. rewrite <- Em in Hr. rewrite (Hrd key r Hr) in Hr.
  destruct (verdict_valid st _ (build ns nb') HV) as [HR _]; [apply rwset_elem; by exists ns, nb'|].
  specialize (HR (mkKVRead key (vv_Version <$> contents db1 ns !! key)) ltac:(apply values_elem; by exists key)). unfold read_current in HR. cbn [kr_Key kr_Version build NameSpace] in HR.
  apply andb_true_iff in HR as [_ HR%bool_decide_eq_true]. rewrite <- (Hst ns Hok) in HR. specialize (Hver ns Hok key).
  destruct (contents db1 ns !! key) as [v1|], (contents db2 ns !! key) as [v2|]; [|done|done|done]. injection HR as HR. f_equal. by apply Hver.
Qed.

(** Two iterators with the same start, end and way to end have returned the same. *)
Lemma same_query itr itr' c c' :
  itr_at db1 c itr → itr_at db1 c' itr' → okNs (ri_ns itr) → ri_ns itr' = ri_ns itr → queryKey (finalInfo hashFunc itr') = queryKey (finalInfo hashFunc itr) →
  (ItrExhausted (rangeQueryInfo itr) = false → (0 < c)%nat) → take c' (results db1 itr') = take c (results db1 itr).
Proof.
  intros H H' Hok En Eq Hpos. rewrite (finalInfo_at db1 c' itr' H'), (finalInfo_at db1 c itr H) in Eq. unfold queryKey in Eq. cbn in Eq. injection Eq as Es Ee Ex.
  destruct H as [Hle _ _ _ He], H' as [Hle' _ _ _ He']. unfold results in *. rewrite En, Es in *. rewrite Ex in He'. specialize (Hkeys _ Hok).
  destruct (ItrExhausted (rangeQueryInfo itr)).
  - destruct He as [-> Hee], He' as [-> Hee']. rewrite !firstn_all. congruence.
  - specialize (Hpos eq_refl). destruct (last_result _ _ _ _ _ Hkeys (conj Hpos Hle)) as (k & vv & Hk & Hm & _ & _ & Hl & Ht). rewrite Hl in He. cbn in He.
    assert (0 < c')%nat as Hpos' by (destruct c'; [rewrite Ee, He in He'; by destruct Hk|lia]).
    destruct (last_result _ _ _ _ _ Hkeys (conj Hpos' Hle')) as (k' & vv' & Hk' & Hm' & _ & _ & Hl' & Ht'). rewrite Hl' in He'. cbn in He'.
    rewrite Ht, Ht'. assert (k' = k) as -> by congruence. by rewrite Hm in Hm'; injection Hm' as ->.
Qed.

Lemma valid_itr s itr c :
  sim_ok db1 okNs s → verdict hashFunc st (NsRwSets (GetTxReadWriteSet (rwsetBuilder (addRangeQueryInfo hashFunc s)))) = VALID →
  itr ∈ itrs s → itr_at db1 c itr →
  take c (results db1 itr) = take c (results db2 itr) ∧ (ItrExhausted (rangeQueryInfo itr) = true → results db1 itr = results db2 itr) ∨ collision hashFunc.
Proof.
  intros Hs HV Hin Hat. destruct (decide (ItrExhausted (rangeQueryInfo itr) = false ∧ c = 0%nat)) as [[Ex ->]|Hpos]; [left; split; [done|congruence]|].
  destruct (final_ok db1 okNs Hdb1 Hns1 s Hs) as [Hb Hall]. destruct (si_itrs _ _ _ Hs itr Hin) as [Hok _]. destruct (Hall itr Hin) as [nb E]. destruct (Hb _ _ E) as [_ Hq].
  destruct (qu_all _ _ _ Hq itr Hin eq_refl) as [rq Hrq]. destruct (qu_map _ _ _ Hq _ _ Hrq) as (itr' & Hin' & En & -> & Ek). destruct (si_itrs _ _ _ Hs itr' Hin') as [_ [c' Hat']].
  pose proof (same_query itr itr' c c' Hat Hat' Hok En (eq_sym Ek)) as Ht. specialize (Ht ltac:(intros Ex; destruct c; [tauto|lia])).
  destruct (verdict_valid st _ (build (ri_ns itr) nb) HV) as [_ HR]; [apply rwset_elem; by exists (ri_ns itr), nb|].
  specialize (HR (finalInfo hashFunc itr')). cbn [build KvRwSet RangeQueriesInfo NameSpace] in HR.
  specialize (HR ltac:(apply list_elem_of_omap; exists (queryKey (finalInfo hashFunc itr)); split; [apply (qu_keys _ _ _ Hq); by eexists|done])).
  unfold query_current in HR. apply (recorded_same hashFunc _ (reads (take c (results db1 itr)))) in HR as [HR|]; [|by right|by rewrite (finalInfo_at db1 c') by done; cbn; rewrite Ht].
  left. unfold rerun in HR. rewrite <- (Hst _ Hok) in HR.
  pose proof Ek as Ek2. rewrite (finalInfo_at db1 c' itr' Hat') in HR, Ek2. rewrite (finalInfo_at db1 c itr Hat) in Ek2. unfold queryKey in Ek2. cbn in Ek2. injection Ek2 as Es Ee Ex.
  cbn [StartKey EndKey ItrExhausted] in HR. rewrite <- Es, <- Ee, <- Ex in HR. destruct Hat as [Hle _ _ _ He].
  unfold results in *. eapply rerun_results; [by apply Hver|by apply Hkeys|done|exact He| |exact HR]. intros Hx. destruct c; [tauto|lia].
Qed.

(** The main result: a valid chaincode, run again in the state in which it was found valid,
    gives the same read-write set. *)
Lemma simulate_again p R :
  sane okNs p → simulate hashFunc db1 p = Ok R → verdict hashFunc st (NsRwSets R) = VALID → simulate hashFunc db2 p = Ok R ∨ collision hashFunc.
Proof.
  intros Hp HR HV. pose proof HR as HR0. unfold simulate in HR0. destruct (run hashFunc db1 p newTxSimulator) as [s|] eqn:E; [|done]. cbn [mbind res_bind] in HR0.
  unfold GetTxSimulationResults in HR0. destruct (simulationResultsComputed s); [done|]. cbn [mbind res_bind] in HR0. injection HR0 as <-.
  pose proof (run_sim db1 okNs Hdb1 Hns1 p _ _ Hp (new_sim db1 okNs) E) as Hs.
  assert (∀ l, (∀ itr, itr ∈ l → itr ∈ itrs s) → Forall (agree_itr db1 db2) l ∨ collision hashFunc) as Hitr.
  { induction l as [|itr l IH]; intros Hl; [by left|]. destruct IH as [IH|]; [set_solver| |by right]. destruct (si_itrs _ _ _ Hs itr) as [_ [c Hat]]; [set_solver|].
    destruct (valid_itr s itr c Hs HV) as [Hag|]; [set_solver|done| |by right]. left. constructor; [|done]. unfold agree_itr. by rewrite (consumed_at db1 c). }
  destruct (Hitr (itrs s)) as [Hag|]; [done| |by right]. left.
  apply (simulate_same db1 db2 okNs Hdb1 Hdb2 Hns1 Hns2); [done|done|]. intros s' [= <-]%(eq_trans (eq_sym E)). split; [|done]. intros ns key Hr. by apply (valid_reads s).
Qed.
End valid.

(** ** Fresh simulations are valid *)

Lemma recorded_true info l kvs : rq_ReadsInfo info = readsInfoOf hashFunc l → reads kvs = l → recorded hashFunc info kvs = true.
Proof.
  intros Hi <-. unfold recorded. rewrite Hi. pose proof (readsInfoOf_cases hashFunc (reads kvs)) as Hc. destruct (readsInfoOf hashFunc (reads kvs)) as [[rs|s]|].
  - by apply bool_decide_eq_true.
  - unfold merkleSummariesEqual. rewrite (summarize_degree hashFunc _ s Hc), Hc. by apply bool_decide_eq_true.
  - apply bool_decide_eq_true. by destruct kvs.
Qed.

Lemma verdict_intro st l :
  (∀ n, n ∈ l → (∀ r, r ∈ Reads (KvRwSet n) → read_current st (NameSpace n) [] (kr_Key r) (kr_Version r) = true) ∧
    (∀ rq, rq ∈ RangeQueriesInfo (KvRwSet n) → query_current hashFunc st (NameSpace n) rq = true) ∧ CollHashedRwSets n = []) → verdict hashFunc st l = VALID.
Proof.
  induction l as [|n l IH]; intros H; [done|]. cbn [verdict]. destruct (H n ltac:(left)) as (H1 & H2 & ->).
  assert (forallb (λ r, read_current st (NameSpace n) [] (kr_Key r) (kr_Version r)) (Reads (KvRwSet n)) = true) as -> by (apply forallb_forall; intros r Hr%list_elem_of_In; auto).
  assert (forallb (query_current hashFunc st (NameSpace n)) (RangeQueriesInfo (KvRwSet n)) = true) as -> by (apply forallb_forall; intros r Hr%list_elem_of_In; auto).
  cbn. apply IH. intros n' Hn'. apply H. by right.
Qed.

(** An iterator that was used. *)
Definition advanced (itr : resultsItr) : Prop := ItrExhausted (rangeQueryInfo itr) = true ∨ EndKey (rangeQueryInfo itr) ≠ [].

Section fresh.
Context {D} `{!VersionedDB D, !VersionedDBOk D} (db : D) (okNs : bytes → Prop).
Hypothesis (Hdb : db_ok db) (Hns : ∀ ns, okNs ns → ns_ok ns) (Hkeys : ∀ ns, okNs ns → contents db ns !! [] = None).

Lemma rerun_reads itr c :
  itr_at db c itr → okNs (ri_ns itr) → advanced itr → reads (rerun (finalInfo hashFunc itr) (ri_ns itr) (contents db (ri_ns itr))) = reads (take c (results db itr)).
Proof.
  intros Hat Hok Had. rewrite (finalInfo_at db c itr Hat). destruct Hat as [Hle _ _ _ He]. unfold rerun, query, results in *. cbn [StartKey EndKey ItrExhausted]. unfold advanced in Had.
  destruct (ItrExhausted (rangeQueryInfo itr)).
  - destruct He as [-> ->]. by rewrite app_nil_r, firstn_all.
  - destruct Had as [|Had]; [done|]. assert (0 < c)%nat as Hc by (destruct c; [by destruct Had|lia]).
    destruct (last_result _ _ _ _ _ (Hkeys _ Hok) (conj Hc Hle)) as (k & vv & Hk & Hm & _ & _ & Hl & ->). rewrite Hl in He. cbn in He. rewrite He, Hm. unfold reads. by rewrite !fmap_app.
Qed.

(** C24. No spurious conflicts. A chaincode that was simulated on the current state, and took
    at least one step of every iterator it opened, is found valid: what it recorded of its
    reads and of its range queries, one by one or as a Merkle summary, passes. *)
Theorem fresh_valid p s R st :
  (∀ ns, okNs ns → world st ns [] = contents db ns) → dirty st = ∅ →
  sane okNs p → run hashFunc db p newTxSimulator = Ok s → Forall advanced (itrs s) → simulate hashFunc db p = Ok R →
  verdict hashFunc st (NsRwSets R) = VALID.
Proof.
  intros Hst Hdirty Hp Hrun Had HR. unfold simulate in HR. rewrite Hrun in HR. cbn [mbind res_bind] in HR. unfold GetTxSimulationResults in HR. destruct (simulationResultsComputed s); [done|].
  cbn [mbind res_bind] in HR. injection HR as <-. pose proof (run_sim db okNs Hdb Hns p _ _ Hp (new_sim db okNs) Hrun) as Hs. destruct (final_ok db okNs Hdb Hns s Hs) as [Hb _].
  apply verdict_intro. intros n (ns & nb & E & ->)%rwset_elem. destruct (Hb ns nb E) as [[Hok Hrd _ _] Hq]. cbn [build KvRwSet NameSpace Reads RangeQueriesInfo CollHashedRwSets]. split; [|split; [|done]].
  - intros r [key Hr]%values_elem. rewrite (Hrd key r Hr). unfold read_current. cbn [kr_Key kr_Version]. rewrite Hdirty, Hst by done. apply andb_true_iff. rewrite !bool_decide_eq_true. set_solver.
  - intros rq (k & _ & Hk)%list_elem_of_omap. destruct (qu_map _ _ _ Hq k rq Hk) as (itr & Hin & <- & -> & _). destruct (si_itrs _ _ _ Hs itr Hin) as [_ [c Hat]].
    unfold query_current. rewrite Hst by done. apply (recorded_true _ (reads (take c (results db itr)))); [by rewrite (finalInfo_at db c) by done|]. apply rerun_reads; [done|done|]. rewrite Forall_forall in Had. by apply Had.
Qed.
End fresh.
End runs.
