(* ===== verification/Serializable.v ===== *)
(** * Serializability

    The ledger as a whole: chaincodes are simulated on states that may be old, their
    read-write sets are validated in blocks, and the updates of a block are committed to the
    state database on LevelDB. [serializable]: what is stored is the result of executing the
    valid chaincodes one after the other, each on what the one before left. *)

From stdpp Require Import gmap strings list.
From Stdlib Require Import Strings.Byte.
From S2P Require Import Prelude GoLib Varint Disk LevelDB StateDB RangeQuery RangeQueryProps Validation ValidationProps StateLevelDB Simulator SimulatorProps.

(** ** A state as a database *)

Record worldDB := mkWorld { wd : bytes → gmap bytes VersionedValue }.

#[export] Instance world_db : VersionedDB worldDB := {
  GetState ns key d := Ok (wd d ns !! key);
  GetVersion ns key d := Ok (vv_Version <$> wd d ns !! key);
  GetStateRangeScanIterator ns startKey endKey d := Ok (Ok <$> entries ns startKey endKey (wd d ns))
}.

#[export] Program Instance world_db_ok : VersionedDBOk worldDB := {
  contents := wd;
  db_ok d := ∀ ns key vv, wd d ns !! key = Some vv → IsDelete vv = false;
  ns_ok _ := True
}.
Next Obligation. done. Qed.
Next Obligation. done. Qed.
Next Obligation. done. Qed.
Next Obligation. intros d ns key vv H _. apply H. Qed.

(** Names and read-write sets as for the database on LevelDB. *)
#[local] Abbreviation named := (ValidationProps.named (D := gmap bytes bytes)).
#[local] Abbreviation writes_ok := (ValidationProps.writes_ok (D := gmap bytes bytes)).
#[local] Abbreviation reads_ok := (ValidationProps.reads_ok (D := gmap bytes bytes)).
#[local] Abbreviation tx_ok := (ValidationProps.tx_ok (D := gmap bytes bytes)).

Section serializable.
Context `{!Codec DBValue, !CodecOk DBValue (λ _, True)} `{!Codec (list (bytes * bytes)), !Codec (list KVRead)} (hashFunc : bytes → bytes).

(** ** Execution one after the other *)

Abbreviation wstate := (bytes → bytes → gmap bytes VersionedValue).

Definition execute (w : wstate) (e : Height * program) : wstate :=
  match simulate hashFunc (mkWorld (λ ns, w ns [])) e.2 with
  | Ok rwset => λ ns coll, afterWrites rwset e.1 ns coll (w ns coll)
  | Err _ => w
  end.

Definition executeAll (log : list (Height * program)) : wstate := foldl execute (λ _ _, ∅) log.

(** ** Ledgers *)

(** A transaction of a block with the chaincode it comes from. *)
Record ptx := mkPtx { p_prog : program; p_tx : transaction }.

(** The chaincode was simulated on one of the states. *)
Definition endorsed (dbs : list (DB (gmap bytes bytes))) (t : ptx) : Prop :=
  sane (λ ns, named ns []) (p_prog t) ∧ ∃ db, db ∈ dbs ∧ simulate hashFunc (vdb db) (p_prog t) = Ok (tx_rwset (p_tx t)).

Definition valid (num : Z) (ptxs : list ptx) (txs : list transaction) : list (Height * program) :=
  omap (λ '(t, tx), if validationCode tx =? VALID then Some (heightOf num tx, p_prog t) else None) (zip ptxs txs).

(** The states a ledger has been in, the last one first, the number of the last block, and
    the valid transactions in order. *)
Inductive committed : list (DB (gmap bytes bytes)) → Z → list (Height * program) → Prop :=
| committed_empty : committed [mkDB ∅ ∅] (-1) []
| committed_block dbs db last log num ptxs txs u pvt height :
    committed (db :: dbs) last log → last < num < 2 ^ 64 → Forall (endorsed (db :: dbs)) ptxs → map_ok x70 pvt →
    small hashFunc num true (start db) (p_tx <$> ptxs) →
    validateAndPrepareBatch hashFunc num (p_tx <$> ptxs) true db = ok (txs, u) →
    committed (ApplyPrivacyAwareUpdates (publicUpdates u) (hashUpdates u) pvt height db :: db :: dbs) num (log ++ valid num ptxs txs).

Hypothesis (Hmarshal : ∀ l : list (bytes * bytes), l ≠ [] → marshal l ≠ []).

(** What is left of an old state is unchanged. *)
Record later_state (n : Z) (w0 w : wstate) : Prop := {
  ls_old ns coll key vv : named ns coll → w0 ns coll !! key = Some vv → BlockNum (vv_Version vv) <= n;
  ls_new ns coll key vv : named ns coll → w ns coll !! key = Some vv → BlockNum (vv_Version vv) <= n → w0 ns coll !! key = Some vv
}.

Definition no_empty_key (w : wstate) : Prop := ∀ ns, named ns [] → w ns [] !! [] = None.

Definition live_state (w : wstate) : Prop := ∀ ns coll key vv, w ns coll !! key = Some vv → IsDelete vv = false.

Definition equal_state (w w' : wstate) : Prop := ∀ ns coll, named ns coll → w ns coll = w' ns coll.

Lemma later_same_version n w0 w ns : later_state n w0 w → named ns [] → same_version (w0 ns []) (w ns []).
Proof.
  intros [Ho Hn] Hns key v1 v2 H1 H2 E. assert (w0 ns [] !! key = Some v2) as H2' by (apply Hn; [done|done|]; rewrite <- E; by eapply Ho). congruence.
Qed.

(** ** The effect of a transaction *)

Lemma newVal_version w md h old vv : newVal w md h old = Some vv → vv_Version vv = h ∨ old = Some vv.
Proof.
  unfold newVal. destruct w as [[v|]|]; [|done|].
  - destruct md as [m|]; intros [= <-]; by left.
  - destruct md as [m|]; [|by right]. destruct old; [|done]. intros [= <-]. by left.
Qed.

Lemma newVal_live w md h old vv : newVal w md h old = Some vv → (∀ o, old = Some o → IsDelete o = false) → IsDelete vv = false.
Proof.
  unfold newVal. intros H Ho. destruct w as [[v|]|]; [|done|].
  - destruct md as [m|]; by injection H as <-.
  - destruct md as [m|]; [|by apply Ho]. destruct old as [o|]; [|done]. injection H as <-. specialize (Ho o eq_refl). unfold IsDelete in *. done.
Qed.

Lemma metaFor_nonempty rwset ck : metaFor rwset ck ≠ Some (Some []).
Proof.
  unfold metaFor, firstOf. intros H. assert (Some [] ∈ omap (metaAt ck) (acts rwset)) as Hin by (destruct (omap _ _); [done|injection H as ->; left]).
  apply list_elem_of_omap in Hin as ([[ns coll] [w|w]] & _ & E); cbn in E; [done|]. destruct (decide _) as [_|]; [|done]. injection E as E. destruct (mw_Entries w) as [|e l]; [done|].
  injection E as E. by apply (Hmarshal (e :: l)).
Qed.

Lemma newVal_ok rwset ck h old vv :
  is_height h → (∀ o, old = Some o → vv_ok o) → newVal (writeFor rwset ck) (metaFor rwset ck) h old = Some vv → vv_ok vv.
Proof.
  intros Hh Ho. pose proof (metaFor_nonempty rwset ck) as Hm. unfold newVal. destruct (writeFor rwset ck) as [[v|]|]; [|done|].
  - destruct (metaFor rwset ck) as [md|]; intros [= <-]; (split; [done|]); cbn; [congruence|]. destruct old as [o|]; [|done]. apply (Ho o eq_refl).
  - destruct (metaFor rwset ck) as [md|]; [|by apply Ho]. destruct old as [o|]; [|done]. intros [= <-]. split; [done|]. cbn. congruence.
Qed.

(** The state before a transaction of block [num], after the states [dbs]. *)
Record good (num : Z) (dbs : list (DB (gmap bytes bytes))) (st : sstate) : Prop := {
  gd_values : world_ok st;
  gd_dirty : dirty_ok st;
  gd_keys : no_empty_key (world st);
  gd_versions ns coll key vv : named ns coll → world st ns coll !! key = Some vv → BlockNum (vv_Version vv) <= num;
  gd_past db : db ∈ dbs → state_ok db ∧ no_empty_key (base db) ∧ ∃ n, n < num ∧ later_state n (base db) (world st)
}.

Lemma good_after num dbs st rwset h :
  good num dbs st → writes_ok rwset → (∀ ns coll w, (ns, coll, AWrite w) ∈ acts rwset → kw_Key w ≠ []) → is_height h → BlockNum h = num →
  good num dbs (after rwset h st).
Proof.
  intros [H1 H2 H3 H4 H5] Hw Hk Hh Hn.
  assert (∀ ns coll key, world (after rwset h st) ns coll !! key = newVal (writeFor rwset (ns, coll, key)) (metaFor rwset (ns, coll, key)) h (world st ns coll !! key)) as Hl
    by (intros ns coll key; cbn [after world]; exact (afterWrites_lookup rwset h ns coll _ key)).
  split.
  - intros ns coll key vv Hnm. rewrite Hl. apply newVal_ok; [done|]. intros o Ho. by eapply H1.
  - intros ns coll key. cbn [after dirty]. rewrite elem_of_union, elem_of_list_to_set. intros [Hd|Hd]; [by eapply H2|]. apply list_elem_of_filter in Hd as [_ Hd].
    apply list_elem_of_fmap in Hd as ([[ns' coll'] a] & E & Ha). assert (ns' = ns ∧ coll' = coll) as [-> ->] by (destruct a; by simplify_eq/=). by eapply (wo_names _ Hw).
  - intros ns Hnm. rewrite Hl, H3 by done. assert (writeFor rwset (ns, [], []) = None) as ->; [|by destruct (metaFor _ _)].
    apply writeFor_keys. intros ([[ns' coll'] [w|w]] & Ha & E)%list_elem_of_omap; cbn in E; [|done]. injection E as -> -> E. by apply (Hk _ _ _ Ha).
  - intros ns coll key vv Hnm. rewrite Hl. intros [->|Ho]%newVal_version; [lia|by eapply H4].
  - intros db Hdb. destruct (H5 db Hdb) as (Hs & He & n & Hlt & [Hold Hnew]). split; [done|]. split; [done|]. exists n. split; [done|]. split; [done|].
    intros ns coll key vv Hnm. rewrite Hl. intros [E|Ho]%newVal_version Hb; [rewrite E in Hb; lia|by eapply Hnew].
Qed.

Lemma execute_live w e : live_state w → live_state (execute w e).
Proof.
  intros Hl. unfold execute. destruct (simulate _ _ _) as [R|]; [|done]. intros ns coll key vv. rewrite afterWrites_lookup. intros H. eapply newVal_live; [exact H|]. intros o Ho. by eapply Hl.
Qed.

(** A valid transaction does what its chaincode does now. *)
Lemma execute_valid num dbs st w t h :
  good num dbs st → endorsed dbs t → equal_state w (world st) → live_state w → verdict hashFunc st (NsRwSets (tx_rwset (p_tx t))) = VALID →
  equal_state (execute w (h, p_prog t)) (world (after (tx_rwset (p_tx t)) h st)) ∨ collision hashFunc.
Proof.
  intros Hg [Hp (db & Hdb & Hsim)] Hw Hl HV. destruct (gd_past _ _ _ Hg db Hdb) as (Hs & He & n & Hn & Hlater).
  assert (simulate hashFunc (mkWorld (λ ns, w ns [])) (p_prog t) = Ok (tx_rwset (p_tx t)) ∨ collision hashFunc) as [H|]; [| |by right].
  { eapply (simulate_again hashFunc (vdb db) _ (λ ns, named ns []) (so_db _ Hs)) with (st := st); [intros ns key vv; apply Hl|intros ns [_ ?]; done|done| | | |done|done|done].
    - intros ns Hnm. by apply Hw.
    - intros ns Hnm. cbn. rewrite Hw by done. exact (later_same_version n (base db) (world st) ns Hlater Hnm).
    - intros ns Hnm. by apply He. }
  - left. unfold execute. cbn [fst snd]. rewrite H. intros ns coll Hnm. cbn [after world]. by rewrite Hw.
Qed.

Lemma endorsed_ok num dbs st t : good num dbs st → endorsed dbs t →
  tx_ok (p_tx t) ∧ ∀ ns coll w, (ns, coll, AWrite w) ∈ acts (tx_rwset (p_tx t)) → kw_Key w ≠ [].
Proof.
  intros Hg [Hp (db & Hdb & Hsim)]. destruct (gd_past _ _ _ Hg db Hdb) as (Hs & _).
  assert (∀ ns, named ns [] → ns_ok (D := gmap bytes bytes) ns) as Hns by (intros ns [_ ?]; done).
  destruct (simulate_ok hashFunc (vdb db) (λ ns, named ns []) (so_db _ Hs) Hns _ _ (λ ns H, H) Hp Hsim) as (H1 & H2 & H3). done.
Qed.

Lemma height_ok num tx : is_u64 num → is_height (heightOf num tx).
Proof. intros H. split; [done|apply u64_range]. Qed.

Lemma block_good num dbs ptxs : ∀ st codes st',
  is_u64 num → good num dbs st → Forall (endorsed dbs) ptxs → serial hashFunc num true st (p_tx <$> ptxs) = Some (codes, st') → good num dbs st'.
Proof.
  induction ptxs as [|t ptxs IH]; intros st codes st' Hnum Hg Hen; cbn [fmap list_fmap serial]; [by intros [= _ <-]|].
  apply Forall_cons in Hen as [Ht Hen]. destruct (endorsed_ok num dbs st t Hg Ht) as [[Hwr Hrd] Hk]. destruct (_ && orphaned _ _); [done|].
  destruct (serial _ _ _ _ _) as [[codes1 st1]|] eqn:Es; [|done]. cbn. intros [= <- <-]. eapply IH; [done| |done|exact Es].
  destruct (_ =? _); [|done]. apply good_after; [done|done|done|by apply height_ok|done].
Qed.

Lemma valid_cons num t ptxs code txs :
  valid num (t :: ptxs) (setCode (p_tx t) code :: txs) = (if code =? VALID then [(heightOf num (p_tx t), p_prog t)] else []) ++ valid num ptxs txs.
Proof. unfold valid. cbn. by destruct (code =? VALID). Qed.

Lemma block_exec num dbs ptxs : ∀ st w codes st',
  is_u64 num → good num dbs st → Forall (endorsed dbs) ptxs → equal_state w (world st) → live_state w →
  serial hashFunc num true st (p_tx <$> ptxs) = Some (codes, st') →
  (let w' := foldl execute w (valid num ptxs (zip_with setCode (p_tx <$> ptxs) codes)) in equal_state w' (world st') ∧ live_state w') ∨ collision hashFunc.
Proof.
  induction ptxs as [|t ptxs IH]; intros st w codes st' Hnum Hg Hen Hw Hl; cbn [fmap list_fmap serial].
  { intros [= <- <-]. by left. }
  apply Forall_cons in Hen as [Ht Hen]. destruct (endorsed_ok num dbs st t Hg Ht) as [[Hwr Hrd] Hk]. set (code := codeOf hashFunc true st (p_tx t)).
  destruct (code =? VALID) eqn:Ec; cbn [andb].
  - destruct (orphaned st (tx_rwset (p_tx t))); [done|]. destruct (serial _ _ _ _ _) as [[codes1 st1]|] eqn:Es; [|done]. cbn [mbind option_bind]. intros [= <- <-].
    cbn [zip_with]. rewrite valid_cons, Ec. cbn [app foldl]. apply Z.eqb_eq in Ec.
    destruct (execute_valid num dbs st w t (heightOf num (p_tx t)) Hg Ht Hw Hl Ec) as [He|Hc]; [|by right].
    eapply IH; [done| |done|exact He| |exact Es]; [|by eapply execute_live]. apply good_after; [done|done|done|by apply height_ok|done].
  - destruct (serial _ _ _ _ _) as [[codes1 st1]|] eqn:Es; [|done]. cbn [mbind option_bind]. intros [= <- <-].
    cbn [zip_with]. rewrite valid_cons, Ec. cbn [app]. eapply IH; [done|exact Hg|done|done|done|exact Es].
Qed.

(** ** Ledgers are serial *)

Lemma level_contents_empty ns : level_contents ∅ ns = ∅.
Proof. apply map_eq. intros key. by rewrite level_contents_lookup, !lookup_empty. Qed.

(** The next state, from what is known of the transactions of the block. *)
Lemma good_next num dbs db db' st :
  good num (db :: dbs) st → state_ok db' → (∀ ns coll, named ns coll → base db' ns coll = world st ns coll) → ∀ num', num < num' → good num' (db' :: db :: dbs) (start db').
Proof.
  intros [H1 H2 H3 H4 H5] Hs Hb num' Hlt. split; cbn [start world dirty].
  - intros ns coll key vv Hn. cbn [start world]. rewrite Hb by done. by eapply H1.
  - intros ns coll key. cbn [start dirty]. set_solver.
  - intros ns Hn. rewrite Hb by done. by apply H3.
  - intros ns coll key vv Hn. rewrite Hb by done. intros Hv. specialize (H4 _ _ _ _ Hn Hv). lia.
  - intros db0 [->|Hin]%elem_of_cons.
    + split; [done|]. split; [intros ns Hn; rewrite Hb by done; by apply H3|]. exists num. split; [lia|]. split; [|done]. intros ns coll key vv Hn. rewrite Hb by done. by eapply H4.
    + destruct (H5 db0 Hin) as (Hs0 & He & n & Hn & [Ho Hnew]). split; [done|]. split; [done|]. exists n. split; [lia|]. split; [done|]. intros ns coll key vv Hnm. rewrite Hb by done. by apply Hnew.
Qed.

Lemma good_empty num : -1 < num → good num [mkDB ∅ ∅] (start (mkDB ∅ ∅)).
Proof.
  assert (∀ ns coll, base (mkDB (∅ : gmap bytes bytes) ∅) ns coll = ∅) as Hb by (intros; apply level_contents_empty).
  intros Hn. split; cbn [start world dirty].
  - intros ns coll key vv _ H. cbn [start world] in H. by rewrite Hb, lookup_empty in H.
  - intros ns coll key. cbn [start dirty]. set_solver.
  - intros ns _. by rewrite Hb, lookup_empty.
  - intros ns coll key vv _ H. by rewrite Hb, lookup_empty in H.
  - intros db ->%list_elem_of_singleton. split; [split|split].
    + intros ns key b _ H. cbn [vdb] in H; by rewrite lookup_empty in H.
    + intros ns coll key vv _ _ H. by rewrite Hb, lookup_empty in H.
    + intros ns _. by rewrite Hb, lookup_empty.
    + exists (-1). split; [done|]. split; intros ns coll key vv _ H; by rewrite Hb, lookup_empty in H.
Qed.

Lemma committed_good dbs last log : committed dbs last log →
  ∃ db rest, dbs = db :: rest ∧ -1 <= last ∧ state_ok db ∧ (∀ num, last < num → good num dbs (start db)) ∧
    (equal_state (executeAll log) (base db) ∧ live_state (executeAll log) ∨ collision hashFunc).
Proof.
  induction 1 as [|dbs db last log num ptxs txs u pvt height _ IH Hnum Hen Hpvt Hsm Hv].
  { exists (mkDB ∅ ∅), []. split; [done|]. split; [lia|]. split; [by destruct (gd_past _ _ _ (good_empty 0 ltac:(lia)) (mkDB ∅ ∅)) as [? _]; [left|]|].
    split; [apply good_empty|]. left. split; [intros ns coll _; symmetry; apply level_contents_empty|]. intros ns coll key vv H. cbn in H. by rewrite lookup_empty in H. }
  destruct IH as (db0 & rest & [= <- <-] & Hlast & Hs & Hg & Hex). specialize (Hg num ltac:(lia)). assert (is_u64 num) as H64 by (split; lia).
  assert (Forall tx_ok (p_tx <$> ptxs)) as Hok by (apply Forall_fmap; eapply Forall_impl; [exact Hen|]; intros t Ht; by destruct (endorsed_ok num (db :: dbs) (start db) t Hg Ht)).
  pose proof (validateTxs_serial hashFunc num true db (p_tx <$> ptxs) newPubAndHashUpdates (start db) Hs (gives_start db) Hok Hsm) as HV.
  unfold validateAndPrepareBatch in Hv. rewrite Hv in HV. destruct HV as (codes & st' & u' & Hser & [= -> <-] & Hgives).
  pose proof (block_good num (db :: dbs) ptxs _ _ _ H64 Hg Hen Hser) as Hg'.
  destruct (commit_ok u db st' pvt Hs Hgives (gd_values _ _ _ Hg') (gd_dirty _ _ _ Hg') Hpvt height) as (Hs' & Hb' & _).
  eexists _, _. split; [reflexivity|]. split; [lia|]. split; [exact Hs'|]. split; [by apply (good_next num dbs db _ st')|].
  destruct Hex as [[Heq Hlive]|]; [|by right]. destruct (block_exec num (db :: dbs) ptxs _ _ _ _ H64 Hg Hen Heq Hlive Hser) as [[Heq' Hlive']|]; [left|by right].
  unfold executeAll. rewrite foldl_app. split; [|done]. intros ns coll Hn. rewrite Hb' by done. by apply Heq'.
Qed.

(** C13. Well-formed states. In every state a ledger gets into, everything stored can be
    decoded, metadata is only in namespaces that are flagged to have some, no value is
    [nil] and no key of the public data is empty, metadata is not empty, and every version
    is a height of a block that has been committed. *)
Theorem ledger_well_formed dbs db last log :
  committed (db :: dbs) last log →
  state_ok db ∧ no_empty_key (base db) ∧
  ∀ ns coll key vv, named ns coll → base db ns coll !! key = Some vv →
    IsDelete vv = false ∧ vv_Metadata vv ≠ Some [] ∧ is_height (vv_Version vv) ∧ BlockNum (vv_Version vv) <= last.
Proof.
  intros (db0 & rest & [= <- <-] & _ & Hs & Hg & _)%committed_good. specialize (Hg (last + 1) ltac:(lia)).
  split; [done|]. split; [apply (gd_keys _ _ _ Hg)|]. intros ns coll key vv Hn Hvv. split; [by eapply (contents_live (vdb db) (nsOf ns coll)); [apply Hs|apply Hn|]|].
  destruct (gd_values _ _ _ Hg ns coll key vv Hn Hvv) as [Hh Hm]. split; [done|]. split; [done|].
  destruct (gd_past _ _ _ Hg db ltac:(left)) as (_ & _ & n & Hlt & [Hold _]). specialize (Hold ns coll key vv Hn Hvv). lia.
Qed.

(** C2. Serializability of the ledger. Chaincodes run against any earlier state of the
    ledger, their read-write sets are ordered in blocks, validated and committed block by
    block. Then the state database holds exactly what executing the chaincodes of the
    transactions found valid one after the other gives, each on the state the one before
    it left, unless two different results of a range query have the same Merkle summary. *)
Theorem serializable dbs db last log :
  committed (db :: dbs) last log → (∀ ns coll, named ns coll → base db ns coll = executeAll log ns coll) ∨ collision hashFunc.
Proof.
  intros (db0 & rest & [= <- <-] & _ & _ & _ & [[Heq _]|])%committed_good; [left|by right]. intros ns coll Hn. symmetry. by apply Heq.
Qed.
End serializable.
