(* ===== verification/ValidationDemo.v ===== *)
(** * A ledger with two blocks

    Concrete chaincodes, blocks and states on which the theorems on validation, simulation
    and commits are used, and a block and a query that make the validation panic. *)

From stdpp Require Import gmap strings list.
From Stdlib Require Import Strings.Byte.
From S2P Require Import Prelude Codecs GoLib Varint Disk LevelDB StateDB RangeQuery RangeQueryProps Validation ValidationProps StateLevelDB Simulator SimulatorProps Serializable.

(** ** Messages *)

#[local] Instance DBValue_ser : Ser DBValue.
Proof. apply (iso_ser (λ x, (dv_Version x, dv_Value x, dv_Metadata x)) (λ '(a, b, c), mkDBValue a b c)). by_tuple. Defined.
#[local] Instance Height_ser : Ser Height.
Proof. apply (iso_ser (λ x, (BlockNum x, TxNum x)) (λ '(a, b), mkHeight a b)). by_tuple. Defined.
#[local] Instance KVRead_ser : Ser KVRead.
Proof. apply (iso_ser (λ x, (kr_Key x, kr_Version x)) (λ '(a, b), mkKVRead a b)). by_tuple. Defined.

#[local] Instance DBValue_codec : Codec DBValue := ser_codec DBValue.
#[local] Instance DBValue_codec_ok : CodecOk DBValue (λ _, True) := ser_codec_ok DBValue (λ _, True).
#[local] Instance entries_codec : Codec (list (bytes * bytes)) := ser_codec (list (bytes * bytes)).
#[local] Instance reads_codec : Codec (list KVRead) := ser_codec (list KVRead).

Lemma entries_nonempty (l : list (bytes * bytes)) : l ≠ [] → marshal l ≠ [].
Proof. done. Qed.

Definition demo_hash (b : bytes) : bytes := b.

(** ** Chaincodes *)

Definition demo_ns : bytes := [x63].
Definition demo_key : bytes := [x6b].

Definition demo_init : program := DoSetState demo_ns demo_key (Some [x31]) Return.

(** Reads a key and sets it. *)
Definition demo_update : program := DoGetState demo_ns demo_key (λ _, DoSetState demo_ns demo_key (Some [x32]) Return).

(** Looks at all keys, and sets another one. *)
Definition demo_count : program :=
  DoQuery demo_ns [] [] (λ i, DoNext i (λ _, DoNext i (λ _, DoSetState demo_ns [x6c] (Some [x33]) Return))).

Definition okR (r : res TxRwSet) : TxRwSet := match r with Ok rwset => rwset | Err _ => mkTxRwSet [] end.

Definition demo_tx (i : Z) (rwset : TxRwSet) : transaction := mkTransaction i [] rwset 254 false.

(** ** Blocks *)

Definition demo_state := DB (gmap bytes bytes).

Definition demo_db0 : demo_state := mkDB ∅ ∅.

Definition demo_simulate (p : program) (db : demo_state) : TxRwSet := okR (simulate demo_hash (vdb db) p).

Definition demo_block0 : list ptx := [mkPtx demo_init (demo_tx 0 (demo_simulate demo_init demo_db0))].

Definition prepare (num : Z) (block : list ptx) (db : demo_state) : list transaction * publicAndHashUpdates :=
  match validateAndPrepareBatch demo_hash num (p_tx <$> block) true db with
  | Done (Ok r) => r
  | _ => ([], newPubAndHashUpdates)
  end.

Definition commit (num : Z) (block : list ptx) (db : demo_state) : demo_state :=
  let '(_, u) := prepare num block db in ApplyPrivacyAwareUpdates (publicUpdates u) (hashUpdates u) ∅ (Some (mkHeight num 0)) db.

Definition demo_db1 : demo_state := commit 0 demo_block0 demo_db0.

(** Both transactions were simulated on the state after the first block. *)
Definition demo_block1 : list ptx :=
  [mkPtx demo_update (demo_tx 0 (demo_simulate demo_update demo_db1)); mkPtx demo_count (demo_tx 1 (demo_simulate demo_count demo_db1))].

Definition demo_db2 : demo_state := commit 1 demo_block1 demo_db1.

(** The second transaction missed the write of the first one. *)
Lemma demo_codes : validationCode <$> (prepare 1 demo_block1 demo_db1).1 = [VALID; PHANTOM_READ_CONFLICT].
Proof. vm_compute. reflexivity. Qed.

Lemma demo_ns_named : named (D := gmap bytes bytes) demo_ns [].
Proof. split; vm_compute; set_solver. Qed.

Lemma queries_small_check st rwset :
  forallb (λ n, forallb (λ rq, Z.of_nat (length (rerun rq (NameSpace n) (world st (NameSpace n) []))) <? 2 ^ 31) (RangeQueriesInfo (KvRwSet n))) (NsRwSets rwset) = true →
  queries_small st rwset.
Proof.
  intros H n rq Hn%list_elem_of_In Hrq%list_elem_of_In. rewrite forallb_forall in H. specialize (H n Hn). rewrite forallb_forall in H. apply Z.ltb_lt. by apply H.
Qed.

Lemma no_pvt : map_ok x70 ∅.
Proof. split; intros ns coll key vv H; unfold getOrCreateNsBatch, GetUpdates in H; rewrite lookup_empty in H; cbn in H; by rewrite !lookup_empty in H. Qed.

Lemma demo_committed0 : committed demo_hash [demo_db0] (-1) [].
Proof. constructor. Qed.

Lemma demo_committed1 : committed demo_hash [demo_db1; demo_db0] 0 ([] ++ valid 0 demo_block0 (prepare 0 demo_block0 demo_db0).1).
Proof.
  eapply (committed_block _ _ _ _ _ 0 demo_block0 _ (prepare 0 demo_block0 demo_db0).2 ∅ (Some (mkHeight 0 0)));
    [exact demo_committed0|done| |exact no_pvt| |vm_compute; reflexivity].
  - constructor; [|constructor]. split; [repeat split; try apply demo_ns_named; done|]. exists demo_db0. split; [left|]. vm_compute. reflexivity.
  - split; [apply queries_small_check; vm_compute; reflexivity|done].
Qed.

Lemma demo_committed2 : committed demo_hash [demo_db2; demo_db1; demo_db0] 1
  (([] ++ valid 0 demo_block0 (prepare 0 demo_block0 demo_db0).1) ++ valid 1 demo_block1 (prepare 1 demo_block1 demo_db1).1).
Proof.
  eapply (committed_block _ _ _ _ _ 1 demo_block1 _ (prepare 1 demo_block1 demo_db1).2 ∅ (Some (mkHeight 1 0)));
    [exact demo_committed1|done| |exact no_pvt| |vm_compute; reflexivity].
  - constructor; [|constructor; [|constructor]].
    + split; [repeat split; try apply demo_ns_named; done|]. exists demo_db1. split; [left|]. vm_compute. reflexivity.
    + split; [repeat split; try apply demo_ns_named; done|]. exists demo_db1. split; [left|]. vm_compute. reflexivity.
  - split; [apply queries_small_check; vm_compute; reflexivity|]. split; [apply queries_small_check; vm_compute; reflexivity|done].
Qed.

Lemma serializable_witness :
  (∀ ns coll, named (D := gmap bytes bytes) ns coll → base demo_db2 ns coll =
    executeAll demo_hash (([] ++ valid 0 demo_block0 (prepare 0 demo_block0 demo_db0).1) ++ valid 1 demo_block1 (prepare 1 demo_block1 demo_db1).1) ns coll) ∨ collision demo_hash.
Proof. exact (serializable demo_hash entries_nonempty _ _ _ _ demo_committed2). Defined.

Lemma ledger_well_formed_witness :
  state_ok demo_db2 ∧ no_empty_key (base demo_db2) ∧
  ∀ ns coll key vv, named (D := gmap bytes bytes) ns coll → base demo_db2 ns coll !! key = Some vv →
    IsDelete vv = false ∧ vv_Metadata vv ≠ Some [] ∧ is_height (vv_Version vv) ∧ BlockNum (vv_Version vv) <= 1.
Proof. exact (ledger_well_formed demo_hash entries_nonempty _ _ _ _ demo_committed2). Defined.

(** ** Other uses *)

Definition demo_vv (v : byte) (n : Z) : VersionedValue := mkVersionedValue (Some [v]) None (mkHeight n 0).

Definition demo_map : gmap bytes VersionedValue := <[[x61] := demo_vv x31 1]> (<[[x62] := demo_vv x32 2]> ∅).

Definition demo_world : worldDB := mkWorld (λ _, demo_map).

Lemma demo_live : db_ok demo_world.
Proof.
  intros ns key vv. cbn. unfold demo_map. intros [[_ <-]|[_ [[_ <-]|[_ H]]%lookup_insert_Some]]%lookup_insert_Some; [done|done|by rewrite lookup_empty in H].
Qed.

(** An earlier transaction of the block has written between the two keys. *)
Definition demo_updates : StateDB.UpdateBatch := UpdateBatch_Update demo_ns [x61; x61] (demo_vv x33 3) newUpdateBatch.

Definition demo_query : RangeQueryInfo := mkRangeQueryInfo [] [x62] false (Some (RawReads (reads (query demo_ns [] [x62] true demo_map)))).

Lemma range_query_exact_witness :
  match validateRangeQuery demo_hash demo_world demo_updates demo_ns demo_query with
  | Done r => r = Ok (recorded demo_hash demo_query (rerun demo_query demo_ns (overlay (GetUpdates demo_ns demo_updates) (contents demo_world demo_ns))))
  | Panic _ => query_full demo_query
  end.
Proof.
  apply (range_query_exact demo_hash demo_world demo_updates demo_ns demo_query demo_live I); [|vm_compute; reflexivity].
  cbn. repeat constructor; by eexists.
Defined.

Definition demo_any (_ : bytes) : Prop := True.

Definition demo_run : txSimulator := match run demo_hash demo_world demo_count newTxSimulator with Ok s => s | Err _ => newTxSimulator end.

Lemma fresh_valid_witness :
  verdict demo_hash (mkState (λ _ _, demo_map) ∅) (NsRwSets (okR (simulate demo_hash demo_world demo_count))) = VALID.
Proof.
  apply (fresh_valid demo_hash demo_world demo_any demo_live (λ _ _, I) (λ _ _, eq_refl) demo_count demo_run
    (okR (simulate demo_hash demo_world demo_count)) (mkState (λ _ _, demo_map) ∅) (λ _ _, eq_refl) eq_refl).
  - by repeat split.
  - vm_compute. reflexivity.
  - vm_compute. constructor; [|constructor]. by right.
  - vm_compute. reflexivity.
Defined.

Definition demo_public : DB worldDB := mkDB demo_world ∅.

Lemma demo_public_ok : state_ok demo_public.
Proof.
  split; [exact demo_live|]. intros ns coll key vv _ _. cbn. unfold base, demo_map. cbn.
  intros [[_ <-]|[_ [[_ <-]|[_ H]]%lookup_insert_Some]]%lookup_insert_Some; [done|done|by rewrite lookup_empty in H].
Qed.

Definition demo_txs : list transaction := [demo_tx 0 (okR (simulate demo_hash demo_world demo_count)); demo_tx 1 (okR (simulate demo_hash demo_world demo_count))].

Lemma demo_txs_ok : Forall (tx_ok (D := worldDB)) demo_txs.
Proof.
  assert (sane (λ ns, named (D := worldDB) ns []) demo_count) as Hs by (repeat split; vm_compute; set_solver).
  destruct (simulate_ok demo_hash demo_world (λ ns, named (D := worldDB) ns []) demo_live (λ _ H, proj2 H) demo_count (okR (simulate demo_hash demo_world demo_count)) (λ _ H, H) Hs) as (H1 & H2 & _).
  { vm_compute. reflexivity. }
  constructor; [exact (conj H1 H2)|]. constructor; [exact (conj H1 H2)|constructor].
Qed.

Lemma block_serial_witness :
  match validateAndPrepareBatch demo_hash 3 demo_txs true demo_public with
  | Panic _ => serial demo_hash 3 true (start demo_public) demo_txs = None ∨ Exists (λ tx, tx_full (NsRwSets (tx_rwset tx))) demo_txs
  | Done r => ∃ codes st u, serial demo_hash 3 true (start demo_public) demo_txs = Some (codes, st) ∧ r = Ok (zip_with setCode demo_txs codes, u) ∧
      ∀ ns coll, view u demo_public ns coll = world st ns coll
  end.
Proof.
  apply (block_serial demo_hash 3 true demo_public demo_txs demo_public_ok demo_txs_ok).
  split; [apply queries_small_check; vm_compute; reflexivity|]. split; [apply queries_small_check; vm_compute; reflexivity|done].
Defined.

Definition demo_batch : StateDB.UpdateBatch := UpdateBatch_Update demo_ns demo_key (demo_vv x31 3) newUpdateBatch.

Lemma demo_batch_ok : batch_ok demo_batch.
Proof.
  assert (∀ ns, GetUpdates ns demo_batch = if decide (ns = demo_ns) then <[demo_key := demo_vv x31 3]> ∅ else ∅) as Hu by (intros ns; unfold demo_batch; by rewrite Update_updates).
  split; intros ns key vv; rewrite Hu; (destruct (decide (ns = demo_ns)) as [->|]; [|by rewrite lookup_empty]).
  - intros _. vm_compute. set_solver.
  - intros [[_ <-]|[_ H]]%lookup_insert_Some; [|by rewrite lookup_empty in H]. by repeat split.
Qed.

Lemma leveldb_map_witness :
  let d' := ApplyUpdates demo_batch (Some (mkHeight 3 0)) ∅ in
  let m := overlay (GetUpdates demo_ns demo_batch) (level_contents ∅ demo_ns) in
  GetState demo_ns demo_key d' = Ok (m !! demo_key) ∧ GetVersion demo_ns demo_key d' = Ok (vv_Version <$> m !! demo_key) ∧
  GetStateRangeScanIterator demo_ns [] [] d' = Ok (Ok <$> entries demo_ns [] [] m) ∧
  GetLatestSavePoint d' = Ok (Some (mkHeight 3 0)) ∧ level_ok d'.
Proof.
  apply (leveldb_map demo_batch (mkHeight 3 0) ∅ demo_ns demo_key [] []); [|exact demo_batch_ok|by repeat split|vm_compute; set_solver].
  intros ns key b _ H. by rewrite lookup_empty in H.
Defined.

(** ** Panics *)

(** Two chaincodes that do not read: one deletes a key, the other sets its metadata. *)
Definition demo_delete : program := DoSetState demo_ns [x61] None Return.
Definition demo_mark : program := DoSetStateMetadata demo_ns [x61] (<[[x6d] := [x31]]> ∅) Return.

Definition demo_deleted : TxRwSet := okR (simulate demo_hash demo_world demo_delete).
Definition demo_marked : TxRwSet := okR (simulate demo_hash demo_world demo_mark).

Lemma demo_deleted_ok : writes_ok (D := worldDB) demo_deleted.
Proof.
  assert (sane (λ ns, named (D := worldDB) ns []) demo_delete) as Hs by (repeat split; vm_compute; set_solver).
  apply (simulate_ok demo_hash demo_world _ demo_live (λ _ H, proj2 H) demo_delete demo_deleted (λ _ H, H) Hs). vm_compute. reflexivity.
Qed.

Lemma demo_marked_ok : writes_ok (D := worldDB) demo_marked.
Proof.
  assert (sane (λ ns, named (D := worldDB) ns []) demo_mark) as Hs by (repeat split; vm_compute; set_solver).
  apply (simulate_ok demo_hash demo_world _ demo_live (λ _ H, proj2 H) demo_mark demo_marked (λ _ H, H) Hs). vm_compute. reflexivity.
Qed.

Definition demo_collected : list transaction * publicAndHashUpdates :=
  match validateAndPrepareBatch demo_hash 3 [demo_tx 0 demo_deleted] true demo_public with
  | Done (Ok r) => r
  | _ => ([], newPubAndHashUpdates)
  end.

Lemma demo_stuck : stuck demo_collected.2 demo_marked.
Proof. exists demo_ns, [], [x61]. split; [vm_compute; reflexivity|]. split; [eexists; vm_compute; reflexivity|]. eexists. split; vm_compute; reflexivity. Qed.

(** Two chaincodes simulated on the same state, neither of which reads anything, bring the
    validation down if they are in one block; the second one alone does not. *)
Lemma metadata_after_delete_witness :
  (∀ rest, ∃ why, validateAndPrepareBatch demo_hash 3 ([demo_tx 0 demo_deleted] ++ demo_tx 1 demo_marked :: rest) true demo_public = Panic why) ∧
  ∃ u, validateAndPrepareBatch demo_hash 3 ([] ++ [demo_tx 1 demo_marked]) true demo_public = Done (Ok ([setCode (demo_tx 1 demo_marked) VALID], u)).
Proof.
  split.
  - destruct (metadata_after_delete demo_hash 3 true demo_public [demo_tx 0 demo_deleted] (demo_tx 1 demo_marked) demo_collected.1 demo_collected.2 demo_public_ok) as [[_ H]|[H _]].
    + constructor; [exact demo_deleted_ok|constructor].
    + exact demo_marked_ok.
    + vm_compute. reflexivity.
    + vm_compute. reflexivity.
    + exact H.
    + destruct (H demo_stuck).
  - destruct (metadata_after_delete demo_hash 3 true demo_public [] (demo_tx 1 demo_marked) [] newPubAndHashUpdates demo_public_ok) as [[(ns & coll & key & _ & _ & vv & H & _) _]|[_ H]].
    + constructor.
    + exact demo_marked_ok.
    + reflexivity.
    + vm_compute. reflexivity.
    + exfalso. revert H. unfold updatesAt. destruct (decide (coll = [])); discriminate.
    + exact H.
Defined.

Definition panics {A} (m : outcome A) : bool := match m with Panic _ => true | Done _ => false end.

(** [n] keys of one byte. *)
Definition demo_keys (n : nat) : worldDB :=
  mkWorld (λ _, list_to_map ((λ i, ([byte_of_Z (Z.of_nat i + 1)], demo_vv x31 1)) <$> seq 0 n)).

Definition demo_full : RangeQueryInfo :=
  mkRangeQueryInfo [] [] true (ReadsMerkleHashes <$> summarize demo_hash 2 (reads (query demo_ns [] [] false (wd (demo_keys 6) demo_ns)))).

(** A query whose recorded summary fills its level, here six results in groups of three and
    at most two hashes, panics if three more results have come after the recorded ones,
    although the query is valid if nothing has changed. *)
Example full_summary_panics :
  validateRangeQuery demo_hash (demo_keys 6) newUpdateBatch demo_ns demo_full = ok true ∧
  panics (validateRangeQuery demo_hash (demo_keys 9) newUpdateBatch demo_ns demo_full) = true.
Proof. split; vm_compute; reflexivity. Qed.
